(** * docker-backup: backup/restore engine, job store and history store

    A shallow embedding of the parts of the service that its specification
    makes checkable statements about:

    - [lib/stack-parser.ts]   ([StackParser])
    - [lib/storage.ts]        ([Storage])
    - [lib/queue.ts]          ([Queue])
    - [app/actions.ts]        ([Actions]), in its revision with the unified
      stack backup: the artifact builder, the uploader, the tar-name escape
      and its two decoders, the port prober and the clean-up step of the
      unified stack restore.

    Strings are [string]s of 8-bit characters, a text being held in its
    UTF-8 form; the job table and the stack table are [gmap]s keyed by
    strings, the archive under construction is the list of entries
    appended so far, ports are [Z]. *)

From Stdlib Require Import ZArith String Ascii List Bool Lia DecimalString.
From stdpp Require Import base option list gmap strings.

Local Open Scope string_scope.
Local Open Scope Z_scope.

(** ** The host language's string primitives used by the code *)

Module Js.

(** A string is falsy exactly when it is empty. *)
Definition truthy (s : string) : bool :=
  match s with EmptyString => false | String _ _ => true end.

(** [a || b] on strings. *)
Definition or_else (a b : string) : string := if truthy a then a else b.

(** [o || b] where [o] may be [undefined]/[null]. *)
Definition opt_or (o : option string) (b : string) : string :=
  match o with Some a => or_else a b | None => b end.

Definition opt_truthy (o : option string) : bool :=
  match o with Some a => truthy a | None => false end.

Fixpoint drop (n : nat) (s : string) : string :=
  match n, s with
  | O, _ => s
  | S _, EmptyString => EmptyString
  | S n', String _ s' => drop n' s'
  end.

(** [s.startsWith(p)] *)
Fixpoint startsWith (p s : string) : bool :=
  match p, s with
  | EmptyString, _ => true
  | String _ _, EmptyString => false
  | String a p', String b s' => Ascii.eqb a b && startsWith p' s'
  end.

(** [s.endsWith(p)] *)
Fixpoint endsWith (p s : string) : bool :=
  String.eqb p s ||
  match s with
  | EmptyString => false
  | String _ s' => endsWith p s'
  end.

(** [s.includes(p)] *)
Fixpoint includes (p s : string) : bool :=
  startsWith p s ||
  match s with
  | EmptyString => false
  | String _ s' => includes p s'
  end.

(** [s.replace(pat, rep)] with a string pattern: only the FIRST occurrence
    of [pat] is replaced. *)
Fixpoint replace (pat rep s : string) : string :=
  if startsWith pat s then rep +:+ drop (String.length pat) s
  else match s with
       | EmptyString => EmptyString
       | String c s' => String c (replace pat rep s')
       end.

(** [s.replace(/[...]/g, rep)] for a character class [cls]: every character
    of the class is replaced by the text [rep]. *)
Fixpoint replaceAll (cls : ascii -> bool) (rep : string) (s : string) : string :=
  match s with
  | EmptyString => EmptyString
  | String c s' =>
      if cls c then rep +:+ replaceAll cls rep s'
      else String c (replaceAll cls rep s')
  end.

(** [s.replace(/^c/, '')]: drop one leading [c]. *)
Definition stripLeading (c : ascii) (s : string) : string :=
  match s with
  | String a s' => if Ascii.eqb a c then s' else s
  | EmptyString => EmptyString
  end.

(** [s.split(sep)] for a one-character separator. The result is never
    empty: [''.split('=')] is [['']]. *)
Fixpoint split (sep : ascii) (s : string) : list string :=
  match s with
  | EmptyString => [EmptyString]
  | String c s' =>
      if Ascii.eqb c sep then EmptyString :: split sep s'
      else match split sep s' with
           | h :: t => String c h :: t
           | [] => [String c EmptyString]
           end
  end.

(** [parts.join(sep)] *)
Fixpoint join (sep : string) (parts : list string) : string :=
  match parts with
  | [] => EmptyString
  | [p] => p
  | p :: rest => p +:+ sep +:+ join sep rest
  end.

(** White space in the sense of [String.prototype.trim], in the UTF-8 form
    the strings of the model have: the characters 9 to 13 and 32 of the
    7-bit range ([is_ws]), U+00A0 as two bytes ([is_ws2]), and as three
    bytes U+1680, U+2000 to U+200A, U+2028, U+2029, U+202F, U+205F, U+3000
    and U+FEFF ([is_ws3]). *)
Definition is_ws (c : ascii) : bool :=
  let n := nat_of_ascii c in
  (Nat.eqb n 32 || (Nat.leb 9 n && Nat.leb n 13))%bool.

Definition is_ws2 (c1 c2 : ascii) : bool :=
  (Nat.eqb (nat_of_ascii c1) 194 && Nat.eqb (nat_of_ascii c2) 160)%bool.

Definition is_ws3 (c1 c2 c3 : ascii) : bool :=
  let a := nat_of_ascii c1 in
  let b := nat_of_ascii c2 in
  let c := nat_of_ascii c3 in
  ((Nat.eqb a 225 && Nat.eqb b 154 && Nat.eqb c 128)
   || (Nat.eqb a 226 && Nat.eqb b 128
       && ((Nat.leb 128 c && Nat.leb c 138)
           || Nat.eqb c 168 || Nat.eqb c 169 || Nat.eqb c 175))
   || (Nat.eqb a 226 && Nat.eqb b 129 && Nat.eqb c 159)
   || (Nat.eqb a 227 && Nat.eqb b 128 && Nat.eqb c 128)
   || (Nat.eqb a 239 && Nat.eqb b 187 && Nat.eqb c 191))%bool.

(** [s.trimStart()]: the white-space characters at the start are dropped,
    whether of one, two or three bytes. *)
Fixpoint trimStart (s : string) : string :=
  match s with
  | EmptyString => EmptyString
  | String c1 s1 =>
      if is_ws c1 then trimStart s1
      else match s1 with
           | EmptyString => s
           | String c2 s2 =>
               if is_ws2 c1 c2 then trimStart s2
               else match s2 with
                    | EmptyString => s
                    | String c3 s3 =>
                        if is_ws3 c1 c2 c3 then trimStart s3 else s
                    end
           end
  end.

(** A text of white space only (the empty text included). *)
Definition blank (s : string) : bool :=
  match trimStart s with EmptyString => true | String _ _ => false end.

(** [s.trimEnd()]: the text is cut where its rest is white space only. *)
Fixpoint trimEnd (s : string) : string :=
  match s with
  | EmptyString => EmptyString
  | String c s' => if blank s then EmptyString else String c (trimEnd s')
  end.

(** [s.trim()] *)
Definition trim (s : string) : string := trimEnd (trimStart s).

Definition lower (c : ascii) : ascii :=
  let n := nat_of_ascii c in
  if (Nat.leb 65 n && Nat.leb n 90)%bool then ascii_of_nat (n + 32) else c.

(** [s.toLowerCase()] *)
Fixpoint toLowerCase (s : string) : string :=
  match s with
  | EmptyString => EmptyString
  | String c s' => String (lower c) (toLowerCase s')
  end.

(** Decimal rendering of an integer ([String(n)], template literals). *)
Definition showZ (z : Z) : string := NilZero.string_of_int (Z.to_int z).

(** Insertion-ordered [Set<string>]: [add] keeps the first occurrence. *)
Definition set_add (x : string) (l : list string) : list string :=
  if existsb (String.eqb x) l then l else l ++ [x].

(** *** Plain objects used as tables

    A plain object (an object literal, what [JSON.parse] returns,
    [process.env]) is modelled by the [gmap] of its own properties; its
    prototype is [Object.prototype], whose properties every such object
    inherits. *)

Definition protoNames : list string :=
  [ "constructor"; "__defineGetter__"; "__defineSetter__"; "hasOwnProperty";
    "__lookupGetter__"; "__lookupSetter__"; "isPrototypeOf";
    "propertyIsEnumerable"; "toString"; "valueOf"; "__proto__";
    "toLocaleString" ].

Definition inherited (k : string) : bool := existsb (String.eqb k) protoNames.

(** What [o[k]] finds: an own property, a property of [Object.prototype]
    (a function, or for [__proto__] the prototype itself), or nothing. *)
Inductive Property (A : Type) :=
| Own (a : A)
| Inherited
| Undefined.
Arguments Own {A} a.
Arguments Inherited {A}.
Arguments Undefined {A}.

Definition getProp {A} (o : gmap string A) (k : string) : Property A :=
  match o !! k with
  | Some a => Own a
  | None => if inherited k then Inherited else Undefined
  end.

(** [o[k] = a], as far as the own properties go: the name [__proto__],
    when it is not an own property, reaches the accessor of
    [Object.prototype], which adds no own property (it ignores a primitive
    and replaces the prototype by an object). *)
Definition assign {A} (k : string) (a : A) (o : gmap string A) : gmap string A :=
  match o !! k with
  | None => if String.eqb k "__proto__" then o else <[k := a]> o
  | Some _ => <[k := a]> o
  end.

(** The text an inherited property turns into where a string is expected:
    [String(Object.prototype)] for [__proto__], the source text the engine
    prints for a built-in function otherwise. *)
Definition nativeText (k : string) : string :=
  if String.eqb k "__proto__" then "[object Object]"
  else "function " +:+ (if String.eqb k "constructor" then "Object" else k)
       +:+ "() { [native code] }".

(** [o[k]] read as a text. *)
Definition getText (o : gmap string string) (k : string) : option string :=
  match getProp o k with
  | Own v => Some v
  | Inherited => Some (nativeText k)
  | Undefined => None
  end.

End Js.

(** ** [node:path] (POSIX flavour) *)

Module Path.

(** Resolution of [.] and [..] over the segments of a path, most recent
    segment first in the accumulator. *)
Fixpoint normalizeSegments (allowAboveRoot : bool) (acc : list string)
         (segs : list string) : list string :=
  match segs with
  | [] => rev acc
  | seg :: rest =>
      if String.eqb seg "" || String.eqb seg "." then
        normalizeSegments allowAboveRoot acc rest
      else if String.eqb seg ".." then
        match acc with
        | last :: acc' =>
            if String.eqb last ".." then
              normalizeSegments allowAboveRoot
                (if allowAboveRoot then ".." :: acc else acc) rest
            else normalizeSegments allowAboveRoot acc' rest
        | [] =>
            normalizeSegments allowAboveRoot
              (if allowAboveRoot then [".."] else []) rest
        end
      else normalizeSegments allowAboveRoot (seg :: acc) rest
  end.

Definition normalize (p : string) : string :=
  match p with
  | EmptyString => "."
  | _ =>
      let isAbsolute := Js.startsWith "/" p in
      let trailing := Js.endsWith "/" p in
      let body := Js.join "/" (normalizeSegments (negb isAbsolute) []
                                 (Js.split "/" p)) in
      match body with
      | EmptyString =>
          if isAbsolute then "/" else if trailing then "./" else "."
      | _ =>
          let body' := if trailing then body +:+ "/" else body in
          if isAbsolute then "/" +:+ body' else body'
      end
  end.

(** [path.join(...parts)]: empty parts are skipped, the rest is joined with
    [/] and normalized. *)
Definition join (parts : list string) : string :=
  match List.filter Js.truthy parts with
  | [] => "."
  | ps => normalize (Js.join "/" ps)
  end.

(** [path.basename(p)]: the last non-empty segment. *)
Definition basename (p : string) : string :=
  List.last (List.filter Js.truthy (Js.split "/" p)) "".

End Path.

(** ** [lib/stack-parser.ts] *)

Module StackParser.

(** A volume item of a service: a short-form string or a long-form object
    (of which only [target] is read). *)
Inductive VolumeNode :=
| VolString (v : string)
| VolObject (target : option string).

(** The [environment] key of a service: array form or map form. *)
Inductive EnvironmentNode :=
| EnvArray (items : list string)
| EnvMap (m : gmap string string).

(** What the parser reads of one service of the loaded document. *)
Record ServiceNode := {
  sn_image : option string;
  sn_volumes : option (list VolumeNode);
  sn_environment : option EnvironmentNode
}.

Record ParsedService := {
  name : string;
  image : string;
  volumes : list string;
  env : gmap string string
}.

(** Body of [serviceConfig.volumes.forEach]. *)
Definition parseVolume (volumes : list string) (v : VolumeNode) : list string :=
  match v with
  | VolString s =>
      match Js.split ":" s with
      | _ :: p1 :: _ => volumes ++ [p1]
      | [p0] => volumes ++ [p0]
      | [] => volumes
      end
  | VolObject (Some t) => if Js.truthy t then volumes ++ [t] else volumes
  | VolObject None => volumes
  end.

(** Body of [serviceConfig.environment.forEach]:
    [const [k, v] = e.split('='); if (k) env[k] = v || '';] *)
Definition parseEnvEntry (env : gmap string string) (e : string) : gmap string string :=
  let parts := Js.split "=" e in
  let k := parts !! 0%nat in
  let v := parts !! 1%nat in
  match k with
  | Some k => if Js.truthy k then Js.assign k (Js.opt_or v "") env else env
  | None => env
  end.

Definition parseEnvironment (node : option EnvironmentNode) : gmap string string :=
  match node with
  | Some (EnvArray items) => foldl parseEnvEntry ∅ items
  | Some (EnvMap m) => delete "__proto__" m   (* Object.assign(env, m): one
                                                 assignment per own key *)
  | None => ∅
  end.

Definition parseService (serviceName : string) (cfg : ServiceNode) : ParsedService :=
  {| name := serviceName;
     image := Js.opt_or (sn_image cfg) "";
     volumes := match sn_volumes cfg with
                | Some vs => foldl parseVolume [] vs
                | None => []
                end;
     env := parseEnvironment (sn_environment cfg) |}.

End StackParser.

(** ** [lib/storage.ts] *)

Module Storage.

Inductive HistoryStatus := success | failed.
Inductive Destination := local | telegram | cloud.

(** The text [(bytes / 1024 / 1024).toFixed(2) + ' MB'], kept symbolic. *)
Inductive SizeText := MB (bytes : Z).

Record HistoryEntry := {
  id : Z;                      (* Date.now().toString() *)
  date : Z;                    (* new Date().toISOString(), same instant *)
  containerName : string;
  status : HistoryStatus;
  destination : Destination;
  message : string;
  size : option SizeText;
  backupPath : option string
}.

Record StackConfig := {
  name : string;
  yaml : string;
  envFile : option string;
  envVars : option (list (string * string));
  services : gmap string StackParser.ParsedService;
  lastUpdated : Z
}.

(** State of [data/history.json]: no file, a text that is no JSON, or the
    array of entries the service writes. A file holding JSON of another
    shape is not covered, and writing the file is taken to succeed. *)
Inductive HistoryFile :=
| Missing
| Unparsable
| Stored (h : list HistoryEntry).

Definition getHistory (f : HistoryFile) : list HistoryEntry :=
  match f with
  | Stored h => h
  | Missing | Unparsable => []
  end.

(** [history.pop()] *)
Definition pop {A} (l : list A) : list A := removelast l.

(** [history.unshift(entry); if (history.length > 200) history.pop();] *)
Definition addHistoryEntry (entry : HistoryEntry) (f : HistoryFile) : HistoryFile :=
  let history := getHistory f in
  let history := entry :: history in
  let history := if (200 <? Z.of_nat (length history)) then pop history else history in
  Stored history.

End Storage.

(** ** [lib/queue.ts] *)

Module Queue.

Inductive JobStatus := pending | processing | uploading | completed | failed.

Record JobState := {
  status : JobStatus;
  message : option string;
  lastUpdated : Z
}.

(** [globalState[id] = { status, message, lastUpdated: Date.now() }] *)
Definition updateJobStatus (now : Z) (id : string) (st : JobStatus)
           (msg : option string) (globalState : gmap string JobState)
  : gmap string JobState :=
  <[id := {| status := st; message := msg; lastUpdated := now |}]> globalState.

Definition getJobStatus (id : string) (globalState : gmap string JobState)
  : option JobState := globalState !! id.

End Queue.

(** ** [app/actions.ts] *)

Module Actions.

(** *** The engine as seen by the backup code *)

Record ContainerInfo := {
  Name : string;                         (* info.Name, with its leading slash *)
  Image : string;                        (* info.Config.Image *)
  Env : option (list string);            (* info.Config.Env *)
  Labels : option (gmap string string);  (* info.Config.Labels *)
  ExposedPorts : string;                 (* opaque JSON *)
  HostConfig : string;                   (* opaque JSON *)
  Cmd : string;                          (* opaque JSON *)
  NetworkSettings : string               (* opaque JSON *)
}.

Record PortInfo := { PublicPort : option Z }.

Record ContainerSummary := {
  Id : string;
  Names : list string;
  State : string;
  SummaryLabels : option (gmap string string);
  Ports : list PortInfo
}.

Inductive result (A : Type) :=
| Ok (a : A)
| Throw (msg : string).
Arguments Ok {A} a.
Arguments Throw {A} msg.

(** How the exec of the dump command ends. *)
Inductive DumpOutcome :=
| ExecError (msg : string)                 (* exec / stream / file error *)
| DumpTimeout                              (* the 300 s timer fires first *)
| DumpFinished (stdout stderr : string).   (* stdout went to the temp file,
                                              stderr to process.stderr *)

(** Outcome of the POST to the document endpoint. *)
Inductive FetchOutcome :=
| FetchOk
| FetchNotOk (status : Z) (body : string)
| FetchThrows (msg : string).

(** What an archive entry holds. *)
Record ConfigData := {
  cfg_name : string;
  cfg_image : string;
  cfg_env : option (list string);
  cfg_ports : string;
  cfg_hostConfig : string;
  cfg_cmd : string;
  cfg_networkSettings : string;
  cfg_appType : string;
  cfg_backupPaths : list string;
  cfg_timestamp : Z
}.

Record StackMember := { m_id : string; m_name : string; m_service : string }.

Record StackMetadata := {
  sm_stackName : string;
  sm_timestamp : Z;
  sm_containers : list StackMember
}.

Inductive Content :=
| Text (s : string)
| Bytes (b : string)
| TarStream (b : string)
| ConfigJson (c : ConfigData)
| StackMetadataJson (m : StackMetadata).

Record Entry := { entryName : string; content : Content }.

(** A file of the backup directory: a zip with the entries written to it
    and whether the archive was finalized and the output closed, or a plain
    file (the temporary SQL dump). *)
Inductive File :=
| ZipFile (entries : list Entry) (finalized : bool)
| PlainFile (bytes : string).

(** Everything the code reads from outside the process. *)
Record Host := {
  containers : result (list ContainerSummary);     (* docker.listContainers({all:true}) *)
  inspect : string -> result ContainerInfo;
  execDump : string -> list string -> DumpOutcome;
  getArchive : string -> string -> result string;
  TELEGRAM_TOKEN : option string;
  CHAT_ID : option string;
  TELEGRAM_API_ROOT : option string;
  fetch : string -> string -> FetchOutcome;        (* url, document name *)
  zipSize : list Entry -> Z;                        (* bytes of the finalized zip *)
  envFileContent : string -> option string;        (* readable env files *)
  hostPortBound : Z -> bool;                        (* a listener holds the port *)
  cwd : string;                                     (* process.cwd() *)
  ensureDir : string -> result unit;                (* if (!fs.existsSync(d))
                                                         fs.mkdirSync(d, {recursive: true}) *)
  revalidatePath : string -> result unit            (* next/cache *)
}.

Record JobEvent := {
  ev_id : string;
  ev_status : Queue.JobStatus;
  ev_message : option string;
  ev_at : Z
}.

(** The mutable state the code works on. The job table of [lib/queue.ts]
    starts empty with the process and changes only through
    [updateJobStatus]; [jobLog] keeps these updates, newest first, and
    [globalState] is the table they produce. *)
Record World := {
  clock : Z;                                    (* Date.now(); one reading
                                                   serves a whole operation *)
  jobLog : list JobEvent;
  historyFile : Storage.HistoryFile;
  stacks : gmap string Storage.StackConfig;     (* getStacks() *)
  fs : gmap string File                         (* the backup directory *)
}.

Definition applyEvent (e : JobEvent) (g : gmap string Queue.JobState)
  : gmap string Queue.JobState :=
  Queue.updateJobStatus (ev_at e) (ev_id e) (ev_status e) (ev_message e) g.

Definition replay (log : list JobEvent) : gmap string Queue.JobState :=
  foldr applyEvent ∅ log.

Definition globalState (w : World) : gmap string Queue.JobState :=
  replay (jobLog w).

(** *** A state-and-exception monad for the async functions *)

Definition M (A : Type) : Type := World -> World * result A.

Definition ret {A} (a : A) : M A := fun w => (w, Ok a).
Definition throw {A} (msg : string) : M A := fun w => (w, Throw msg).
Definition bind {A B} (c : M A) (k : A -> M B) : M B :=
  fun w => match c w with
           | (w', Ok a) => k a w'
           | (w', Throw msg) => (w', Throw msg)
           end.
Definition tryCatch {A} (c : M A) (handler : string -> M A) : M A :=
  fun w => match c w with
           | (w', Ok a) => (w', Ok a)
           | (w', Throw msg) => handler msg w'
           end.
Definition lift {A} (r : result A) : M A := fun w => (w, r).
Definition get {A} (f : World -> A) : M A := fun w => (w, Ok (f w)).

Notation "x <- c ;; k" := (bind c (fun x => k))
  (at level 200, c at level 99, k at level 200, only parsing).
Notation "c ;;; k" := (bind c (fun _ => k))
  (at level 200, k at level 200, only parsing).

Definition updateJobStatus (id : string) (st : Queue.JobStatus) (msg : string)
  : M unit :=
  fun w => ({| clock := clock w;
               jobLog := {| ev_id := id; ev_status := st;
                            ev_message := Some msg; ev_at := clock w |} :: jobLog w;
               historyFile := historyFile w;
               stacks := stacks w;
               fs := fs w |}, Ok tt).

Definition addHistoryEntry (e : Storage.HistoryEntry) : M unit :=
  fun w => ({| clock := clock w;
               jobLog := jobLog w;
               historyFile := Storage.addHistoryEntry e (historyFile w);
               stacks := stacks w;
               fs := fs w |}, Ok tt).

Definition setFs (f : gmap string File -> gmap string File) : M unit :=
  fun w => ({| clock := clock w;
               jobLog := jobLog w;
               historyFile := historyFile w;
               stacks := stacks w;
               fs := f (fs w) |}, Ok tt).

(** *** detectAppType *)

Definition patterns : list (string * string) :=
  [ ("n8n", "n8n"); ("metabase", "metabase"); ("nocodb", "nocodb");
    ("baserow", "baserow"); ("postgres", "postgres"); ("timescale", "postgres");
    ("mysql", "mysql"); ("mariadb", "mysql"); ("redis", "redis");
    ("wordpress", "wordpress"); ("portainer", "portainer");
    ("nginx-proxy-manager", "nginx-proxy-manager"); ("imgproxy", "imgproxy");
    ("ghost", "ghost"); ("uptime-kuma", "uptime-kuma");
    ("activepieces", "activepieces"); ("supabase", "supabase");
    ("rabbitmq", "rabbitmq"); ("mongodb", "mongodb") ].

Definition matchPattern (s : string) : option string :=
  snd <$> List.find (fun pt => Js.includes (fst pt) (Js.toLowerCase s)) patterns.

Definition label (labels : option (gmap string string)) (key : string)
  : option string :=
  match labels with Some m => m !! key | None => None end.

Definition detectAppType (image : string) (labels : option (gmap string string))
  : string :=
  let labels := match labels with Some m => m | None => ∅ end in
  let serviceName :=
    if Js.opt_truthy (labels !! "com.docker.compose.service")
    then labels !! "com.docker.compose.service"
    else labels !! "org.opencontainers.image.title" in
  let byLabel :=
    if Js.opt_truthy serviceName
    then matchPattern (default "" serviceName) else None in
  match byLabel with
  | Some t => t
  | None => default "generic" (matchPattern image)
  end.

(** *** archiveContainerInternal *)

Definition dq : string := String (ascii_of_nat 34) EmptyString.
Definition nl : string := String (ascii_of_nat 10) EmptyString.
Definition is_quote (c : ascii) : bool := Ascii.eqb c "'"%char.
Definition is_slash (c : ascii) : bool :=
  (Ascii.eqb c "/"%char || Ascii.eqb c "\"%char)%bool.
Definition is_underscore (c : ascii) : bool := Ascii.eqb c "_"%char.

Definition isDbImage (image : string) : bool :=
  (Js.includes "postgres" image || Js.includes "timescale" image
   || Js.includes "mysql" image || Js.includes "mariadb" image)%bool.

Definition isPostgresImage (image : string) : bool :=
  (Js.includes "postgres" image || Js.includes "timescale" image)%bool.

(** [getEnv(key)] of the dump branch. *)
Definition getEnv (info : ContainerInfo) (key : string) : option string :=
  match Env info with
  | Some env =>
      match List.find (Js.startsWith (key +:+ "=")) env with
      | Some envStr => Some (Js.join "=" (List.tl (Js.split "=" envStr)))
      | None => None
      end
  | None => None
  end.

Definition dumpCommand (info : ContainerInfo) : list string :=
  if isPostgresImage (Image info) then
    let pgUser := Js.opt_or (getEnv info "POSTGRES_USER") "postgres" in
    let pgPwd := if Js.opt_truthy (getEnv info "POSTGRES_PASSWORD")
                 then getEnv info "POSTGRES_PASSWORD"
                 else getEnv info "POSTGRES_PASS" in
    match pgPwd with
    | Some pwd =>
        if Js.truthy pwd then
          ["sh"; "-c"; "PGPASSWORD='" +:+ Js.replaceAll is_quote "'\''" pwd
                        +:+ "' pg_dumpall -U '" +:+ pgUser
                        +:+ "' -w --clean --if-exists"]
        else ["sh"; "-c"; "pg_dumpall -U '" +:+ pgUser +:+ "' -w --clean --if-exists"]
    | None => ["sh"; "-c"; "pg_dumpall -U '" +:+ pgUser +:+ "' -w --clean --if-exists"]
    end
  else
    match getEnv info "MYSQL_ROOT_PASSWORD" with
    | Some pwd =>
        if Js.truthy pwd then
          ["sh"; "-c"; "mysqldump -u root -p" +:+ dq +:+ pwd +:+ dq +:+ " --all-databases"]
        else ["sh"; "-c"; "mysqldump -u root --all-databases --skip-lock-tables"]
    | None => ["sh"; "-c"; "mysqldump -u root --all-databases --skip-lock-tables"]
    end.

Definition backupDir (h : Host) : string := Path.join [cwd h; "backups"].

(** [volPath.replace(/[\/\\]/g, '_').replace(/^_/, '') + '.tar'] *)
Definition safeName (volPath : string) : string :=
  Js.stripLeading "_" (Js.replaceAll is_slash "_" volPath) +:+ ".tar".

Definition append (archive : list Entry) (c : Content) (name : string) : list Entry :=
  archive ++ [{| entryName := name; content := c |}].

(** [if (v && v.trim()) pathsToBackup.add(v.trim())] *)
Definition addPath (acc : list string) (v : string) : list string :=
  if Js.truthy (Js.trim v) then Js.set_add (Js.trim v) acc else acc.

(** The volumes of the service [serviceName] of the stored stack
    [stackName], as [stacks[stackName]] and then
    [stackConfig.services[serviceName]] find them. Both objects come from
    [JSON.parse]: a name that is no own property but one of
    [Object.prototype] finds a function (or the prototype), on which the
    next property read throws. *)
Definition configuredVolumes (w : World) (stackName : string)
           (serviceName : option string) : result (list string) :=
  let serviceName := match serviceName with
                     | Some s => if Js.truthy s then Some s else None
                     | None => None
                     end in
  match Js.getProp (stacks w) stackName, serviceName with
  | Js.Own stackConfig, Some s =>
      match Js.getProp (Storage.services stackConfig) s with
      | Js.Own svc => Ok (StackParser.volumes svc)
      | Js.Inherited => Throw "Cannot read properties of undefined (reading 'forEach')"
      | Js.Undefined => Ok []
      end
  | Js.Inherited, Some s =>
      Throw ("Cannot read properties of undefined (reading '" +:+ s +:+ "')")
  | _, _ => Ok []
  end.

(** The volumes stored for the container: those of the service its
    compose labels name ([if (stackName) { ... }]). *)
Definition stackVolumes (w : World) (info : ContainerInfo) : result (list string) :=
  match label (Labels info) "com.docker.compose.project" with
  | Some stackName =>
      if Js.truthy stackName
      then configuredVolumes w stackName
             (label (Labels info) "com.docker.compose.service")
      else Ok []
  | None => Ok []
  end.

(** The paths of the stack definition the container belongs to, then the
    custom paths, trimmed, without blanks and without repetitions. *)
Definition pathsToBackup (w : World) (info : ContainerInfo)
           (customPaths : option (list string)) : result (list string) :=
  match stackVolumes w info with
  | Ok vs =>
      Ok (foldl addPath (foldl addPath [] vs) (default [] customPaths))
  | Throw msg => Throw msg
  end.

(** One turn of the loop over [uniquePaths]. *)
Definition archiveVolume (h : Host) (containerId prefix : string)
           (archive : list Entry) (volPath : string) : M (list Entry) :=
  updateJobStatus containerId Queue.processing ("Archiving: " +:+ volPath) ;;;
  match getArchive h containerId volPath with
  | Ok tarStream =>
      ret (append archive (TarStream tarStream)
             (Path.join [prefix; "volumes"; safeName volPath]))
  | Throw msg =>
      ret (append archive (Text ("Failed: " +:+ msg))
             (Path.join [prefix; "ERROR_" +:+ Js.replaceAll is_slash "_" volPath +:+ ".txt"]))
  end.

Fixpoint archiveVolumes (h : Host) (containerId prefix : string)
         (archive : list Entry) (paths : list string) : M (list Entry) :=
  match paths with
  | [] => ret archive
  | volPath :: rest =>
      archive' <- archiveVolume h containerId prefix archive volPath ;;
      archiveVolumes h containerId prefix archive' rest
  end.

(** The database branch: run the dump into the temporary file, reject an
    empty file, append it as [dump.sql], remove the temporary file. *)
Definition dumpDatabase (h : Host) (containerId prefix : string)
           (info : ContainerInfo) (archive : list Entry) : M (list Entry) :=
  let name := Js.replace "/" "" (Name info) in
  updateJobStatus containerId Queue.processing "Step: DB Strategy Detected" ;;;
  now <- get clock ;;
  let tempSqlPath :=
    Path.join [backupDir h; "temp_" +:+ name +:+ "_" +:+ Js.showZ now +:+ ".sql"] in
  let cmd := dumpCommand info in
  updateJobStatus containerId Queue.processing "Step: Executing Dump..." ;;;
  match execDump h containerId cmd with
  | ExecError msg => throw msg
  | DumpTimeout => throw "DB Dump timeout"
  | DumpFinished stdout stderr =>
      setFs (insert tempSqlPath (PlainFile stdout)) ;;;
      if Nat.eqb (String.length stdout) 0 then throw "Empty SQL Dump"
      else
        let archive := append archive (Bytes stdout) (Path.join [prefix; "dump.sql"]) in
        setFs (delete tempSqlPath) ;;;
        ret archive
  end.

Definition archiveContainerInternal (h : Host) (archive : list Entry)
           (containerId prefix : string) (customPaths : option (list string))
  : M (list Entry) :=
  updateJobStatus containerId Queue.processing "Step: Inspecting Container..." ;;;
  info <- lift (inspect h containerId) ;;
  let image := Image info in
  let appType := detectAppType image (Labels info) in
  (* 1. DATABASE DUMP (if applicable) *)
  archive <- (if isDbImage image
              then dumpDatabase h containerId prefix info archive
              else ret archive) ;;
  (* 2. VOLUME/CONFIG BACKUP *)
  paths <- get (fun w => pathsToBackup w info customPaths) ;;
  uniquePaths <- lift paths ;;
  now <- get clock ;;
  let configData :=
    {| cfg_name := Name info; cfg_image := Image info; cfg_env := Env info;
       cfg_ports := ExposedPorts info; cfg_hostConfig := HostConfig info;
       cfg_cmd := Cmd info; cfg_networkSettings := NetworkSettings info;
       cfg_appType := appType; cfg_backupPaths := uniquePaths;
       cfg_timestamp := now |} in
  let archive := append archive (ConfigJson configData) (Path.join [prefix; "config.json"]) in
  match uniquePaths with
  | _ :: _ => archiveVolumes h containerId prefix archive uniquePaths
  | [] => ret (append archive (Bytes "No volumes defined.")
                 (Path.join [prefix; "volumes_none.txt"]))
  end.

(** [new Promise(async (resolve, reject) => { ... })]: the executor is an
    [async] function, so what its body throws rejects the executor's own
    promise and is not forwarded to the promise under construction; [resolve]
    is reached only through [archive.finalize()] at the end of the body. When
    the body throws, the promise therefore stays pending until the guarding
    timer rejects it with [timeoutMessage] (the process is taken to survive
    the unhandled rejection). A body that returns is taken to do so before
    the timer fires. *)
Definition asyncExecutor {A} (timeoutMessage : string) (body : M A) : M A :=
  tryCatch body (fun _ => throw timeoutMessage).

(** *** generateBackupFile *)

Definition generateBackupFile (h : Host) (containerId : string) (dir : string)
           (customPaths : option (list string)) : M string :=
  info <- lift (inspect h containerId) ;;
  let name := Js.replace "/" "" (Name info) in
  now <- get clock ;;
  let filePath := Path.join [dir; name +:+ "_" +:+ Js.showZ now +:+ ".zip"] in
  setFs (insert filePath (ZipFile [] false)) ;;;
  asyncExecutor "Backup timed out"
    (archive <- archiveContainerInternal h [] containerId "" customPaths ;;
     setFs (insert filePath (ZipFile archive true))) ;;;
  ret filePath.

(** *** handleUpload *)

Definition statSize (h : Host) (filePath : string) : M Z :=
  fun w => match fs w !! filePath with
           | Some (ZipFile es _) => (w, Ok (zipSize h es))
           | Some (PlainFile b) => (w, Ok (Z.of_nat (String.length b)))
           | None => (w, Throw ("ENOENT: no such file or directory, stat '"
                                +:+ filePath +:+ "'"))
           end.

Definition historyEntry (now : Z) (name : string) (st : Storage.HistoryStatus)
           (dest : Storage.Destination) (msg : string)
           (sz : option Storage.SizeText) : Storage.HistoryEntry :=
  {| Storage.id := now; Storage.date := now; Storage.containerName := name;
     Storage.status := st; Storage.destination := dest; Storage.message := msg;
     Storage.size := sz; Storage.backupPath := None |}.

(** [`${TELEGRAM_API_ROOT}/bot${TELEGRAM_TOKEN}/sendDocument`] *)
Definition documentUrl (h : Host) : string :=
  Js.opt_or (TELEGRAM_API_ROOT h) "https://api.telegram.org"
    +:+ "/bot" +:+ default "" (TELEGRAM_TOKEN h) +:+ "/sendDocument".

Definition handleUpload (h : Host) (containerId filePath : string) : M unit :=
  let name := Path.basename filePath in
  if (Js.opt_truthy (TELEGRAM_TOKEN h) && Js.opt_truthy (CHAT_ID h))%bool then
    updateJobStatus containerId Queue.uploading "Sending to Telegram..." ;;;
    tryCatch
      (bytes <- statSize h filePath ;;
       match fetch h (documentUrl h) name with
       | FetchThrows msg => throw msg
       | FetchNotOk status body =>
           throw ("Telegram Upload Failed: " +:+ Js.showZ status +:+ " " +:+ body)
       | FetchOk =>
           setFs (delete filePath) ;;;
           updateJobStatus containerId Queue.completed "Sent to Telegram & Cleaned" ;;;
           now <- get clock ;;
           addHistoryEntry (historyEntry now name Storage.success Storage.telegram
                              "Backup sent to Telegram" (Some (Storage.MB bytes)))
       end)
      (fun uploadErr =>
         updateJobStatus containerId Queue.completed "Saved Local (Telegram Failed)" ;;;
         now <- get clock ;;
         addHistoryEntry (historyEntry now name Storage.failed Storage.local
                            ("Telegram upload failed: " +:+ uploadErr) None))
  else
    updateJobStatus containerId Queue.completed "Saved to local disk" ;;;
    bytes <- statSize h filePath ;;
    now <- get clock ;;
    addHistoryEntry (historyEntry now name Storage.success Storage.local
                       "Saved to local disk" (Some (Storage.MB bytes))).

(** *** processBackup: the worker function run by the queue *)

Definition processBackup (h : Host) (containerId : string)
           (customPaths : option (list string)) : M unit :=
  tryCatch
    (updateJobStatus containerId Queue.processing "Identifying..." ;;;
     lift (ensureDir h (backupDir h)) ;;;
     filePath <- generateBackupFile h containerId (backupDir h) customPaths ;;
     handleUpload h containerId filePath)
    (fun msg =>
       updateJobStatus containerId Queue.failed msg ;;;
       now <- get clock ;;
       addHistoryEntry (historyEntry now "Unknown" Storage.failed Storage.local msg None)).

(** *** triggerUnifiedStackBackup *)

Definition projectLabelIs (stackName : string) (c : ContainerSummary) : bool :=
  match label (SummaryLabels c) "com.docker.compose.project" with
  | Some p => String.eqb p stackName
  | None => false
  end.

Definition serviceLabelKnown (w : World) (stackName : string) (c : ContainerSummary)
  : bool :=
  match label (SummaryLabels c) "com.docker.compose.service", stacks w !! stackName with
  | Some s, Some stack =>
      (Js.truthy s && bool_decide (is_Some (Storage.services stack !! s)))%bool
  | _, _ => false
  end.

(** Members by project label; when there is none, by service label against
    the imported definition ([stacks[stackName]], then
    [Object.keys(stack.services)], which throws when the name found a
    property of [Object.prototype]). *)
Definition stackContainersOf (w : World) (stackName : string)
           (all : list ContainerSummary) : result (list ContainerSummary) :=
  match List.filter (projectLabelIs stackName) all with
  | [] =>
      match Js.getProp (stacks w) stackName with
      | Js.Inherited => Throw "Cannot convert undefined or null to object"
      | _ => Ok (List.filter (serviceLabelKnown w stackName) all)
      end
  | primary => Ok primary
  end.

(** [c.Names[0].replace('/', '')] *)
Definition firstName (c : ContainerSummary) : M string :=
  match Names c with
  | n :: _ => ret (Js.replace "/" "" n)
  | [] => throw "Cannot read properties of undefined (reading 'replace')"
  end.

Fixpoint stackMembers (cs : list ContainerSummary) : M (list StackMember) :=
  match cs with
  | [] => ret []
  | c :: rest =>
      n <- firstName c ;;
      ms <- stackMembers rest ;;
      ret ({| m_id := Id c; m_name := n;
              m_service := Js.opt_or (label (SummaryLabels c) "com.docker.compose.service")
                             "unknown" |} :: ms)
  end.

(** The [.env] entry: generated from [envVars], else read from [envFile]. *)
Definition appendEnv (h : Host) (virtualId : string)
           (stackConfig : option Storage.StackConfig) (archive : list Entry)
  : M (list Entry) :=
  match stackConfig with
  | None => ret archive
  | Some sc =>
      match Storage.envVars sc with
      | Some ((_ :: _) as vars) =>
          let envContent :=
            Js.join nl (List.map (fun kv => fst kv +:+ "=" +:+ snd kv) vars) in
          updateJobStatus virtualId Queue.processing "Including environment variables..." ;;;
          ret (append archive (Text envContent) ".env")
      | _ =>
          match Storage.envFile sc with
          | Some f =>
              match (if Js.truthy f then envFileContent h f else None) with
              | Some envContent =>
                  updateJobStatus virtualId Queue.processing "Including .env file..." ;;;
                  ret (append archive (Text envContent) ".env")
              | None => ret archive
              end
          | None => ret archive
          end
      end
  end.

(** The loop over the members, [i] counting from 0 and [n] their number. *)
Fixpoint archiveServices (h : Host) (virtualId : string) (n : nat) (i : nat)
         (cs : list ContainerSummary) (archive : list Entry) : M (list Entry) :=
  match cs with
  | [] => ret archive
  | c :: rest =>
      cName <- firstName c ;;
      updateJobStatus virtualId Queue.processing
        ("Archiving Service [" +:+ Js.showZ (Z.of_nat i + 1) +:+ "/"
         +:+ Js.showZ (Z.of_nat n) +:+ "]: " +:+ cName) ;;;
      archive' <- archiveContainerInternal h archive (Id c) ("services/" +:+ cName) None ;;
      archiveServices h virtualId n (S i) rest archive'
  end.

(** The body of the promise executor of [triggerUnifiedStackBackup]: what
    it appends to the archive, in order. *)
Definition unifiedArchive (h : Host) (virtualId stackName : string) (now : Z)
           (stackContainers : list ContainerSummary) : M (list Entry) :=
stackConfig <- get (fun w => stacks w !! stackName) ;;
(* 1. Root Metadata *)
members <- stackMembers stackContainers ;;
let archive :=
  append [] (StackMetadataJson {| sm_stackName := stackName;
                                  sm_timestamp := now;
                                  sm_containers := members |})
    "stack_metadata.json" in
(* 2. Source YAML *)
let archive :=
  match stackConfig with
  | Some sc => if Js.truthy (Storage.yaml sc)
               then append archive (Text (Storage.yaml sc)) "docker-compose.yml"
               else archive
  | None => archive
  end in
(* 2.5. Environment File *)
archive <- appendEnv h virtualId stackConfig archive ;;
(* 3. Service Data *)
archiveServices h virtualId (length stackContainers) 0 stackContainers archive.

Definition triggerUnifiedStackBackup (h : Host) (stackName : string)
  : M (result string) :=
let virtualId := "stack-" +:+ stackName in
lift (ensureDir h (backupDir h)) ;;;
tryCatch
  (now <- get clock ;;
   let filePath :=
     Path.join [backupDir h; "stack_" +:+ stackName +:+ "_" +:+ Js.showZ now +:+ ".zip"] in
   updateJobStatus virtualId Queue.processing
     ("Starting Unified Backup for " +:+ stackName +:+ "...") ;;;
   all <- lift (containers h) ;;
   found <- get (fun w => stackContainersOf w stackName all) ;;
   stackContainers <- lift found ;;
   match stackContainers with
   | [] => throw ("No containers found for stack " +:+ dq +:+ stackName +:+ dq)
   | _ :: _ =>
       setFs (insert filePath (ZipFile [] false)) ;;;
       asyncExecutor "Unified Backup timeout"
         (archive <- unifiedArchive h virtualId stackName now stackContainers ;;
          setFs (insert filePath (ZipFile archive true))) ;;;
       (* 4. Handle Final Artifact *)
       handleUpload h virtualId filePath ;;;
       lift (revalidatePath h "/") ;;;
       ret (Ok filePath)
   end)
  (fun msg =>
     updateJobStatus virtualId Queue.failed msg ;;;
     ret (Throw msg)).

(** *** triggerBackup and the queue worker *)

(** A task handed to [backupQueue.add]: it runs [processBackup]. *)
Record Task := { t_id : string; t_customPaths : option (list string) }.

Fixpoint triggerBackup (containerIds : list string)
         (customPathsMap : option (gmap string (list string))) : M (list Task) :=
  match containerIds with
  | [] => ret []
  | id :: rest =>
      updateJobStatus id Queue.pending "Queued" ;;;
      let customPaths := match customPathsMap with
                         | Some m => m !! id
                         | None => None
                         end in
      tasks <- triggerBackup rest customPathsMap ;;
      ret ({| t_id := id; t_customPaths := customPaths |} :: tasks)
  end.

(** The queue has concurrency 1: its worker runs the tasks one after the
    other, in the order they were added. A task that throws rejects the
    promise [add] returned, which nobody awaits, and the worker goes on
    with the next task. *)
Fixpoint runQueue (h : Host) (tasks : list Task) : M unit :=
  match tasks with
  | [] => ret tt
  | t :: rest =>
      tryCatch (processBackup h (t_id t) (t_customPaths t)) (fun _ => ret tt) ;;;
      runQueue h rest
  end.

(** *** Decoding of tar entry names on restore *)

Definition is_backslash (c : ascii) : bool := Ascii.eqb c "\"%char.

Definition volumesPrefix (prefix : string) : string :=
  Js.replaceAll is_backslash "/" (Path.join [prefix; "volumes/"]).

Definition isVolumeEntry (prefix : string) (e : Entry) : bool :=
  (Js.startsWith (volumesPrefix prefix) (entryName e)
   && Js.endsWith ".tar" (entryName e))%bool.

(** [originalPath] of [restoreVolumesInternal] for one entry. *)
Definition originalPath (prefix : string) (name : string) : string :=
  let rawName := Js.replace ".tar" "" (Js.replace (volumesPrefix prefix) "" name) in
  let originalPath := Js.replaceAll is_underscore "/" rawName in
  if Js.startsWith "/" originalPath then originalPath else "/" +:+ originalPath.

(** The paths [restoreVolumesInternal] restores, in archive order. *)
Definition restoreVolumesInternal (prefix : string) (zip : list Entry) : list string :=
  List.map (fun e => originalPath prefix (entryName e))
           (List.filter (isVolumeEntry prefix) zip).

(** [originalPath] of the data loop of [restoreToNewContainer]. *)
Definition cloneOriginalPath (name : string) : string :=
  let originalPath := Js.replace ".tar" "" (Js.replaceAll is_underscore "/" name) in
  if Js.startsWith "/" originalPath then originalPath else "/" +:+ originalPath.

(** The paths the data loop of [restoreToNewContainer] restores. *)
Definition cloneRestoredPaths (zip : list Entry) : list string :=
  List.map (fun e => cloneOriginalPath (entryName e))
           (List.filter (fun e => Js.endsWith ".tar" (entryName e)) zip).

(** *** isPortAvailable and findAvailablePort *)

Definition publishes (port : Z) (c : ContainerSummary) : bool :=
  existsb (fun p => match PublicPort p with
                    | Some q => Z.eqb q port
                    | None => false
                    end) (Ports c).

(** [docker.listContainers()]: the running containers. *)
Definition runningContainers (h : Host) : result (list ContainerSummary) :=
  match containers h with
  | Ok cs => Ok (List.filter (fun c => String.eqb (State c) "running") cs)
  | Throw msg => Throw msg
  end.

(** The probe of a port number: a listener on the host, then the ports the
    running containers publish. For a number outside 0..65535
    [server.listen] throws instead; the statements below keep the probed
    ports within that range. *)
Definition isPortAvailable (h : Host) (port : Z) : bool :=
  if hostPortBound h port then false
  else match runningContainers h with
       | Ok cs => negb (existsb (publishes port) cs)
       | Throw _ => true
       end.

(** [while (!(await isPortAvailable(port)) && port < 65535) port++;
    return port;] with the ports probed, in order. [None] when the fuel
    does not cover the loop. *)
Fixpoint findAvailablePortLoop (h : Host) (fuel : nat) (port : Z)
  : option (Z * list Z) :=
  match fuel with
  | O => None
  | S fuel' =>
      if (negb (isPortAvailable h port) && (port <? 65535))%bool then
        match findAvailablePortLoop h fuel' (port + 1) with
        | Some (p, probed) => Some (p, port :: probed)
        | None => None
        end
      else Some (port, [port])
  end.

Definition findAvailablePort (h : Host) (startPort : Z) : option (Z * list Z) :=
  findAvailablePortLoop h (S (Z.to_nat (65535 - startPort))) startPort.

(** *** Clean-up of an existing stack in restoreUnifiedStackBackup *)

Record EngineContainer := {
  ec_id : string;
  ec_project : option string;       (* label com.docker.compose.project *)
  ec_running : bool;
  ec_stopRefused : bool;            (* the engine answers the stop with an error *)
  ec_volumes : list string          (* names of the volumes it mounts *)
}.

Inductive VolumeKind := Anonymous | Named.

Definition is_anonymous (k : VolumeKind) : bool :=
  match k with Anonymous => true | Named => false end.

Record EngineState := {
  e_listFails : bool;               (* listContainers answers with an error *)
  e_containers : list EngineContainer;
  e_volumes : gmap string VolumeKind
}.

Definition hasId (id : string) (c : EngineContainer) : bool := String.eqb (ec_id c) id.

(** [container.stop({ t })]: the container is no longer running
    afterwards, unless the engine answers with an error. *)
Definition stop (t : Z) (id : string) (e : EngineState) : result EngineState :=
  match List.find (hasId id) (e_containers e) with
  | None => Throw "no such container"
  | Some c =>
      if ec_stopRefused c then Throw "stop refused"
      else Ok {| e_listFails := e_listFails e;
                 e_containers :=
                   List.map (fun c' => if hasId id c'
                                       then {| ec_id := ec_id c'; ec_project := ec_project c';
                                               ec_running := false;
                                               ec_stopRefused := ec_stopRefused c';
                                               ec_volumes := ec_volumes c' |}
                                       else c') (e_containers e);
                 e_volumes := e_volumes e |}
  end.

Definition mountedElsewhere (id : string) (cs : list EngineContainer) (vol : string)
  : bool :=
  existsb (fun c => (negb (hasId id c) && existsb (String.eqb vol) (ec_volumes c))%bool) cs.

(** [container.remove({ v, force })]. The engine is not part of the
    repository; this is the contract of the Docker Engine API the call
    relies on: a running container is removed only with [force]; the
    container is deleted and, with [v], so are the anonymous volumes
    associated with it that no other container mounts. Named volumes are
    never deleted by a container removal. *)
Definition remove (v force : bool) (id : string) (e : EngineState) : result EngineState :=
  match List.find (hasId id) (e_containers e) with
  | None => Throw "no such container"
  | Some c =>
      if (ec_running c && negb force)%bool then Throw "container is running"
      else
        let doomed := fun vol =>
          (v && existsb (String.eqb vol) (ec_volumes c)
           && negb (mountedElsewhere id (e_containers e) vol))%bool in
        Ok {| e_listFails := e_listFails e;
              e_containers := List.filter (fun c' => negb (hasId id c')) (e_containers e);
              e_volumes := filter (fun kv => (is_anonymous kv.2 && doomed kv.1)%bool = false)
                                  (e_volumes e) |}
  end.

(** [try { await container.stop({ t: 10 });
           await container.remove({ v: true, force: true }); } catch (e) {}] *)
Definition stopAndRemove (e : EngineState) (c : EngineContainer) : EngineState :=
  match stop 10 (ec_id c) e with
  | Ok e1 =>
      match remove true true (ec_id c) e1 with
      | Ok e2 => e2
      | Throw _ => e1
      end
  | Throw _ => e
  end.

Definition inProject (stackName : string) (c : EngineContainer) : bool :=
  match ec_project c with
  | Some p => String.eqb p stackName
  | None => false
  end.

(** [try { const containers = await docker.listContainers({ all: true });
           const existing = containers.filter(...);
           for (const c of existing) { ... } } catch (err) { console.warn(...) }] *)
Definition cleanExistingStack (stackName : string) (e : EngineState) : EngineState :=
  if e_listFails e then e
  else
    let existing := List.filter (inProject stackName) (e_containers e) in
    foldl stopAndRemove e existing.

End Actions.

(** * Properties *)

Import Actions.

Local Arguments String.append : simpl nomatch.

(** ** The history store *)

Section History.

Import Storage.

Lemma removelast_snoc {A} (l : list A) (x : A) :
  removelast (l ++ [x])%list = l.
Proof.
  apply List.removelast_last.
Qed.

Lemma nonempty_snoc {A} (l : list A) :
  l <> [] -> exists rest oldest, l = (rest ++ [oldest])%list.
Proof.
  induction l as [|a l IH]; intros Hne; [congruence|].
  destruct l as [|b l].
  - exists [], a. reflexivity.
  - destruct IH as (rest & oldest & E); [discriminate|].
    exists (a :: rest), oldest. rewrite E. reflexivity.
Qed.

(** C9. Appending an entry to a history of at most 200 entries gives a
    stored history of at most 200 entries whose first entry is the new
    one; below the bound the old entries all follow it unchanged, and at
    the bound exactly the last (oldest) one is dropped and the others
    follow unchanged, in order. *)
Theorem addHistoryEntry_bounded_evicts_oldest
        (entry : HistoryEntry) (f : HistoryFile) :
  (length (getHistory f) <= 200)%nat ->
  exists h',
    addHistoryEntry entry f = Stored h'
    /\ (length h' <= 200)%nat
    /\ List.hd_error h' = Some entry
    /\ ((length (getHistory f) < 200)%nat -> h' = entry :: getHistory f)
    /\ ((length (getHistory f) = 200)%nat ->
        exists rest oldest,
          getHistory f = (rest ++ [oldest])%list /\ h' = entry :: rest).
Proof.
  intros Hlen. unfold addHistoryEntry.
  set (h := getHistory f) in *.
  destruct (200 <? Z.of_nat (length (entry :: h))) eqn:E.
  - apply Z.ltb_lt in E. simpl length in E.
    assert (Hfull : length h = 200%nat) by lia.
    destruct (nonempty_snoc h) as (rest & oldest & Hsplit).
    { intros ->. simpl in Hfull. lia. }
    exists (entry :: rest). unfold pop.
    rewrite Hsplit at 1.
    change (entry :: (rest ++ [oldest])%list) with ((entry :: rest) ++ [oldest])%list.
    rewrite removelast_snoc.
    assert (Hrest : length rest = 199%nat).
    { rewrite Hsplit, length_app in Hfull. simpl in Hfull. lia. }
    repeat split.
    + simpl. lia.
    + intros Hlt. lia.
    + intros _. exists rest, oldest. split; [assumption|reflexivity].
  - apply Z.ltb_ge in E. simpl length in E.
    exists (entry :: h). repeat split.
    + simpl. lia.
    + intros Heq. lia.
Qed.

Definition sampleEntry : HistoryEntry :=
  {| id := 1; date := 1; containerName := "nginx-1_1.zip"; status := success;
     destination := local; message := "Saved to local disk";
     size := Some (MB 1048576); backupPath := None |}.

(** The theorem at a full history of 200 entries. *)
Lemma addHistoryEntry_bounded_evicts_oldest_witness :
  exists h',
    addHistoryEntry sampleEntry (Stored (List.repeat sampleEntry 200)) = Stored h'
    /\ (length h' <= 200)%nat
    /\ List.hd_error h' = Some sampleEntry
    /\ ((length (getHistory (Stored (List.repeat sampleEntry 200))) < 200)%nat ->
        h' = sampleEntry :: getHistory (Stored (List.repeat sampleEntry 200)))
    /\ ((length (getHistory (Stored (List.repeat sampleEntry 200))) = 200)%nat ->
        exists rest oldest,
          getHistory (Stored (List.repeat sampleEntry 200)) = (rest ++ [oldest])%list
          /\ h' = sampleEntry :: rest).
Proof.
  apply (addHistoryEntry_bounded_evicts_oldest sampleEntry
           (Stored (List.repeat sampleEntry 200))).
  vm_compute. apply le_n.
Defined.

End History.

(** ** The compose parser *)

Section Parser.

Import StackParser.

Lemma split_head_no_sep (sep : ascii) (k v : string) :
  Js.includes (String sep EmptyString) k = false ->
  Js.split sep (k +:+ String sep v) = k :: Js.split sep v.
Proof.
  induction k as [|c k IH]; simpl; intros H.
  - rewrite Ascii.eqb_refl. reflexivity.
  - destruct (Ascii.eqb sep c) eqn:E; [discriminate|].
    rewrite Ascii.eqb_sym, E. simpl in H.
    rewrite IH by (destruct k; exact H). reflexivity.
Qed.

Lemma split_nonempty (sep : ascii) (s : string) :
  exists h t, Js.split sep s = h :: t.
Proof.
  induction s as [|c s (h & t & IH)]; simpl; eauto.
  destruct (Ascii.eqb c sep); eauto. rewrite IH. eauto.
Qed.

(** What the array form stores for an entry [k=v] whose key holds no [=]:
    the text of [v] up to its first [=], not [v]. *)
Lemma assign_lookup_eq {A} (k : string) (a : A) (o : gmap string A) :
  k <> "__proto__" -> Js.assign k a o !! k = Some a.
Proof.
  intros Hk. unfold Js.assign. apply String.eqb_neq in Hk. rewrite Hk.
  destruct (o !! k); apply lookup_insert_eq.
Qed.

Lemma assign_lookup_ne {A} (k k' : string) (a : A) (o : gmap string A) :
  k' <> k -> Js.assign k' a o !! k = o !! k.
Proof.
  intros Hk. unfold Js.assign.
  destruct (o !! k'); [apply lookup_insert_ne; exact Hk|].
  destruct (String.eqb k' "__proto__"); [reflexivity|apply lookup_insert_ne; exact Hk].
Qed.

Lemma assign_insert {A} (k : string) (a : A) (o : gmap string A) :
  k <> "__proto__" -> Js.assign k a o = <[k := a]> o.
Proof.
  intros Hk. unfold Js.assign. apply String.eqb_neq in Hk. rewrite Hk.
  destruct (o !! k); reflexivity.
Qed.

Lemma parseEnvEntry_value (k v : string) (env : gmap string string) :
  Js.truthy k = true ->
  Js.includes "=" k = false ->
  k <> "__proto__" ->
  parseEnvEntry env (k +:+ String "=" v) !! k
  = Some (List.hd "" (Js.split "=" v)).
Proof.
  intros Hk Hno Hproto. unfold parseEnvEntry.
  rewrite split_head_no_sep by exact Hno.
  destruct (split_nonempty "=" v) as (h & t & ->). simpl.
  rewrite Hk, (assign_lookup_eq k _ env Hproto). f_equal.
  unfold Js.or_else. destruct h; reflexivity.
Qed.

(** C8. The array-form entry [K=a=b] is parsed to the key [K] with the
    value [a]: the text after the second [=] is lost, where the claim
    expects the value [a=b]. *)
Theorem parseEnvironment_array_value_cut_at_second_equals :
  parseEnvironment (Some (EnvArray ["K=a=b"])) !! "K" = Some "a"
  /\ parseEnvironment (Some (EnvArray ["K=a=b"])) !! "K" <> Some "a=b".
Proof.
  assert (H : parseEnvironment (Some (EnvArray ["K=a=b"])) !! "K" = Some "a").
  { unfold parseEnvironment. simpl foldl.
    apply (parseEnvEntry_value "K" "a=b" ∅); [reflexivity|reflexivity|discriminate]. }
  split; [exact H|]. rewrite H. discriminate.
Qed.

(** The sibling reader of the dump branch keeps the whole remainder. *)
Lemma getEnv_keeps_remainder :
  getEnv {| Name := "/db"; Image := "postgres:16"; Env := Some ["K=a=b"];
            Labels := None; ExposedPorts := ""; HostConfig := ""; Cmd := "";
            NetworkSettings := "" |} "K" = Some "a=b".
Proof. reflexivity. Qed.

End Parser.

(** ** Sample hosts and worlds *)

Definition plainInfo (name image : string) (env : list string) : ContainerInfo :=
{| Name := name; Image := image; Env := Some env; Labels := None;
   ExposedPorts := "{}"; HostConfig := "{}"; Cmd := "[]"; NetworkSettings := "{}" |}.

(** A host with the generic container [nginx-id] and the Postgres container
    [pg-id], whose dump ends as [dump]; documents are sent only when [token]
    and [chat] are set, and then end as [sent]. *)
Definition sampleHost (dump : DumpOutcome) (token chat : option string)
           (sent : FetchOutcome) : Host :=
{| containers := Ok [];
   inspect := fun id =>
     if String.eqb id "nginx-id" then Ok (plainInfo "/nginx-1" "nginx:latest" [])
     else if String.eqb id "pg-id"
          then Ok (plainInfo "/db-1" "postgres:16"
                     ["POSTGRES_USER=app"; "POSTGRES_PASSWORD=s3cret"])
          else Throw "no such container";
   execDump := fun _ _ => dump;
   getArchive := fun _ p => Ok ("tar:" +:+ p);
   TELEGRAM_TOKEN := token;
   CHAT_ID := chat;
   TELEGRAM_API_ROOT := None;
   fetch := fun _ _ => sent;
   zipSize := fun es => 1024 * Z.of_nat (length es);
   envFileContent := fun _ => None;
   hostPortBound := fun _ => false;
   cwd := "/app";
   ensureDir := fun _ => Ok tt;
   revalidatePath := fun _ => Ok tt |}.

Definition localHost (dump : DumpOutcome) : Host := sampleHost dump None None FetchOk.

Definition freshWorld : World :=
{| clock := 1700000000000; jobLog := []; historyFile := Storage.Missing;
   stacks := ∅; fs := ∅ |}.

Definition composeLabels (project service : string) : option (gmap string string) :=
Some (list_to_map [("com.docker.compose.project", project);
                   ("com.docker.compose.service", service)]).

Definition labelledInfo (name image project service : string) : ContainerInfo :=
{| Name := name; Image := image; Env := Some []; Labels := composeLabels project service;
   ExposedPorts := "{}"; HostConfig := "{}"; Cmd := "[]"; NetworkSettings := "{}" |}.

Definition shopMembers : list ContainerSummary :=
[ {| Id := "web-id"; Names := ["/shop-web-1"]; State := "running";
     SummaryLabels := composeLabels "shop" "web";
     Ports := [{| PublicPort := Some 8080 |}] |};
  {| Id := "api-id"; Names := ["/shop-api-1"]; State := "running";
     SummaryLabels := composeLabels "shop" "api";
     Ports := [{| PublicPort := Some 3000 |}] |} ].

(** A host running the two generic containers of the compose project
    [shop]; artifacts stay on the local disk. *)
Definition shopHost : Host :=
{| containers := Ok shopMembers;
   inspect := fun id =>
     if String.eqb id "web-id" then Ok (labelledInfo "/shop-web-1" "nginx:latest" "shop" "web")
     else if String.eqb id "api-id"
          then Ok (labelledInfo "/shop-api-1" "node:20" "shop" "api")
          else Throw "no such container";
   execDump := fun _ _ => DumpTimeout;
   getArchive := fun _ p => Ok ("tar:" +:+ p);
   TELEGRAM_TOKEN := None;
   CHAT_ID := None;
   TELEGRAM_API_ROOT := None;
   fetch := fun _ _ => FetchOk;
   zipSize := fun es => 1024 * Z.of_nat (length es);
   envFileContent := fun _ => None;
   hostPortBound := fun _ => false;
   cwd := "/app";
   ensureDir := fun _ => Ok tt;
   revalidatePath := fun _ => Ok tt |}.

Definition entryNames (archive : list Entry) : list string :=
List.map entryName archive.

Definition archived (r : World * result (list Entry)) : option (list string) :=
match r with
| (_, Ok archive) => Some (entryNames archive)
| (_, Throw _) => None
end.

Example nginx_entries :
  archived (archiveContainerInternal (localHost DumpTimeout) [] "nginx-id" ""
              (Some ["/usr/share/nginx/html"]) freshWorld)
  = Some ["config.json"; "volumes/usr_share_nginx_html.tar"].
Proof. vm_compute. reflexivity. Qed.

Example pg_entries :
  archived (archiveContainerInternal (localHost (DumpFinished "CREATE ROLE app;" "")) []
              "pg-id" "" None freshWorld)
  = Some ["dump.sql"; "config.json"; "volumes_none.txt"].
Proof. vm_compute. reflexivity. Qed.

Example decode_examples :
  originalPath "" "volumes/usr_share_nginx_html.tar" = "/usr/share/nginx/html"
  /\ cloneOriginalPath "volumes/usr_share_nginx_html.tar" = "/volumes/usr/share/nginx/html"
  /\ originalPath "" (Path.join [""; "volumes"; safeName "/a.tarb"]) = "/ab.tar"
  /\ originalPath "services/web" (Path.join ["services/web"; "volumes"; safeName "/data"]) = "/data".
Proof. vm_compute. repeat split; reflexivity. Qed.

(** ** Strings and paths *)

Section Strings.

Lemma append_nil_r (s : string) : s +:+ "" = s.
Proof. induction s; simpl; congruence. Qed.

Lemma append_assoc (a b c : string) : (a +:+ b) +:+ c = a +:+ (b +:+ c).
Proof. induction a; simpl; congruence. Qed.

Lemma string_eqb_refl (s : string) : String.eqb s s = true.
Proof. apply String.eqb_refl. Qed.

Lemma startsWith_cons (a b : ascii) (p s : string) :
  Js.startsWith (String a p) (String b s) = (Ascii.eqb a b && Js.startsWith p s)%bool.
Proof. reflexivity. Qed.

Lemma startsWith_app (p x : string) : Js.startsWith p (p +:+ x) = true.
Proof.
  induction p as [|c p IH]; simpl; [reflexivity|].
  rewrite Ascii.eqb_refl. exact IH.
Qed.

Lemma drop_app (p x : string) : Js.drop (String.length p) (p +:+ x) = x.
Proof. induction p; simpl; auto. Qed.

(** Removing a pattern the string starts with leaves the rest. *)
Lemma replace_prefix (p x : string) : Js.replace p "" (p +:+ x) = x.
Proof.
  destruct p as [|c p].
  - destruct x; reflexivity.
  - simpl. rewrite Ascii.eqb_refl, startsWith_app. simpl. apply drop_app.
Qed.

Lemma includes_char_cons (c a : ascii) (s : string) :
  Js.includes (String c "") (String a s)
  = (Ascii.eqb c a || Js.includes (String c "") s)%bool.
Proof. simpl. rewrite andb_true_r. reflexivity. Qed.

Lemma includes_char_app (c : ascii) (a b : string) :
  Js.includes (String c "") (a +:+ b)
  = (Js.includes (String c "") a || Js.includes (String c "") b)%bool.
Proof.
  induction a as [|x a IH].
  - destruct b; reflexivity.
  - change (String x a +:+ b) with (String x (a +:+ b)).
    rewrite !includes_char_cons, IH, orb_assoc. reflexivity.
Qed.

Lemma includes_cons_eq (p : string) (c : ascii) (s : string) :
  Js.includes p (String c s)
  = (Js.startsWith p (String c s) || Js.includes p s)%bool.
Proof. reflexivity. Qed.

Lemma includes_cons_false (p : string) (c : ascii) (s : string) :
  Js.includes p (String c s) = false ->
  Js.startsWith p (String c s) = false /\ Js.includes p s = false.
Proof.
  unfold Js.includes; fold Js.includes. intros H.
  apply orb_false_iff in H. exact H.
Qed.

Lemma endsWith_includes (p s : string) :
  Js.endsWith p s = true -> Js.includes p s = true.
Proof.
  induction s as [|c s IH]; unfold Js.endsWith, Js.includes;
    fold Js.endsWith; fold Js.includes; intros H.
  - apply orb_true_iff in H as [H|H]; [|discriminate].
    apply String.eqb_eq in H. subst p. reflexivity.
  - apply orb_true_iff in H as [H|H].
    + apply String.eqb_eq in H. subst p.
      rewrite <- (append_nil_r (String c s)) at 2.
      rewrite startsWith_app. reflexivity.
    + rewrite (IH H). apply orb_true_r.
Qed.

Lemma endsWith_self_app (x y : string) : Js.endsWith y (x +:+ y) = true.
Proof.
  induction x as [|c x IH].
  - destruct y; simpl; [reflexivity|].
    rewrite Ascii.eqb_refl, string_eqb_refl. reflexivity.
  - change (String c x +:+ y) with (String c (x +:+ y)).
    unfold Js.endsWith; fold Js.endsWith. rewrite IH. apply orb_true_r.
Qed.

(** [split] cuts at every separator: splitting [a ++ sep ++ b] gives the
    pieces of [a] followed by the pieces of [b]. *)
Lemma split_app_sep (sep : ascii) (a b : string) :
  Js.split sep (a +:+ String sep b) = (Js.split sep a ++ Js.split sep b)%list.
Proof.
  induction a as [|c a IH]; simpl.
  - rewrite Ascii.eqb_refl. reflexivity.
  - destruct (Ascii.eqb c sep).
    + rewrite IH. reflexivity.
    + rewrite IH. destruct (split_nonempty sep a) as (h & t & ->). reflexivity.
Qed.

Lemma split_no_sep (sep : ascii) (s : string) :
  Js.includes (String sep "") s = false -> Js.split sep s = [s].
Proof.
  induction s as [|c s IH]; [reflexivity|].
  rewrite includes_char_cons. intros H.
  apply orb_false_iff in H as [Hc Hs]. simpl.
  rewrite Ascii.eqb_sym, Hc, (IH Hs). reflexivity.
Qed.

Lemma replaceAll_app (cls : ascii -> bool) (rep a b : string) :
  Js.replaceAll cls rep (a +:+ b)
  = Js.replaceAll cls rep a +:+ Js.replaceAll cls rep b.
Proof.
  induction a as [|c a IH]; simpl; [reflexivity|].
  destruct (cls c); rewrite IH; [rewrite append_assoc|]; reflexivity.
Qed.

End Strings.

Section Paths.

(** A path segment that normalization leaves alone and that holds no
    separator of either kind. *)
Definition simpleSegment (s : string) : bool :=
(Js.truthy s && negb (Js.includes "/" s) && negb (Js.includes "\" s)
 && negb (String.eqb s ".") && negb (String.eqb s ".."))%bool.

Definition simpleSegments (segs : list string) : Prop :=
List.Forall (fun s => simpleSegment s = true) segs.

Lemma simpleSegment_inv (s : string) :
  simpleSegment s = true ->
  Js.truthy s = true /\ Js.includes "/" s = false /\ Js.includes "\" s = false
  /\ String.eqb s "." = false /\ String.eqb s ".." = false.
Proof.
  unfold simpleSegment. intros H.
  repeat (apply andb_true_iff in H as [H ?]).
  repeat match goal with
         | K : negb _ = true |- _ => apply negb_true_iff in K
         end.
  auto.
Qed.

Lemma simpleSegment_first (s : string) :
  simpleSegment s = true ->
  exists c t, s = String c t /\ Ascii.eqb "/" c = false.
Proof.
  intros H. apply simpleSegment_inv in H as (Ht & Hs & _).
  destruct s as [|c t]; [discriminate|].
  exists c, t. split; [reflexivity|].
  rewrite includes_char_cons in Hs. apply orb_false_iff in Hs. tauto.
Qed.

Lemma join_cons2 (sep a b : string) (r : list string) :
  Js.join sep (a :: b :: r) = a +:+ sep +:+ Js.join sep (b :: r).
Proof. reflexivity. Qed.

Lemma join_app (sep : string) (l r : list string) :
  l <> [] -> r <> [] ->
  Js.join sep (l ++ r)%list = Js.join sep l +:+ sep +:+ Js.join sep r.
Proof.
  induction l as [|a [|b l] IH]; intros Hl Hr; [congruence| |].
  - destruct r; [congruence|reflexivity].
  - change ((a :: b :: l) ++ r)%list with (a :: b :: (l ++ r)%list).
    rewrite !join_cons2.
    change (b :: (l ++ r)%list) with ((b :: l) ++ r)%list.
    rewrite IH by (auto; discriminate).
    rewrite !append_assoc. reflexivity.
Qed.

Lemma join_first (segs : list string) :
  simpleSegments segs -> segs <> [] ->
  exists c t, Js.join "/" segs = String c t /\ Ascii.eqb "/" c = false.
Proof.
  intros Hs Hne. destruct segs as [|a r]; [congruence|].
  apply List.Forall_inv in Hs.
  destruct (simpleSegment_first a Hs) as (c & t & -> & Hc).
  destruct r as [|b r].
  - exists c, t. auto.
  - rewrite join_cons2. simpl. eauto.
Qed.

Lemma split_join (segs : list string) :
  simpleSegments segs -> segs <> [] ->
  Js.split "/" (Js.join "/" segs) = segs.
Proof.
  induction segs as [|a [|b r] IH]; intros Hs Hne; [congruence| |].
  - apply List.Forall_inv in Hs. apply simpleSegment_inv in Hs as (_ & Hs & _).
    simpl. apply split_no_sep. exact Hs.
  - rewrite join_cons2.
    change ("/" +:+ Js.join "/" (b :: r)) with (String "/" (Js.join "/" (b :: r))).
    rewrite split_app_sep, IH.
    + pose proof (List.Forall_inv Hs) as Ha.
      apply simpleSegment_inv in Ha as (_ & Ha & _).
      rewrite (split_no_sep _ _ Ha). reflexivity.
    + exact (List.Forall_inv_tail Hs).
    + discriminate.
Qed.

Lemma normalizeSegments_app (b : bool) (segs rest acc : list string) :
  simpleSegments segs ->
  Path.normalizeSegments b acc (segs ++ rest)%list
  = Path.normalizeSegments b (rev segs ++ acc)%list rest.
Proof.
  revert acc. induction segs as [|seg segs IH]; intros acc Hs; [reflexivity|].
  pose proof (List.Forall_inv Hs) as Hseg.
  apply simpleSegment_inv in Hseg as (Ht & _ & _ & Hd & Hdd).
  simpl. destruct seg as [|c t]; [discriminate|].
  change (String.eqb (String c t) "") with false.
  rewrite Hd, Hdd. simpl.
  rewrite IH by exact (List.Forall_inv_tail Hs).
  rewrite <- app_assoc. reflexivity.
Qed.

Lemma normalizeSegments_simple (b : bool) (segs : list string) :
  simpleSegments segs -> Path.normalizeSegments b [] segs = segs.
Proof.
  intros Hs. rewrite <- (app_nil_r segs) at 1.
  rewrite normalizeSegments_app by exact Hs.
  simpl. rewrite app_nil_r. apply rev_involutive.
Qed.

Lemma normalizeSegments_simple_trailing (b : bool) (segs : list string) :
  simpleSegments segs -> Path.normalizeSegments b [] (segs ++ [""])%list = segs.
Proof.
  intros Hs. rewrite normalizeSegments_app by exact Hs.
  simpl. rewrite app_nil_r. apply rev_involutive.
Qed.

Lemma endsWith_char_app (c : ascii) (x y : string) :
  Js.truthy y = true ->
  Js.endsWith (String c "") (x +:+ y) = Js.endsWith (String c "") y.
Proof.
  intros Hy. induction x as [|a x IH]; [reflexivity|].
  change (String a x +:+ y) with (String a (x +:+ y)).
  unfold Js.endsWith; fold Js.endsWith. rewrite IH.
  replace (String.eqb (String c "") (String a (x +:+ y))) with false; [reflexivity|].
  simpl. destruct (Ascii.eqb c a); [|reflexivity].
  destruct x; [destruct y; [discriminate|reflexivity]|reflexivity].
Qed.

Lemma endsWith_join (segs : list string) :
  simpleSegments segs -> segs <> [] ->
  Js.endsWith "/" (Js.join "/" segs) = false.
Proof.
  induction segs as [|a [|b r] IH]; intros Hs Hne; [congruence| |].
  - apply List.Forall_inv in Hs. apply simpleSegment_inv in Hs as (_ & Hs & _).
    simpl. destruct (Js.endsWith "/" a) eqn:E; [|reflexivity].
    apply endsWith_includes in E. congruence.
  - rewrite join_cons2.
    destruct (join_first (b :: r)) as (c & t & E & Hc);
      [exact (List.Forall_inv_tail Hs)|discriminate|].
    rewrite endsWith_char_app by reflexivity.
    rewrite endsWith_char_app by (rewrite E; reflexivity).
    apply IH; [exact (List.Forall_inv_tail Hs)|discriminate].
Qed.

(** A relative path made of simple segments is its own normal form. *)
Lemma normalize_simple (segs : list string) :
  simpleSegments segs -> segs <> [] ->
  Path.normalize (Js.join "/" segs) = Js.join "/" segs.
Proof.
  intros Hs Hne.
  pose proof (split_join segs Hs Hne) as Hsplit.
  pose proof (endsWith_join segs Hs Hne) as Hend.
  destruct (join_first segs Hs Hne) as (c & t & E & Hc).
  remember (Js.join "/" segs) as p eqn:Hp.
  assert (Habs : Js.startsWith "/" p = false).
  { rewrite E, startsWith_cons, Hc. reflexivity. }
  unfold Path.normalize.
  rewrite Hsplit, Habs, Hend, normalizeSegments_simple, <- Hp by exact Hs.
  rewrite E. reflexivity.
Qed.

(** The same with a trailing separator, which normalization keeps. *)
Lemma normalize_simple_trailing (segs : list string) :
  simpleSegments segs -> segs <> [] ->
  Path.normalize (Js.join "/" segs +:+ "/") = Js.join "/" segs +:+ "/".
Proof.
  intros Hs Hne.
  pose proof (split_join segs Hs Hne) as Hsplit.
  destruct (join_first segs Hs Hne) as (c & t & E & Hc).
  remember (Js.join "/" segs) as p eqn:Hp.
  assert (Habs : Js.startsWith "/" (p +:+ "/") = false).
  { rewrite E. change (String c t +:+ "/") with (String c (t +:+ "/")).
    rewrite startsWith_cons, Hc. reflexivity. }
  assert (Hsp : Js.split "/" (p +:+ "/") = (segs ++ [""])%list).
  { rewrite split_app_sep, Hsplit. reflexivity. }
  unfold Path.normalize.
  rewrite Hsp, Habs, endsWith_self_app, normalizeSegments_simple_trailing, <- Hp
    by exact Hs.
  rewrite E. reflexivity.
Qed.

End Paths.

(** ** The tar-name escape and its decoders *)

Section Escape.

(** [p.replace(/[\/\\]/g, '_')] *)
Definition escapeSeparators (p : string) : string := Js.replaceAll is_slash "_" p.

(** [s.replace(/_/g, '/')] *)
Definition unescape (s : string) : string := Js.replaceAll is_underscore "/" s.

Fixpoint allChars (f : ascii -> bool) (s : string) : bool :=
match s with
| EmptyString => true
| String c s' => (f c && allChars f s')%bool
end.

Lemma replaceAll_cons (cls : ascii -> bool) (rep : string) (c : ascii) (s : string) :
  Js.replaceAll cls rep (String c s)
  = if cls c then rep +:+ Js.replaceAll cls rep s
    else String c (Js.replaceAll cls rep s).
Proof. reflexivity. Qed.

Lemma escapeSeparators_cons (c : ascii) (s : string) :
  escapeSeparators (String c s)
  = String (if is_slash c then "_"%char else c) (escapeSeparators s).
Proof. unfold escapeSeparators. rewrite replaceAll_cons. destruct (is_slash c); reflexivity. Qed.

Lemma safeName_absolute (q : string) :
  safeName (String "/" q) = escapeSeparators q +:+ ".tar".
Proof. reflexivity. Qed.

Lemma is_slash_spec (c : ascii) :
  is_slash c = (Ascii.eqb "/" c || Ascii.eqb "\" c)%bool.
Proof. unfold is_slash. rewrite (Ascii.eqb_sym c "/"), (Ascii.eqb_sym c "\"). reflexivity. Qed.

Lemma escapeSeparators_no_separator (s : string) :
  Js.includes "/" (escapeSeparators s) = false
  /\ Js.includes "\" (escapeSeparators s) = false.
Proof.
  induction s as [|c s [IH1 IH2]]; [split; reflexivity|].
  rewrite escapeSeparators_cons, !includes_char_cons, IH1, IH2, !orb_false_r.
  pose proof (is_slash_spec c) as Hc.
  destruct (is_slash c); [split; reflexivity|].
  symmetry in Hc. apply orb_false_iff in Hc. exact Hc.
Qed.

Lemma stripLeading_no_char (x c : ascii) (s : string) :
  Js.includes (String x "") s = false ->
  Js.includes (String x "") (Js.stripLeading c s) = false.
Proof.
  destruct s as [|a s]; [auto|]. simpl Js.stripLeading.
  destruct (Ascii.eqb a c); [|auto].
  rewrite includes_char_cons. intros H. apply orb_false_iff in H. tauto.
Qed.

Lemma length_append (a b : string) :
  String.length (a +:+ b) = (String.length a + String.length b)%nat.
Proof. induction a; simpl; auto. Qed.

Lemma tar_name_not_dots (x d : string) :
  (String.length d < 4)%nat -> String.eqb (x +:+ ".tar") d = false.
Proof.
  intros Hd. destruct (String.eqb (x +:+ ".tar") d) eqn:E; [|reflexivity].
  apply String.eqb_eq in E. apply (f_equal String.length) in E.
  rewrite length_append in E. simpl in E. lia.
Qed.

(** The escaped name is a single plain path segment. *)
Lemma safeName_simple (p : string) : simpleSegment (safeName p) = true.
Proof.
  unfold simpleSegment, safeName.
  set (x := Js.stripLeading "_" (Js.replaceAll is_slash "_" p)).
  destruct (escapeSeparators_no_separator p) as [H1 H2].
  assert (Hx1 : Js.includes "/" x = false) by (apply stripLeading_no_char; exact H1).
  assert (Hx2 : Js.includes "\" x = false) by (apply stripLeading_no_char; exact H2).
  rewrite !includes_char_app, Hx1, Hx2.
  rewrite !tar_name_not_dots by (simpl; lia).
  destruct x; reflexivity.
Qed.

Lemma startsWith_escape (pat s : string) :
  allChars (fun c => negb (is_slash c) && negb (is_underscore c))%bool pat = true ->
  Js.startsWith pat (escapeSeparators s) = Js.startsWith pat s.
Proof.
  revert s. induction pat as [|a pat IH]; intros s H; [reflexivity|].
  destruct s as [|c s]; [reflexivity|].
  simpl in H. apply andb_true_iff in H as [Ha Hpat].
  apply andb_true_iff in Ha as [Ha1 Ha2].
  apply negb_true_iff in Ha1, Ha2.
  rewrite escapeSeparators_cons, !startsWith_cons, (IH s Hpat).
  destruct (is_slash c) eqn:Hc; [|reflexivity].
  unfold is_underscore in Ha2. rewrite Ha2.
  destruct (Ascii.eqb a c) eqn:E; [|reflexivity].
  apply Ascii.eqb_eq in E. congruence.
Qed.

Lemma includes_escape (pat s : string) :
  allChars (fun c => negb (is_slash c) && negb (is_underscore c))%bool pat = true ->
  Js.includes pat (escapeSeparators s) = Js.includes pat s.
Proof.
  intros H. induction s as [|c s IH].
  - reflexivity.
  - rewrite (includes_cons_eq pat c s).
    rewrite escapeSeparators_cons, includes_cons_eq, <- escapeSeparators_cons.
    rewrite (startsWith_escape pat (String c s) H), IH. reflexivity.
Qed.

(** Unescaping gives back a text without underscores or backslashes. *)
Lemma unescape_escape (q : string) :
  Js.includes "_" q = false -> Js.includes "\" q = false ->
  unescape (escapeSeparators q) = q.
Proof.
  induction q as [|c q IH]; [reflexivity|].
  rewrite !includes_char_cons. intros Hu Hb.
  apply orb_false_iff in Hu as [Hu Hu'], Hb as [Hb Hb'].
  rewrite escapeSeparators_cons. unfold unescape. rewrite replaceAll_cons.
  fold (unescape (escapeSeparators q)). rewrite (IH Hu' Hb').
  pose proof (is_slash_spec c) as Hc. rewrite Hb, orb_false_r in Hc.
  destruct (is_slash c).
  - symmetry in Hc. apply Ascii.eqb_eq in Hc. subst c. reflexivity.
  - unfold is_underscore. rewrite Ascii.eqb_sym, Hu. reflexivity.
Qed.

Lemma startsWith_tar_straddle (y : string) :
  Js.truthy y = true ->
  Js.startsWith ".tar" y = false -> Js.startsWith ".tar" (y +:+ ".tar") = false.
Proof.
  intros Hy H.
  destruct y as [|a [|b [|c [|d y]]]]; try discriminate;
    repeat (rewrite ?startsWith_cons in *; simpl String.append in *);
    try exact H;
    repeat match goal with
           | |- context [Ascii.eqb ?u ?v] => destruct (Ascii.eqb u v)
           end; reflexivity.
Qed.

(** [replace('.tar', '')] removes the suffix when [.tar] does not occur
    earlier in the name. *)
Lemma replace_tar_suffix (x : string) :
  Js.includes ".tar" x = false -> Js.replace ".tar" "" (x +:+ ".tar") = x.
Proof.
  induction x as [|c x IH]; intros H; [reflexivity|].
  apply includes_cons_false in H as [Hs Hi].
  pose proof (startsWith_tar_straddle (String c x) eq_refl Hs) as Hst.
  change (String c x +:+ ".tar") with (String c (x +:+ ".tar")) in *.
  unfold Js.replace; fold Js.replace. rewrite Hst, (IH Hi). reflexivity.
Qed.

End Escape.

Section EntryNames.

(** The prefixes under which a container's subtree is written and read
    back: the archive root for a single-container artifact, and
    [services/<name>] for a member of a unified stack artifact. *)
Inductive artifactPrefix : string -> Prop :=
| prefix_root : artifactPrefix ""
| prefix_service (n : string) :
    simpleSegment n = true -> artifactPrefix ("services/" +:+ n).

Lemma artifactPrefix_segments (prefix : string) :
  artifactPrefix prefix ->
  exists segs, simpleSegments segs /\ prefix = Js.join "/" segs.
Proof.
  intros [|n Hn].
  - exists []. split; [constructor|reflexivity].
  - exists ["services"; n]. split; [|reflexivity].
    repeat constructor. exact Hn.
Qed.

Lemma simpleSegments_snoc (segs : list string) (s : string) :
  simpleSegments segs -> simpleSegment s = true -> simpleSegments (segs ++ [s])%list.
Proof.
  intros Hs H. apply List.Forall_app. split; [exact Hs|]. repeat constructor. exact H.
Qed.

Lemma snoc_not_nil {A} (l : list A) (x : A) : (l ++ [x])%list <> [].
Proof. destruct l; discriminate. Qed.

Lemma join_truthy (segs : list string) :
  simpleSegments segs -> segs <> [] -> Js.truthy (Js.join "/" segs) = true.
Proof.
  intros Hs Hne. destruct (join_first segs Hs Hne) as (c & t & -> & _). reflexivity.
Qed.

Lemma path_join_skip_empty (rest : list string) :
  Path.join ("" :: rest) = Path.join rest.
Proof. reflexivity. Qed.

Lemma path_join2 (p q : string) :
  Js.truthy p = true -> Js.truthy q = true ->
  Path.join [p; q] = Path.normalize (p +:+ "/" +:+ q).
Proof. destruct p, q; try discriminate; reflexivity. Qed.

Lemma path_join3 (p q r : string) :
  Js.truthy p = true -> Js.truthy q = true -> Js.truthy r = true ->
  Path.join [p; q; r] = Path.normalize (p +:+ "/" +:+ q +:+ "/" +:+ r).
Proof. destruct p, q, r; try discriminate; reflexivity. Qed.

(** Where [path.join(prefix, 'volumes/')] points. *)
Lemma join_volumes_dir (segs : list string) :
  simpleSegments segs ->
  Path.join [Js.join "/" segs; "volumes/"]
  = Js.join "/" (segs ++ ["volumes"])%list +:+ "/".
Proof.
  intros Hs. destruct segs as [|a r]; [reflexivity|].
  rewrite path_join2 by (try apply join_truthy; auto; discriminate).
  transitivity (Path.normalize (Js.join "/" ((a :: r) ++ ["volumes"])%list +:+ "/")).
  - f_equal. rewrite (join_app "/" (a :: r) ["volumes"]) by discriminate.
    rewrite !append_assoc. reflexivity.
  - apply normalize_simple_trailing; [|discriminate].
    apply simpleSegments_snoc; auto.
Qed.

(** Where [path.join(prefix, 'volumes', name)] points, for a plain name. *)
Lemma join_volumes_entry (segs : list string) (s : string) :
  simpleSegments segs -> simpleSegment s = true ->
  Path.join [Js.join "/" segs; "volumes"; s]
  = (Js.join "/" (segs ++ ["volumes"])%list +:+ "/") +:+ s.
Proof.
  intros Hs H.
  assert (Hall : simpleSegments ((segs ++ ["volumes"]) ++ [s])%list).
  { apply simpleSegments_snoc; [apply simpleSegments_snoc|]; auto. }
  assert (Hts : Js.truthy s = true) by (apply simpleSegment_inv in H; tauto).
  transitivity (Path.normalize (Js.join "/" ((segs ++ ["volumes"]) ++ [s])%list)).
  - destruct segs as [|a r].
    + simpl Js.join at 1. rewrite path_join_skip_empty, path_join2 by auto.
      reflexivity.
    + rewrite path_join3 by (try apply join_truthy; auto; discriminate).
      f_equal.
      rewrite (join_app "/" ((a :: r) ++ ["volumes"])%list [s])
        by (auto using snoc_not_nil; discriminate).
      rewrite (join_app "/" (a :: r) ["volumes"]) by discriminate.
      rewrite !append_assoc. reflexivity.
  - rewrite normalize_simple by (auto using snoc_not_nil).
    rewrite (join_app "/" (segs ++ ["volumes"])%list [s])
      by (auto using snoc_not_nil; discriminate).
    rewrite append_assoc. reflexivity.
Qed.

Lemma includes_char_join (c : ascii) (segs : list string) :
  Js.includes (String c "") "/" = false ->
  List.Forall (fun s => Js.includes (String c "") s = false) segs ->
  Js.includes (String c "") (Js.join "/" segs) = false.
Proof.
  intros Hsep. induction segs as [|a [|b r] IH]; intros H; [reflexivity| |].
  - exact (List.Forall_inv H).
  - rewrite join_cons2, !includes_char_app, Hsep, (List.Forall_inv H).
    apply IH. exact (List.Forall_inv_tail H).
Qed.

Lemma replaceAll_id (cls : ascii -> bool) (rep s : string) :
  allChars (fun c => negb (cls c)) s = true -> Js.replaceAll cls rep s = s.
Proof.
  induction s as [|c s IH]; [reflexivity|]. simpl. intros H.
  apply andb_true_iff in H as [Hc Hs]. apply negb_true_iff in Hc.
  rewrite Hc, (IH Hs). reflexivity.
Qed.

Lemma no_backslash_allChars (s : string) :
  Js.includes "\" s = false -> allChars (fun c => negb (is_backslash c)) s = true.
Proof.
  induction s as [|c s IH]; [reflexivity|].
  rewrite includes_char_cons. intros H. apply orb_false_iff in H as [Hc Hs].
  simpl. rewrite (IH Hs). unfold is_backslash. rewrite Ascii.eqb_sym, Hc. reflexivity.
Qed.

(** The prefix [restoreVolumesInternal] looks for is the directory the
    backup wrote the tar entries into. *)
Lemma volumesPrefix_segments (segs : list string) :
  simpleSegments segs ->
  volumesPrefix (Js.join "/" segs) = Js.join "/" (segs ++ ["volumes"])%list +:+ "/".
Proof.
  intros Hs. unfold volumesPrefix. rewrite join_volumes_dir by exact Hs.
  apply replaceAll_id, no_backslash_allChars.
  rewrite includes_char_app, orb_false_r.
  apply includes_char_join; [reflexivity|].
  apply List.Forall_app. split; [|repeat constructor].
  eapply List.Forall_impl; [|exact Hs].
  intros s H. apply simpleSegment_inv in H. tauto.
Qed.

(** The name under which the backup stores the tar of [volPath]. *)
Lemma volume_entry_name (prefix volPath : string) :
  artifactPrefix prefix ->
  Path.join [prefix; "volumes"; safeName volPath]
  = volumesPrefix prefix +:+ safeName volPath.
Proof.
  intros Hp. destruct (artifactPrefix_segments prefix Hp) as (segs & Hs & ->).
  rewrite volumesPrefix_segments by exact Hs.
  apply join_volumes_entry; [exact Hs|apply safeName_simple].
Qed.

Lemma volumesPrefix_root : volumesPrefix "" = "volumes/".
Proof. reflexivity. Qed.

End EntryNames.

(** ** Round trip of captured paths through the archive *)

Section RoundTrip.

(** The decoder of the stack restore: for an absolute path [p] without
    underscore, without backslash, without an inner [.tar] and not
    starting with two slashes, the entry the backup writes for [p] under
    an artifact prefix is one that [restoreVolumesInternal] selects under
    the same prefix, and the path it decodes from the entry name is [p]. *)
Theorem stack_restore_decodes_backup_name (prefix p : string) (c : Content) :
  artifactPrefix prefix ->
  Js.startsWith "/" p = true ->
  Js.startsWith "//" p = false ->
  Js.includes "_" p = false ->
  Js.includes "\" p = false ->
  Js.includes ".tar" p = false ->
  restoreVolumesInternal prefix
    [{| entryName := Path.join [prefix; "volumes"; safeName p]; content := c |}]
  = [p].
Proof.
  intros Hprefix Habs Hdouble Hunder Hback Htar.
  destruct p as [|a q]; [discriminate|].
  rewrite startsWith_cons in Habs. apply andb_true_iff in Habs as [Ha _].
  apply Ascii.eqb_eq in Ha. subst a.
  rewrite startsWith_cons, Ascii.eqb_refl, andb_true_l in Hdouble.
  rewrite includes_char_cons in Hunder, Hback.
  apply orb_false_iff in Hunder as [_ Hunder], Hback as [_ Hback].
  apply includes_cons_false in Htar as [_ Htar].
  rewrite volume_entry_name, safeName_absolute by exact Hprefix.
  unfold restoreVolumesInternal, isVolumeEntry. simpl List.filter. simpl entryName.
  rewrite startsWith_app.
  rewrite <- append_assoc, endsWith_self_app. simpl List.map.
  unfold originalPath. rewrite append_assoc, replace_prefix.
  rewrite replace_tar_suffix by (rewrite includes_escape; [exact Htar|reflexivity]).
  fold (unescape (escapeSeparators q)).
  rewrite (unescape_escape q Hunder Hback), Hdouble. reflexivity.
Qed.

(** The stack decoder at [/usr/share/nginx/html], in a stack member's
    subtree. *)
Lemma stack_restore_decodes_backup_name_witness :
  restoreVolumesInternal "services/web"
    [{| entryName := Path.join ["services/web"; "volumes"; safeName "/usr/share/nginx/html"];
        content := TarStream "" |}]
  = ["/usr/share/nginx/html"].
Proof.
  apply (stack_restore_decodes_backup_name "services/web" "/usr/share/nginx/html"
           (TarStream ""));
    try reflexivity.
  apply (prefix_service "web"). reflexivity.
Defined.

(** What the two decoders return on three backed-up paths: the clone
    restore never removes the [volumes/] directory from the entry name, and
    the stack restore removes the first [.tar], not the last, and reads
    every [_] as [/]. *)
Lemma decoded_paths_examples :
  cloneRestoredPaths
    [{| entryName := Path.join [""; "volumes"; safeName "/usr/share/nginx/html"];
        content := TarStream "" |}]
  = ["/volumes/usr/share/nginx/html"]
  /\ restoreVolumesInternal ""
       [{| entryName := Path.join [""; "volumes"; safeName "/srv/app.tar.d"];
           content := TarStream "" |}]
     = ["/srv/app.d.tar"]
  /\ restoreVolumesInternal ""
       [{| entryName := Path.join [""; "volumes"; safeName "/srv/a\b"];
           content := TarStream "" |}]
     = ["/srv/a/b"].
Proof. vm_compute. repeat split; reflexivity. Qed.

(** Both decoders give back the path the backup encoded, on every
    underscore-free absolute path. *)
Definition decodersInvertEncoding : Prop :=
forall p : string,
  Js.startsWith "/" p = true -> Js.includes "_" p = false ->
  restoreVolumesInternal ""
    [{| entryName := Path.join [""; "volumes"; safeName p]; content := TarStream "" |}]
  = [p]
  /\ cloneRestoredPaths
       [{| entryName := Path.join [""; "volumes"; safeName p]; content := TarStream "" |}]
     = [p].

(** That fails at [/usr/share/nginx/html], which the clone restore decodes
    to [/volumes/usr/share/nginx/html]. *)
Lemma decodersInvertEncoding_fails : ~ decodersInvertEncoding.
Proof.
  intros H.
  destruct (H "/usr/share/nginx/html" eq_refl eq_refl) as [_ Hclone].
  vm_compute in Hclone. discriminate Hclone.
Qed.

(** C4. The clone restore does not give back the path the backup encoded:
    for the underscore-free absolute path [/usr/share/nginx/html] the
    backup writes the entry [volumes/usr_share_nginx_html.tar], which
    [restoreToNewContainer] decodes to [/volumes/usr/share/nginx/html], as
    it decodes the whole entry name, directory included. The stack restore
    removes the directory first and decodes the same entry to
    [/usr/share/nginx/html]. *)
Theorem clone_restore_keeps_volumes_directory :
  let zip := [{| entryName := Path.join [""; "volumes"; safeName "/usr/share/nginx/html"];
                 content := TarStream "" |}] in
  List.map entryName zip = ["volumes/usr_share_nginx_html.tar"]
  /\ cloneRestoredPaths zip = ["/volumes/usr/share/nginx/html"]
  /\ restoreVolumesInternal "" zip = ["/usr/share/nginx/html"].
Proof. vm_compute. repeat split; reflexivity. Qed.

(** The stack decoder alone also fails on underscore-free absolute paths:
    at [/srv/app.tar.d] and at [/srv/a\b]. *)
Lemma stack_decoder_fails_on_inner_tar_and_backslash :
  restoreVolumesInternal ""
    [{| entryName := Path.join [""; "volumes"; safeName "/srv/app.tar.d"];
        content := TarStream "" |}]
  <> ["/srv/app.tar.d"]
  /\ restoreVolumesInternal ""
       [{| entryName := Path.join [""; "volumes"; safeName "/srv/a\b"];
           content := TarStream "" |}]
     <> ["/srv/a\b"].
Proof. split; vm_compute; discriminate. Qed.

End RoundTrip.

(** ** Entries of a single-container volume backup *)

Section VolumeBackup.

Lemma pathsToBackup_stacks (w1 w2 : World) (info : ContainerInfo)
      (customPaths : option (list string)) :
  stacks w1 = stacks w2 ->
  pathsToBackup w1 info customPaths = pathsToBackup w2 info customPaths.
Proof.
  intros H. unfold pathsToBackup, stackVolumes, configuredVolumes. rewrite H.
  reflexivity.
Qed.

(** The loop over the captured paths, when the engine serves every path:
    one tar entry per path, in order, behind what was already appended. *)
Lemma archiveVolumes_names (h : Host) (id prefix : string) (paths : list string) :
  (forall p, List.In p paths -> exists tar, getArchive h id p = Ok tar) ->
  forall (archive : list Entry) (w : World),
  exists w' archive',
    archiveVolumes h id prefix archive paths w = (w', Ok archive')
    /\ stacks w' = stacks w
    /\ entryNames archive'
       = (entryNames archive
          ++ List.map (fun p => Path.join [prefix; "volumes"; safeName p]) paths)%list.
Proof.
  induction paths as [|p paths IH]; intros Hok archive w.
  - exists w, archive. simpl. rewrite app_nil_r. auto.
  - destruct (Hok p (or_introl eq_refl)) as (tar & Htar).
    simpl archiveVolumes. unfold bind, archiveVolume, bind, updateJobStatus.
    rewrite Htar. unfold ret.
    match goal with
    | |- context [archiveVolumes h id prefix ?a paths ?w1] =>
        destruct (IH (fun q Hq => Hok q (or_intror Hq)) a w1) as (w' & archive' & E & Hst & Hn)
    end.
    exists w', archive'. rewrite E. split; [reflexivity|]. split; [exact Hst|].
    rewrite Hn. unfold append, entryNames. rewrite List.map_app. simpl.
    rewrite <- app_assoc. reflexivity.
Qed.

(** The entries behind [config.json] in a volume backup: one tar per
    captured path under [volumes/], or the note [volumes_none.txt] when no
    path is captured. *)
Definition volumeEntryNames (paths : list string) : list string :=
match paths with
| [] => ["volumes_none.txt"]
| _ :: _ => List.map (fun p => "volumes/" +:+ safeName p) paths
end.

(** C3 (amended). A backup of a container that is not a database image,
    whose captured paths the engine all serves, succeeds with these
    entries, in order: [config.json], then for each captured path [p] the
    entry [volumes/<safeName p>], or [volumes_none.txt] when no path is
    captured; for an absolute [p] the name [safeName p] is [p] without its
    leading slash, every further [/] and [\] replaced by [_], followed by
    [.tar]. *)
Theorem volume_backup_entry_names (h : Host) (id : string)
        (customPaths : option (list string)) (w : World) (info : ContainerInfo)
        (paths : list string) :
  inspect h id = Ok info ->
  isDbImage (Image info) = false ->
  pathsToBackup w info customPaths = Ok paths ->
  (forall p, List.In p paths -> exists tar, getArchive h id p = Ok tar) ->
  (exists w' archive,
     archiveContainerInternal h [] id "" customPaths w = (w', Ok archive)
     /\ entryNames archive = "config.json" :: volumeEntryNames paths)
  /\ (forall q, safeName (String "/" q) = Js.replaceAll is_slash "_" q +:+ ".tar").
Proof.
  intros Hinspect Hdb Hpaths Hserved. split; [|exact safeName_absolute].
  unfold archiveContainerInternal.
  unfold bind at 1. unfold updateJobStatus at 1.
  unfold bind at 1. unfold lift at 1. rewrite Hinspect.
  rewrite Hdb.
  unfold bind at 1. unfold ret at 1.
  unfold bind at 1. unfold get at 1.
  match goal with
  | |- context [pathsToBackup ?w1 info customPaths] =>
      rewrite (pathsToBackup_stacks w1 w info customPaths eq_refl), Hpaths
  end.
  unfold bind at 1. unfold lift at 1.
  unfold bind at 1. unfold get at 1.
  destruct paths as [|p0 paths].
  - eexists _, _. split; reflexivity.
  - match goal with
    | |- context [archiveVolumes h id "" ?a ?ps ?w1] =>
        destruct (archiveVolumes_names h id "" ps Hserved a w1)
          as (w' & archive' & E & _ & Hn)
    end.
    exists w', archive'. split; [exact E|].
    rewrite Hn.
    transitivity ("config.json"
                  :: List.map (fun p => Path.join [""; "volumes"; safeName p]) (p0 :: paths));
      [reflexivity|].
    f_equal. apply List.map_ext. intros p.
    rewrite (volume_entry_name "" p prefix_root). reflexivity.
Qed.

(** The theorem at the generic container with one captured path, and at
    the same container with none. *)
Lemma volume_backup_entry_names_witness :
  ((exists w' archive,
      archiveContainerInternal (localHost DumpTimeout) [] "nginx-id" ""
        (Some ["/usr/share/nginx/html"]) freshWorld = (w', Ok archive)
      /\ entryNames archive
         = "config.json" :: volumeEntryNames ["/usr/share/nginx/html"])
   /\ (forall q, safeName (String "/" q) = Js.replaceAll is_slash "_" q +:+ ".tar"))
  /\ ((exists w' archive,
         archiveContainerInternal (localHost DumpTimeout) [] "nginx-id" ""
           None freshWorld = (w', Ok archive)
         /\ entryNames archive = "config.json" :: volumeEntryNames [])
      /\ (forall q, safeName (String "/" q) = Js.replaceAll is_slash "_" q +:+ ".tar")).
Proof.
  split.
  - apply (volume_backup_entry_names (localHost DumpTimeout) "nginx-id"
             (Some ["/usr/share/nginx/html"]) freshWorld
             (plainInfo "/nginx-1" "nginx:latest" []) ["/usr/share/nginx/html"]).
    + reflexivity.
    + reflexivity.
    + reflexivity.
    + intros p _. eexists. reflexivity.
  - apply (volume_backup_entry_names (localHost DumpTimeout) "nginx-id"
             None freshWorld (plainInfo "/nginx-1" "nginx:latest" []) []).
    + reflexivity.
    + reflexivity.
    + reflexivity.
    + intros p [].
Defined.

(** C3 as stated fails: for the single captured path
    [/usr/share/nginx/html] the entries are [config.json] and
    [volumes/usr_share_nginx_html.tar], not [config.json] and
    [_usr_share_nginx_html.tar] at the root. *)
Lemma volume_entry_not_at_root :
  archived (archiveContainerInternal (localHost DumpTimeout) [] "nginx-id" ""
              (Some ["/usr/share/nginx/html"]) freshWorld)
  = Some ["config.json"; "volumes/usr_share_nginx_html.tar"]
  /\ archived (archiveContainerInternal (localHost DumpTimeout) [] "nginx-id" ""
                 (Some ["/usr/share/nginx/html"]) freshWorld)
     <> Some ["config.json"; "_usr_share_nginx_html.tar"].
Proof. split; vm_compute; [reflexivity|discriminate]. Qed.

End VolumeBackup.

(** ** Order of the entries of an artifact *)

Section EntryOrder.

Lemma bind_ok {A B} (c : M A) (k : A -> M B) (w w' : World) (b : B) :
  bind c k w = (w', Ok b) ->
  exists w1 a, c w = (w1, Ok a) /\ k a w1 = (w', Ok b).
Proof.
  unfold bind. destruct (c w) as [w1 [a|msg]]; intros H; [eauto|discriminate].
Qed.

Lemma ret_ok {A} (a b : A) (w w' : World) :
  ret a w = (w', Ok b) -> w' = w /\ b = a.
Proof. unfold ret. intros H. inversion H. auto. Qed.

Lemma get_ok {A} (f : World -> A) (b : A) (w w' : World) :
  get f w = (w', Ok b) -> w' = w /\ b = f w.
Proof. unfold get. intros H. inversion H. auto. Qed.

Lemma lift_ok {A} (r : result A) (b : A) (w w' : World) :
  lift r w = (w', Ok b) -> w' = w /\ r = Ok b.
Proof. unfold lift. intros H. inversion H. auto. Qed.

Ltac inv_bind H :=
  let w1 := fresh "w" in
  let a := fresh "a" in
  let H1 := fresh "Hstep" in
  apply bind_ok in H as (w1 & a & H1 & H).

(** [a'] is [a] with further entries appended. *)
Definition extends (a a' : list Entry) : Prop := exists more, a' = (a ++ more)%list.

Lemma extends_refl (a : list Entry) : extends a a.
Proof. exists []. rewrite app_nil_r. reflexivity. Qed.

Lemma extends_trans (a b c : list Entry) : extends a b -> extends b c -> extends a c.
Proof.
  intros [m1 ->] [m2 ->]. exists (m1 ++ m2)%list. rewrite app_assoc. reflexivity.
Qed.

Lemma extends_append (a : list Entry) (c : Content) (n : string) :
  extends a (append a c n).
Proof. unfold append. eexists. reflexivity. Qed.

Lemma archiveVolume_ok (h : Host) (id prefix : string) (archive a' : list Entry)
      (volPath : string) (w w' : World) :
  archiveVolume h id prefix archive volPath w = (w', Ok a') -> extends archive a'.
Proof.
  unfold archiveVolume. intros H. inv_bind H.
  destruct (getArchive h id volPath); apply ret_ok in H as [_ ->];
    apply extends_append.
Qed.

Lemma archiveVolumes_extends (h : Host) (id prefix : string) (paths : list string) :
  forall (archive a' : list Entry) (w w' : World),
    archiveVolumes h id prefix archive paths w = (w', Ok a') -> extends archive a'.
Proof.
  induction paths as [|p paths IH]; intros archive a' w w' H; simpl in H.
  - apply ret_ok in H as [_ ->]. apply extends_refl.
  - inv_bind H. apply archiveVolume_ok in Hstep.
    eapply extends_trans; [exact Hstep|]. eapply IH. exact H.
Qed.

(** A dump that ends well appends exactly [dump.sql], and it is not empty. *)
Lemma dumpDatabase_ok (h : Host) (id prefix : string) (info : ContainerInfo)
      (archive a' : list Entry) (w w' : World) :
  dumpDatabase h id prefix info archive w = (w', Ok a') ->
  exists stdout stderr,
    execDump h id (dumpCommand info) = DumpFinished stdout stderr
    /\ stdout <> ""
    /\ a' = append archive (Bytes stdout) (Path.join [prefix; "dump.sql"]).
Proof.
  unfold dumpDatabase. intros H. inv_bind H. inv_bind H. inv_bind H.
  destruct (execDump h id (dumpCommand info)) as [msg| |stdout stderr];
    try discriminate.
  inv_bind H.
  destruct (Nat.eqb (String.length stdout) 0) eqn:E; [discriminate|].
  inv_bind H. apply ret_ok in H as [_ ->].
  exists stdout, stderr. repeat split.
  intros ->. discriminate.
Qed.

(** What [archiveContainerInternal] leaves in the archive when it returns:
    the dump first for a database image, then [config.json], then the
    volume entries. *)
Lemma archiveContainerInternal_ok (h : Host) (id prefix : string)
      (customPaths : option (list string)) (archive a' : list Entry) (w w' : World) :
  archiveContainerInternal h archive id prefix customPaths w = (w', Ok a') ->
  exists info cfg base,
    inspect h id = Ok info
    /\ (if isDbImage (Image info)
        then exists stdout, base = append archive (Bytes stdout) (Path.join [prefix; "dump.sql"])
        else base = archive)
    /\ extends (append base (ConfigJson cfg) (Path.join [prefix; "config.json"])) a'.
Proof.
  unfold archiveContainerInternal. intros H.
  inv_bind H. inv_bind H.
  unfold lift in Hstep0. destruct (inspect h id) as [info|msg] eqn:Hinfo;
    inversion Hstep0; subst; clear Hstep0.
  inv_bind H. inv_bind H. inv_bind H. inv_bind H.
  apply get_ok in Hstep1 as [-> ->]. apply lift_ok in Hstep2 as [-> _].
  apply get_ok in Hstep3 as [-> ->].
  assert (Hbase : if isDbImage (Image a0)
                  then exists stdout,
                      a1 = append archive (Bytes stdout) (Path.join [prefix; "dump.sql"])
                  else a1 = archive).
  { destruct (isDbImage (Image a0)).
    - apply dumpDatabase_ok in Hstep0 as (stdout & _ & _ & _ & ->). eauto.
    - apply ret_ok in Hstep0 as [_ ->]. reflexivity. }
  match type of H with
  | (match ?ps with [] => _ | _ :: _ => _ end) _ = _ => destruct ps
  end.
  - apply ret_ok in H as [_ ->].
    eexists a0, _, a1. split; [reflexivity|]. split; [exact Hbase|].
    apply extends_append.
  - eexists a0, _, a1. split; [reflexivity|]. split; [exact Hbase|].
    eapply archiveVolumes_extends. exact H.
Qed.

Lemma archiveContainerInternal_extends (h : Host) (id prefix : string)
      (customPaths : option (list string)) (archive a' : list Entry) (w w' : World) :
  archiveContainerInternal h archive id prefix customPaths w = (w', Ok a') ->
  extends archive a'.
Proof.
  intros H. apply archiveContainerInternal_ok in H as (info & cfg & base & _ & Hb & He).
  eapply extends_trans; [|exact He].
  eapply extends_trans; [|apply extends_append].
  destruct (isDbImage (Image info)).
  - destruct Hb as (stdout & ->). apply extends_append.
  - subst base. apply extends_refl.
Qed.

Lemma appendEnv_extends (h : Host) (virtualId : string)
      (stackConfig : option Storage.StackConfig) (archive a' : list Entry) (w w' : World) :
  appendEnv h virtualId stackConfig archive w = (w', Ok a') -> extends archive a'.
Proof.
  unfold appendEnv. intros H.
  destruct stackConfig as [sc|]; [|apply ret_ok in H as [_ ->]; apply extends_refl].
  destruct (Storage.envVars sc) as [[|kv vars]|].
  - destruct (Storage.envFile sc) as [f|];
      [|apply ret_ok in H as [_ ->]; apply extends_refl].
    destruct (if Js.truthy f then envFileContent h f else None).
    + inv_bind H. apply ret_ok in H as [_ ->]. apply extends_append.
    + apply ret_ok in H as [_ ->]. apply extends_refl.
  - inv_bind H. apply ret_ok in H as [_ ->]. apply extends_append.
  - destruct (Storage.envFile sc) as [f|];
      [|apply ret_ok in H as [_ ->]; apply extends_refl].
    destruct (if Js.truthy f then envFileContent h f else None).
    + inv_bind H. apply ret_ok in H as [_ ->]. apply extends_append.
    + apply ret_ok in H as [_ ->]. apply extends_refl.
Qed.

Lemma archiveServices_extends (h : Host) (virtualId : string) (n : nat)
      (cs : list ContainerSummary) :
  forall (i : nat) (archive a' : list Entry) (w w' : World),
    archiveServices h virtualId n i cs archive w = (w', Ok a') -> extends archive a'.
Proof.
  induction cs as [|c cs IH]; intros i archive a' w w' H; simpl in H.
  - apply ret_ok in H as [_ ->]. apply extends_refl.
  - inv_bind H. inv_bind H. inv_bind H.
    apply archiveContainerInternal_extends in Hstep1.
    eapply extends_trans; [exact Hstep1|]. eapply IH. exact H.
Qed.

Lemma entryNames_extends (a a' : list Entry) :
  extends a a' -> exists rest, entryNames a' = (entryNames a ++ rest)%list.
Proof.
  intros [more ->]. exists (entryNames more). unfold entryNames. apply List.map_app.
Qed.

(** C1 (amended). In the archive a single-container backup builds, the
    first entry appended is [config.json] when the image is not a database
    image; for a database image the first entry appended is [dump.sql] and
    [config.json] is the second. In the archive a unified stack backup
    builds, the first entry appended is [stack_metadata.json]. *)
Theorem first_appended_entries
        (h : Host) (id : string) (customPaths : option (list string))
        (w w' : World) (archive : list Entry) (info : ContainerInfo)
        (hs : Host) (virtualId stackName : string) (now : Z)
        (members : list ContainerSummary)
        (v v' : World) (stackArchive : list Entry) :
  (inspect h id = Ok info ->
   archiveContainerInternal h [] id "" customPaths w = (w', Ok archive) ->
   if isDbImage (Image info)
   then exists rest, entryNames archive = "dump.sql" :: "config.json" :: rest
   else exists rest, entryNames archive = "config.json" :: rest)
  /\ (unifiedArchive hs virtualId stackName now members v = (v', Ok stackArchive) ->
      exists rest, entryNames stackArchive = "stack_metadata.json" :: rest).
Proof.
  split.
  - intros Hinfo H.
    apply archiveContainerInternal_ok in H as (info' & cfg & base & Hinfo' & Hb & He).
    rewrite Hinfo in Hinfo'. inversion Hinfo'. subst info'.
    apply entryNames_extends in He as [rest He].
    destruct (isDbImage (Image info)).
    + destruct Hb as (stdout & ->). exists rest. rewrite He. reflexivity.
    + subst base. exists rest. rewrite He. reflexivity.
  - unfold unifiedArchive. intros H.
    inv_bind H. inv_bind H. inv_bind H.
    apply appendEnv_extends in Hstep1. apply archiveServices_extends in H.
    pose proof (extends_trans _ _ _ Hstep1 H) as He.
    destruct a as [sc|]; [destruct (Js.truthy (Storage.yaml sc))|].
    + pose proof (extends_trans _ _ _ (extends_append _ _ _) He) as He'.
      apply entryNames_extends in He' as [rest ->]. eexists. reflexivity.
    + apply entryNames_extends in He as [rest ->]. eexists. reflexivity.
    + apply entryNames_extends in He as [rest ->]. eexists. reflexivity.
Qed.

Definition okArchive (r : World * result (list Entry)) : list Entry :=
match snd r with
| Ok a => a
| Throw _ => []
end.

Definition pgRun : World * result (list Entry) :=
archiveContainerInternal (localHost (DumpFinished "CREATE ROLE app;" "")) []
  "pg-id" "" None freshWorld.

Definition shopRun : World * result (list Entry) :=
unifiedArchive shopHost "stack-shop" "shop" 1700000000000 shopMembers freshWorld.

(** The theorem at the Postgres container and at the stack [shop]. *)
Lemma first_appended_entries_witness :
  (exists rest, entryNames (okArchive pgRun) = "dump.sql" :: "config.json" :: rest)
  /\ (exists rest, entryNames (okArchive shopRun) = "stack_metadata.json" :: rest).
Proof.
  destruct (first_appended_entries
              (localHost (DumpFinished "CREATE ROLE app;" "")) "pg-id" None
              freshWorld (fst pgRun) (okArchive pgRun)
              (plainInfo "/db-1" "postgres:16"
                 ["POSTGRES_USER=app"; "POSTGRES_PASSWORD=s3cret"])
              shopHost "stack-shop" "shop" 1700000000000 shopMembers
              freshWorld (fst shopRun) (okArchive shopRun)) as [H1 H2].
  split.
  - apply H1; [reflexivity|]. vm_compute. reflexivity.
  - apply H2. vm_compute. reflexivity.
Defined.

(** C1 as stated fails in the database-dump branch: the artifact of the
    Postgres container starts with [dump.sql]; [config.json] comes second. *)
Lemma database_artifact_starts_with_dump :
  archived pgRun = Some ["dump.sql"; "config.json"; "volumes_none.txt"]
  /\ (List.hd_error <$> archived pgRun) <> Some (Some "config.json").
Proof. split; vm_compute; [reflexivity|discriminate]. Qed.

End EntryOrder.

(** ** The port prober *)

Section Ports.

(** [n] consecutive ports starting at [from]. *)
Fixpoint consecutive (from : Z) (n : nat) : list Z :=
match n with
| O => []
| S n' => from :: consecutive (from + 1) n'
end.

Lemma findAvailablePortLoop_spec (h : Host) (fuel : nat) :
  forall port : Z,
    (Z.to_nat (65535 - port) < fuel)%nat ->
    exists p probed,
      findAvailablePortLoop h fuel port = Some (p, probed)
      /\ port <= p
      /\ probed = consecutive port (S (Z.to_nat (p - port)))
      /\ (forall q, port <= q < p -> isPortAvailable h q = false)
      /\ (isPortAvailable h p = true \/ 65535 <= p)
      /\ p <= Z.max port 65535.
Proof.
  induction fuel as [|fuel IH]; intros port Hfuel; [lia|].
  simpl. destruct (negb (isPortAvailable h port) && (port <? 65535))%bool eqn:E.
  - apply andb_true_iff in E as [Hbusy Hlt].
    apply negb_true_iff in Hbusy. apply Z.ltb_lt in Hlt.
    destruct (IH (port + 1)) as (p & probed & -> & Hle & Hprobed & Hbefore & Hend & Hmax);
      [lia|].
    exists p, (port :: probed). repeat split.
    + lia.
    + rewrite Hprobed.
      replace (Z.to_nat (p - port)) with (S (Z.to_nat (p - (port + 1)))) by lia.
      reflexivity.
    + intros q Hq. destruct (Z.eq_dec q port) as [->|Hne]; [exact Hbusy|].
      apply Hbefore. lia.
    + exact Hend.
    + lia.
  - exists port, [port]. repeat split.
    + lia.
    + rewrite Z.sub_diag. reflexivity.
    + intros q Hq. lia.
    + apply andb_false_iff in E as [E|E].
      * left. apply negb_false_iff in E. exact E.
      * right. apply Z.ltb_ge in E. exact E.
    + lia.
Qed.

(** The loop always ends: the fuel [findAvailablePort] gives it suffices. *)
Lemma findAvailablePort_returns (h : Host) (startPort : Z) :
  exists p probed, findAvailablePort h startPort = Some (p, probed).
Proof.
  destruct (findAvailablePortLoop_spec h (S (Z.to_nat (65535 - startPort))) startPort)
    as (p & probed & E & _); [lia|].
  exists p, probed. exact E.
Qed.

(** C5 (amended). When some port from [H] up to 65535 is available, the
    prober returns the first available port [p] at or after [H]; it has
    probed exactly [H, H+1, ..., p], in this order, so nothing beyond
    65535. *)
Theorem findAvailablePort_first_available (h : Host) (H : Z) :
  (exists q, H <= q <= 65535 /\ isPortAvailable h q = true) ->
  exists p probed,
    findAvailablePort h H = Some (p, probed)
    /\ isPortAvailable h p = true
    /\ H <= p <= 65535
    /\ (forall q, H <= q < p -> isPortAvailable h q = false)
    /\ probed = consecutive H (S (Z.to_nat (p - H))).
Proof.
  intros (q & Hq & Hfree).
  destruct (findAvailablePortLoop_spec h (S (Z.to_nat (65535 - H))) H)
    as (p & probed & E & Hle & Hprobed & Hbefore & Hend & Hmax); [lia|].
  exists p, probed.
  assert (Hpq : p <= q).
  { destruct (Z.le_gt_cases p q) as [|Hgt]; [assumption|].
    rewrite (Hbefore q) in Hfree by lia. discriminate. }
  assert (Hp : isPortAvailable h p = true).
  { destruct Hend as [|Hge]; [assumption|].
    replace p with q by lia. exact Hfree. }
  repeat split; auto; lia.
Qed.

(** A host on which port 8080 is held by a listener, 8081 is published by
    a running container, and every other port is free. *)
Definition webHost : Host :=
{| containers := Ok [ {| Id := "c1"; Names := ["/c1"]; State := "running";
                         SummaryLabels := None;
                         Ports := [{| PublicPort := Some 8081 |}] |} ];
   inspect := fun _ => Throw "no such container";
   execDump := fun _ _ => DumpTimeout;
   getArchive := fun _ _ => Throw "no such container";
   TELEGRAM_TOKEN := None; CHAT_ID := None; TELEGRAM_API_ROOT := None;
   fetch := fun _ _ => FetchOk;
   zipSize := fun _ => 0;
   envFileContent := fun _ => None;
   hostPortBound := fun p => Z.eqb p 8080;
   cwd := "/app";
   ensureDir := fun _ => Ok tt;
   revalidatePath := fun _ => Ok tt |}.

(** The theorem at requested port 8080 on [webHost]: the answer is 8082. *)
Lemma findAvailablePort_first_available_witness :
  exists p probed,
    findAvailablePort webHost 8080 = Some (p, probed)
    /\ isPortAvailable webHost p = true
    /\ 8080 <= p <= 65535
    /\ (forall q, 8080 <= q < p -> isPortAvailable webHost q = false)
    /\ probed = consecutive 8080 (S (Z.to_nat (p - 8080))).
Proof.
  apply (findAvailablePort_first_available webHost 8080).
  exists 8082. split; [lia|reflexivity].
Defined.

Example findAvailablePort_webHost :
  findAvailablePort webHost 8080 = Some (8082, [8080; 8081; 8082]).
Proof. vm_compute. reflexivity. Qed.

(** A host on which every port is held by a listener. *)
Definition busyHost : Host :=
{| containers := Ok [];
   inspect := fun _ => Throw "no such container";
   execDump := fun _ _ => DumpTimeout;
   getArchive := fun _ _ => Throw "no such container";
   TELEGRAM_TOKEN := None; CHAT_ID := None; TELEGRAM_API_ROOT := None;
   fetch := fun _ _ => FetchOk;
   zipSize := fun _ => 0;
   envFileContent := fun _ => None;
   hostPortBound := fun _ => true;
   cwd := "/app";
   ensureDir := fun _ => Ok tt;
   revalidatePath := fun _ => Ok tt |}.

(** A host on which only port 65535 is free. *)
Definition lastPortHost : Host :=
{| containers := Ok [];
   inspect := fun _ => Throw "no such container";
   execDump := fun _ _ => DumpTimeout;
   getArchive := fun _ _ => Throw "no such container";
   TELEGRAM_TOKEN := None; CHAT_ID := None; TELEGRAM_API_ROOT := None;
   fetch := fun _ _ => FetchOk;
   zipSize := fun _ => 0;
   envFileContent := fun _ => None;
   hostPortBound := fun p => negb (Z.eqb p 65535);
   cwd := "/app";
   ensureDir := fun _ => Ok tt;
   revalidatePath := fun _ => Ok tt |}.

(** Port 65535 is selected when it is the first free port. *)
Example findAvailablePort_selects_free_65535 :
  findAvailablePort lastPortHost 65530
  = Some (65535, [65530; 65531; 65532; 65533; 65534; 65535])
  /\ isPortAvailable lastPortHost 65535 = true.
Proof. split; vm_compute; reflexivity. Qed.

(** C5 as stated fails: with no port available, the search from 65534
    probes 65535 and returns 65535, which is not available. *)
Lemma findAvailablePort_selects_65535 :
  findAvailablePort busyHost 65534 = Some (65535, [65534; 65535])
  /\ isPortAvailable busyHost 65535 = false.
Proof. split; vm_compute; reflexivity. Qed.

End Ports.

(** ** Clean-up of an existing stack before a unified restore *)

Section CleanUp.

(** The containers the clean-up removes: those of the project whose stop
    the engine does not refuse. *)
Definition removedBy (stackName : string) (c : EngineContainer) : bool :=
(inProject stackName c && negb (ec_stopRefused c))%bool.

Definition mounts (vol : string) (c : EngineContainer) : bool :=
existsb (String.eqb vol) (ec_volumes c).

(** A volume that some container in [gone] mounts and no other container
    does. *)
Definition orphanedBy (gone : EngineContainer -> bool) (cs : list EngineContainer)
           (vol : string) : bool :=
(existsb (fun c => gone c && mounts vol c) cs
 && negb (existsb (fun c => negb (gone c) && mounts vol c) cs))%bool.

Definition orphaned (stackName : string) (e : EngineState) (vol : string) : bool :=
orphanedBy (removedBy stackName) (e_containers e) vol.

Definition volumeAfter (stackName : string) (e : EngineState) (vol : string)
  : option VolumeKind :=
match e_volumes e !! vol with
| Some Anonymous => if orphaned stackName e vol then None else Some Anonymous
| other => other
end.

Lemma existsb_filter {A} (p g : A -> bool) (l : list A) :
  existsb g (List.filter p l) = existsb (fun x => p x && g x)%bool l.
Proof.
  induction l as [|a l IH]; [reflexivity|]. simpl.
  destruct (p a); simpl; rewrite IH; reflexivity.
Qed.

Lemma existsb_map {A B} (f : A -> B) (g : B -> bool) (l : list A) :
  existsb g (List.map f l) = existsb (fun x => g (f x)) l.
Proof.
  induction l as [|a l IH]; [reflexivity|]. simpl. rewrite IH. reflexivity.
Qed.

Lemma existsb_ext_in {A} (f g : A -> bool) (l : list A) :
  (forall x, List.In x l -> f x = g x) -> existsb f l = existsb g l.
Proof.
  induction l as [|a l IH]; intros H; [reflexivity|]. simpl.
  rewrite (H a (or_introl eq_refl)), IH; [reflexivity|].
  intros x Hx. apply H. right. exact Hx.
Qed.

Lemma existsb_or {A} (f g : A -> bool) (l : list A) :
  existsb (fun x => f x || g x)%bool l = (existsb f l || existsb g l)%bool.
Proof.
  induction l as [|a l IH]; [reflexivity|]. simpl. rewrite IH.
  destruct (f a), (g a), (existsb f l), (existsb g l); reflexivity.
Qed.

Lemma existsb_none {A} (f : A -> bool) (l : list A) :
  (forall x, List.In x l -> f x = false) -> existsb f l = false.
Proof.
  induction l as [|a l IH]; intros H; [reflexivity|]. simpl.
  rewrite (H a (or_introl eq_refl)), IH; [reflexivity|].
  intros x Hx. apply H. right. exact Hx.
Qed.

Lemma NoDup_map_eq {A B} (f : A -> B) (l : list A) (x y : A) :
  List.NoDup (List.map f l) -> List.In x l -> List.In y l -> f x = f y -> x = y.
Proof.
  induction l as [|a l IH]; intros Hnd Hx Hy Hf; [contradiction|].
  simpl in Hnd. inversion Hnd as [|? ? Hnotin Hnd']; subst.
  destruct Hx as [->|Hx], Hy as [->|Hy]; auto.
  - exfalso. apply Hnotin. rewrite Hf. apply List.in_map. exact Hy.
  - exfalso. apply Hnotin. rewrite <- Hf. apply List.in_map. exact Hx.
Qed.

Lemma hasId_same (l : list EngineContainer) (t x : EngineContainer) :
  List.NoDup (List.map ec_id l) -> List.In t l -> List.In x l ->
  hasId (ec_id t) x = true -> x = t.
Proof.
  intros Hnd Ht Hx H. apply String.eqb_eq in H.
  eapply NoDup_map_eq; eauto.
Qed.

Lemma hasId_refl (t : EngineContainer) : hasId (ec_id t) t = true.
Proof. apply String.eqb_refl. Qed.

(** Among containers with distinct ids only [t] has the id of [t]. *)
Lemma existsb_single (g : EngineContainer -> bool) (l : list EngineContainer)
      (t : EngineContainer) :
  List.NoDup (List.map ec_id l) -> List.In t l ->
  existsb (fun c => hasId (ec_id t) c && g c)%bool l = g t.
Proof.
  intros Hnd Ht. destruct (g t) eqn:Eg.
  - apply List.existsb_exists. exists t. rewrite hasId_refl, Eg. auto.
  - apply existsb_none. intros x Hx.
    destruct (hasId (ec_id t) x) eqn:E; [|reflexivity].
    rewrite (hasId_same l t x Hnd Ht Hx E). exact Eg.
Qed.

Lemma find_single (l : list EngineContainer) (t : EngineContainer) :
  List.NoDup (List.map ec_id l) -> List.In t l ->
  List.find (hasId (ec_id t)) l = Some t.
Proof.
  intros Hnd Ht.
  destruct (List.find (hasId (ec_id t)) l) as [x|] eqn:E.
  - apply List.find_some in E as [Hx Hid].
    rewrite (hasId_same l t x Hnd Ht Hx Hid). reflexivity.
  - pose proof (List.find_none _ _ E t Ht) as H. rewrite hasId_refl in H. discriminate.
Qed.

Lemma find_map {A} (p : A -> bool) (f : A -> A) (l : list A) :
  (forall x, p (f x) = p x) ->
  List.find p (List.map f l) = option_map f (List.find p l).
Proof.
  intros H. induction l as [|a l IH]; [reflexivity|]. simpl.
  rewrite H. destruct (p a); [reflexivity|exact IH].
Qed.

Lemma filter_map_untouched {A} (keep : A -> bool) (f : A -> A) (l : list A) :
  (forall x, List.In x l -> keep x = true -> f x = x) ->
  (forall x, List.In x l -> keep x = false -> keep (f x) = false) ->
  List.filter keep (List.map f l) = List.filter keep l.
Proof.
  induction l as [|a l IH]; intros Hk Hn; [reflexivity|]. simpl.
  destruct (keep a) eqn:Ea.
  - rewrite (Hk a (or_introl eq_refl) Ea), Ea. f_equal.
    apply IH; intros x Hx; [apply Hk|apply Hn]; right; exact Hx.
  - rewrite (Hn a (or_introl eq_refl) Ea).
    apply IH; intros x Hx; [apply Hk|apply Hn]; right; exact Hx.
Qed.

Lemma filter_filter {A} (p q : A -> bool) (l : list A) :
  List.filter p (List.filter q l) = List.filter (fun x => q x && p x)%bool l.
Proof.
  induction l as [|a l IH]; [reflexivity|]. simpl.
  destruct (q a); simpl; [destruct (p a)|]; rewrite IH; reflexivity.
Qed.

(** The container as [stop] leaves it. *)
Definition stopped (id : string) (c : EngineContainer) : EngineContainer :=
if hasId id c
then {| ec_id := ec_id c; ec_project := ec_project c; ec_running := false;
        ec_stopRefused := ec_stopRefused c; ec_volumes := ec_volumes c |}
else c.

Lemma stopped_id (id : string) (c : EngineContainer) : ec_id (stopped id c) = ec_id c.
Proof. unfold stopped. destruct (hasId id c); reflexivity. Qed.

Lemma stopped_volumes (id : string) (c : EngineContainer) :
  ec_volumes (stopped id c) = ec_volumes c.
Proof. unfold stopped. destruct (hasId id c); reflexivity. Qed.

Lemma stopped_hasId (id id' : string) (c : EngineContainer) :
  hasId id' (stopped id c) = hasId id' c.
Proof. unfold hasId. rewrite stopped_id. reflexivity. Qed.

(** The volume [vol] is deleted with the container [t]. *)
Definition doomedWith (e : EngineState) (t : EngineContainer) (vol : string) : bool :=
(mounts vol t
 && negb (existsb (fun c => negb (hasId (ec_id t) c) && mounts vol c) (e_containers e)))%bool.

(** One round of the loop on a container the engine refuses to stop: the
    catch skips the removal. *)
Lemma stopAndRemove_refused (e : EngineState) (t : EngineContainer) :
  List.NoDup (List.map ec_id (e_containers e)) -> List.In t (e_containers e) ->
  ec_stopRefused t = true -> stopAndRemove e t = e.
Proof.
  intros Hnd Ht Hr. unfold stopAndRemove, stop.
  rewrite (find_single _ _ Hnd Ht), Hr. reflexivity.
Qed.

(** [remove] with both options set, on a container the engine has. *)
Lemma remove_forced (id : string) (e : EngineState) (c : EngineContainer) :
  List.find (hasId id) (e_containers e) = Some c ->
  remove true true id e
  = Ok {| e_listFails := e_listFails e;
          e_containers := List.filter (fun c' => negb (hasId id c')) (e_containers e);
          e_volumes :=
            filter (fun kv => (is_anonymous kv.2
                               && (mounts kv.1 c
                                   && negb (mountedElsewhere id (e_containers e) kv.1)))%bool
                              = false)
                   (e_volumes e) |}.
Proof.
  intros H. unfold remove. rewrite H, andb_false_r. reflexivity.
Qed.

(** One round of the loop on a container the engine stops. *)
Lemma stopAndRemove_stopped (e : EngineState) (t : EngineContainer) :
  List.NoDup (List.map ec_id (e_containers e)) -> List.In t (e_containers e) ->
  ec_stopRefused t = false ->
  e_containers (stopAndRemove e t)
  = List.filter (fun c => negb (hasId (ec_id t) c)) (e_containers e)
  /\ forall vol,
       e_volumes (stopAndRemove e t) !! vol
       = match e_volumes e !! vol with
         | Some Anonymous => if doomedWith e t vol then None else Some Anonymous
         | other => other
         end.
Proof.
  intros Hnd Ht Hr. unfold stopAndRemove, stop.
  rewrite (find_single _ _ Hnd Ht), Hr.
  change (List.map _ (e_containers e)) with (List.map (stopped (ec_id t)) (e_containers e)).
  erewrite remove_forced; cycle 1.
  { simpl e_containers.
    rewrite (find_map _ _ _ (stopped_hasId (ec_id t) (ec_id t))), (find_single _ _ Hnd Ht).
    reflexivity. }
  simpl e_containers. simpl e_volumes. split.
  - apply filter_map_untouched.
    + intros x _ Hk. unfold stopped. destruct (hasId (ec_id t) x); [discriminate|reflexivity].
    + intros x _ Hk. rewrite stopped_hasId. exact Hk.
  - intros vol.
    assert (Hd : (mounts vol (stopped (ec_id t) t)
                  && negb (mountedElsewhere (ec_id t)
                             (List.map (stopped (ec_id t)) (e_containers e)) vol))%bool
                 = doomedWith e t vol).
    { unfold doomedWith, mounts, mountedElsewhere.
      rewrite stopped_volumes, existsb_map. f_equal. f_equal.
      apply existsb_ext_in. intros x _. rewrite stopped_hasId, stopped_volumes. reflexivity. }
    destruct (e_volumes e !! vol) as [[|]|] eqn:Ev.
    + destruct (doomedWith e t vol) eqn:Ed.
      * apply map_lookup_filter_None. right. intros k Hk.
        rewrite Ev in Hk. inversion Hk; subst k.
        cbv beta. cbn [fst snd is_anonymous andb]. rewrite Hd. discriminate.
      * apply map_lookup_filter_Some. split; [exact Ev|].
        cbv beta. cbn [fst snd is_anonymous andb]. rewrite Hd. reflexivity.
    + apply map_lookup_filter_Some. split; [exact Ev|]. reflexivity.
    + apply map_lookup_filter_None. left. exact Ev.
Qed.

Definition outsideProject (stackName : string) (c : EngineContainer) : bool :=
negb (inProject stackName c).

Lemma stop_volumes (t : Z) (id : string) (e e' : EngineState) :
  stop t id e = Ok e' -> e_volumes e' = e_volumes e.
Proof.
  unfold stop. destruct (List.find (hasId id) (e_containers e)) as [c|]; [|discriminate].
  destruct (ec_stopRefused c); [discriminate|].
  intros H. inversion H. reflexivity.
Qed.

Lemma remove_volumes_subseteq (v force : bool) (id : string) (e e' : EngineState) :
  remove v force id e = Ok e' -> e_volumes e' ⊆ e_volumes e.
Proof.
  unfold remove. destruct (List.find (hasId id) (e_containers e)) as [c|]; [|discriminate].
  destruct (ec_running c && negb force)%bool; [discriminate|].
  intros H. inversion H. simpl. apply map_filter_subseteq.
Qed.

Lemma remove_keeps_named (v force : bool) (id : string) (e e' : EngineState)
      (name : string) :
  remove v force id e = Ok e' ->
  e_volumes e !! name = Some Named -> e_volumes e' !! name = Some Named.
Proof.
  unfold remove. destruct (List.find (hasId id) (e_containers e)) as [c|]; [|discriminate].
  destruct (ec_running c && negb force)%bool; [discriminate|].
  intros H Hn. inversion H. simpl.
  apply map_lookup_filter_Some. split; [exact Hn|reflexivity].
Qed.

Lemma stopAndRemove_volumes (e : EngineState) (c : EngineContainer) :
  e_volumes (stopAndRemove e c) ⊆ e_volumes e
  /\ (forall name, e_volumes e !! name = Some Named ->
                   e_volumes (stopAndRemove e c) !! name = Some Named).
Proof.
  unfold stopAndRemove.
  destruct (stop 10 (ec_id c) e) as [e1|] eqn:Hstop; [|split; [reflexivity|auto]].
  apply stop_volumes in Hstop.
  destruct (remove true true (ec_id c) e1) as [e2|] eqn:Hrm.
  - split.
    + rewrite <- Hstop. eapply remove_volumes_subseteq. exact Hrm.
    + intros name Hn. eapply remove_keeps_named; [exact Hrm|]. rewrite Hstop. exact Hn.
  - rewrite Hstop. split; [reflexivity|auto].
Qed.

Lemma filter_filter_untouched {A} (keep drop : A -> bool) (l : list A) :
  (forall x, List.In x l -> keep x = true -> drop x = true) ->
  List.filter keep (List.filter drop l) = List.filter keep l.
Proof.
  induction l as [|a l IH]; intros H; [reflexivity|]. simpl.
  destruct (drop a) eqn:Ed; simpl; destruct (keep a) eqn:Ek.
  - f_equal. apply IH. intros x Hx. apply H. right. exact Hx.
  - apply IH. intros x Hx. apply H. right. exact Hx.
  - rewrite (H a (or_introl eq_refl) Ek) in Ed. discriminate.
  - apply IH. intros x Hx. apply H. right. exact Hx.
Qed.

(** Stopping and removing the container [id] leaves the containers outside
    the project as they are, when none of them has that id. *)
Lemma stopAndRemove_outside (stackName : string) (e : EngineState) (c : EngineContainer) :
  (forall x, List.In x (e_containers e) -> outsideProject stackName x = true ->
             hasId (ec_id c) x = false) ->
  List.filter (outsideProject stackName) (e_containers (stopAndRemove e c))
  = List.filter (outsideProject stackName) (e_containers e).
Proof.
  intros Hids. unfold stopAndRemove, stop.
  destruct (List.find (hasId (ec_id c)) (e_containers e)) as [c0|]; [|reflexivity].
  destruct (ec_stopRefused c0); [reflexivity|].
  set (stopped := List.map _ (e_containers e)).
  assert (Hstopped : List.filter (outsideProject stackName) stopped
                     = List.filter (outsideProject stackName) (e_containers e)).
  { apply filter_map_untouched.
    - intros x Hx Hout. rewrite (Hids x Hx Hout). reflexivity.
    - intros x Hx Hout. destruct (hasId (ec_id c) x); [|exact Hout].
      unfold outsideProject, inProject in *. simpl. exact Hout. }
  unfold remove. simpl e_containers.
  destruct (List.find (hasId (ec_id c)) stopped) as [c1|]; [|exact Hstopped].
  rewrite andb_false_r.
  simpl e_containers. rewrite <- Hstopped.
  apply filter_filter_untouched.
  intros x Hx Hout.
  assert (Hin : List.In x (List.filter (outsideProject stackName) stopped))
    by (apply List.filter_In; auto).
  rewrite Hstopped in Hin. apply List.filter_In in Hin as [Hin _].
  rewrite (Hids x Hin Hout). reflexivity.
Qed.

Lemma cleanUp_frame (stackName : string) (existing : list EngineContainer) :
  forall e : EngineState,
    (forall c x, List.In c existing -> List.In x (e_containers e) ->
                 outsideProject stackName x = true -> hasId (ec_id c) x = false) ->
    e_volumes (foldl stopAndRemove e existing) ⊆ e_volumes e
    /\ (forall name, e_volumes e !! name = Some Named ->
                     e_volumes (foldl stopAndRemove e existing) !! name = Some Named)
    /\ List.filter (outsideProject stackName)
                   (e_containers (foldl stopAndRemove e existing))
       = List.filter (outsideProject stackName) (e_containers e).
Proof.
  induction existing as [|c existing IH]; intros e Hids; simpl.
  - repeat split; auto.
  - destruct (stopAndRemove_volumes e c) as [Hsub Hnamed].
    pose proof (stopAndRemove_outside stackName e c
                  (fun x Hx Ho => Hids c x (or_introl eq_refl) Hx Ho)) as Hout.
    destruct (IH (stopAndRemove e c)) as (Hsub' & Hnamed' & Hout').
    { intros c' x Hc' Hx Ho.
      assert (Hin : List.In x (List.filter (outsideProject stackName)
                                 (e_containers (stopAndRemove e c))))
        by (apply List.filter_In; auto).
      rewrite Hout in Hin. apply List.filter_In in Hin as [Hin _].
      apply (Hids c' x (or_intror Hc') Hin Ho). }
    repeat split.
    + etransitivity; eassumption.
    + auto.
    + congruence.
Qed.

(** The containers that a run of the loop over [todo] removes. *)
Definition goneBy (todo : list EngineContainer) (c : EngineContainer) : bool :=
existsb (fun t => hasId (ec_id t) c && negb (ec_stopRefused t))%bool todo.

Lemma NoDup_map_filter {A B} (f : A -> B) (p : A -> bool) (l : list A) :
  List.NoDup (List.map f l) -> List.NoDup (List.map f (List.filter p l)).
Proof.
  induction l as [|a l IH]; intros H; [constructor|].
  simpl in H. inversion H as [|? ? Hn Hl]; subst. simpl.
  destruct (p a); [|auto]. simpl. constructor; [|auto].
  intros Hin. apply Hn. apply List.in_map_iff in Hin as (x & Hx & Hin).
  apply List.filter_In in Hin as [Hin _].
  rewrite <- Hx. apply List.in_map. exact Hin.
Qed.

(** Removing [t] first and the containers in [gone] afterwards orphans the
    volumes that removing all of them orphans. *)
Lemma orphanedBy_step (gone : EngineContainer -> bool) (e : EngineState)
      (t : EngineContainer) (vol : string) :
  List.NoDup (List.map ec_id (e_containers e)) -> List.In t (e_containers e) ->
  gone t = true ->
  orphanedBy gone (e_containers e) vol
  = (doomedWith e t vol
     || orphanedBy gone (List.filter (fun c => negb (hasId (ec_id t) c)) (e_containers e))
          vol)%bool.
Proof.
  intros Hnd Ht Hg. unfold orphanedBy, doomedWith. rewrite !existsb_filter.
  set (l := e_containers e) in *.
  set (A' := existsb (fun x => negb (hasId (ec_id t) x) && (gone x && mounts vol x))%bool l).
  set (S' := existsb (fun x => negb (hasId (ec_id t) x) && (negb (gone x) && mounts vol x))%bool l).
  assert (HS : existsb (fun c => negb (gone c) && mounts vol c)%bool l = S').
  { apply existsb_ext_in. intros x Hx.
    destruct (hasId (ec_id t) x) eqn:E; [|reflexivity].
    rewrite (hasId_same l t x Hnd Ht Hx E), Hg. reflexivity. }
  assert (HA : existsb (fun c => gone c && mounts vol c)%bool l = (mounts vol t || A')%bool).
  { rewrite <- (existsb_single (mounts vol) l t Hnd Ht). unfold A'.
    rewrite <- existsb_or. apply existsb_ext_in. intros x Hx.
    destruct (hasId (ec_id t) x) eqn:E; [|reflexivity].
    rewrite (hasId_same l t x Hnd Ht Hx E), Hg. destruct (mounts vol t); reflexivity. }
  assert (HE : existsb (fun c => negb (hasId (ec_id t) c) && mounts vol c)%bool l
               = (A' || S')%bool).
  { unfold A', S'. rewrite <- existsb_or. apply existsb_ext_in. intros x _.
    destruct (hasId (ec_id t) x), (gone x), (mounts vol x); reflexivity. }
  rewrite HS, HA, HE.
  destruct (mounts vol t), A', S'; reflexivity.
Qed.

(** The loop over [todo], containers of the engine with distinct ids. *)
Lemma cleanUp_exact (gone : EngineContainer -> bool) (todo : list EngineContainer) :
  forall e : EngineState,
    List.NoDup (List.map ec_id (e_containers e)) ->
    List.NoDup (List.map ec_id todo) ->
    (forall t, List.In t todo -> List.In t (e_containers e)) ->
    (forall c, List.In c (e_containers e) -> gone c = goneBy todo c) ->
    e_containers (foldl stopAndRemove e todo)
    = List.filter (fun c => negb (gone c)) (e_containers e)
    /\ forall vol,
         e_volumes (foldl stopAndRemove e todo) !! vol
         = match e_volumes e !! vol with
           | Some Anonymous =>
               if orphanedBy gone (e_containers e) vol then None else Some Anonymous
           | other => other
           end.
Proof.
  induction todo as [|t rest IH]; intros e Hnd Hnt Hin Hgone.
  - simpl. split.
    + symmetry. apply List.forallb_filter_id. apply List.forallb_forall.
      intros x Hx. rewrite (Hgone x Hx). reflexivity.
    + intros vol. unfold orphanedBy.
      rewrite (existsb_none (fun c => gone c && mounts vol c)%bool).
      * destruct (e_volumes e !! vol) as [[|]|]; reflexivity.
      * intros x Hx. rewrite (Hgone x Hx). reflexivity.
  - simpl foldl. simpl in Hnt. inversion Hnt as [|? ? Hfresh Hnt']; subst.
    assert (Ht : List.In t (e_containers e)) by (apply Hin; left; reflexivity).
    destruct (ec_stopRefused t) eqn:Hr.
    + rewrite (stopAndRemove_refused e t Hnd Ht Hr).
      apply IH; auto.
      * intros t' Ht'. apply Hin. right. exact Ht'.
      * intros c Hc. rewrite (Hgone c Hc). unfold goneBy. simpl.
        rewrite Hr, andb_false_r. reflexivity.
    + destruct (stopAndRemove_stopped e t Hnd Ht Hr) as [Hcs Hvs].
      assert (Hg : gone t = true).
      { rewrite (Hgone t Ht). unfold goneBy. simpl. rewrite hasId_refl, Hr. reflexivity. }
      destruct (IH (stopAndRemove e t)) as [Hcs' Hvs'].
      * rewrite Hcs. apply NoDup_map_filter. exact Hnd.
      * exact Hnt'.
      * intros t' Ht'. rewrite Hcs. apply List.filter_In. split.
        -- apply Hin. right. exact Ht'.
        -- unfold hasId. destruct (String.eqb (ec_id t') (ec_id t)) eqn:E; [|reflexivity].
           apply String.eqb_eq in E. exfalso. apply Hfresh. rewrite <- E.
           apply List.in_map. exact Ht'.
      * intros c Hc. rewrite Hcs in Hc. apply List.filter_In in Hc as [Hc Hn].
        rewrite (Hgone c Hc). unfold goneBy. simpl.
        apply negb_true_iff in Hn. rewrite Hn. reflexivity.
      * split.
        -- rewrite Hcs', Hcs, filter_filter. apply List.filter_ext_in. intros x Hx.
           destruct (hasId (ec_id t) x) eqn:E; [|reflexivity].
           rewrite (hasId_same _ t x Hnd Ht Hx E), Hg. reflexivity.
        -- intros vol. rewrite Hvs', Hvs, Hcs.
           rewrite (orphanedBy_step gone e t vol Hnd Ht Hg).
           destruct (e_volumes e !! vol) as [[|]|]; [|reflexivity|reflexivity].
           destruct (doomedWith e t vol); reflexivity.
Qed.

(** With distinct ids, the loop over the containers of the project removes
    those whose stop is not refused. *)
Lemma removedBy_goneBy (stackName : string) (l : list EngineContainer)
      (c : EngineContainer) :
  List.NoDup (List.map ec_id l) -> List.In c l ->
  removedBy stackName c = goneBy (List.filter (inProject stackName) l) c.
Proof.
  intros Hnd Hc. unfold goneBy. destruct (removedBy stackName c) eqn:E.
  - symmetry. apply List.existsb_exists. exists c.
    unfold removedBy in E. apply andb_true_iff in E as [Ep Er].
    split; [apply List.filter_In; auto|]. rewrite hasId_refl. exact Er.
  - symmetry. apply existsb_none. intros t Ht.
    apply List.filter_In in Ht as [Ht Hp].
    destruct (hasId (ec_id t) c) eqn:Eid; [|reflexivity].
    rewrite (hasId_same l t c Hnd Ht Hc Eid) in E.
    unfold removedBy in E. rewrite Hp in E. exact E.
Qed.

(** C6 (amended). On an engine whose container ids are distinct, the
    clean-up of the stack [stackName] does nothing when the engine fails to
    list the containers. Otherwise the containers that are gone afterwards
    are exactly those of the stack whose stop the engine does not refuse,
    the others being left as they are, and the volumes that are gone are
    exactly the anonymous volumes that a removed container mounts and no
    remaining container does. In both cases no named volume is deleted, no
    volume is added or changed, and the containers outside the stack are as
    they were. *)
Theorem cleanExistingStack_keeps_named_volumes (stackName : string) (e : EngineState) :
  List.NoDup (List.map ec_id (e_containers e)) ->
  (if e_listFails e then cleanExistingStack stackName e = e
   else e_containers (cleanExistingStack stackName e)
        = List.filter (fun c => negb (removedBy stackName c)) (e_containers e)
        /\ forall vol, e_volumes (cleanExistingStack stackName e) !! vol
                       = volumeAfter stackName e vol)
  /\ e_volumes (cleanExistingStack stackName e) ⊆ e_volumes e
  /\ (forall name, e_volumes e !! name = Some Named ->
                   e_volumes (cleanExistingStack stackName e) !! name = Some Named)
  /\ List.filter (outsideProject stackName)
                 (e_containers (cleanExistingStack stackName e))
     = List.filter (outsideProject stackName) (e_containers e).
Proof.
  intros Hnd. unfold cleanExistingStack.
  destruct (e_listFails e); [repeat split; auto|].
  split.
  - apply cleanUp_exact; auto.
    + apply NoDup_map_filter. exact Hnd.
    + intros t Ht. apply List.filter_In in Ht as [Ht _]. exact Ht.
    + intros c Hc. apply removedBy_goneBy; assumption.
  - apply cleanUp_frame.
    intros c x Hc Hx Hout.
    apply List.filter_In in Hc as [Hc Hin].
    unfold hasId. destruct (String.eqb (ec_id x) (ec_id c)) eqn:E; [|reflexivity].
    apply String.eqb_eq in E.
    assert (x = c) by (eapply NoDup_map_eq; eauto). subst x.
    unfold outsideProject in Hout. rewrite Hin in Hout. discriminate.
Qed.

(** An engine with the running container of an earlier [shop] stack, which
    mounts the named volume [shop_data] and an anonymous volume, and a
    container of another project. *)
Definition sampleEngine : EngineState :=
{| e_listFails := false;
   e_containers :=
     [ {| ec_id := "old-web"; ec_project := Some "shop"; ec_running := true;
          ec_stopRefused := false; ec_volumes := ["shop_data"; "4f2a9c"] |};
       {| ec_id := "blog"; ec_project := Some "blog"; ec_running := true;
          ec_stopRefused := false; ec_volumes := ["blog_data"] |} ];
   e_volumes := list_to_map [("shop_data", Named); ("4f2a9c", Anonymous);
                             ("blog_data", Named)] |}.

(** The theorem at [sampleEngine]. *)
Lemma cleanExistingStack_keeps_named_volumes_witness :
  (e_containers (cleanExistingStack "shop" sampleEngine)
   = List.filter (fun c => negb (removedBy "shop" c)) (e_containers sampleEngine)
   /\ forall vol, e_volumes (cleanExistingStack "shop" sampleEngine) !! vol
                  = volumeAfter "shop" sampleEngine vol)
  /\ e_volumes (cleanExistingStack "shop" sampleEngine) ⊆ e_volumes sampleEngine
  /\ (forall name, e_volumes sampleEngine !! name = Some Named ->
                   e_volumes (cleanExistingStack "shop" sampleEngine) !! name = Some Named)
  /\ List.filter (outsideProject "shop")
                 (e_containers (cleanExistingStack "shop" sampleEngine))
     = List.filter (outsideProject "shop") (e_containers sampleEngine).
Proof.
  apply (cleanExistingStack_keeps_named_volumes "shop" sampleEngine).
  simpl. repeat constructor; simpl; intuition discriminate.
Defined.

(** C6 as stated fails: the clean-up removes the containers with the
    engine's volume option set, and the anonymous volume of the old
    container is gone afterwards. *)
Lemma cleanExistingStack_deletes_anonymous_volume :
  e_volumes sampleEngine !! "4f2a9c" = Some Anonymous
  /\ e_volumes (cleanExistingStack "shop" sampleEngine) !! "4f2a9c" = None
  /\ List.map ec_id (e_containers (cleanExistingStack "shop" sampleEngine)) = ["blog"].
Proof. vm_compute. repeat split; reflexivity. Qed.

(** The sample engine when it refuses to stop the old container. *)
Definition stubbornEngine : EngineState :=
{| e_listFails := false;
   e_containers :=
     [ {| ec_id := "old-web"; ec_project := Some "shop"; ec_running := true;
          ec_stopRefused := true; ec_volumes := ["shop_data"; "4f2a9c"] |};
       {| ec_id := "blog"; ec_project := Some "blog"; ec_running := true;
          ec_stopRefused := false; ec_volumes := ["blog_data"] |} ];
   e_volumes := e_volumes sampleEngine |}.

(** A container whose stop is refused stays, with its volumes: the removal
    that follows the stop in the same [try] is skipped. *)
Lemma cleanExistingStack_refused_stop :
  cleanExistingStack "shop" stubbornEngine = stubbornEngine.
Proof. reflexivity. Qed.

End CleanUp.

(** ** The uploader *)

Section Upload.

Lemma globalState_head (w : World) (e : JobEvent) (log : list JobEvent) :
  jobLog w = e :: log ->
  globalState w !! ev_id e
  = Some {| Queue.status := ev_status e; Queue.message := ev_message e;
            Queue.lastUpdated := ev_at e |}.
Proof.
  intros H. unfold globalState. rewrite H. simpl.
  unfold applyEvent, Queue.updateJobStatus. apply lookup_insert_eq.
Qed.

Lemma addHistoryEntry_head (entry : Storage.HistoryEntry) (f : Storage.HistoryFile) :
  List.hd_error (Storage.getHistory (Storage.addHistoryEntry entry f)) = Some entry.
Proof.
  unfold Storage.addHistoryEntry.
  set (h := Storage.getHistory f).
  destruct (200 <? Z.of_nat (length (entry :: h))) eqn:E; [|reflexivity].
  apply Z.ltb_lt in E. unfold Storage.pop.
  destruct h as [|e0 h]; [simpl in E; lia|]. reflexivity.
Qed.

(** The text of the error the upload ends with. *)
Definition uploadError (o : FetchOutcome) : string :=
match o with
| FetchOk => ""
| FetchNotOk status body =>
    "Telegram Upload Failed: " +:+ Js.showZ status +:+ " " +:+ body
| FetchThrows msg => msg
end.

(** C10. With the document endpoint configured and the artifact on disk,
    an upload that does not succeed leaves the job in status [completed]
    with message [Saved Local (Telegram Failed)], puts one history entry
    with status [failed], destination [local] and the upload error in its
    message at the head of the history, and leaves the backup directory,
    the artifact included, as it was. *)
Theorem handleUpload_telegram_failure
        (h : Host) (containerId filePath : string) (w : World) (file : File) :
  Js.opt_truthy (TELEGRAM_TOKEN h) = true ->
  Js.opt_truthy (CHAT_ID h) = true ->
  fs w !! filePath = Some file ->
  fetch h (documentUrl h) (Path.basename filePath) <> FetchOk ->
  let entry :=
    historyEntry (clock w) (Path.basename filePath) Storage.failed Storage.local
      ("Telegram upload failed: "
       +:+ uploadError (fetch h (documentUrl h) (Path.basename filePath))) None in
  exists w',
    handleUpload h containerId filePath w = (w', Ok tt)
    /\ globalState w' !! containerId
       = Some {| Queue.status := Queue.completed;
                 Queue.message := Some "Saved Local (Telegram Failed)";
                 Queue.lastUpdated := clock w |}
    /\ historyFile w' = Storage.addHistoryEntry entry (historyFile w)
    /\ List.hd_error (Storage.getHistory (historyFile w')) = Some entry
    /\ fs w' = fs w
    /\ fs w' !! filePath = Some file.
Proof.
  intros Htoken Hchat Hfile Hfetch entry.
  unfold handleUpload. rewrite Htoken, Hchat. cbn [andb]. cbv beta iota.
  unfold bind at 1. unfold updateJobStatus at 1.
  unfold tryCatch. unfold bind at 1. unfold statSize. cbn [fs]. rewrite Hfile.
  exists {| clock := clock w;
            jobLog := {| ev_id := containerId; ev_status := Queue.completed;
                         ev_message := Some "Saved Local (Telegram Failed)";
                         ev_at := clock w |}
                      :: {| ev_id := containerId; ev_status := Queue.uploading;
                            ev_message := Some "Sending to Telegram...";
                            ev_at := clock w |}
                      :: jobLog w;
            historyFile := Storage.addHistoryEntry entry (historyFile w);
            stacks := stacks w;
            fs := fs w |}.
  split.
  - subst entry.
    destruct file; destruct (fetch h (documentUrl h) (Path.basename filePath));
      try congruence; reflexivity.
  - repeat split.
    + unfold globalState. cbn [jobLog replay foldr].
      unfold applyEvent at 1. unfold Queue.updateJobStatus.
      cbn [ev_id ev_status ev_message ev_at]. apply lookup_insert_eq.
    + apply addHistoryEntry_head.
    + exact Hfile.
Qed.

End Upload.

Section UploadSamples.

Definition telegramHost (sent : FetchOutcome) : Host :=
sampleHost DumpTimeout (Some "123:abc") (Some "-1001") sent.

Definition artifactPath : string := "/app/backups/nginx-1_1700000000000.zip".

Definition worldWithArtifact : World :=
{| clock := 1700000000000; jobLog := []; historyFile := Storage.Missing;
   stacks := ∅;
   fs := {[ artifactPath := ZipFile [{| entryName := "config.json"; content := Text "{}" |}]
                              true ]} |}.

(** The theorem at an upload refused with status 413. *)
Lemma handleUpload_telegram_failure_witness :
  exists w',
    handleUpload (telegramHost (FetchNotOk 413 "Request Entity Too Large"))
      "nginx-id" artifactPath worldWithArtifact = (w', Ok tt)
    /\ globalState w' !! "nginx-id"
       = Some {| Queue.status := Queue.completed;
                 Queue.message := Some "Saved Local (Telegram Failed)";
                 Queue.lastUpdated := 1700000000000 |}
    /\ historyFile w'
       = Storage.addHistoryEntry
           (historyEntry 1700000000000 "nginx-1_1700000000000.zip" Storage.failed
              Storage.local
              "Telegram upload failed: Telegram Upload Failed: 413 Request Entity Too Large"
              None)
           Storage.Missing
    /\ List.hd_error (Storage.getHistory (historyFile w'))
       = Some (historyEntry 1700000000000 "nginx-1_1700000000000.zip" Storage.failed
                 Storage.local
                 "Telegram upload failed: Telegram Upload Failed: 413 Request Entity Too Large"
                 None)
    /\ fs w' = fs worldWithArtifact
    /\ fs w' !! artifactPath
       = Some (ZipFile [{| entryName := "config.json"; content := Text "{}" |}] true).
Proof.
  apply (handleUpload_telegram_failure
           (telegramHost (FetchNotOk 413 "Request Entity Too Large"))
           "nginx-id" artifactPath worldWithArtifact
           (ZipFile [{| entryName := "config.json"; content := Text "{}" |}] true)).
  - reflexivity.
  - reflexivity.
  - vm_compute. reflexivity.
  - discriminate.
Defined.

End UploadSamples.

(** ** What the backup functions leave alone *)

Section Frames.

(** [c] leaves the history file as it is, whether it returns or throws. *)
Definition keepsHistory {A} (c : M A) : Prop :=
forall w, historyFile (fst (c w)) = historyFile w.

Lemma keepsHistory_same {A} (c : M A) :
  (forall w, fst (c w) = w) -> keepsHistory c.
Proof. intros H w. rewrite H. reflexivity. Qed.

Lemma keepsHistory_ret {A} (a : A) : keepsHistory (ret a).
Proof. intros w. reflexivity. Qed.

Lemma keepsHistory_throw {A} (msg : string) : keepsHistory (@throw A msg).
Proof. intros w. reflexivity. Qed.

Lemma keepsHistory_lift {A} (r : result A) : keepsHistory (lift r).
Proof. intros w. reflexivity. Qed.

Lemma keepsHistory_get {A} (f : World -> A) : keepsHistory (get f).
Proof. intros w. reflexivity. Qed.

Lemma keepsHistory_setFs (f : gmap string File -> gmap string File) :
  keepsHistory (setFs f).
Proof. intros w. reflexivity. Qed.

Lemma keepsHistory_updateJobStatus (id : string) (st : Queue.JobStatus) (msg : string) :
  keepsHistory (updateJobStatus id st msg).
Proof. intros w. reflexivity. Qed.

Lemma keepsHistory_bind {A B} (c : M A) (k : A -> M B) :
  keepsHistory c -> (forall a, keepsHistory (k a)) -> keepsHistory (bind c k).
Proof.
  intros Hc Hk w. unfold bind. specialize (Hc w).
  destruct (c w) as [w1 [a|msg]]; cbn [fst] in *; [rewrite Hk|]; exact Hc.
Qed.

Lemma keepsHistory_tryCatch {A} (c : M A) (handler : string -> M A) :
  keepsHistory c -> (forall msg, keepsHistory (handler msg)) ->
  keepsHistory (tryCatch c handler).
Proof.
  intros Hc Hh w. unfold tryCatch. specialize (Hc w).
  destruct (c w) as [w1 [a|msg]]; cbn [fst] in *; [|rewrite Hh]; exact Hc.
Qed.

Ltac keeps :=
  repeat first
    [ apply keepsHistory_ret | apply keepsHistory_throw | apply keepsHistory_lift
    | apply keepsHistory_get | apply keepsHistory_setFs
    | apply keepsHistory_updateJobStatus
    | apply keepsHistory_bind | apply keepsHistory_tryCatch
    | progress intros
    | match goal with
      | |- keepsHistory (match ?x with _ => _ end) => destruct x
      | |- keepsHistory (if ?x then _ else _) => destruct x
      end ].

Lemma keepsHistory_archiveVolumes (h : Host) (id prefix : string) (paths : list string) :
  forall archive, keepsHistory (archiveVolumes h id prefix archive paths).
Proof.
  induction paths as [|p paths IH]; intros archive; simpl.
  - keeps.
  - apply keepsHistory_bind; [unfold archiveVolume; keeps|exact IH].
Qed.

Lemma keepsHistory_archiveContainerInternal (h : Host) (id prefix : string)
      (customPaths : option (list string)) (archive : list Entry) :
  keepsHistory (archiveContainerInternal h archive id prefix customPaths).
Proof.
  unfold archiveContainerInternal.
  apply keepsHistory_bind; [keeps|intros _].
  apply keepsHistory_bind; [keeps|intros info].
  apply keepsHistory_bind; [|intros a].
  { destruct (isDbImage (Image info)); [unfold dumpDatabase|]; keeps. }
  apply keepsHistory_bind; [keeps|intros found].
  apply keepsHistory_bind; [keeps|intros paths].
  apply keepsHistory_bind; [keeps|intros now].
  destruct paths; [keeps|apply keepsHistory_archiveVolumes].
Qed.

Lemma keepsHistory_generateBackupFile (h : Host) (id dir : string)
      (customPaths : option (list string)) :
  keepsHistory (generateBackupFile h id dir customPaths).
Proof.
  unfold generateBackupFile, asyncExecutor.
  apply keepsHistory_bind; [keeps|intros info].
  apply keepsHistory_bind; [keeps|intros now].
  apply keepsHistory_bind; [keeps|intros _].
  apply keepsHistory_bind; [|keeps].
  apply keepsHistory_tryCatch; [|keeps].
  apply keepsHistory_bind; [apply keepsHistory_archiveContainerInternal|keeps].
Qed.

Lemma keepsHistory_stackMembers (cs : list ContainerSummary) :
  keepsHistory (stackMembers cs).
Proof.
  induction cs as [|c cs IH]; simpl; [keeps|].
  apply keepsHistory_bind; [unfold firstName; keeps|intros n].
  apply keepsHistory_bind; [exact IH|keeps].
Qed.

Lemma keepsHistory_archiveServices (h : Host) (virtualId : string) (n : nat)
      (cs : list ContainerSummary) :
  forall i archive, keepsHistory (archiveServices h virtualId n i cs archive).
Proof.
  induction cs as [|c cs IH]; intros i archive; simpl; [keeps|].
  apply keepsHistory_bind; [unfold firstName; keeps|intros cName].
  apply keepsHistory_bind; [keeps|intros _].
  apply keepsHistory_bind; [apply keepsHistory_archiveContainerInternal|intros a].
  apply IH.
Qed.

Lemma keepsHistory_appendEnv (h : Host) (virtualId : string)
      (stackConfig : option Storage.StackConfig) (archive : list Entry) :
  keepsHistory (appendEnv h virtualId stackConfig archive).
Proof.
  unfold appendEnv.
  destruct stackConfig as [sc|]; [|keeps].
  destruct (Storage.envVars sc) as [[|kv vars]|]; [|keeps|];
    (destruct (Storage.envFile sc) as [f|]; [|keeps];
     destruct (if Js.truthy f then envFileContent h f else None); keeps).
Qed.

Lemma keepsHistory_unifiedArchive (h : Host) (virtualId stackName : string) (now : Z)
      (cs : list ContainerSummary) :
  keepsHistory (unifiedArchive h virtualId stackName now cs).
Proof.
  unfold unifiedArchive.
  apply keepsHistory_bind; [keeps|intros sc].
  apply keepsHistory_bind; [apply keepsHistory_stackMembers|intros ms].
  apply keepsHistory_bind; [apply keepsHistory_appendEnv|intros a].
  apply keepsHistory_archiveServices.
Qed.

(** [c] finalizes no artifact: a file that is a finalized zip afterwards
    was this finalized zip before. *)
Definition finalizesNothing {A} (c : M A) : Prop :=
forall w path es,
  fs (fst (c w)) !! path = Some (ZipFile es true) -> fs w !! path = Some (ZipFile es true).

Lemma finalizesNothing_same {A} (c : M A) :
  (forall w, fs (fst (c w)) = fs w) -> finalizesNothing c.
Proof. intros H w path es. rewrite H. auto. Qed.

Lemma finalizesNothing_insert_plain (path bytes : string) :
  finalizesNothing (setFs (insert path (PlainFile bytes))).
Proof.
  intros w p es. unfold setFs. cbn [fst fs].
  rewrite lookup_insert. case_decide; [discriminate|auto].
Qed.

Lemma finalizesNothing_insert_open (path : string) (entries : list Entry) :
  finalizesNothing (setFs (insert path (ZipFile entries false))).
Proof.
  intros w p es. unfold setFs. cbn [fst fs].
  rewrite lookup_insert. case_decide; [discriminate|auto].
Qed.

Lemma finalizesNothing_delete (path : string) :
  finalizesNothing (setFs (delete path)).
Proof.
  intros w p es. unfold setFs. cbn [fst fs].
  rewrite lookup_delete. case_decide; [discriminate|auto].
Qed.

Lemma finalizesNothing_bind {A B} (c : M A) (k : A -> M B) :
  finalizesNothing c -> (forall a, finalizesNothing (k a)) -> finalizesNothing (bind c k).
Proof.
  intros Hc Hk w path es. unfold bind. specialize (Hc w path es).
  destruct (c w) as [w1 [a|msg]]; cbn [fst] in *; [|exact Hc].
  intros H. apply Hc. eapply Hk. exact H.
Qed.

Lemma finalizesNothing_tryCatch {A} (c : M A) (handler : string -> M A) :
  finalizesNothing c -> (forall msg, finalizesNothing (handler msg)) ->
  finalizesNothing (tryCatch c handler).
Proof.
  intros Hc Hh w path es. unfold tryCatch. specialize (Hc w path es).
  destruct (c w) as [w1 [a|msg]]; cbn [fst] in *; [exact Hc|].
  intros H. apply Hc. eapply Hh. exact H.
Qed.

Ltac quiet :=
  repeat first
    [ apply finalizesNothing_insert_plain | apply finalizesNothing_insert_open
    | apply finalizesNothing_delete
    | apply finalizesNothing_bind | apply finalizesNothing_tryCatch
    | progress intros
    | match goal with
      | |- finalizesNothing (match ?x with _ => _ end) => destruct x
      | |- finalizesNothing (if ?x then _ else _) => destruct x
      end
    | (apply finalizesNothing_same; intros; reflexivity) ].

Lemma finalizesNothing_archiveVolumes (h : Host) (id prefix : string) (paths : list string) :
  forall archive, finalizesNothing (archiveVolumes h id prefix archive paths).
Proof.
  induction paths as [|p paths IH]; intros archive; simpl.
  - quiet.
  - apply finalizesNothing_bind; [unfold archiveVolume; quiet|exact IH].
Qed.

Lemma finalizesNothing_archiveContainerInternal (h : Host) (id prefix : string)
      (customPaths : option (list string)) (archive : list Entry) :
  finalizesNothing (archiveContainerInternal h archive id prefix customPaths).
Proof.
  unfold archiveContainerInternal.
  apply finalizesNothing_bind; [quiet|intros _].
  apply finalizesNothing_bind; [quiet|intros info].
  apply finalizesNothing_bind; [|intros a].
  { destruct (isDbImage (Image info)); [unfold dumpDatabase|]; quiet. }
  apply finalizesNothing_bind; [quiet|intros found].
  apply finalizesNothing_bind; [quiet|intros paths].
  apply finalizesNothing_bind; [quiet|intros now].
  destruct paths; [quiet|apply finalizesNothing_archiveVolumes].
Qed.

Lemma finalizesNothing_stackMembers (cs : list ContainerSummary) :
  finalizesNothing (stackMembers cs).
Proof.
  induction cs as [|c cs IH]; simpl; [quiet|].
  apply finalizesNothing_bind; [unfold firstName; quiet|intros n].
  apply finalizesNothing_bind; [exact IH|quiet].
Qed.

Lemma finalizesNothing_archiveServices (h : Host) (virtualId : string) (n : nat)
      (cs : list ContainerSummary) :
  forall i archive, finalizesNothing (archiveServices h virtualId n i cs archive).
Proof.
  induction cs as [|c cs IH]; intros i archive; simpl; [quiet|].
  apply finalizesNothing_bind; [unfold firstName; quiet|intros cName].
  apply finalizesNothing_bind; [quiet|intros _].
  apply finalizesNothing_bind; [apply finalizesNothing_archiveContainerInternal|intros a].
  apply IH.
Qed.

Lemma finalizesNothing_appendEnv (h : Host) (virtualId : string)
      (stackConfig : option Storage.StackConfig) (archive : list Entry) :
  finalizesNothing (appendEnv h virtualId stackConfig archive).
Proof.
  unfold appendEnv.
  destruct stackConfig as [sc|]; [|quiet].
  destruct (Storage.envVars sc) as [[|kv vars]|]; [|quiet|];
    (destruct (Storage.envFile sc) as [f|]; [|quiet];
     destruct (if Js.truthy f then envFileContent h f else None); quiet).
Qed.

Lemma finalizesNothing_unifiedArchive (h : Host) (virtualId stackName : string) (now : Z)
      (cs : list ContainerSummary) :
  finalizesNothing (unifiedArchive h virtualId stackName now cs).
Proof.
  unfold unifiedArchive.
  apply finalizesNothing_bind; [quiet|intros sc].
  apply finalizesNothing_bind; [apply finalizesNothing_stackMembers|intros ms].
  apply finalizesNothing_bind; [apply finalizesNothing_appendEnv|intros a].
  apply finalizesNothing_archiveServices.
Qed.

End Frames.

(** ** An empty database dump *)

Section EmptyDump.

(** [h] with what the dump commands wrote to their standard error erased. *)
Definition muteStderr (h : Host) : Host :=
{| containers := containers h;
   inspect := inspect h;
   execDump := fun id cmd =>
     match execDump h id cmd with
     | DumpFinished stdout _ => DumpFinished stdout ""
     | o => o
     end;
   getArchive := getArchive h;
   TELEGRAM_TOKEN := TELEGRAM_TOKEN h;
   CHAT_ID := CHAT_ID h;
   TELEGRAM_API_ROOT := TELEGRAM_API_ROOT h;
   fetch := fetch h;
   zipSize := zipSize h;
   envFileContent := envFileContent h;
   hostPortBound := hostPortBound h;
   cwd := cwd h;
   ensureDir := ensureDir h;
   revalidatePath := revalidatePath h |}.

(** Two computations that do the same in every world. *)
Definition same {A} (c c' : M A) : Prop := forall w, c w = c' w.

Lemma same_refl {A} (c : M A) : same c c.
Proof. intros w. reflexivity. Qed.

Lemma same_bind {A B} (c c' : M A) (k k' : A -> M B) :
  same c c' -> (forall a, same (k a) (k' a)) -> same (bind c k) (bind c' k').
Proof.
  intros Hc Hk w. unfold bind. rewrite Hc.
  destruct (c' w) as [w1 [a|msg]]; [apply Hk|reflexivity].
Qed.

Lemma same_tryCatch {A} (c c' : M A) (handler : string -> M A) :
  same c c' -> same (tryCatch c handler) (tryCatch c' handler).
Proof. intros Hc w. unfold tryCatch. rewrite Hc. reflexivity. Qed.

(** The dump branch reads the standard output of the command only. *)
Lemma dumpDatabase_mute (h : Host) (id prefix : string) (info : ContainerInfo)
      (archive : list Entry) :
  same (dumpDatabase (muteStderr h) id prefix info archive)
       (dumpDatabase h id prefix info archive).
Proof.
  unfold dumpDatabase.
  apply same_bind; [apply same_refl|intros _].
  apply same_bind; [apply same_refl|intros now].
  apply same_bind; [apply same_refl|intros _].
  cbn [muteStderr execDump].
  destruct (execDump h id (dumpCommand info)); apply same_refl.
Qed.

Lemma archiveVolumes_mute (h : Host) (id prefix : string) (paths : list string) :
  forall archive,
    same (archiveVolumes (muteStderr h) id prefix archive paths)
         (archiveVolumes h id prefix archive paths).
Proof.
  induction paths as [|p paths IH]; intros archive; simpl; [apply same_refl|].
  apply same_bind; [apply same_refl|intros a; apply IH].
Qed.

Lemma archiveContainerInternal_mute (h : Host) (archive : list Entry)
      (id prefix : string) (customPaths : option (list string)) :
  same (archiveContainerInternal (muteStderr h) archive id prefix customPaths)
       (archiveContainerInternal h archive id prefix customPaths).
Proof.
  unfold archiveContainerInternal.
  apply same_bind; [apply same_refl|intros _].
  apply same_bind; [apply same_refl|intros info].
  apply same_bind;
    [destruct (isDbImage (Image info)); [apply dumpDatabase_mute|apply same_refl]
    |intros a].
  apply same_bind; [apply same_refl|intros found].
  apply same_bind; [apply same_refl|intros paths].
  apply same_bind; [apply same_refl|intros now].
  destruct paths; [apply same_refl|apply archiveVolumes_mute].
Qed.

Lemma processBackup_mute (h : Host) (id : string) (customPaths : option (list string)) :
  same (processBackup (muteStderr h) id customPaths) (processBackup h id customPaths).
Proof.
  unfold processBackup. apply same_tryCatch.
  apply same_bind; [apply same_refl|intros _].
  apply same_bind; [apply same_refl|intros _].
  apply same_bind; [|intros a; apply same_refl].
  unfold generateBackupFile.
  apply same_bind; [apply same_refl|intros info].
  apply same_bind; [apply same_refl|intros now].
  apply same_bind; [apply same_refl|intros _].
  apply same_bind; [|intros a; apply same_refl].
  unfold asyncExecutor. apply same_tryCatch.
  apply same_bind; [apply archiveContainerInternal_mute|intros a; apply same_refl].
Qed.

Lemma archiveServices_mute (h : Host) (virtualId : string) (n : nat)
      (cs : list ContainerSummary) :
  forall i archive,
    same (archiveServices (muteStderr h) virtualId n i cs archive)
         (archiveServices h virtualId n i cs archive).
Proof.
  induction cs as [|c cs IH]; intros i archive; simpl; [apply same_refl|].
  apply same_bind; [apply same_refl|intros cName].
  apply same_bind; [apply same_refl|intros _].
  apply same_bind; [apply archiveContainerInternal_mute|intros a; apply IH].
Qed.

Lemma triggerUnifiedStackBackup_mute (h : Host) (stackName : string) :
  same (triggerUnifiedStackBackup (muteStderr h) stackName)
       (triggerUnifiedStackBackup h stackName).
Proof.
  unfold triggerUnifiedStackBackup.
  apply same_bind; [apply same_refl|intros _].
  apply same_tryCatch.
  apply same_bind; [apply same_refl|intros now].
  apply same_bind; [apply same_refl|intros _].
  apply same_bind; [apply same_refl|intros all].
  apply same_bind; [apply same_refl|intros found].
  apply same_bind; [apply same_refl|intros members].
  destruct members as [|c cs]; [apply same_refl|].
  apply same_bind; [apply same_refl|intros _].
  apply same_bind; [|intros a; apply same_refl].
  unfold asyncExecutor. apply same_tryCatch.
  apply same_bind; [|intros a; apply same_refl].
  unfold unifiedArchive.
  apply same_bind; [apply same_refl|intros sc].
  apply same_bind; [apply same_refl|intros ms].
  apply same_bind; [apply same_refl|intros a].
  apply archiveServices_mute.
Qed.

(** The world a single-container backup of a database container leaves
    when the dump command wrote nothing to its standard output. *)
Definition afterEmptyDump (dir name id : string) (w : World) : World :=
{| clock := clock w;
   jobLog :=
     [ {| ev_id := id; ev_status := Queue.failed;
          ev_message := Some "Backup timed out"; ev_at := clock w |};
       {| ev_id := id; ev_status := Queue.processing;
          ev_message := Some "Step: Executing Dump..."; ev_at := clock w |};
       {| ev_id := id; ev_status := Queue.processing;
          ev_message := Some "Step: DB Strategy Detected"; ev_at := clock w |};
       {| ev_id := id; ev_status := Queue.processing;
          ev_message := Some "Step: Inspecting Container..."; ev_at := clock w |};
       {| ev_id := id; ev_status := Queue.processing;
          ev_message := Some "Identifying..."; ev_at := clock w |} ] ++ jobLog w;
   historyFile :=
     Storage.addHistoryEntry
       (historyEntry (clock w) "Unknown" Storage.failed Storage.local
          "Backup timed out" None)
       (historyFile w);
   stacks := stacks w;
   fs := <[ Path.join [dir; "temp_" +:+ name +:+ "_" +:+ Js.showZ (clock w) +:+ ".sql"]
            := PlainFile "" ]>
           (<[ Path.join [dir; name +:+ "_" +:+ Js.showZ (clock w) +:+ ".zip"]
               := ZipFile [] false ]> (fs w)) |}.

Lemma processBackup_empty_dump (h : Host) (id : string)
      (customPaths : option (list string)) (w : World) (info : ContainerInfo)
      (stderr : string) :
  ensureDir h (backupDir h) = Ok tt ->
  inspect h id = Ok info ->
  isDbImage (Image info) = true ->
  execDump h id (dumpCommand info) = DumpFinished "" stderr ->
  processBackup h id customPaths w
  = (afterEmptyDump (backupDir h) (Js.replace "/" "" (Name info)) id w, Ok tt).
Proof.
  intros Hdir Hinfo Hdb Hdump.
  unfold processBackup, tryCatch.
  unfold bind at 1. unfold updateJobStatus at 1.
  unfold bind at 1. unfold lift at 1. rewrite Hdir.
  unfold bind at 1. unfold generateBackupFile.
  unfold bind at 1. unfold lift at 1. rewrite Hinfo.
  unfold bind at 1. unfold get at 1.
  unfold bind at 1. unfold setFs at 1.
  unfold bind at 1. unfold asyncExecutor, tryCatch.
  unfold bind at 1. unfold archiveContainerInternal.
  unfold bind at 1. unfold updateJobStatus at 1.
  unfold bind at 1. unfold lift at 1. rewrite Hinfo.
  unfold bind at 1. rewrite Hdb. unfold dumpDatabase.
  unfold bind at 1. unfold updateJobStatus at 1.
  unfold bind at 1. unfold get at 1.
  unfold bind at 1. unfold updateJobStatus at 1.
  rewrite Hdump.
  reflexivity.
Qed.

(** A member whose dump is empty makes [archiveContainerInternal] throw. *)
Lemma archiveContainerInternal_empty_dump (h : Host) (archive : list Entry)
      (id prefix : string) (customPaths : option (list string))
      (info : ContainerInfo) (stderr : string) (w : World) :
  inspect h id = Ok info ->
  isDbImage (Image info) = true ->
  execDump h id (dumpCommand info) = DumpFinished "" stderr ->
  exists w',
    archiveContainerInternal h archive id prefix customPaths w = (w', Throw "Empty SQL Dump").
Proof.
  intros Hinfo Hdb Hdump. unfold archiveContainerInternal.
  unfold bind at 1. unfold updateJobStatus at 1.
  unfold bind at 1. unfold lift at 1. rewrite Hinfo.
  unfold bind at 1. rewrite Hdb. unfold dumpDatabase.
  unfold bind at 1. unfold updateJobStatus at 1.
  unfold bind at 1. unfold get at 1.
  unfold bind at 1. unfold updateJobStatus at 1.
  rewrite Hdump. eexists. reflexivity.
Qed.

(** So does the loop over the members of a stack, at this member or
    before. *)
Lemma archiveServices_empty_dump (h : Host) (virtualId : string) (n : nat)
      (cs : list ContainerSummary) (c : ContainerSummary)
      (info : ContainerInfo) (stderr : string) :
  c ∈ cs ->
  inspect h (Id c) = Ok info ->
  isDbImage (Image info) = true ->
  execDump h (Id c) (dumpCommand info) = DumpFinished "" stderr ->
  forall i archive w,
  exists w' msg, archiveServices h virtualId n i cs archive w = (w', Throw msg).
Proof.
  intros Hin Hinfo Hdb Hdump.
  induction cs as [|c0 cs IH]; intros i archive w.
  - apply elem_of_nil in Hin. destruct Hin.
  - simpl archiveServices. unfold bind at 1.
    destruct (firstName c0 w) as [w1 [cName|msg]]; [|eauto].
    unfold bind at 1. unfold updateJobStatus at 1.
    unfold bind at 1.
    apply elem_of_cons in Hin as [<-|Hin].
    + match goal with
      | |- context [archiveContainerInternal h archive (Id c) ?p None ?w2] =>
          destruct (archiveContainerInternal_empty_dump h archive (Id c) p None
                      info stderr w2 Hinfo Hdb Hdump) as [w3 ->]
      end.
      eauto.
    + match goal with
      | |- context [archiveContainerInternal h archive (Id c0) ?p None ?w2] =>
          destruct (archiveContainerInternal h archive (Id c0) p None w2)
            as [w3 [a|msg]]
      end; [apply (IH Hin)|eauto].
Qed.

Lemma stackContainersOf_stacks (w1 w2 : World) (stackName : string)
      (all : list ContainerSummary) :
  stacks w1 = stacks w2 ->
  stackContainersOf w1 stackName all = stackContainersOf w2 stackName all.
Proof.
  intros H. unfold stackContainersOf, serviceLabelKnown. rewrite H. reflexivity.
Qed.

(** The world the [catch] block of the stack backup leaves. *)
Definition afterStackFailure (virtualId msg : string) (w : World) : World :=
{| clock := clock w;
   jobLog := {| ev_id := virtualId; ev_status := Queue.failed; ev_message := Some msg;
                ev_at := clock w |} :: jobLog w;
   historyFile := historyFile w;
   stacks := stacks w;
   fs := fs w |}.

Lemma trigger_empty_dump (h : Host) (stackName : string) (w : World)
      (all members : list ContainerSummary) (c : ContainerSummary)
      (info : ContainerInfo) (stderr : string) :
  ensureDir h (backupDir h) = Ok tt ->
  containers h = Ok all ->
  stackContainersOf w stackName all = Ok members ->
  c ∈ members ->
  inspect h (Id c) = Ok info ->
  isDbImage (Image info) = true ->
  execDump h (Id c) (dumpCommand info) = DumpFinished "" stderr ->
  exists w2,
    triggerUnifiedStackBackup h stackName w
    = (afterStackFailure ("stack-" +:+ stackName) "Unified Backup timeout" w2,
       Ok (Throw "Unified Backup timeout"))
    /\ historyFile w2 = historyFile w
    /\ (forall path es, fs w2 !! path = Some (ZipFile es true) ->
                        fs w !! path = Some (ZipFile es true)).
Proof.
  intros Hdir Hall Hmembers Hin Hinfo Hdb Hdump.
  unfold triggerUnifiedStackBackup.
  unfold bind at 1. unfold lift at 1. rewrite Hdir.
  unfold tryCatch.
  unfold bind at 1. unfold get at 1.
  unfold bind at 1. unfold updateJobStatus at 1.
  set (w0 := {| clock := clock w; jobLog := _ :: jobLog w; historyFile := historyFile w;
                stacks := stacks w; fs := fs w |}).
  unfold bind at 1. unfold lift at 1. rewrite Hall.
  unfold bind at 1. unfold get at 1.
  rewrite (stackContainersOf_stacks w0 w stackName all eq_refl), Hmembers.
  unfold bind at 1. unfold lift at 1.
  destruct members as [|c0 cs]; [apply elem_of_nil in Hin; destruct Hin|].
  unfold bind at 1. unfold setFs at 1.
  set (w1 := {| clock := clock w0; jobLog := jobLog w0; historyFile := historyFile w0;
                stacks := stacks w0; fs := _ |}).
  unfold bind at 1. unfold asyncExecutor, tryCatch. unfold bind at 1.
  match goal with
  | |- context [unifiedArchive h ?v ?s ?n ?ms w1] =>
      pose proof (keepsHistory_unifiedArchive h v s n ms w1) as Hkeep;
      pose proof (finalizesNothing_unifiedArchive h v s n ms w1) as Hfin;
      assert (Hthrow : exists w2 msg, unifiedArchive h v s n ms w1 = (w2, Throw msg))
  end.
  { unfold unifiedArchive.
    unfold bind at 1. unfold get at 1.
    unfold bind at 1.
    destruct (stackMembers (c0 :: cs) w1) as [wa [ms|msg]]; [|eauto].
    unfold bind at 1.
    match goal with
    | |- context [appendEnv h ?v ?sc ?a wa] =>
        destruct (appendEnv h v sc a wa) as [wb [a1|msg]]; [|eauto]
    end.
    eapply archiveServices_empty_dump; eassumption. }
  destruct Hthrow as (w2 & msg & E). rewrite E in *. cbn [fst] in Hkeep, Hfin.
  exists w2. split; [reflexivity|]. split.
  - rewrite Hkeep. reflexivity.
  - intros path es H. apply Hfin in H. subst w1 w0. cbn [fs] in H.
    rewrite lookup_insert in H. case_decide; [discriminate|exact H].
Qed.

(** C7 (amended). When the dump of a database container ends with zero
    bytes on its standard output, the backup job fails and no artifact is
    finalized. In a single-container backup the job of the container ends
    in status [failed] and a history entry with status [failed] carrying
    the same message is put at the head of the history. In a unified stack
    backup with such a member, the job [stack-<name>] ends in status
    [failed], the failure is reported to the caller with the same message
    and the history is left as it was. In both, the world the backup
    leaves, its message included, is the same whatever the dump commands
    wrote to their standard error. *)
Theorem empty_dump_fails_job
        (h : Host) (id : string) (customPaths : option (list string)) (w : World)
        (info : ContainerInfo) (stderr : string)
        (hs : Host) (stackName : string) (v : World)
        (all members : list ContainerSummary) (c : ContainerSummary)
        (infoS : ContainerInfo) (stderrS : string) :
  (ensureDir h (backupDir h) = Ok tt ->
   inspect h id = Ok info ->
   isDbImage (Image info) = true ->
   execDump h id (dumpCommand info) = DumpFinished "" stderr ->
   exists w' msg,
     processBackup h id customPaths w = (w', Ok tt)
     /\ globalState w' !! id
        = Some {| Queue.status := Queue.failed; Queue.message := Some msg;
                  Queue.lastUpdated := clock w |}
     /\ List.hd_error (Storage.getHistory (historyFile w'))
        = Some (historyEntry (clock w) "Unknown" Storage.failed Storage.local msg None)
     /\ (forall path es, fs w' !! path = Some (ZipFile es true) ->
                         fs w !! path = Some (ZipFile es true))
     /\ (forall h2, muteStderr h2 = muteStderr h ->
                    processBackup h2 id customPaths w = (w', Ok tt)))
  /\ (ensureDir hs (backupDir hs) = Ok tt ->
      containers hs = Ok all ->
      stackContainersOf v stackName all = Ok members ->
      c ∈ members ->
      inspect hs (Id c) = Ok infoS ->
      isDbImage (Image infoS) = true ->
      execDump hs (Id c) (dumpCommand infoS) = DumpFinished "" stderrS ->
      exists v' msg,
        triggerUnifiedStackBackup hs stackName v = (v', Ok (Throw msg))
        /\ (exists j, globalState v' !! ("stack-" +:+ stackName) = Some j
                      /\ Queue.status j = Queue.failed
                      /\ Queue.message j = Some msg)
        /\ historyFile v' = historyFile v
        /\ (forall path es, fs v' !! path = Some (ZipFile es true) ->
                            fs v !! path = Some (ZipFile es true))
        /\ (forall h2, muteStderr h2 = muteStderr hs ->
                       triggerUnifiedStackBackup h2 stackName v = (v', Ok (Throw msg)))).
Proof.
  split.
  - intros Hdir Hinfo Hdb Hdump.
    exists (afterEmptyDump (backupDir h) (Js.replace "/" "" (Name info)) id w),
           "Backup timed out".
    split;
      [exact (processBackup_empty_dump h id customPaths w info stderr Hdir Hinfo Hdb Hdump)|].
    split; [|split; [|split]].
    + unfold globalState, afterEmptyDump. cbn [jobLog app replay foldr].
      unfold applyEvent at 1. unfold Queue.updateJobStatus.
      cbn [ev_id ev_status ev_message ev_at]. apply lookup_insert_eq.
    + apply addHistoryEntry_head.
    + intros path es. unfold afterEmptyDump. cbn [fs].
      rewrite lookup_insert. case_decide; [discriminate|].
      rewrite lookup_insert. case_decide; [discriminate|]. auto.
    + intros h2 Hmute.
      rewrite <- (processBackup_mute h2 id customPaths w), Hmute,
        (processBackup_mute h id customPaths w).
      exact (processBackup_empty_dump h id customPaths w info stderr Hdir Hinfo Hdb Hdump).
  - intros Hdir Hall Hmembers Hin Hinfo Hdb Hdump.
    destruct (trigger_empty_dump hs stackName v all members c infoS stderrS
                Hdir Hall Hmembers Hin Hinfo Hdb Hdump) as (w2 & E & Hh & Hf).
    exists (afterStackFailure ("stack-" +:+ stackName) "Unified Backup timeout" w2),
           "Unified Backup timeout".
    split; [exact E|]. split; [|split; [|split]].
    + eexists. split.
      * apply (globalState_head
                 (afterStackFailure ("stack-" +:+ stackName) "Unified Backup timeout" w2)
                 _ _ eq_refl).
      * split; reflexivity.
    + exact Hh.
    + exact Hf.
    + intros h2 Hmute.
      rewrite <- (triggerUnifiedStackBackup_mute h2 stackName v), Hmute,
        (triggerUnifiedStackBackup_mute hs stackName v).
      exact E.
Qed.

Definition connectionRefused : string :=
"pg_dumpall: error: connection to server on socket failed: FATAL: role does not exist".

Definition shopDb : ContainerSummary :=
{| Id := "db-id"; Names := ["/shop-db-1"]; State := "running";
   SummaryLabels := composeLabels "shop" "db"; Ports := [] |}.

(** The host of [shopHost] with a Postgres container added to the project,
    whose dump ends as [dump]. *)
Definition shopHostWithDb (dump : DumpOutcome) : Host :=
{| containers := Ok (shopMembers ++ [shopDb])%list;
   inspect := fun id =>
     if String.eqb id "db-id"
     then Ok (labelledInfo "/shop-db-1" "postgres:16" "shop" "db")
     else inspect shopHost id;
   execDump := fun _ _ => dump;
   getArchive := getArchive shopHost;
   TELEGRAM_TOKEN := None;
   CHAT_ID := None;
   TELEGRAM_API_ROOT := None;
   fetch := fetch shopHost;
   zipSize := zipSize shopHost;
   envFileContent := envFileContent shopHost;
   hostPortBound := hostPortBound shopHost;
   cwd := cwd shopHost;
   ensureDir := ensureDir shopHost;
   revalidatePath := revalidatePath shopHost |}.

(** The theorem at the Postgres container of [localHost] and at the stack
    [shop] with its Postgres member. *)
Lemma empty_dump_fails_job_witness :
  (exists w' msg,
     processBackup (localHost (DumpFinished "" connectionRefused)) "pg-id" None freshWorld
     = (w', Ok tt)
     /\ globalState w' !! "pg-id"
        = Some {| Queue.status := Queue.failed; Queue.message := Some msg;
                  Queue.lastUpdated := clock freshWorld |}
     /\ List.hd_error (Storage.getHistory (historyFile w'))
        = Some (historyEntry (clock freshWorld) "Unknown" Storage.failed Storage.local
                  msg None)
     /\ (forall path es, fs w' !! path = Some (ZipFile es true) ->
                         fs freshWorld !! path = Some (ZipFile es true))
     /\ (forall h2,
           muteStderr h2 = muteStderr (localHost (DumpFinished "" connectionRefused)) ->
           processBackup h2 "pg-id" None freshWorld = (w', Ok tt)))
  /\ (exists v' msg,
        triggerUnifiedStackBackup (shopHostWithDb (DumpFinished "" connectionRefused))
          "shop" freshWorld = (v', Ok (Throw msg))
        /\ (exists j, globalState v' !! ("stack-" +:+ "shop") = Some j
                      /\ Queue.status j = Queue.failed
                      /\ Queue.message j = Some msg)
        /\ historyFile v' = historyFile freshWorld
        /\ (forall path es, fs v' !! path = Some (ZipFile es true) ->
                            fs freshWorld !! path = Some (ZipFile es true))
        /\ (forall h2,
              muteStderr h2 = muteStderr (shopHostWithDb (DumpFinished "" connectionRefused)) ->
              triggerUnifiedStackBackup h2 "shop" freshWorld = (v', Ok (Throw msg)))).
Proof.
  destruct (empty_dump_fails_job
              (localHost (DumpFinished "" connectionRefused)) "pg-id" None freshWorld
              (plainInfo "/db-1" "postgres:16"
                 ["POSTGRES_USER=app"; "POSTGRES_PASSWORD=s3cret"])
              connectionRefused
              (shopHostWithDb (DumpFinished "" connectionRefused)) "shop" freshWorld
              (shopMembers ++ [shopDb])%list (shopMembers ++ [shopDb])%list shopDb
              (labelledInfo "/shop-db-1" "postgres:16" "shop" "db")
              connectionRefused) as [H1 H2].
  split.
  - apply H1; reflexivity.
  - apply H2; try reflexivity.
    apply elem_of_app. right. apply list_elem_of_singleton. reflexivity.
Defined.

Definition jobMessage (w : World) (id : string) : option string :=
match globalState w !! id with
| Some j => Queue.message j
| None => None
end.

Definition lastHistoryMessage (w : World) : option string :=
match Storage.getHistory (historyFile w) with
| e :: _ => Some (Storage.message e)
| [] => None
end.

(** C7 as stated fails: after an empty dump whose standard error reports
    the refused connection, the job and the history entry carry the
    message [Backup timed out], in which that text does not occur. *)
Lemma empty_dump_message_omits_stderr :
  jobMessage
    (fst (processBackup (localHost (DumpFinished "" connectionRefused)) "pg-id" None
            freshWorld)) "pg-id"
  = Some "Backup timed out"
  /\ lastHistoryMessage
       (fst (processBackup (localHost (DumpFinished "" connectionRefused)) "pg-id" None
               freshWorld))
     = Some "Backup timed out"
  /\ Js.includes connectionRefused "Backup timed out" = false.
Proof. vm_compute. repeat split; reflexivity. Qed.

End EmptyDump.

(** ** Jobs in the [processing] state *)

Section Processing.

Definition isProcessing (j : Queue.JobState) : Prop := Queue.status j = Queue.processing.

(** No two distinct job ids are in the [processing] state. *)
Definition AtMostOneProcessing (g : gmap string Queue.JobState) : Prop :=
forall i j ji jj,
  g !! i = Some ji -> g !! j = Some jj -> isProcessing ji -> isProcessing jj -> i = j.

Definition NoneProcessing (g : gmap string Queue.JobState) : Prop :=
forall i j, g !! i = Some j -> ~ isProcessing j.

Definition OnlyProcessing (c : string) (g : gmap string Queue.JobState) : Prop :=
forall i j, g !! i = Some j -> isProcessing j -> i = c.

(** The job table after each of the updates [new], made on top of the
    updates [base]; newest first, the table before the first update last. *)
Fixpoint tables (new base : list JobEvent) : list (gmap string Queue.JobState) :=
match new with
| [] => [replay base]
| e :: new' => replay (new ++ base) :: tables new' base
end.

Lemma OnlyProcessing_one (c : string) (g : gmap string Queue.JobState) :
  OnlyProcessing c g -> AtMostOneProcessing g.
Proof.
  intros H i j ji jj Hi Hj Pi Pj.
  rewrite (H i ji Hi Pi), (H j jj Hj Pj). reflexivity.
Qed.

Lemma NoneProcessing_only (c : string) (g : gmap string Queue.JobState) :
  NoneProcessing g -> OnlyProcessing c g.
Proof. intros H i j Hi Pi. destruct (H i j Hi Pi). Qed.

Lemma OnlyProcessing_update (c : string) (e : JobEvent) (g : gmap string Queue.JobState) :
  ev_id e = c -> OnlyProcessing c g -> OnlyProcessing c (applyEvent e g).
Proof.
  intros He H i j. unfold applyEvent, Queue.updateJobStatus. rewrite He.
  rewrite lookup_insert. case_decide as Hci; [intros _ _; congruence|].
  apply H.
Qed.

Lemma NoneProcessing_after (c : string) (e : JobEvent) (g : gmap string Queue.JobState) :
  ev_id e = c -> ev_status e <> Queue.processing ->
  OnlyProcessing c g -> NoneProcessing (applyEvent e g).
Proof.
  intros He Hst H i j. unfold applyEvent, Queue.updateJobStatus. rewrite He.
  rewrite lookup_insert. case_decide as Hci.
  - intros Hj. inversion Hj. subst j. exact Hst.
  - intros Hj Pj. apply Hci. symmetry. exact (H i j Hj Pj).
Qed.

Lemma replay_app (new base : list JobEvent) :
  replay (new ++ base) = foldr applyEvent (replay base) new.
Proof. unfold replay. apply foldr_app. Qed.

(** Updates that all bear on the job [c], on top of a table in which no
    job is processing, only ever leave [c] processing. *)
Lemma tables_only (c : string) (new base : list JobEvent) :
  NoneProcessing (replay base) ->
  List.Forall (fun e => ev_id e = c) new ->
  List.Forall (OnlyProcessing c) (tables new base).
Proof.
  intros Hbase. induction new as [|e new IH]; intros Hall; simpl.
  - constructor; [|constructor]. apply NoneProcessing_only. exact Hbase.
  - pose proof (IH (List.Forall_inv_tail Hall)) as IH'.
    constructor; [|exact IH'].
    change (replay (e :: new ++ base)) with (applyEvent e (replay (new ++ base))).
    apply OnlyProcessing_update; [exact (List.Forall_inv Hall)|].
    destruct new; exact (List.Forall_inv IH').
Qed.

Lemma tables_head (new base : list JobEvent) :
  exists rest, tables new base = replay (new ++ base) :: rest.
Proof. destruct new; simpl; eauto. Qed.

Lemma tables_app (P : gmap string Queue.JobState -> Prop) (a b base : list JobEvent) :
  List.Forall P (tables a (b ++ base)) ->
  List.Forall P (tables b base) ->
  List.Forall P (tables (a ++ b) base).
Proof.
  induction a as [|e a IH]; intros Ha Hb; simpl in *.
  - exact Hb.
  - constructor.
    + rewrite <- app_assoc. exact (List.Forall_inv Ha).
    + apply IH; [exact (List.Forall_inv_tail Ha)|exact Hb].
Qed.

(** The computation [c] changes the job table only by updates on the job
    [id], whether it returns or throws. *)
Definition emitsOn (id : string) {A} (c : M A) : Prop :=
forall w, exists evs,
  jobLog (fst (c w)) = (evs ++ jobLog w)%list
  /\ List.Forall (fun e => ev_id e = id) evs.

Lemma emitsOn_silent (id : string) {A} (c : M A) :
  (forall w, jobLog (fst (c w)) = jobLog w) -> emitsOn id c.
Proof. intros H w. exists []. split; [apply H|constructor]. Qed.

Lemma emitsOn_ret (id : string) {A} (a : A) : emitsOn id (ret a).
Proof. apply emitsOn_silent. reflexivity. Qed.

Lemma emitsOn_throw (id : string) {A} (msg : string) : emitsOn id (@throw A msg).
Proof. apply emitsOn_silent. reflexivity. Qed.

Lemma emitsOn_lift (id : string) {A} (r : result A) : emitsOn id (lift r).
Proof. apply emitsOn_silent. reflexivity. Qed.

Lemma emitsOn_get (id : string) {A} (f : World -> A) : emitsOn id (get f).
Proof. apply emitsOn_silent. reflexivity. Qed.

Lemma emitsOn_setFs (id : string) (f : gmap string File -> gmap string File) :
  emitsOn id (setFs f).
Proof. apply emitsOn_silent. reflexivity. Qed.

Lemma emitsOn_addHistoryEntry (id : string) (e : Storage.HistoryEntry) :
  emitsOn id (addHistoryEntry e).
Proof. apply emitsOn_silent. reflexivity. Qed.

Lemma emitsOn_statSize (id : string) (h : Host) (path : string) :
  emitsOn id (statSize h path).
Proof.
  apply emitsOn_silent. intros w. unfold statSize.
  destruct (fs w !! path) as [[|]|]; reflexivity.
Qed.

Lemma emitsOn_updateJobStatus (id : string) (st : Queue.JobStatus) (msg : string) :
  emitsOn id (updateJobStatus id st msg).
Proof.
  intros w. eexists [_]. split; [reflexivity|]. repeat constructor.
Qed.

Lemma emitsOn_bind (id : string) {A B} (c : M A) (k : A -> M B) :
  emitsOn id c -> (forall a, emitsOn id (k a)) -> emitsOn id (bind c k).
Proof.
  intros Hc Hk w. unfold bind.
  destruct (Hc w) as (evs1 & E1 & F1).
  destruct (c w) as [w1 [a|msg]]; simpl in E1.
  - destruct (Hk a w1) as (evs2 & E2 & F2).
    exists (evs2 ++ evs1)%list. split.
    + rewrite E2, E1, app_assoc. reflexivity.
    + apply List.Forall_app. auto.
  - exists evs1. auto.
Qed.

Lemma emitsOn_tryCatch (id : string) {A} (c : M A) (handler : string -> M A) :
  emitsOn id c -> (forall msg, emitsOn id (handler msg)) -> emitsOn id (tryCatch c handler).
Proof.
  intros Hc Hh w. unfold tryCatch.
  destruct (Hc w) as (evs1 & E1 & F1).
  destruct (c w) as [w1 [a|msg]]; simpl in E1.
  - exists evs1. auto.
  - destruct (Hh msg w1) as (evs2 & E2 & F2).
    exists (evs2 ++ evs1)%list. split.
    + rewrite E2, E1, app_assoc. reflexivity.
    + apply List.Forall_app. auto.
Qed.

Ltac emits :=
  repeat first
    [ apply emitsOn_ret | apply emitsOn_throw | apply emitsOn_lift
    | apply emitsOn_get | apply emitsOn_setFs | apply emitsOn_addHistoryEntry
    | apply emitsOn_statSize | apply emitsOn_updateJobStatus
    | apply emitsOn_bind | apply emitsOn_tryCatch
    | progress intros
    | match goal with
      | |- emitsOn _ (match ?x with _ => _ end) => destruct x
      end ].

Lemma emitsOn_archiveVolumes (h : Host) (id prefix : string) (paths : list string) :
  forall archive, emitsOn id (archiveVolumes h id prefix archive paths).
Proof.
  induction paths as [|p paths IH]; intros archive; simpl.
  - emits.
  - apply emitsOn_bind; [unfold archiveVolume; emits|exact IH].
Qed.

Lemma emitsOn_archiveContainerInternal (h : Host) (id prefix : string)
      (customPaths : option (list string)) (archive : list Entry) :
  emitsOn id (archiveContainerInternal h archive id prefix customPaths).
Proof.
  unfold archiveContainerInternal.
  apply emitsOn_bind; [emits|intros _].
  apply emitsOn_bind; [emits|intros info].
  apply emitsOn_bind; [|intros a].
  { destruct (isDbImage (Image info)); [unfold dumpDatabase|]; emits. }
  apply emitsOn_bind; [emits|intros found].
  apply emitsOn_bind; [emits|intros paths].
  apply emitsOn_bind; [emits|intros now].
  destruct paths; [emits|apply emitsOn_archiveVolumes].
Qed.

Lemma emitsOn_generateBackupFile (h : Host) (id dir : string)
      (customPaths : option (list string)) :
  emitsOn id (generateBackupFile h id dir customPaths).
Proof.
  unfold generateBackupFile, asyncExecutor.
  apply emitsOn_bind; [emits|intros info].
  apply emitsOn_bind; [emits|intros now].
  apply emitsOn_bind; [emits|intros _].
  apply emitsOn_bind; [|emits].
  apply emitsOn_tryCatch; [|emits].
  apply emitsOn_bind; [apply emitsOn_archiveContainerInternal|emits].
Qed.

Lemma emitsOn_handleUpload (h : Host) (id filePath : string) :
  emitsOn id (handleUpload h id filePath).
Proof.
  unfold handleUpload.
  destruct (Js.opt_truthy (TELEGRAM_TOKEN h) && Js.opt_truthy (CHAT_ID h))%bool; emits.
Qed.

(** [c] makes no update of the job table. *)
Definition silent {A} (c : M A) : Prop := forall w, jobLog (fst (c w)) = jobLog w.

Lemma silent_bind {A B} (c : M A) (k : A -> M B) :
  silent c -> (forall a, silent (k a)) -> silent (bind c k).
Proof.
  intros Hc Hk w. unfold bind. specialize (Hc w).
  destruct (c w) as [w1 [a|msg]]; simpl in Hc; [rewrite Hk|]; exact Hc.
Qed.

Lemma silent_statSize (h : Host) (path : string) : silent (statSize h path).
Proof. intros w. unfold statSize. destruct (fs w !! path) as [[|]|]; reflexivity. Qed.

Definition returned {A} (r : result A) : Prop :=
match r with Ok _ => True | Throw _ => False end.

(** [c] changes the job table only by updates on the job [id], and when
    it returns, its last update left [id] in a state other than
    [processing]. *)
Definition settles (id : string) {A} (c : M A) : Prop :=
forall w, exists evs,
  jobLog (fst (c w)) = (evs ++ jobLog w)%list
  /\ List.Forall (fun e => ev_id e = id) evs
  /\ (returned (snd (c w)) ->
      exists e evs0, evs = e :: evs0 /\ ev_status e <> Queue.processing).

Lemma settles_throw (id : string) {A} (msg : string) : settles id (@throw A msg).
Proof.
  intros w. exists []. split; [reflexivity|]. split; [constructor|intros []].
Qed.

Lemma settles_update (id : string) (st : Queue.JobStatus) (msg : string) :
  st <> Queue.processing -> settles id (updateJobStatus id st msg).
Proof.
  intros Hst w. eexists [_]. split; [reflexivity|]. split; [repeat constructor|].
  intros _. eexists _, []. split; [reflexivity|exact Hst].
Qed.

Lemma settles_after (id : string) {A B} (c : M A) (k : A -> M B) :
  emitsOn id c -> (forall a, settles id (k a)) -> settles id (bind c k).
Proof.
  intros Hc Hk w. unfold bind.
  destruct (Hc w) as (evs1 & E1 & F1).
  destruct (c w) as [w1 [a|msg]]; simpl in E1.
  - destruct (Hk a w1) as (evs2 & E2 & F2 & T2).
    exists (evs2 ++ evs1)%list. split; [rewrite E2, E1, app_assoc; reflexivity|].
    split; [apply List.Forall_app; auto|].
    intros Hr. destruct (T2 Hr) as (e & evs0 & -> & Hst).
    exists e, (evs0 ++ evs1)%list. auto.
  - exists evs1. simpl. repeat split; auto; contradiction.
Qed.

Lemma settles_then_silent (id : string) {A B} (c : M A) (k : A -> M B) :
  settles id c -> (forall a, silent (k a)) -> settles id (bind c k).
Proof.
  intros Hc Hk w. unfold bind.
  destruct (Hc w) as (evs & E & F & T).
  destruct (c w) as [w1 [a|msg]]; simpl in E, T.
  - exists evs. rewrite Hk. repeat split; auto.
  - exists evs. simpl. repeat split; auto; contradiction.
Qed.

Lemma settles_tryCatch (id : string) {A} (c : M A) (handler : string -> M A) :
  settles id c -> (forall msg, settles id (handler msg)) -> settles id (tryCatch c handler).
Proof.
  intros Hc Hh w. unfold tryCatch.
  destruct (Hc w) as (evs1 & E1 & F1 & T1).
  destruct (c w) as [w1 [a|msg]]; simpl in E1, T1.
  - exists evs1. auto.
  - destruct (Hh msg w1) as (evs2 & E2 & F2 & T2).
    exists (evs2 ++ evs1)%list. split; [rewrite E2, E1, app_assoc; reflexivity|].
    split; [apply List.Forall_app; auto|].
    intros Hr. destruct (T2 Hr) as (e & evs0 & -> & Hst).
    exists e, (evs0 ++ evs1)%list. auto.
Qed.

Lemma silent_record (now : Z) (name msg : string) (st : Storage.HistoryStatus)
      (dest : Storage.Destination) (sz : option Storage.SizeText) :
  silent (bind (get clock)
               (fun now => addHistoryEntry (historyEntry now name st dest msg sz))).
Proof. intros w. reflexivity. Qed.

Lemma settles_handleUpload (h : Host) (id filePath : string) :
  settles id (handleUpload h id filePath).
Proof.
  unfold handleUpload.
  destruct (Js.opt_truthy (TELEGRAM_TOKEN h) && Js.opt_truthy (CHAT_ID h))%bool.
  - apply settles_after; [emits|intros _].
    apply settles_tryCatch.
    + apply settles_after; [emits|intros bytes].
      destruct (fetch h (documentUrl h) (Path.basename filePath));
        try apply settles_throw.
      apply settles_after; [emits|intros _].
      apply settles_then_silent; [apply settles_update; discriminate|].
      intros _ w. reflexivity.
    + intros msg. apply settles_then_silent; [apply settles_update; discriminate|].
      intros _ w. reflexivity.
  - apply settles_then_silent; [apply settles_update; discriminate|].
    intros _. apply silent_bind; [apply silent_statSize|].
    intros bytes w. reflexivity.
Qed.

Lemma settles_processBackup (h : Host) (id : string) (customPaths : option (list string)) :
  settles id (processBackup h id customPaths).
Proof.
  unfold processBackup. apply settles_tryCatch.
  - apply settles_after; [emits|intros _].
    apply settles_after; [emits|intros _].
    apply settles_after; [apply emitsOn_generateBackupFile|intros filePath].
    apply settles_handleUpload.
  - intros msg. apply settles_then_silent; [apply settles_update; discriminate|].
    intros _ w. reflexivity.
Qed.

(** The worker function catches everything: it always returns. *)
Lemma processBackup_returns (h : Host) (id : string) (customPaths : option (list string))
      (w : World) :
  snd (processBackup h id customPaths w) = Ok tt.
Proof.
  unfold processBackup, tryCatch.
  destruct (bind _ _ w) as [w1 [[]|msg]]; reflexivity.
Qed.

(** One run of the worker function, from a table in which no job is
    processing: at most the job it works on is processing after each of its
    updates, and none is when it returns. *)
Lemma processBackup_one_processing (h : Host) (id : string)
      (customPaths : option (list string)) (w : World) :
  NoneProcessing (globalState w) ->
  exists w' evs,
    processBackup h id customPaths w = (w', Ok tt)
    /\ jobLog w' = (evs ++ jobLog w)%list
    /\ List.Forall AtMostOneProcessing (tables evs (jobLog w))
    /\ NoneProcessing (globalState w').
Proof.
  intros Hnone.
  destruct (settles_processBackup h id customPaths w) as (evs & E & F & T).
  pose proof (processBackup_returns h id customPaths w) as Hret.
  destruct (processBackup h id customPaths w) as [w' r]. simpl in E, T, Hret. subst r.
  exists w', evs. split; [reflexivity|]. split; [exact E|].
  destruct (T I) as (e & evs0 & -> & Hst).
  split.
  - eapply List.Forall_impl; [apply OnlyProcessing_one|].
    apply tables_only; [exact Hnone|exact F].
  - unfold globalState. rewrite E.
    change (replay ((e :: evs0) ++ jobLog w)) with (applyEvent e (replay (evs0 ++ jobLog w))).
    apply (NoneProcessing_after id); [exact (List.Forall_inv F)|exact Hst|].
    pose proof (tables_only id evs0 (jobLog w) Hnone (List.Forall_inv_tail F)) as Hall.
    destruct (tables_head evs0 (jobLog w)) as (rest & Hhead).
    rewrite Hhead in Hall. exact (List.Forall_inv Hall).
Qed.

(** The queue worker on its own, each task ending before its guard timer
    fires: started from a job table in which no job is processing, it
    returns, after each of its updates of the job table at most one job id
    is in the [processing] state, and none is when the queue is drained. *)
Theorem runQueue_one_processing (h : Host) (tasks : list Task) (w : World) :
  NoneProcessing (globalState w) ->
  exists w' evs,
    runQueue h tasks w = (w', Ok tt)
    /\ jobLog w' = (evs ++ jobLog w)%list
    /\ List.Forall AtMostOneProcessing (tables evs (jobLog w))
    /\ NoneProcessing (globalState w').
Proof.
  revert w. induction tasks as [|t tasks IH]; intros w Hnone.
  - exists w, []. repeat split; auto.
    constructor; [|constructor].
    apply (OnlyProcessing_one ""), NoneProcessing_only. exact Hnone.
  - destruct (processBackup_one_processing h (t_id t) (t_customPaths t) w Hnone)
      as (w1 & evs1 & E1 & L1 & A1 & N1).
    destruct (IH w1 N1) as (w' & evs2 & E2 & L2 & A2 & N2).
    exists w', (evs2 ++ evs1)%list.
    split; [simpl; unfold bind, tryCatch; rewrite E1; exact E2|].
    split; [rewrite L2, L1, app_assoc; reflexivity|].
    split; [|exact N2].
    apply tables_app; [rewrite <- L1; exact A2|exact A1].
Qed.

(** The queue worker at two queued backups on a fresh process. *)
Lemma runQueue_one_processing_witness :
  exists w' evs,
    runQueue (localHost (DumpFinished "CREATE ROLE app;" ""))
      [ {| t_id := "nginx-id"; t_customPaths := Some ["/usr/share/nginx/html"] |};
        {| t_id := "pg-id"; t_customPaths := None |} ] freshWorld
    = (w', Ok tt)
    /\ jobLog w' = (evs ++ jobLog freshWorld)%list
    /\ List.Forall AtMostOneProcessing (tables evs (jobLog freshWorld))
    /\ NoneProcessing (globalState w').
Proof.
  apply (runQueue_one_processing (localHost (DumpFinished "CREATE ROLE app;" ""))
           [ {| t_id := "nginx-id"; t_customPaths := Some ["/usr/share/nginx/html"] |};
             {| t_id := "pg-id"; t_customPaths := None |} ] freshWorld).
  intros i j Hi. unfold globalState in Hi. simpl in Hi.
  rewrite lookup_empty in Hi. discriminate.
Defined.

(** C2. More than one job id can be in the [processing] state: a unified
    backup of the two-container stack [shop], run on a fresh process,
    returns with the job [stack-shop] completed and the jobs of both
    member containers still in the [processing] state. The backup of a
    member sets the member's job to [processing] and the stack path never
    sets it to anything else, where the single-container path ends every
    job it started as [completed] or [failed]. *)
Lemma stack_backup_leaves_two_processing :
  Queue.status <$> globalState (fst (triggerUnifiedStackBackup shopHost "shop" freshWorld))
                     !! "stack-shop" = Some Queue.completed
  /\ ~ AtMostOneProcessing
         (globalState (fst (triggerUnifiedStackBackup shopHost "shop" freshWorld))).
Proof.
  split; [vm_compute; reflexivity|].
  intros H.
  assert (E1 : globalState (fst (triggerUnifiedStackBackup shopHost "shop" freshWorld))
                 !! "web-id"
               = Some {| Queue.status := Queue.processing;
                         Queue.message := Some "Step: Inspecting Container...";
                         Queue.lastUpdated := 1700000000000 |})
    by (vm_compute; reflexivity).
  assert (E2 : globalState (fst (triggerUnifiedStackBackup shopHost "shop" freshWorld))
                 !! "api-id"
               = Some {| Queue.status := Queue.processing;
                         Queue.message := Some "Step: Inspecting Container...";
                         Queue.lastUpdated := 1700000000000 |})
    by (vm_compute; reflexivity).
  pose proof (H "web-id" "api-id" _ _ E1 E2 eq_refl eq_refl) as Heq.
  discriminate Heq.
Qed.

End Processing.

(** * Further properties of the code *)

(** ** The history store over many additions *)

Section HistoryGrowth.

Import Storage.

(** One addition, whatever the file held: the new entry in front, and the
    list cut to 200 entries, or to the length it had when it was longer. *)
Lemma addHistoryEntry_firstn (entry : HistoryEntry) (f : HistoryFile) :
  getHistory (addHistoryEntry entry f)
  = firstn (Nat.max 200 (length (getHistory f))) (entry :: getHistory f).
Proof.
  unfold addHistoryEntry. set (h := getHistory f).
  change (getHistory (Stored ?x)) with x.
  destruct (200 <? Z.of_nat (length (entry :: h))) eqn:E.
  - apply Z.ltb_lt in E. simpl length in E.
    unfold pop. rewrite List.removelast_firstn_len. simpl length.
    replace (Nat.max 200 (length h)) with (length h) by lia. reflexivity.
  - apply Z.ltb_ge in E. simpl length in E.
    rewrite List.firstn_all2; [reflexivity|]. simpl. lia.
Qed.

Lemma firstn_cons_firstn {A} (m : nat) (e : A) (l : list A) :
  (1 <= m)%nat -> firstn m (e :: firstn m l) = firstn m (e :: l).
Proof.
  intros Hm. destruct m as [|m]; [lia|]. simpl. f_equal.
  rewrite List.firstn_firstn. f_equal. lia.
Qed.

(** X1. After any sequence of additions to any history file, the stored
    history is the added entries, newest first, followed by the old ones,
    cut to [max 200 n] entries, [n] being the number of entries the file
    held at the start. *)
Theorem history_after_additions (entries : list HistoryEntry) (f : HistoryFile) :
  getHistory (foldl (fun file e => addHistoryEntry e file) f entries)
  = firstn (Nat.max 200 (length (getHistory f))) (rev entries ++ getHistory f).
Proof.
  revert f. induction entries as [|e entries IH] using List.rev_ind; intros f.
  - simpl. rewrite List.firstn_all2; [reflexivity|lia].
  - rewrite foldl_app. simpl foldl.
    rewrite addHistoryEntry_firstn, IH.
    rewrite List.rev_app_distr. simpl rev. simpl app.
    set (m := Nat.max 200 (length (getHistory f))).
    set (l := (rev entries ++ getHistory f)%list).
    assert (Hlen : Nat.max 200 (length (firstn m l)) = m).
    { rewrite List.length_firstn. subst m l. rewrite List.length_app. lia. }
    rewrite Hlen. apply firstn_cons_firstn. subst m. lia.
Qed.

(** X2. A history file that already holds more than 200 entries is never
    brought back under the bound: each addition puts the new entry in
    front, drops the last one and leaves the length as it was. *)
Theorem overlong_history_keeps_length (entry : HistoryEntry) (f : HistoryFile) :
  (200 < length (getHistory f))%nat ->
  length (getHistory (addHistoryEntry entry f)) = length (getHistory f)
  /\ getHistory (addHistoryEntry entry f) = entry :: removelast (getHistory f).
Proof.
  intros Hlong. rewrite addHistoryEntry_firstn.
  replace (Nat.max 200 (length (getHistory f))) with (length (getHistory f)) by lia.
  split.
  - rewrite List.length_firstn. simpl. lia.
  - destruct (getHistory f) as [|a h] eqn:E; [simpl in Hlong; lia|].
    rewrite (List.removelast_firstn_len (a :: h)).
    simpl length. reflexivity.
Qed.

(** The theorem at a file of 201 entries. *)
Lemma overlong_history_keeps_length_witness :
  length (getHistory (addHistoryEntry sampleEntry (Stored (List.repeat sampleEntry 201))))
  = length (getHistory (Stored (List.repeat sampleEntry 201)))
  /\ getHistory (addHistoryEntry sampleEntry (Stored (List.repeat sampleEntry 201)))
     = sampleEntry :: removelast (getHistory (Stored (List.repeat sampleEntry 201))).
Proof.
  apply (overlong_history_keeps_length sampleEntry (Stored (List.repeat sampleEntry 201))).
  vm_compute. apply le_n.
Defined.

End HistoryGrowth.


(** ** [app/actions.ts]: the restore side's reading of environment text *)

Module Restore.

(** One line of the [.env] parser of the stack restore:
    [const trimmed = line.trim();
     if (trimmed && !trimmed.startsWith('#') && trimmed.includes('=')) {
       const [key, ...parts] = trimmed.split('=');
       envMap[key.trim()] = parts.join('=').trim(); }] *)
Definition parseEnvLine (envMap : gmap string string) (line : string)
  : gmap string string :=
  let trimmed := Js.trim line in
  if (Js.truthy trimmed && negb (Js.startsWith "#" trimmed)
      && Js.includes "=" trimmed)%bool
  then match Js.split "=" trimmed with
       | key :: parts => Js.assign (Js.trim key) (Js.trim (Js.join "=" parts)) envMap
       | [] => envMap
       end
  else envMap.

(** [envContent.split('\n').forEach(...)], starting from the empty map. *)
Definition parseEnvFile (envContent : string) : gmap string string :=
  foldl parseEnvLine ∅ (Js.split (ascii_of_nat 10) envContent).

(** [env.find(e => e.startsWith(key + '='))?.split('=')[1]] *)
Definition envPiece (env : list string) (key : string) : option string :=
  match List.find (Js.startsWith (key +:+ "=")) env with
  | Some e => Js.split "=" e !! 1%nat
  | None => None
  end.

(** Characters other than closing brace, colon and hyphen. *)
Definition isKeyChar (c : ascii) : bool :=
  negb (Ascii.eqb c "}" || Ascii.eqb c ":" || Ascii.eqb c "-")%bool.

Definition notBrace (c : ascii) : bool := negb (Ascii.eqb c "}").

(** The longest prefix of characters satisfying [p], and what follows. *)
Fixpoint span (p : ascii -> bool) (s : string) : string * string :=
  match s with
  | EmptyString => (EmptyString, EmptyString)
  | String c s' =>
      if p c then let (a, b) := span p s' in (String c a, b)
      else (EmptyString, s)
  end.

(** A match of the placeholder pattern at the start of [s]: a dollar sign,
    an opening brace, one or more characters other than closing brace,
    colon and hyphen (the key), optionally a colon, a hyphen and any number
    of characters other than a closing brace (the default), and a closing
    brace. Both repetitions are greedy and stop at a character the next
    piece of the pattern must match, so only the longest key and the
    longest default can lead to a match. The result is the key, the
    default when the optional group took part, and the text after the
    match. *)
Definition matchPlaceholder (s : string) : option (string * option string * string) :=
  match s with
  | String "$" (String "{" body) =>
      let (key, r) := span isKeyChar body in
      if Js.truthy key then
        match r with
        | String "}" rest => Some (key, None, rest)
        | String ":" (String "-" r2) =>
            let (d, r3) := span notBrace r2 in
            match r3 with
            | String "}" rest => Some (key, Some d, rest)
            | _ => None
            end
        | _ => None
        end
      else None
  | _ => None
  end.

(** [envMap?.[key] || process.env[key] || defaultValue || '']; the maps hold
    the own properties of the two objects, which are read as objects are:
    a key that is no own property but the name of a property of
    [Object.prototype] finds that property, whose text the replacement
    then inserts. *)
Definition placeholderValue (envMap : option (gmap string string))
           (processEnv : gmap string string) (key : string) (d : option string)
  : string :=
  let fromMap := match envMap with Some m => Js.getText m key | None => None end in
  if Js.opt_truthy fromMap then default "" fromMap
  else if Js.opt_truthy (Js.getText processEnv key)
       then default "" (Js.getText processEnv key)
       else Js.opt_or d "".

(** The replace with the global flag: from left to right every match is
    replaced by its value and the scan resumes after the match ([skip]
    counts the characters of the current match still to pass over). *)
Fixpoint replacePlaceholders (envMap : option (gmap string string))
         (processEnv : gmap string string) (skip : nat) (s : string) : string :=
  match s with
  | EmptyString => EmptyString
  | String c s' =>
      match skip with
      | S k => replacePlaceholders envMap processEnv k s'
      | O =>
          match matchPlaceholder s with
          | Some (key, d, rest) =>
              placeholderValue envMap processEnv key d
              +:+ replacePlaceholders envMap processEnv
                    (String.length s' - String.length rest) s'
          | None => String c (replacePlaceholders envMap processEnv 0 s')
          end
      end
  end.

(** [resolveEnvValue(val, envMap)] *)
Definition resolveEnvValue (processEnv : gmap string string) (val : string)
           (envMap : option (gmap string string)) : string :=
  if Js.truthy val then replacePlaceholders envMap processEnv 0 val else val.

(** The command [restoreSqlInternal] pipes the dump into; [[]] when the
    image is of no known database. *)
Definition restoreSqlCommand (processEnv : gmap string string) (info : ContainerInfo)
           (envMap : option (gmap string string)) : list string :=
  let image := Js.toLowerCase (Image info) in
  let env := default [] (Env info) in
  if (Js.includes "postgres" image || Js.includes "timescale" image)%bool then
    let pgUser :=
      resolveEnvValue processEnv
        (Js.opt_or (envPiece env "POSTGRES_USER") "postgres") envMap in
    let pgPwd :=
      resolveEnvValue processEnv
        (Js.opt_or (envPiece env "POSTGRES_PASSWORD")
           (Js.opt_or (envPiece env "POSTGRES_PASS") "")) envMap in
    if Js.truthy pgPwd then
      ["sh"; "-c"; "PGPASSWORD='" +:+ Js.replaceAll is_quote "'\''" pgPwd
                    +:+ "' psql -U '" +:+ pgUser +:+ "' -d 'postgres'"]
    else ["psql"; "-U"; Js.or_else pgUser "postgres"; "-d"; "postgres"]
  else if (Js.includes "mysql" image || Js.includes "mariadb" image)%bool then
    match envPiece env "MYSQL_ROOT_PASSWORD" with
    | Some pwd =>
        if Js.truthy pwd then ["mysql"; "-u"; "root"; "-p" +:+ pwd]
        else ["mysql"; "-u"; "root"]
    | None => ["mysql"; "-u"; "root"]
    end
  else [].

End Restore.

Example resolveEnvValue_samples :
  Restore.resolveEnvValue {[ "HOME" := "/root" ]}
    "u=${DB_USER:-app};h=${HOME};x=${A-B};e=${NONE}"
    (Some {[ "DB_USER" := "admin" ]})
  = "u=admin;h=/root;x=${A-B};e="
  /\ Restore.resolveEnvValue ∅ "${DB_USER:-app}" (Some {[ "DB_USER" := "" ]}) = "app"
  /\ Restore.resolveEnvValue ∅ "${A:-${B}}" None = "${B}"
  /\ Restore.resolveEnvValue ∅ "${constructor}" (Some ∅)
     = "function Object() { [native code] }"
  /\ Restore.resolveEnvValue ∅ "${toString:-x}/${__proto__}" None
     = "function toString() { [native code] }/[object Object]".
Proof. vm_compute. repeat split; reflexivity. Qed.
(** ** The [.env] entry of a stack artifact *)

Section EnvText.
Import Restore.

Lemma join_cons_char (sep : string) (c : ascii) (h : string) (t : list string) :
  Js.join sep (String c h :: t) = String c (Js.join sep (h :: t)).
Proof. destruct t; reflexivity. Qed.

(** Joining what [split] produced with the separator gives the text back. *)
Lemma join_split (sep : ascii) (s : string) :
  Js.join (String sep "") (Js.split sep s) = s.
Proof.
  induction s as [|c s IH]; [reflexivity|].
  simpl Js.split. destruct (Ascii.eqb_spec c sep) as [->|Hne].
  - destruct (split_nonempty sep s) as (h & t & E). rewrite E in *.
    change (Js.join (String sep "") ("" :: h :: t))
      with (String sep (Js.join (String sep "") (h :: t))).
    rewrite IH. reflexivity.
  - destruct (split_nonempty sep s) as (h & t & E). rewrite E in *.
    rewrite join_cons_char, IH. reflexivity.
Qed.

(** Lines that hold no separator are recovered by splitting their join. *)
Lemma split_join_lines (sep : ascii) (l : string) (ls : list string) :
  Forall (fun x => Js.includes (String sep "") x = false) (l :: ls) ->
  Js.split sep (Js.join (String sep "") (l :: ls)) = l :: ls.
Proof.
  revert l. induction ls as [|l2 ls IH]; intros l H.
  - apply split_no_sep. inversion H. assumption.
  - inversion H as [|? ? Hl Hrest]; subst.
    change (Js.join (String sep "") (l :: l2 :: ls))
      with (l +:+ String sep (Js.join (String sep "") (l2 :: ls))).
    rewrite split_app_sep, (split_no_sep sep l Hl), (IH l2 Hrest). reflexivity.
Qed.

(** *** White space and [trim] *)

(** The bytes white space is made of: the white space of the 7-bit range
    and bytes of the upper half. *)
Definition wsByte (c : ascii) : bool :=
(Js.is_ws c || Nat.leb 128 (nat_of_ascii c))%bool.

Lemma is_ws2_high (a b : ascii) :
  Js.is_ws2 a b = true -> wsByte a = true /\ wsByte b = true.
Proof.
  unfold Js.is_ws2, wsByte. intros H.
  apply andb_true_iff in H as [Ha Hb]. apply Nat.eqb_eq in Ha, Hb.
  rewrite Ha, Hb. split; apply orb_true_r.
Qed.

Lemma is_ws3_high (a b c : ascii) :
  Js.is_ws3 a b c = true -> wsByte a = true /\ wsByte b = true /\ wsByte c = true.
Proof.
  unfold Js.is_ws3, wsByte. intros H.
  assert (Hh : (128 <= nat_of_ascii a /\ 128 <= nat_of_ascii b
                /\ 128 <= nat_of_ascii c)%nat).
  { repeat match type of H with
           | (_ || _)%bool = true => apply orb_true_iff in H as [H|H]
           end;
      repeat match goal with
             | H : (_ && _)%bool = true |- _ => apply andb_true_iff in H as [? ?]
             | H : (_ || _)%bool = true |- _ => apply orb_true_iff in H as [H|H]
             | H : Nat.eqb _ _ = true |- _ => apply Nat.eqb_eq in H
             | H : Nat.leb _ _ = true |- _ => apply Nat.leb_le in H
             end; lia. }
  destruct Hh as (Ha & Hb & Hc).
  apply Nat.leb_le in Ha, Hb, Hc. rewrite Ha, Hb, Hc.
  repeat split; apply orb_true_r.
Qed.

Lemma allChars_app (f : ascii -> bool) (a b : string) :
  allChars f (a +:+ b) = (allChars f a && allChars f b)%bool.
Proof.
  induction a as [|c a IH]; [reflexivity|].
  cbn [String.append allChars]. rewrite IH. apply andb_assoc.
Qed.

(** What [trimStart] drops is made of white-space bytes. *)
Lemma trimStart_decomp (n : nat) :
  forall s, (String.length s <= n)%nat ->
            exists p, s = p +:+ Js.trimStart s /\ allChars wsByte p = true.
Proof.
  induction n as [|n IH]; intros s Hlen.
  { destruct s; [|simpl in Hlen; lia]. exists "". split; reflexivity. }
  destruct s as [|c1 s1]; [exists ""; split; reflexivity|].
  cbn [String.length] in Hlen. cbn [Js.trimStart].
  destruct (Js.is_ws c1) eqn:E1.
  { destruct (IH s1 ltac:(lia)) as (p & Hp & Hall).
    exists (String c1 p). split; [cbn [String.append]; rewrite <- Hp; reflexivity|].
    cbn [allChars]. unfold wsByte at 1. rewrite E1, Hall. reflexivity. }
  destruct s1 as [|c2 s2]; [exists ""; split; reflexivity|].
  cbn [String.length] in Hlen.
  destruct (Js.is_ws2 c1 c2) eqn:E2.
  { destruct (IH s2 ltac:(lia)) as (p & Hp & Hall).
    apply is_ws2_high in E2 as [H1 H2].
    exists (String c1 (String c2 p)).
    split; [cbn [String.append]; rewrite <- Hp; reflexivity|].
    cbn [allChars]. rewrite H1, H2, Hall. reflexivity. }
  destruct s2 as [|c3 s3]; [exists ""; split; reflexivity|].
  cbn [String.length] in Hlen.
  destruct (Js.is_ws3 c1 c2 c3) eqn:E3; [|exists ""; split; reflexivity].
  destruct (IH s3 ltac:(lia)) as (p & Hp & Hall).
  apply is_ws3_high in E3 as (H1 & H2 & H3).
  exists (String c1 (String c2 (String c3 p))).
  split; [cbn [String.append]; rewrite <- Hp; reflexivity|].
  cbn [allChars]. rewrite H1, H2, H3, Hall. reflexivity.
Qed.

Lemma trimStart_length (s : string) :
  (String.length (Js.trimStart s) <= String.length s)%nat.
Proof.
  destruct (trimStart_decomp (String.length s) s (le_n _)) as (p & Hp & _).
  rewrite Hp at 2. rewrite length_append. lia.
Qed.

(** A text that holds a byte white space is not made of is not blank. *)
Lemma not_blank (a : string) (c : ascii) (v : string) :
  wsByte c = false -> Js.blank (a +:+ String c v) = false.
Proof.
  intros Hc. unfold Js.blank.
  destruct (trimStart_decomp _ (a +:+ String c v) (le_n _)) as (p & Hp & Hall).
  destruct (Js.trimStart (a +:+ String c v)); [|reflexivity].
  rewrite append_nil_r in Hp. rewrite <- Hp, allChars_app in Hall.
  cbn [allChars] in Hall. rewrite Hc in Hall.
  rewrite andb_false_r in Hall. discriminate.
Qed.

(** A text without white space at its start keeps its start when a byte
    white space is not made of, and more, is put behind it. *)
Lemma trimStart_fixed_app (a : string) (c : ascii) (x : string) :
  a <> "" -> wsByte c = false -> Js.trimStart a = a ->
  Js.trimStart (a +:+ String c x) = a +:+ String c x.
Proof.
  intros Hne Hc H.
  assert (Hshort : forall r t : string,
             (String.length t < String.length r)%nat -> Js.trimStart t <> r).
  { intros r t Hlt E. pose proof (trimStart_length t) as L. rewrite E in L. lia. }
  assert (H2 : forall b, Js.is_ws2 b c = false).
  { intros b. destruct (Js.is_ws2 b c) eqn:E; [|reflexivity].
    apply is_ws2_high in E as [_ E]. congruence. }
  assert (H3 : forall b d, Js.is_ws3 b c d = false).
  { intros b d. destruct (Js.is_ws3 b c d) eqn:E; [|reflexivity].
    apply is_ws3_high in E as (_ & E & _). congruence. }
  assert (H3' : forall b d, Js.is_ws3 b d c = false).
  { intros b d. destruct (Js.is_ws3 b d c) eqn:E; [|reflexivity].
    apply is_ws3_high in E as (_ & _ & E). congruence. }
  destruct a as [|c1 a1]; [congruence|].
  cbn [Js.trimStart] in H. cbn [String.append Js.trimStart].
  destruct (Js.is_ws c1); [exfalso; eapply Hshort; [|exact H]; simpl; lia|].
  destruct a1 as [|c2 a2].
  { cbn [String.append]. rewrite H2. destruct x; [reflexivity|]. rewrite H3. reflexivity. }
  cbn [String.append].
  destruct (Js.is_ws2 c1 c2); [exfalso; eapply Hshort; [|exact H]; simpl; lia|].
  destruct a2 as [|c3 a3].
  { cbn [String.append]. rewrite H3'. reflexivity. }
  cbn [String.append].
  destruct (Js.is_ws3 c1 c2 c3); [exfalso; eapply Hshort; [|exact H]; simpl; lia|].
  reflexivity.
Qed.

(** Nothing is cut from the end of a text in front of a byte white space
    is not made of, when nothing is cut from what follows that byte. *)
Lemma trimEnd_app_fixed (a : string) (c : ascii) (v : string) :
  wsByte c = false -> Js.trimEnd v = v ->
  Js.trimEnd (a +:+ String c v) = a +:+ String c v.
Proof.
  intros Hc H. induction a as [|d a IH].
  - pose proof (not_blank "" c v Hc) as Hb.
    cbn [String.append Js.trimEnd] in *. rewrite Hb, H. reflexivity.
  - pose proof (not_blank (String d a) c v Hc) as Hb.
    cbn [String.append Js.trimEnd] in *. rewrite Hb, IH. reflexivity.
Qed.

(** A key the parser stores as it is, under its own name: not empty, free
    of [=] and of line breaks, not a comment, without white space at either
    end, and not the name [__proto__], under which an assignment stores
    nothing. *)
Definition plainKey (k : string) : Prop :=
k <> "" /\ Js.includes "=" k = false /\ Js.includes nl k = false
/\ Js.startsWith "#" k = false /\ Js.trimStart k = k /\ Js.trimEnd k = k
/\ k <> "__proto__".

(** A value the parser stores as it is: free of line breaks, without white
    space at either end. *)
Definition plainValue (v : string) : Prop :=
Js.includes nl v = false /\ Js.trimStart v = v /\ Js.trimEnd v = v.

Definition envLine (kv : string * string) : string := fst kv +:+ "=" +:+ snd kv.

(** The text [appendEnv] generates of a variable table. *)
Definition envFileOf (vars : list (string * string)) : string :=
Js.join nl (List.map envLine vars).

Lemma parseEnvLine_plain (m : gmap string string) (k v : string) :
  plainKey k -> plainValue v -> parseEnvLine m (envLine (k, v)) = <[k := v]> m.
Proof.
  intros (Hne & Heq & _ & Hhash & Hts & Hte & Hproto) (_ & Hvs & Hve).
  unfold parseEnvLine, envLine. cbn [fst snd].
  change (k +:+ "=" +:+ v) with (k +:+ String "=" v).
  assert (Ht : Js.trim (k +:+ String "=" v) = k +:+ String "=" v).
  { unfold Js.trim. rewrite (trimStart_fixed_app k "=" v Hne eq_refl Hts).
    apply trimEnd_app_fixed; [reflexivity|exact Hve]. }
  rewrite Ht.
  assert (Htruthy : Js.truthy (k +:+ String "=" v) = true).
  { destruct k; [congruence|reflexivity]. }
  assert (Hcomment : Js.startsWith "#" (k +:+ String "=" v) = false).
  { destruct k as [|c k]; [congruence|].
    change (String c k +:+ String "=" v) with (String c (k +:+ String "=" v)).
    rewrite startsWith_cons in *. rewrite andb_true_r in *. exact Hhash. }
  assert (Hincl : Js.includes "=" (k +:+ String "=" v) = true).
  { rewrite includes_char_app, includes_char_cons, Ascii.eqb_refl.
    apply orb_true_r. }
  rewrite Htruthy, Hcomment, Hincl. cbn [andb negb].
  rewrite split_app_sep, (split_no_sep "=" k Heq). cbn [app].
  rewrite join_split.
  unfold Js.trim. rewrite Hts, Hte, Hvs, Hve.
  unfold Js.assign. apply String.eqb_neq in Hproto. rewrite Hproto.
  destruct (m !! k); reflexivity.
Qed.

Lemma foldl_parseEnvLine_plain (vars : list (string * string)) (m : gmap string string) :
  Forall (fun kv => plainKey (fst kv) /\ plainValue (snd kv)) vars ->
  foldl parseEnvLine m (List.map envLine vars)
  = foldl (fun acc kv => <[fst kv := snd kv]> acc) m vars.
Proof.
  revert m. induction vars as [|[k v] vars IH]; intros m H; [reflexivity|].
  inversion H as [|? ? [Hk Hv] Hrest]; subst. cbn [List.map foldl fst snd].
  rewrite (parseEnvLine_plain m k v Hk Hv). apply IH, Hrest.
Qed.

Lemma foldl_insert_list_to_map (vars : list (string * string)) :
  NoDup (List.map fst vars) ->
  foldl (fun acc kv => <[fst kv := snd kv]> acc) (∅ : gmap string string) vars
  = list_to_map vars.
Proof.
  induction vars as [|[k v] vars IH] using rev_ind; intros H; [reflexivity|].
  rewrite foldl_app. cbn [foldl fst snd].
  rewrite List.map_app in H. apply NoDup_app in H as (H1 & H2 & _).
  rewrite (IH H1), list_to_map_snoc; [reflexivity|].
  intros Hin. apply (H2 k); [exact Hin|]. cbn. left.
Qed.

Lemma envLine_no_newline (kv : string * string) :
  plainKey (fst kv) -> plainValue (snd kv) ->
  Js.includes (String (ascii_of_nat 10) "") (envLine kv) = false.
Proof.
  intros (_ & _ & Hk & _) (Hv & _). unfold envLine.
  change (fst kv +:+ "=" +:+ snd kv) with (fst kv +:+ String "=" (snd kv)).
  rewrite includes_char_app, includes_char_cons.
  change (String (ascii_of_nat 10) "") with nl. rewrite Hk, Hv. reflexivity.
Qed.

(** What the restore reads back from the [.env] text generated of a
    variable table. *)
Lemma parse_generated (vars : list (string * string)) :
  Forall (fun kv => plainKey (fst kv) /\ plainValue (snd kv)) vars ->
  NoDup (List.map fst vars) ->
  parseEnvFile (envFileOf vars) = list_to_map vars.
Proof.
  intros Hplain Hnodup. unfold parseEnvFile, envFileOf.
  destruct vars as [|kv vars]; [reflexivity|].
  change nl with (String (ascii_of_nat 10) "").
  cbn [List.map]. rewrite split_join_lines.
  - rewrite <- (foldl_insert_list_to_map (kv :: vars) Hnodup).
    apply (foldl_parseEnvLine_plain (kv :: vars) ∅ Hplain).
  - change (envLine kv :: List.map envLine vars) with (List.map envLine (kv :: vars)).
    apply Forall_map. eapply Forall_impl; [exact Hplain|].
    intros x [Hk Hv]. apply envLine_no_newline; assumption.
Qed.

(** X3. The [.env] entry a stack backup generates of a non-empty variable
    table is read back by the stack restore as the same table, when keys
    and values are plain: keys not empty, free of [=], not starting with
    [#] and other than [__proto__]; keys and values free of line breaks and
    of white space at either end. *)
Theorem env_entry_read_back (h : Host) (virtualId : string)
        (sc : Storage.StackConfig) (vars : list (string * string))
        (archive : list Entry) (w : World) :
  Storage.envVars sc = Some vars ->
  vars <> [] ->
  Forall (fun kv => plainKey (fst kv) /\ plainValue (snd kv)) vars ->
  NoDup (List.map fst vars) ->
  exists envContent,
    snd (appendEnv h virtualId (Some sc) archive w)
    = Ok (archive ++ [{| entryName := ".env"; content := Text envContent |}])%list
    /\ parseEnvFile envContent = list_to_map vars.
Proof.
  intros Hvars Hne Hplain Hnodup. exists (envFileOf vars). split.
  - unfold appendEnv. rewrite Hvars. destruct vars; [congruence|reflexivity].
  - apply parse_generated; assumption.
Qed.

Definition shopVars : list (string * string) :=
[("DB_USER", "admin"); ("DB_URL", "postgres://db:5432/shop?sslmode=disable")].

Definition shopConfig : Storage.StackConfig :=
{| Storage.name := "shop"; Storage.yaml := ""; Storage.envFile := None;
   Storage.envVars := Some shopVars; Storage.services := ∅;
   Storage.lastUpdated := 0 |}.

Lemma env_entry_read_back_witness :
  exists envContent,
    snd (appendEnv shopHost "stack-shop" (Some shopConfig) [] freshWorld)
    = Ok ([] ++ [{| entryName := ".env"; content := Text envContent |}])%list
    /\ parseEnvFile envContent = list_to_map shopVars.
Proof.
  apply (env_entry_read_back shopHost "stack-shop" shopConfig shopVars [] freshWorld).
  - reflexivity.
  - discriminate.
  - repeat constructor; try reflexivity; discriminate.
  - apply (bool_decide_unpack _). vm_compute. exact I.
Defined.

(** *** The two readers of a container's environment *)

Lemma getEnv_found (info : ContainerInfo) (env : list string) (key v : string) :
  Env info = Some env ->
  Js.includes "=" key = false ->
  List.find (Js.startsWith (key +:+ "=")) env = Some (key +:+ "=" +:+ v) ->
  getEnv info key = Some v.
Proof.
  intros He Hk Hf. unfold getEnv. rewrite He, Hf.
  change (key +:+ "=" +:+ v) with (key +:+ String "=" v).
  rewrite split_app_sep, (split_no_sep "=" key Hk). cbn [app List.tl].
  rewrite join_split. reflexivity.
Qed.

Lemma envPiece_found (env : list string) (key a b : string) :
  Js.includes "=" key = false ->
  Js.includes "=" a = false ->
  List.find (Js.startsWith (key +:+ "=")) env
  = Some (key +:+ "=" +:+ a +:+ "=" +:+ b) ->
  envPiece env key = Some a.
Proof.
  intros Hk Ha Hf. unfold envPiece. rewrite Hf.
  change (key +:+ "=" +:+ a +:+ "=" +:+ b) with (key +:+ String "=" (a +:+ String "=" b)).
  rewrite !split_app_sep, (split_no_sep "=" key Hk), (split_no_sep "=" a Ha).
  reflexivity.
Qed.

(** X4. For a MySQL or MariaDB container whose root password holds an
    equals sign, the dump command of the backup carries the whole password
    and the restore command only its part before the first equals sign. *)
Theorem mysql_restore_password_cut (processEnv : gmap string string)
        (envMap : option (gmap string string)) (info : ContainerInfo)
        (env : list string) (a b : string) :
  Js.toLowerCase (Image info) = Image info ->
  isPostgresImage (Image info) = false ->
  (Js.includes "mysql" (Image info) || Js.includes "mariadb" (Image info))%bool = true ->
  Env info = Some env ->
  List.find (Js.startsWith "MYSQL_ROOT_PASSWORD=") env
  = Some ("MYSQL_ROOT_PASSWORD=" +:+ a +:+ "=" +:+ b) ->
  a <> "" ->
  Js.includes "=" a = false ->
  dumpCommand info
  = ["sh"; "-c"; "mysqldump -u root -p" +:+ dq +:+ (a +:+ "=" +:+ b) +:+ dq
                 +:+ " --all-databases"]
  /\ restoreSqlCommand processEnv info envMap = ["mysql"; "-u"; "root"; "-p" +:+ a].
Proof.
  intros Hlow Hpg Hmy He Hf Hne Ha. split.
  - unfold dumpCommand. rewrite Hpg.
    rewrite (getEnv_found info env "MYSQL_ROOT_PASSWORD" (a +:+ "=" +:+ b) He eq_refl Hf).
    destruct a; [congruence|reflexivity].
  - unfold restoreSqlCommand. rewrite Hlow, He.
    unfold isPostgresImage in Hpg. rewrite Hpg, Hmy. change (default [] (Some env)) with env.
    rewrite (envPiece_found env "MYSQL_ROOT_PASSWORD" a b eq_refl Ha Hf).
    destruct a; [congruence|reflexivity].
Qed.

Lemma mysql_restore_password_cut_witness :
  dumpCommand (plainInfo "/db" "mysql:8" ["MYSQL_ROOT_PASSWORD=s3cr=t"])
  = ["sh"; "-c"; "mysqldump -u root -p" +:+ dq +:+ ("s3cr" +:+ "=" +:+ "t") +:+ dq
                 +:+ " --all-databases"]
  /\ restoreSqlCommand ∅ (plainInfo "/db" "mysql:8" ["MYSQL_ROOT_PASSWORD=s3cr=t"]) None
     = ["mysql"; "-u"; "root"; "-p" +:+ "s3cr"].
Proof.
  apply (mysql_restore_password_cut ∅ None
           (plainInfo "/db" "mysql:8" ["MYSQL_ROOT_PASSWORD=s3cr=t"])
           ["MYSQL_ROOT_PASSWORD=s3cr=t"] "s3cr" "t");
    try reflexivity.
  discriminate.
Defined.

End EnvText.

(** ** Placeholders *)

Section Placeholders.
Import Restore.

Variables (envMap : option (gmap string string)) (processEnv : gmap string string).

Lemma resolveEnvValue_eq (val : string) :
  resolveEnvValue processEnv val envMap = replacePlaceholders envMap processEnv 0 val.
Proof. destruct val; reflexivity. Qed.


(** No match starts where the text does not start with a dollar sign and
    an opening brace. *)
Lemma matchPlaceholder_None (s : string) :
  Js.startsWith "${" s = false -> matchPlaceholder s = None.
Proof.
  destruct s as [|c s]; [reflexivity|].
  destruct c as [[] [] [] [] [] [] [] []]; try reflexivity.
  destruct s as [|c s]; [reflexivity|].
  destruct c as [[] [] [] [] [] [] [] []]; try reflexivity.
  discriminate.
Qed.

Lemma replacePlaceholders_cons_None (c : ascii) (s : string) :
  matchPlaceholder (String c s) = None ->
  replacePlaceholders envMap processEnv 0 (String c s)
  = String c (replacePlaceholders envMap processEnv 0 s).
Proof. intros H. cbn [replacePlaceholders]. rewrite H. reflexivity. Qed.

Lemma span_app (p : ascii -> bool) (a b : string) :
  allChars p a = true ->
  match b with EmptyString => True | String c _ => p c = false end ->
  span p (a +:+ b) = (a, b).
Proof.
  intros Ha Hb. induction a as [|c a IH].
  - destruct b as [|c b]; [reflexivity|]. cbn [String.append span]. rewrite Hb. reflexivity.
  - cbn [allChars] in Ha. apply andb_true_iff in Ha as [Hc Ha].
    change (String c a +:+ b) with (String c (a +:+ b)).
    cbn [span]. rewrite Hc, (IH Ha). reflexivity.
Qed.








(** X5. A text in which no dollar sign is directly followed by an opening
    brace is returned as it is. *)
Theorem resolveEnvValue_without_placeholder (val : string) :
  Js.includes "${" val = false ->
  resolveEnvValue processEnv val envMap = val.
Proof.
  rewrite resolveEnvValue_eq.
  induction val as [|c val IH]; intros H; [reflexivity|].
  apply includes_cons_false in H as [Hs Hi].
  rewrite replacePlaceholders_cons_None by (apply matchPlaceholder_None, Hs).
  rewrite (IH Hi). reflexivity.
Qed.


End Placeholders.

Lemma resolveEnvValue_without_placeholder_witness :
  Restore.resolveEnvValue ∅ "cost: $5 {net} $" (Some {[ "net" := "x" ]})
  = "cost: $5 {net} $".
Proof.
  apply (resolveEnvValue_without_placeholder (Some {[ "net" := "x" ]}) ∅
           "cost: $5 {net} $").
  reflexivity.
Defined.


(** ** Captured paths *)

Section CapturedPaths.
Import StackParser.

(** X7. A short-form volume item [HOST:CONTAINER] or [HOST:CONTAINER:MODE]
    contributes the container path, whatever the mode; an item without a
    colon contributes itself. *)
Theorem parseVolume_short_form (volumes : list string) (host container : string) :
  Js.includes ":" host = false ->
  Js.includes ":" container = false ->
  parseVolume volumes (VolString container) = (volumes ++ [container])%list
  /\ parseVolume volumes (VolString (host +:+ ":" +:+ container))
     = (volumes ++ [container])%list
  /\ forall mode,
       parseVolume volumes (VolString (host +:+ ":" +:+ container +:+ ":" +:+ mode))
       = (volumes ++ [container])%list.
Proof.
  intros Hh Hc. unfold parseVolume. repeat split.
  - rewrite (split_no_sep ":" container Hc). reflexivity.
  - change (host +:+ ":" +:+ container) with (host +:+ String ":" container).
    rewrite split_app_sep, (split_no_sep ":" host Hh), (split_no_sep ":" container Hc).
    reflexivity.
  - intros mode.
    change (host +:+ ":" +:+ container +:+ ":" +:+ mode)
      with (host +:+ String ":" (container +:+ String ":" mode)).
    rewrite !split_app_sep, (split_no_sep ":" host Hh), (split_no_sep ":" container Hc).
    reflexivity.
Qed.

Lemma parseVolume_short_form_witness :
  parseVolume [] (VolString "/var/lib/postgresql/data") = ([] ++ ["/var/lib/postgresql/data"])%list
  /\ parseVolume [] (VolString ("pgdata" +:+ ":" +:+ "/var/lib/postgresql/data"))
     = ([] ++ ["/var/lib/postgresql/data"])%list
  /\ forall mode,
       parseVolume []
         (VolString ("pgdata" +:+ ":" +:+ "/var/lib/postgresql/data" +:+ ":" +:+ mode))
       = ([] ++ ["/var/lib/postgresql/data"])%list.
Proof.
  apply (parseVolume_short_form [] "pgdata" "/var/lib/postgresql/data"); reflexivity.
Defined.

Lemma existsb_eqb_elem_of (x : string) (l : list string) :
  existsb (String.eqb x) l = true <-> x ∈ l.
Proof.
  rewrite existsb_exists. split.
  - intros (y & Hin & E). apply String.eqb_eq in E. subst y.
    apply list_elem_of_In. exact Hin.
  - intros Hin. exists x. split; [apply list_elem_of_In; exact Hin|apply String.eqb_refl].
Qed.

Lemma truthy_nonempty (s : string) : Js.truthy s = true <-> s <> "".
Proof. destruct s; simpl; split; congruence. Qed.

(** One step of the collection: the trimmed form of [v] joins the paths
    unless it is blank or already there. *)
Lemma addPath_elem (acc : list string) (v p : string) :
  p ∈ addPath acc v <-> p ∈ acc \/ (p <> "" /\ Js.trim v = p).
Proof.
  unfold addPath, Js.set_add.
  destruct (Js.truthy (Js.trim v)) eqn:Ht.
  - apply truthy_nonempty in Ht.
    destruct (existsb (String.eqb (Js.trim v)) acc) eqn:E.
    + apply existsb_eqb_elem_of in E. split; [auto|].
      intros [H|[_ <-]]; assumption.
    + rewrite elem_of_app, list_elem_of_singleton. split.
      * intros [H| ->]; auto.
      * intros [H|[_ <-]]; auto.
  - split; [auto|]. intros [H|[Hne <-]]; [exact H|].
    destruct (Js.trim v); [congruence|discriminate].
Qed.

Lemma addPath_NoDup (acc : list string) (v : string) :
  NoDup acc -> NoDup (addPath acc v).
Proof.
  intros Hnd. unfold addPath, Js.set_add.
  destruct (Js.truthy (Js.trim v)); [|exact Hnd].
  destruct (existsb (String.eqb (Js.trim v)) acc) eqn:E; [exact Hnd|].
  apply NoDup_app. split; [exact Hnd|]. split; [|apply NoDup_singleton].
  intros x Hx Hx'. apply list_elem_of_singleton in Hx'. subst x.
  apply existsb_eqb_elem_of in Hx. congruence.
Qed.

Lemma foldl_addPath_NoDup (vs acc : list string) :
  NoDup acc -> NoDup (foldl addPath acc vs).
Proof.
  revert acc. induction vs as [|v vs IH]; intros acc H; [exact H|].
  apply IH, addPath_NoDup, H.
Qed.

Lemma foldl_addPath_elem (vs acc : list string) (p : string) :
  p ∈ foldl addPath acc vs
  <-> p ∈ acc \/ (p <> "" /\ exists v, v ∈ vs /\ Js.trim v = p).
Proof.
  revert acc. induction vs as [|v vs IH]; intros acc; cbn [foldl].
  - split; [auto|]. intros [H|(_ & v & Hv & _)]; [exact H|].
    apply elem_of_nil in Hv. destruct Hv.
  - rewrite IH, addPath_elem. split.
    + intros [[H|[Hne E]]|(Hne & x & Hx & E)]; [auto| |].
      * right. split; [exact Hne|]. exists v. split; [left|exact E].
      * right. split; [exact Hne|]. exists x. split; [right; exact Hx|exact E].
    + intros [H|(Hne & x & Hx & E)]; [auto|].
      apply elem_of_cons in Hx as [->|Hx]; [auto|].
      right. split; [exact Hne|]. exists x. auto.
Qed.

(** The captured paths, given the stored volumes. *)
Lemma pathsToBackup_parts (w : World) (info : ContainerInfo)
      (customPaths : option (list string)) (stored : list string) :
  stackVolumes w info = Ok stored ->
  exists paths,
    pathsToBackup w info customPaths = Ok paths
    /\ NoDup paths
    /\ forall p,
         p ∈ paths
         <-> p <> "" /\ exists v, v ∈ (stored ++ default [] customPaths)%list
                                  /\ Js.trim v = p.
Proof.
  intros Hstored. unfold pathsToBackup. rewrite Hstored.
  eexists. split; [reflexivity|]. split.
  - apply foldl_addPath_NoDup, foldl_addPath_NoDup. constructor.
  - intros p. rewrite !foldl_addPath_elem. split.
    + intros [[H|(Hne & v & Hv & E)]|(Hne & v & Hv & E)].
      * apply elem_of_nil in H. destruct H.
      * split; [exact Hne|]. exists v. split; [apply elem_of_app; auto|exact E].
      * split; [exact Hne|]. exists v. split; [apply elem_of_app; auto|exact E].
    + intros (Hne & v & Hv & E). apply elem_of_app in Hv as [Hv|Hv].
      * left. right. eauto.
      * right. eauto.
Qed.

(** X8. When the stored volumes of the container's service can be read,
    the paths captured for the container hold no path twice, and they are
    exactly the non-empty trimmed forms of the configured paths: of the
    stored volumes and of the custom paths. *)
Theorem pathsToBackup_tidy (w : World) (info : ContainerInfo)
        (customPaths : option (list string)) (stored : list string) :
  stackVolumes w info = Ok stored ->
  exists paths,
    pathsToBackup w info customPaths = Ok paths
    /\ NoDup paths
    /\ forall p,
         p ∈ paths
         <-> p <> "" /\ exists v, v ∈ (stored ++ default [] customPaths)%list
                                  /\ Js.trim v = p.
Proof. exact (pathsToBackup_parts w info customPaths stored). Qed.

(** The theorem at a container of the stored stack [shop] with two custom
    paths, one of them blank and the other a stored volume again. *)
Definition worldWithShop : World :=
{| clock := 1700000000000; jobLog := []; historyFile := Storage.Missing;
   stacks :=
     {[ "shop" :=
          {| Storage.name := "shop"; Storage.yaml := "services: {}";
             Storage.envFile := None; Storage.envVars := None;
             Storage.services :=
               {[ "db" := {| StackParser.name := "db"; StackParser.image := "postgres:16";
                             StackParser.volumes := ["/var/lib/postgresql/data"; " /backups "];
                             StackParser.env := ∅ |} ]};
             Storage.lastUpdated := 0 |} ]};
   fs := ∅ |}.

Lemma pathsToBackup_tidy_witness :
  exists paths,
    pathsToBackup worldWithShop (labelledInfo "/shop-db-1" "postgres:16" "shop" "db")
      (Some ["  "; "/backups"])
    = Ok paths
    /\ NoDup paths
    /\ forall p,
         p ∈ paths
         <-> p <> ""
             /\ exists v, v ∈ (["/var/lib/postgresql/data"; " /backups "]
                               ++ default [] (Some ["  "; "/backups"]))%list
                          /\ Js.trim v = p.
Proof.
  apply (pathsToBackup_tidy worldWithShop
           (labelledInfo "/shop-db-1" "postgres:16" "shop" "db")
           (Some ["  "; "/backups"]) ["/var/lib/postgresql/data"; " /backups "]).
  reflexivity.
Defined.

End CapturedPaths.

(** ** Subtrees of a unified artifact *)

Section Subtrees.

Lemma startsWith_segment (a b x y : string) :
  Js.includes "/" a = false -> Js.includes "/" b = false ->
  Js.startsWith (b +:+ String "/" x) (a +:+ String "/" y) = true -> a = b.
Proof.
  revert a. induction b as [|c b IH]; intros [|d a] Ha Hb H.
  - reflexivity.
  - change (String d a +:+ String "/" y) with (String d (a +:+ String "/" y)) in H.
    cbn [String.append] in H. rewrite startsWith_cons in H.
    apply andb_true_iff in H as [H _].
    rewrite includes_char_cons in Ha. apply orb_false_iff in Ha as [Ha _].
    congruence.
  - change (String c b +:+ String "/" x) with (String c (b +:+ String "/" x)) in H.
    cbn [String.append] in H. rewrite startsWith_cons in H.
    apply andb_true_iff in H as [H _].
    rewrite includes_char_cons in Hb. apply orb_false_iff in Hb as [Hb _].
    rewrite Ascii.eqb_sym in H. congruence.
  - change (String c b +:+ String "/" x) with (String c (b +:+ String "/" x)) in H.
    change (String d a +:+ String "/" y) with (String d (a +:+ String "/" y)) in H.
    rewrite startsWith_cons in H. apply andb_true_iff in H as [Hcd H].
    apply Ascii.eqb_eq in Hcd. subst d.
    rewrite includes_char_cons in Ha, Hb.
    apply orb_false_iff in Ha as [_ Ha], Hb as [_ Hb].
    f_equal. apply IH; assumption.
Qed.

Lemma volumesPrefix_service (n : string) :
  simpleSegment n = true ->
  volumesPrefix ("services/" +:+ n) = "services/" +:+ n +:+ "/volumes/".
Proof.
  intros Hn.
  change ("services/" +:+ n) with (Js.join "/" ["services"; n]).
  rewrite volumesPrefix_segments by (repeat constructor; exact Hn).
  cbn [app Js.join]. rewrite !append_assoc. reflexivity.
Qed.

(** X9. A volume entry written under one artifact prefix (the archive
    root, or [services/<name>] for a member of a stack) is never selected
    by [restoreVolumesInternal] under another one: the restore of a member
    leaves the volume entries of the other members alone, also when one
    member's name starts with the other's. *)
Theorem restore_skips_other_subtrees (written read volPath : string) (c : Content) :
  artifactPrefix written -> artifactPrefix read -> written <> read ->
  restoreVolumesInternal read
    [{| entryName := Path.join [written; "volumes"; safeName volPath]; content := c |}]
  = [].
Proof.
  intros Hw Hr Hne. rewrite (volume_entry_name written volPath Hw).
  unfold restoreVolumesInternal, isVolumeEntry. cbn [List.filter entryName].
  assert (H : Js.startsWith (volumesPrefix read)
                (volumesPrefix written +:+ safeName volPath) = false).
  { destruct Hw as [|a Ha], Hr as [|b Hb].
    - congruence.
    - rewrite (volumesPrefix_service b Hb). reflexivity.
    - rewrite (volumesPrefix_service a Ha). reflexivity.
    - rewrite (volumesPrefix_service a Ha), (volumesPrefix_service b Hb).
      destruct (Js.startsWith _ _) eqn:E; [|reflexivity].
      exfalso. apply Hne. f_equal.
      apply simpleSegment_inv in Ha, Hb.
      apply (startsWith_segment a b "volumes/" ("volumes/" +:+ safeName volPath));
        [tauto|tauto|].
      repeat first [rewrite append_assoc in E | progress cbn [String.append] in E].
      rewrite !startsWith_cons in E. cbn [Ascii.eqb Bool.eqb andb] in E.
      exact E. }
  rewrite H. reflexivity.
Qed.

Lemma restore_skips_other_subtrees_witness :
  restoreVolumesInternal "services/web"
    [{| entryName := Path.join ["services/web-db"; "volumes"; safeName "/var/lib/mysql"];
        content := TarStream "" |}]
  = [].
Proof.
  apply (restore_skips_other_subtrees "services/web-db" "services/web" "/var/lib/mysql"
           (TarStream "")).
  - apply (prefix_service "web-db"). reflexivity.
  - apply (prefix_service "web"). reflexivity.
  - discriminate.
Defined.

End Subtrees.

(** ** What a backup leaves in the history and in the job table *)

Section Outcomes.

Ltac run_world :=
  cbv beta iota delta [bind ret throw tryCatch get setFs updateJobStatus
                       addHistoryEntry fst snd clock jobLog historyFile stacks fs].

(** How an upload ends. When it returns, it has added one history entry
    and its last update of the job table set the job to [completed]; when
    it throws, the history is as before and the job is [completed] all
    the same. *)
Lemma handleUpload_outcome (h : Host) (id filePath : string) (w : World) :
  exists w' r ev log,
    handleUpload h id filePath w = (w', r)
    /\ jobLog w' = ev :: log
    /\ ev_id ev = id /\ ev_status ev = Queue.completed
    /\ match r with
       | Ok _ => exists e, historyFile w' = Storage.addHistoryEntry e (historyFile w)
       | Throw _ => historyFile w' = historyFile w
       end.
Proof.
  unfold handleUpload.
  destruct (Js.opt_truthy (TELEGRAM_TOKEN h) && Js.opt_truthy (CHAT_ID h))%bool.
  - unfold bind at 1. unfold updateJobStatus at 1. unfold tryCatch.
    unfold bind at 1. unfold statSize. cbn [fs].
    destruct (fs w !! filePath) as [[es fin|b]|];
      destruct (fetch h (documentUrl h) (Path.basename filePath));
      (eexists _, _, _, _; split; [reflexivity|];
       split; [reflexivity|]; split; [reflexivity|]; split; [reflexivity|];
       eexists; reflexivity).
  - unfold bind at 1. unfold updateJobStatus at 1.
    unfold bind at 1. unfold statSize. cbn [fs].
    destruct (fs w !! filePath) as [[es fin|b]|];
      (eexists _, _, _, _; split; [reflexivity|];
       split; [reflexivity|]; split; [reflexivity|]; split; [reflexivity|];
       first [eexists; reflexivity | reflexivity]).
Qed.

(** The world the [catch] block of the worker function leaves. *)
Definition afterFailure (id msg : string) (w : World) : World :=
{| clock := clock w;
   jobLog := {| ev_id := id; ev_status := Queue.failed; ev_message := Some msg;
                ev_at := clock w |} :: jobLog w;
   historyFile :=
     Storage.addHistoryEntry
       (historyEntry (clock w) "Unknown" Storage.failed Storage.local msg None)
       (historyFile w);
   stacks := stacks w;
   fs := fs w |}.

(** One run of the worker function: it returns, with one more history
    entry and its job settled. *)
Lemma processBackup_summary (h : Host) (id : string)
      (customPaths : option (list string)) (w : World) :
  exists w' e j,
    processBackup h id customPaths w = (w', Ok tt)
    /\ historyFile w' = Storage.addHistoryEntry e (historyFile w)
    /\ globalState w' !! id = Some j
    /\ (Queue.status j = Queue.completed
        \/ (Queue.status j = Queue.failed
            /\ Storage.status e = Storage.failed
            /\ Storage.containerName e = "Unknown"
            /\ Queue.message j = Some (Storage.message e))).
Proof.
  unfold processBackup, tryCatch.
  unfold bind at 1. unfold updateJobStatus at 1.
  set (w0 := {| clock := clock w; jobLog := _ :: jobLog w; historyFile := historyFile w;
                stacks := stacks w; fs := fs w |}).
  unfold bind at 1. unfold lift at 1.
  destruct (ensureDir h (backupDir h)) as [[]|msg].
  2:{ exists (afterFailure id msg w0). eexists _, _. split; [reflexivity|].
      split; [reflexivity|].
      split; [apply (globalState_head (afterFailure id msg w0) _ _ eq_refl)|].
      right. repeat split. }
  unfold bind at 1.
  pose proof (keepsHistory_generateBackupFile h id (backupDir h) customPaths w0) as Hgen.
  destruct (generateBackupFile h id (backupDir h) customPaths w0) as [w1 [filePath|msg]];
    cbn [fst] in Hgen.
  - destruct (handleUpload_outcome h id filePath w1)
      as (w2 & r & ev & log & -> & Hlog & Hid & Hst & Hh).
    destruct r as [[]|msg].
    + destruct Hh as [e He]. exists w2, e.
      eexists. split; [reflexivity|]. split; [rewrite He, Hgen; reflexivity|].
      split; [rewrite <- Hid; apply (globalState_head w2 ev log Hlog)|].
      left. exact Hst.
    + exists (afterFailure id msg w2). eexists _, _. split; [reflexivity|].
      split; [unfold afterFailure; cbn [historyFile]; rewrite Hh, Hgen; reflexivity|].
      split; [apply (globalState_head (afterFailure id msg w2) _ _ eq_refl)|].
      right. repeat split.
  - exists (afterFailure id msg w1). eexists _, _. split; [reflexivity|].
    split; [unfold afterFailure; cbn [historyFile]; rewrite Hgen; reflexivity|].
    split; [apply (globalState_head (afterFailure id msg w1) _ _ eq_refl)|].
    right. repeat split.
Qed.

(** X10. With a history file that is missing, unreadable or an array of
    entries, and that can be written, the worker function returns whatever
    the host does (directory check, engine, dump, upload): it adds exactly
    one entry to the history and leaves its job either [completed] or
    [failed]; when the job is [failed], the entry is a [failed] one under
    the name [Unknown] and carries the message of the job. *)
Theorem processBackup_outcome (h : Host) (id : string)
        (customPaths : option (list string)) (w : World) :
  exists w' e j,
    processBackup h id customPaths w = (w', Ok tt)
    /\ historyFile w' = Storage.addHistoryEntry e (historyFile w)
    /\ globalState w' !! id = Some j
    /\ (Queue.status j = Queue.completed
        \/ (Queue.status j = Queue.failed
            /\ Storage.status e = Storage.failed
            /\ Storage.containerName e = "Unknown"
            /\ Queue.message j = Some (Storage.message e))).
Proof. apply processBackup_summary. Qed.

Lemma replay_other (id : string) (evs base : list JobEvent) :
  Forall (fun e => ev_id e <> id) evs ->
  replay (evs ++ base) !! id = replay base !! id.
Proof.
  induction evs as [|e evs IH]; intros H; [reflexivity|].
  inversion H as [|? ? He Hrest]; subst.
  change (replay ((e :: evs) ++ base)) with (applyEvent e (replay (evs ++ base))).
  unfold applyEvent, Queue.updateJobStatus.
  rewrite lookup_insert_ne by exact He. apply IH, Hrest.
Qed.

(** The queue worker updates the jobs of its tasks only. *)
Lemma runQueue_log (h : Host) (tasks : list Task) :
  forall w, exists evs,
    jobLog (fst (runQueue h tasks w)) = (evs ++ jobLog w)%list
    /\ Forall (fun e => ev_id e ∈ List.map t_id tasks) evs.
Proof.
  induction tasks as [|t tasks IH]; intros w.
  - exists []. split; [reflexivity|constructor].
  - cbn [runQueue]. unfold bind, tryCatch, ret.
    destruct (settles_processBackup h (t_id t) (t_customPaths t) w) as (evs1 & E1 & F1 & _).
    assert (Hnext : exists evs,
               jobLog (fst (runQueue h tasks (fst (processBackup h (t_id t)
                                                     (t_customPaths t) w))))
               = (evs ++ jobLog w)%list
               /\ Forall (fun e => ev_id e ∈ List.map t_id (t :: tasks)) evs).
    { destruct (IH (fst (processBackup h (t_id t) (t_customPaths t) w)))
        as (evs2 & E2 & F2).
      exists (evs2 ++ evs1)%list. split; [rewrite E2, E1, app_assoc; reflexivity|].
      apply Forall_app. split.
      * eapply Forall_impl; [exact F2|]. intros e He. cbn [List.map].
        apply elem_of_cons. right. exact He.
      * apply List.Forall_forall. intros e He.
        rewrite List.Forall_forall in F1. rewrite (F1 e He).
        cbn [List.map]. apply elem_of_cons. left. reflexivity. }
    destruct (processBackup h (t_id t) (t_customPaths t) w) as [w1 [[]|msg]];
      exact Hnext.
Qed.

(** X11. With a history file that is missing, unreadable or an array of
    entries, and that can be written, the queue worker (which goes on with
    the next task also after a task that throws) returns on every list of
    tasks, whatever the host does; it adds one history entry per task, in
    the order of the tasks, and leaves the job of every task [completed]
    or [failed]. *)
Theorem runQueue_outcome (h : Host) (tasks : list Task) (w : World) :
  exists w' entries,
    runQueue h tasks w = (w', Ok tt)
    /\ length entries = length tasks
    /\ historyFile w'
       = foldl (fun f e => Storage.addHistoryEntry e f) (historyFile w) entries
    /\ forall t, t ∈ tasks ->
         exists j, globalState w' !! t_id t = Some j
                   /\ (Queue.status j = Queue.completed
                       \/ Queue.status j = Queue.failed).
Proof.
  revert w. induction tasks as [|t tasks IH]; intros w.
  - exists w, []. repeat split. intros t Ht. apply elem_of_nil in Ht. destruct Ht.
  - destruct (processBackup_summary h (t_id t) (t_customPaths t) w)
      as (w1 & e & j & E1 & H1 & J1 & S1).
    destruct (IH w1) as (w' & entries & E2 & L2 & H2 & J2).
    exists w', (e :: entries).
    split; [cbn [runQueue]; unfold bind, tryCatch; rewrite E1; exact E2|].
    split; [cbn [length]; rewrite L2; reflexivity|].
    split; [cbn [foldl]; rewrite H2, H1; reflexivity|].
    intros t0 Ht0.
    destruct (decide (t_id t0 ∈ List.map t_id tasks)) as [Hin|Hout].
    + apply list_elem_of_fmap in Hin as (t1 & Hid & Hin). rewrite Hid. apply J2, Hin.
    + apply elem_of_cons in Ht0 as [->|Hin];
        [|exfalso; apply Hout, list_elem_of_fmap; eauto].
      exists j. split; [|tauto].
      destruct (runQueue_log h tasks w1) as (evs & Elog & F).
      rewrite E2 in Elog. cbn [fst] in Elog.
      unfold globalState in *. rewrite Elog, replay_other; [exact J1|].
      eapply Forall_impl; [exact F|]. intros ev Hev Heq. apply Hout.
      rewrite <- Heq. exact Hev.
Qed.

(** X12. A unified stack backup throws only when the backup directory
    cannot be made, before it touches the job table. Otherwise it returns.
    When it reports success, it has added exactly one history entry and the
    job [stack-<name>] is [completed]. When it reports a failure, the job
    is [failed] with the reported message, and the history is as it was,
    unless what failed is the revalidation of the page after the upload
    step, whose history entry is then there: a stack backup that fails
    before its upload leaves no history entry, unlike a failed container
    backup. *)
Theorem triggerUnifiedStackBackup_outcome (h : Host) (stackName : string) (w : World) :
  match ensureDir h (backupDir h) with
  | Throw msg => triggerUnifiedStackBackup h stackName w = (w, Throw msg)
  | Ok _ =>
      exists w' r,
        triggerUnifiedStackBackup h stackName w = (w', Ok r)
        /\ match r with
           | Ok filePath =>
               (exists e, historyFile w' = Storage.addHistoryEntry e (historyFile w))
               /\ exists j, globalState w' !! ("stack-" +:+ stackName) = Some j
                            /\ Queue.status j = Queue.completed
           | Throw msg =>
               globalState w' !! ("stack-" +:+ stackName)
               = Some {| Queue.status := Queue.failed; Queue.message := Some msg;
                         Queue.lastUpdated := clock w' |}
               /\ (historyFile w' = historyFile w
                   \/ (revalidatePath h "/" = Throw msg
                       /\ exists e,
                            historyFile w' = Storage.addHistoryEntry e (historyFile w)))
           end
  end.
Proof.
  unfold triggerUnifiedStackBackup.
  unfold bind at 1. unfold lift at 1.
  destruct (ensureDir h (backupDir h)) as [[]|msg0]; [|reflexivity].
  assert (Hfail : forall msg w1,
             historyFile w1 = historyFile w
             \/ (revalidatePath h "/" = Throw msg
                 /\ exists e, historyFile w1 = Storage.addHistoryEntry e (historyFile w)) ->
             exists w' r,
               (afterStackFailure ("stack-" +:+ stackName) msg w1, Ok (Throw msg))
               = (w', @Ok (result string) r)
               /\ match r with
                  | Ok filePath =>
                      (exists e, historyFile w' = Storage.addHistoryEntry e (historyFile w))
                      /\ exists j, globalState w' !! ("stack-" +:+ stackName) = Some j
                                   /\ Queue.status j = Queue.completed
                  | Throw msg =>
                      globalState w' !! ("stack-" +:+ stackName)
                      = Some {| Queue.status := Queue.failed; Queue.message := Some msg;
                                Queue.lastUpdated := clock w' |}
                      /\ (historyFile w' = historyFile w
                          \/ (revalidatePath h "/" = Throw msg
                              /\ exists e,
                                   historyFile w'
                                   = Storage.addHistoryEntry e (historyFile w)))
                  end).
  { intros msg w1 Hw1. eexists _, _. split; [reflexivity|]. split; [|exact Hw1].
    apply (globalState_head (afterStackFailure ("stack-" +:+ stackName) msg w1) _ _ eq_refl). }
  unfold tryCatch.
  unfold bind at 1. unfold get at 1.
  unfold bind at 1. unfold updateJobStatus at 1.
  set (w0 := {| clock := clock w; jobLog := _ :: jobLog w; historyFile := historyFile w;
                stacks := stacks w; fs := fs w |}).
  unfold bind at 1. unfold lift at 1.
  destruct (containers h) as [all|msg]; [|apply (Hfail msg w0); left; reflexivity].
  unfold bind at 1. unfold get at 1.
  unfold bind at 1. unfold lift at 1.
  destruct (stackContainersOf w0 stackName all) as [[|c cs]|msg];
    [apply (Hfail _ w0); left; reflexivity| |apply (Hfail _ w0); left; reflexivity].
  unfold bind at 1. unfold setFs at 1.
  set (w1 := {| clock := clock w0; jobLog := jobLog w0; historyFile := historyFile w0;
                stacks := stacks w0; fs := _ |}).
  unfold bind at 1.
  match goal with
  | |- context [asyncExecutor ?m ?body w1] =>
      assert (Hbody : keepsHistory (asyncExecutor m body))
  end.
  { unfold asyncExecutor. apply keepsHistory_tryCatch; [|intros; apply keepsHistory_throw].
    apply keepsHistory_bind; [apply keepsHistory_unifiedArchive|].
    intros a. apply keepsHistory_setFs. }
  specialize (Hbody w1).
  match goal with
  | |- context [asyncExecutor ?m ?body w1] =>
      destruct (asyncExecutor m body w1) as [w2 [[]|msg]]
  end; cbn [fst] in Hbody; [|apply (Hfail msg w2); left; exact Hbody].
  unfold bind at 1.
  match goal with
  | |- context [handleUpload h ?id ?path w2] =>
      destruct (handleUpload_outcome h id path w2)
        as (w3 & r & ev & log & -> & Hlog & Hid & Hst & Hh)
  end.
  destruct r as [[]|msg]; [|apply (Hfail msg w3); left; rewrite Hh, Hbody; reflexivity].
  destruct Hh as [e He].
  unfold bind at 1. unfold lift at 1.
  destruct (revalidatePath h "/") as [[]|msg] eqn:Hreval.
  - eexists _, _. split; [reflexivity|]. split.
    + exists e. rewrite He, Hbody. reflexivity.
    + eexists. split; [rewrite <- Hid; apply (globalState_head w3 ev log Hlog)|exact Hst].
  - apply (Hfail msg w3). right. split; [reflexivity|].
    exists e. rewrite He, Hbody. reflexivity.
Qed.

End Outcomes.

(** ** The two successful ends of an upload *)

Section UploadEnds.

Lemma globalState_head_of (w : World) (id : string) (st : Queue.JobStatus)
      (msg : option string) (at_ : Z) (log : list JobEvent) :
  jobLog w = {| ev_id := id; ev_status := st; ev_message := msg; ev_at := at_ |} :: log ->
  globalState w !! id
  = Some {| Queue.status := st; Queue.message := msg; Queue.lastUpdated := at_ |}.
Proof. intros H. apply (globalState_head w _ log H). Qed.

(** [fs.statSync(filePath).size] of a file of the backup directory. *)
Definition sizeOnDisk (h : Host) (file : File) : Z :=
match file with
| ZipFile es _ => zipSize h es
| PlainFile b => Z.of_nat (String.length b)
end.

(** X13. With the document endpoint configured, an upload the endpoint
    accepts removes the artifact from the backup directory, sets the job
    to [completed] with the message [Sent to Telegram & Cleaned] and adds
    a [success] entry with destination [telegram] and the size the file
    had; nothing else of the backup directory changes. *)
Theorem handleUpload_telegram_sent
        (h : Host) (containerId filePath : string) (w : World) (file : File) :
  Js.opt_truthy (TELEGRAM_TOKEN h) = true ->
  Js.opt_truthy (CHAT_ID h) = true ->
  fs w !! filePath = Some file ->
  fetch h (documentUrl h) (Path.basename filePath) = FetchOk ->
  exists w',
    handleUpload h containerId filePath w = (w', Ok tt)
    /\ globalState w' !! containerId
       = Some {| Queue.status := Queue.completed;
                 Queue.message := Some "Sent to Telegram & Cleaned";
                 Queue.lastUpdated := clock w |}
    /\ historyFile w'
       = Storage.addHistoryEntry
           (historyEntry (clock w) (Path.basename filePath) Storage.success
              Storage.telegram "Backup sent to Telegram"
              (Some (Storage.MB (sizeOnDisk h file))))
           (historyFile w)
    /\ fs w' = delete filePath (fs w)
    /\ fs w' !! filePath = None.
Proof.
  intros Htoken Hchat Hfile Hfetch.
  unfold handleUpload. rewrite Htoken, Hchat. cbn [andb]. cbv beta iota.
  unfold bind at 1. unfold updateJobStatus at 1.
  unfold tryCatch. unfold bind at 1. unfold statSize. cbn [fs]. rewrite Hfile, Hfetch.
  destruct file as [es fin|b];
    (eexists; split; [reflexivity|]; cbn [historyFile fs sizeOnDisk];
     split; [eapply globalState_head_of; reflexivity|];
     split; [reflexivity|]; split; [reflexivity|]; apply lookup_delete_eq).
Qed.

(** X14. Without the document endpoint (no token, or no chat id), an
    upload of an artifact that is on disk sets the job to [completed] with
    the message [Saved to local disk], adds a [success] entry with
    destination [local] and the size of the file, and leaves the backup
    directory as it is. *)
Theorem handleUpload_local
        (h : Host) (containerId filePath : string) (w : World) (file : File) :
  (Js.opt_truthy (TELEGRAM_TOKEN h) && Js.opt_truthy (CHAT_ID h))%bool = false ->
  fs w !! filePath = Some file ->
  exists w',
    handleUpload h containerId filePath w = (w', Ok tt)
    /\ globalState w' !! containerId
       = Some {| Queue.status := Queue.completed;
                 Queue.message := Some "Saved to local disk";
                 Queue.lastUpdated := clock w |}
    /\ historyFile w'
       = Storage.addHistoryEntry
           (historyEntry (clock w) (Path.basename filePath) Storage.success
              Storage.local "Saved to local disk"
              (Some (Storage.MB (sizeOnDisk h file))))
           (historyFile w)
    /\ fs w' = fs w.
Proof.
  intros Hcfg Hfile.
  unfold handleUpload. rewrite Hcfg.
  unfold bind at 1. unfold updateJobStatus at 1.
  unfold bind at 1. unfold statSize. cbn [fs]. rewrite Hfile.
  destruct file as [es fin|b];
    (eexists; split; [reflexivity|]; cbn [historyFile fs sizeOnDisk];
     split; [eapply globalState_head_of; reflexivity|];
     split; reflexivity).
Qed.

End UploadEnds.

Lemma handleUpload_telegram_sent_witness :
  exists w',
    handleUpload (telegramHost FetchOk) "nginx-id" artifactPath worldWithArtifact
    = (w', Ok tt)
    /\ globalState w' !! "nginx-id"
       = Some {| Queue.status := Queue.completed;
                 Queue.message := Some "Sent to Telegram & Cleaned";
                 Queue.lastUpdated := clock worldWithArtifact |}
    /\ historyFile w'
       = Storage.addHistoryEntry
           (historyEntry (clock worldWithArtifact) (Path.basename artifactPath)
              Storage.success Storage.telegram "Backup sent to Telegram"
              (Some (Storage.MB
                       (sizeOnDisk (telegramHost FetchOk)
                          (ZipFile [{| entryName := "config.json"; content := Text "{}" |}]
                             true)))))
           (historyFile worldWithArtifact)
    /\ fs w' = delete artifactPath (fs worldWithArtifact)
    /\ fs w' !! artifactPath = None.
Proof.
  apply (handleUpload_telegram_sent (telegramHost FetchOk) "nginx-id" artifactPath
           worldWithArtifact
           (ZipFile [{| entryName := "config.json"; content := Text "{}" |}] true)).
  - reflexivity.
  - reflexivity.
  - vm_compute. reflexivity.
  - reflexivity.
Defined.

Lemma handleUpload_local_witness :
  exists w',
    handleUpload (localHost DumpTimeout) "nginx-id" artifactPath worldWithArtifact
    = (w', Ok tt)
    /\ globalState w' !! "nginx-id"
       = Some {| Queue.status := Queue.completed;
                 Queue.message := Some "Saved to local disk";
                 Queue.lastUpdated := clock worldWithArtifact |}
    /\ historyFile w'
       = Storage.addHistoryEntry
           (historyEntry (clock worldWithArtifact) (Path.basename artifactPath)
              Storage.success Storage.local "Saved to local disk"
              (Some (Storage.MB
                       (sizeOnDisk (localHost DumpTimeout)
                          (ZipFile [{| entryName := "config.json"; content := Text "{}" |}]
                             true)))))
           (historyFile worldWithArtifact)
    /\ fs w' = fs worldWithArtifact.
Proof.
  apply (handleUpload_local (localHost DumpTimeout) "nginx-id" artifactPath
           worldWithArtifact
           (ZipFile [{| entryName := "config.json"; content := Text "{}" |}] true)).
  - reflexivity.
  - vm_compute. reflexivity.
Defined.

(** ** The subtrees of a unified artifact *)

Section MemberEntries.

Ltac step_bind H :=
  let w1 := fresh "w" in
  let a := fresh "a" in
  let H1 := fresh "Hstep" in
  apply bind_ok in H as (w1 & a & H1 & H).

Lemma extends_elem (a a' : list Entry) (n : string) :
  extends a a' -> n ∈ entryNames a -> n ∈ entryNames a'.
Proof.
  intros [more ->] H. unfold entryNames in *. rewrite List.map_app.
  apply elem_of_app. left. exact H.
Qed.

Lemma append_elem (a : list Entry) (c : Content) (n : string) :
  n ∈ entryNames (append a c n).
Proof.
  unfold entryNames, append. rewrite List.map_app. apply elem_of_app. right.
  apply list_elem_of_singleton. reflexivity.
Qed.

(** What one member leaves in the archive. *)
Definition memberArchived (h : Host) (archive : list Entry) (c : ContainerSummary) : Prop :=
exists n rest info,
  Names c = n :: rest
  /\ inspect h (Id c) = Ok info
  /\ Path.join ["services/" +:+ Js.replace "/" "" n; "config.json"] ∈ entryNames archive
  /\ (isDbImage (Image info) = true ->
      Path.join ["services/" +:+ Js.replace "/" "" n; "dump.sql"] ∈ entryNames archive).

Lemma memberArchived_extends (h : Host) (a a' : list Entry) (c : ContainerSummary) :
  extends a a' -> memberArchived h a c -> memberArchived h a' c.
Proof.
  intros He (n & rest & info & Hn & Hi & Hc & Hd).
  exists n, rest, info. repeat split; auto.
  - eapply extends_elem; eauto.
  - intros Hdb. eapply extends_elem; eauto.
Qed.

Lemma archiveServices_members (h : Host) (virtualId : string) (n : nat)
      (cs : list ContainerSummary) :
  forall (i : nat) (archive a' : list Entry) (w w' : World),
    archiveServices h virtualId n i cs archive w = (w', Ok a') ->
    forall c, c ∈ cs -> memberArchived h a' c.
Proof.
  induction cs as [|c0 cs IH]; intros i archive a' w w' H c Hc.
  - apply elem_of_nil in Hc. destruct Hc.
  - cbn [archiveServices] in H. step_bind H. step_bind H. step_bind H.
    apply elem_of_cons in Hc as [->|Hc]; [|eapply IH; eauto].
    apply (memberArchived_extends h a1 a');
      [eapply archiveServices_extends; exact H|].
    unfold firstName in Hstep. destruct (Names c0) as [|nm rest] eqn:Hn; [discriminate|].
    apply ret_ok in Hstep as [_ ->].
    apply archiveContainerInternal_ok in Hstep1 as (info & cfg & base & Hi & Hb & He).
    exists nm, rest, info. repeat split; auto.
    + eapply extends_elem; [exact He|]. apply append_elem.
    + intros Hdb. rewrite Hdb in Hb. destruct Hb as (stdout & ->).
      eapply extends_elem; [exact He|].
      eapply extends_elem; [apply extends_append|]. apply append_elem.
Qed.

(** X15. In the archive a unified stack backup has built, every member
    container has its [config.json] under [services/<name>/], [<name>]
    being its first name without the leading slash, and every member with
    a database image also has its [dump.sql] there. *)
Theorem unified_archive_members (h : Host) (virtualId stackName : string) (now : Z)
        (members : list ContainerSummary) (w w' : World) (archive : list Entry) :
  unifiedArchive h virtualId stackName now members w = (w', Ok archive) ->
  forall c, c ∈ members ->
    exists n rest info,
      Names c = n :: rest
      /\ inspect h (Id c) = Ok info
      /\ Path.join ["services/" +:+ Js.replace "/" "" n; "config.json"]
           ∈ entryNames archive
      /\ (isDbImage (Image info) = true ->
          Path.join ["services/" +:+ Js.replace "/" "" n; "dump.sql"]
            ∈ entryNames archive).
Proof.
  unfold unifiedArchive. intros H c Hc.
  step_bind H. step_bind H. step_bind H.
  exact (archiveServices_members h virtualId _ members 0 _ archive _ w' H c Hc).
Qed.

End MemberEntries.

Definition shopApi : ContainerSummary :=
{| Id := "api-id"; Names := ["/shop-api-1"]; State := "running";
   SummaryLabels := composeLabels "shop" "api";
   Ports := [{| PublicPort := Some 3000 |}] |}.

Lemma unified_archive_members_witness :
  exists n rest info,
    Names shopApi = n :: rest
    /\ inspect shopHost (Id shopApi) = Ok info
    /\ Path.join ["services/" +:+ Js.replace "/" "" n; "config.json"]
         ∈ entryNames (okArchive shopRun)
    /\ (isDbImage (Image info) = true ->
        Path.join ["services/" +:+ Js.replace "/" "" n; "dump.sql"]
          ∈ entryNames (okArchive shopRun)).
Proof.
  apply (unified_archive_members shopHost "stack-shop" "shop" 1700000000000 shopMembers
           freshWorld (fst shopRun) (okArchive shopRun)).
  - vm_compute. reflexivity.
  - apply list_elem_of_further, list_elem_of_here.
Defined.

(** ** [lib/scheduler.ts] *)

Module Scheduler.

Inductive Frequency := manual | daily | weekly.

Record ScheduleConfig := {
  frequency : Frequency;
  time : option string;       (* "HH:mm" *)
  dayOfWeek : option Z        (* 0-6 *)
}.

(** A piece of a template literal that may be [undefined]. *)
Definition interpolate (o : option string) : string := default "undefined" o.

(** [getCronExpression(config)] *)
Definition getCronExpression (config : ScheduleConfig) : option string :=
  match time config with
  | None => None
  | Some t =>
      if Js.truthy t then
        let parts := Js.split ":" t in
        let hour := parts !! 0%nat in
        let minute := parts !! 1%nat in
        match frequency config with
        | daily => Some (interpolate minute +:+ " " +:+ interpolate hour +:+ " * * *")
        | weekly =>
            let day := match dayOfWeek config with Some d => d | None => 0 end in
            Some (interpolate minute +:+ " " +:+ interpolate hour +:+ " * * "
                  +:+ Js.showZ day)
        | manual => None
        end
      else None
  end.

(** What a scheduled task does when it fires. *)
Inductive Job :=
| BackupContainers (containerIds : list string)   (* triggerBackup([containerId]) *)
| QueueStackBackup (stackName : string).          (* backupQueue.add(triggerUnifiedStackBackup) *)

Record ScheduledTask := { expression : string; job : Job }.

Record AppSettings := {
  containerSchedules : list (string * ScheduleConfig);   (* in key order *)
  stackSchedules : list (string * ScheduleConfig)
}.

Definition is_manual (f : Frequency) : bool :=
  match f with manual => true | _ => false end.

(** What the cron library answers when asked to schedule an expression:
    [None] when it accepts it, the message of the error it throws
    otherwise. *)
Definition Validator : Type := string -> option string.

(** Either loop of [initScheduler]: [key] gives the key of the task table
    and [job] what the task runs. The tasks created before a refused
    expression stay in the table. *)
Fixpoint scheduleAll (validate : Validator) (key : string -> string)
         (job : string -> Job) (schedules : list (string * ScheduleConfig))
         (scheduledTasks : gmap string ScheduledTask)
  : gmap string ScheduledTask * Actions.result unit :=
  match schedules with
  | [] => (scheduledTasks, Actions.Ok tt)
  | (name, config) :: rest =>
      if is_manual (frequency config)
      then scheduleAll validate key job rest scheduledTasks
      else match getCronExpression config with
           | Some cronExpression =>
               if Js.truthy cronExpression then
                 match validate cronExpression with
                 | Some msg => (scheduledTasks, Actions.Throw msg)
                 | None =>
                     scheduleAll validate key job rest
                       (<[key name := {| expression := cronExpression; job := job name |}]>
                          scheduledTasks)
                 end
               else scheduleAll validate key job rest scheduledTasks
           | None => scheduleAll validate key job rest scheduledTasks
           end
  end.

(** [initScheduler()]: the task table it leaves in [scheduledTasks]; the
    tasks of an earlier call are stopped and forgotten first. *)
Definition initScheduler (validate : Validator) (settings : AppSettings)
           (scheduledTasks : gmap string ScheduledTask)
  : gmap string ScheduledTask * Actions.result unit :=
  let scheduledTasks : gmap string ScheduledTask := ∅ in
  match scheduleAll validate (fun id => "container-" +:+ id)
          (fun id => BackupContainers [id]) (containerSchedules settings)
          scheduledTasks with
  | (scheduledTasks, Actions.Ok _) =>
      scheduleAll validate (fun name => "stack-" +:+ name) QueueStackBackup
        (stackSchedules settings) scheduledTasks
  | (scheduledTasks, Actions.Throw msg) => (scheduledTasks, Actions.Throw msg)
  end.

End Scheduler.

(** ** The scheduler *)

Section Schedules.
Import Scheduler.

(** X16. For a time [H:M] (possibly followed by further [:]-separated
    pieces, which are ignored) a daily schedule gives the cron expression
    [M H * * *] and a weekly one [M H * * D], with [D] the configured day
    of the week, 0 (Sunday) when none is configured; a schedule without a
    time gives none. *)
Theorem getCronExpression_shape (hour minute : string) (rest : option string)
        (day : option Z) (f : Frequency) :
  Js.includes ":" hour = false ->
  Js.includes ":" minute = false ->
  let t := hour +:+ ":" +:+ minute
           +:+ match rest with Some r => ":" +:+ r | None => "" end in
  getCronExpression {| frequency := daily; time := Some t; dayOfWeek := day |}
  = Some (minute +:+ " " +:+ hour +:+ " * * *")
  /\ getCronExpression {| frequency := weekly; time := Some t; dayOfWeek := day |}
     = Some (minute +:+ " " +:+ hour +:+ " * * "
             +:+ Js.showZ (match day with Some d => d | None => 0 end))
  /\ getCronExpression {| frequency := f; time := None; dayOfWeek := day |} = None.
Proof.
  intros Hh Hm t.
  assert (Ht : Js.truthy t = true).
  { subst t. destruct hour; reflexivity. }
  assert (Hparts : exists more, Js.split ":" t = hour :: minute :: more).
  { subst t. destruct rest as [r|].
    - exists (Js.split ":" r).
      change (hour +:+ ":" +:+ minute +:+ ":" +:+ r)
        with (hour +:+ String ":" (minute +:+ String ":" r)).
      rewrite !split_app_sep, (split_no_sep ":" hour Hh), (split_no_sep ":" minute Hm).
      reflexivity.
    - exists []. rewrite append_nil_r.
      change (hour +:+ ":" +:+ minute) with (hour +:+ String ":" minute).
      rewrite split_app_sep, (split_no_sep ":" hour Hh), (split_no_sep ":" minute Hm).
      reflexivity. }
  destruct Hparts as [more Hparts].
  unfold getCronExpression. cbn [time frequency dayOfWeek].
  rewrite Ht, Hparts. repeat split.
Qed.

Lemma getCronExpression_shape_witness :
  let t := "03" +:+ ":" +:+ "30" +:+ match Some "00" with Some r => ":" +:+ r | None => "" end in
  getCronExpression {| frequency := daily; time := Some t; dayOfWeek := Some 6 |}
  = Some ("30" +:+ " " +:+ "03" +:+ " * * *")
  /\ getCronExpression {| frequency := weekly; time := Some t; dayOfWeek := Some 6 |}
     = Some ("30" +:+ " " +:+ "03" +:+ " * * "
             +:+ Js.showZ (match Some 6 with Some d => d | None => 0 end))
  /\ getCronExpression {| frequency := manual; time := None; dayOfWeek := Some 6 |} = None.
Proof.
  apply (getCronExpression_shape "03" "30" (Some "00") (Some 6) manual); reflexivity.
Defined.

(** A schedule that gives rise to a task with the expression [e]. *)
Definition due (config : ScheduleConfig) (e : string) : Prop :=
frequency config <> manual /\ getCronExpression config = Some e.

Lemma getCronExpression_truthy (config : ScheduleConfig) (e : string) :
  getCronExpression config = Some e -> Js.truthy e = true.
Proof.
  unfold getCronExpression.
  destruct (time config) as [t|]; [|discriminate].
  destruct (Js.truthy t); [|discriminate].
  destruct (frequency config); [discriminate| |];
    intros H; inversion H; subst;
    destruct (interpolate (Js.split ":" t !! 1%nat)); reflexivity.
Qed.

Lemma append_inj_l (p a b : string) : p +:+ a = p +:+ b -> a = b.
Proof. induction p as [|c p IH]; cbn; intros H; [exact H|]. inversion H. auto. Qed.

(** What one loop leaves in the table when it comes to its end: the tasks
    that were there under other keys, and one task per due schedule. *)
Lemma scheduleAll_tasks (validate : Validator) (key : string -> string)
      (job : string -> Job) (schedules : list (string * ScheduleConfig)) :
  (forall a b, key a = key b -> a = b) ->
  NoDup (List.map fst schedules) ->
  forall tasks tasks',
    scheduleAll validate key job schedules tasks = (tasks', Ok tt) ->
    forall k task,
      tasks' !! k = Some task <->
      ((exists name config,
           (name, config) ∈ schedules /\ k = key name
           /\ due config (expression task) /\ Scheduler.job task = job name)
       \/ (tasks !! k = Some task
           /\ forall name config e, (name, config) ∈ schedules -> due config e -> k <> key name)).
Proof.
  intros Hinj. induction schedules as [|[name config] rest IH];
    intros Hnd tasks tasks' H k task.
  - cbn in H. inversion H. subst tasks'. split.
    + intros Hk. right. split; [exact Hk|]. intros n c e Hin. apply elem_of_nil in Hin.
      destruct Hin.
    + intros [(n & c & Hin & _)|[Hk _]]; [apply elem_of_nil in Hin; destruct Hin|exact Hk].
  - cbn [List.map fst] in Hnd. apply NoDup_cons in Hnd as [Hfresh Hnd].
    assert (Hskip : (forall e, due config e -> False) ->
            scheduleAll validate key job rest tasks = (tasks', Ok tt) ->
            tasks' !! k = Some task <->
            ((exists name0 config0,
                 (name0, config0) ∈ (name, config) :: rest /\ k = key name0
                 /\ due config0 (expression task) /\ Scheduler.job task = job name0)
             \/ (tasks !! k = Some task
                 /\ forall name0 config0 e,
                      (name0, config0) ∈ (name, config) :: rest -> due config0 e ->
                      k <> key name0))).
    { intros Hnot H'. rewrite (IH Hnd tasks tasks' H' k task). split.
      - intros [(n & c & Hin & Hrest)|[Hk Hno]].
        + left. exists n, c. split; [apply elem_of_cons; right; exact Hin|exact Hrest].
        + right. split; [exact Hk|]. intros n c e Hin Hdue.
          apply elem_of_cons in Hin as [E|Hin]; [|eapply Hno; eauto].
          inversion E; subst. destruct (Hnot e Hdue).
      - intros [(n & c & Hin & Hrest)|[Hk Hno]].
        + apply elem_of_cons in Hin as [E|Hin].
          * inversion E; subst. destruct Hrest as (_ & Hdue & _). destruct (Hnot _ Hdue).
          * left. exists n, c. split; [exact Hin|exact Hrest].
        + right. split; [exact Hk|]. intros n c e Hin. apply Hno.
          apply elem_of_cons. right. exact Hin. }
    cbn [scheduleAll] in H.
    destruct (is_manual (frequency config)) eqn:Hman.
    { apply Hskip; [|exact H]. intros e [Hf _]. destruct (frequency config); try discriminate.
      apply Hf. reflexivity. }
    destruct (getCronExpression config) as [e|] eqn:He;
      [|apply Hskip; [intros e [_ E]; rewrite He in E; discriminate|exact H]].
    rewrite (getCronExpression_truthy config e He) in H.
    destruct (validate e) as [msg|]; [discriminate|].
    assert (Hdue : due config e).
    { split; [|exact He]. intros Hf. rewrite Hf in Hman. discriminate. }
    rewrite (IH Hnd _ tasks' H k task). split.
    + intros [(n & c & Hin & Hrest)|[Hk Hno]].
      * left. exists n, c. split; [apply elem_of_cons; right; exact Hin|exact Hrest].
      * rewrite lookup_insert in Hk. case_decide as Hkey.
        -- inversion Hk. subst task. left. exists name, config.
           split; [apply elem_of_cons; left; reflexivity|].
           split; [symmetry; exact Hkey|]. split; [exact Hdue|reflexivity].
        -- right. split; [exact Hk|]. intros n c e' Hin Hd.
           apply elem_of_cons in Hin as [E|Hin]; [|eapply Hno; eauto].
           inversion E; subst. congruence.
    + intros [(n & c & Hin & Hk & Hd & Hj)|[Hk Hno]].
      * apply elem_of_cons in Hin as [E|Hin].
        -- inversion E; subst n c. right. split.
           ++ rewrite Hk, lookup_insert_eq. f_equal.
              destruct Hd as [_ Hd]. rewrite He in Hd. inversion Hd.
              destruct task as [ex jb]. cbn in *. congruence.
           ++ intros n c e' Hin' Hd' Hkey. rewrite Hk in Hkey. apply Hinj in Hkey.
              subst n. apply Hfresh. apply list_elem_of_fmap. exists (name, c). split;
                [reflexivity|exact Hin'].
        -- left. exists n, c. split; [exact Hin|]. split; [exact Hk|]. split; assumption.
      * right. split.
        -- rewrite lookup_insert_ne; [exact Hk|].
           intros Hkey. apply (Hno name config e); [apply elem_of_cons; left; reflexivity
                                                   |exact Hdue|symmetry; exact Hkey].
        -- intros n c e' Hin. apply Hno. apply elem_of_cons. right. exact Hin.
Qed.

(** X17. When [initScheduler] returns, the task table holds exactly one
    task per container schedule and per stack schedule that is not
    [manual] and has a time: under the key [container-<id>] a task that
    backs up that one container, under [stack-<name>] a task that queues
    the unified backup of that stack, each with the cron expression of its
    schedule; nothing of an earlier table is left. *)
Theorem initScheduler_tasks (validate : Validator) (settings : AppSettings)
        (old tasks : gmap string ScheduledTask) (k : string) (task : ScheduledTask) :
  NoDup (List.map fst (containerSchedules settings)) ->
  NoDup (List.map fst (stackSchedules settings)) ->
  initScheduler validate settings old = (tasks, Ok tt) ->
  tasks !! k = Some task <->
  ((exists id config,
       (id, config) ∈ containerSchedules settings /\ k = "container-" +:+ id
       /\ due config (expression task) /\ job task = BackupContainers [id])
   \/ (exists name config,
          (name, config) ∈ stackSchedules settings /\ k = "stack-" +:+ name
          /\ due config (expression task) /\ job task = QueueStackBackup name)).
Proof.
  intros Hc Hs. unfold initScheduler.
  destruct (scheduleAll validate (fun id => "container-" +:+ id)
              (fun id => BackupContainers [id]) (containerSchedules settings) ∅)
    as [t1 [[]|msg]] eqn:E1; [|discriminate].
  intros E2.
  rewrite (scheduleAll_tasks validate _ _ _ (append_inj_l "stack-") Hs t1 tasks E2 k task).
  rewrite (scheduleAll_tasks validate _ _ _ (append_inj_l "container-") Hc ∅ t1 E1 k task).
  split.
  - intros [H|[[H|[H _]] _]]; [right; exact H|left; exact H|].
    rewrite lookup_empty in H. discriminate.
  - intros [H|H]; [|left; exact H].
    right. split; [left; exact H|].
    destruct H as (id & c & _ & -> & _). intros n c' e _ _. discriminate.
Qed.

Definition nightly : ScheduleConfig :=
{| frequency := daily; time := Some "03:30"; dayOfWeek := None |}.

Definition sampleSettings : AppSettings :=
{| containerSchedules :=
     [("abc123", nightly);
      ("def456", {| frequency := manual; time := Some "04:00"; dayOfWeek := None |})];
   stackSchedules :=
     [("shop", {| frequency := weekly; time := Some "05:15"; dayOfWeek := Some 0 |});
      ("blog", {| frequency := weekly; time := None; dayOfWeek := Some 1 |})] |}.

Lemma initScheduler_tasks_witness :
  fst (initScheduler (fun _ => None) sampleSettings ∅) !! "container-abc123"
  = Some {| expression := "30 03 * * *"; job := BackupContainers ["abc123"] |}
  <->
  ((exists id config,
       (id, config) ∈ containerSchedules sampleSettings
       /\ "container-abc123" = "container-" +:+ id
       /\ due config (expression {| expression := "30 03 * * *";
                                    job := BackupContainers ["abc123"] |})
       /\ job {| expression := "30 03 * * *"; job := BackupContainers ["abc123"] |}
          = BackupContainers [id])
   \/ (exists name config,
          (name, config) ∈ stackSchedules sampleSettings
          /\ "container-abc123" = "stack-" +:+ name
          /\ due config (expression {| expression := "30 03 * * *";
                                       job := BackupContainers ["abc123"] |})
          /\ job {| expression := "30 03 * * *"; job := BackupContainers ["abc123"] |}
             = QueueStackBackup name)).
Proof.
  apply (initScheduler_tasks (fun _ => None) sampleSettings ∅
           (fst (initScheduler (fun _ => None) sampleSettings ∅))
           "container-abc123"
           {| expression := "30 03 * * *"; job := BackupContainers ["abc123"] |}).
  - apply (bool_decide_unpack _). vm_compute. exact I.
  - apply (bool_decide_unpack _). vm_compute. exact I.
  - vm_compute. reflexivity.
Defined.

End Schedules.

(** ** [app/actions.ts]: port conflicts of a compose file on restore *)

Module Conflicts.

(** [\d] *)
Definition isDigit (c : ascii) : bool :=
  let n := nat_of_ascii c in (Nat.leb 48 n && Nat.leb n 57)%bool.

(** [portStr.match(/^(\d+):(\d+)$/)]: the two groups of a match. The
    first repetition stops at the colon and the second at the end of the
    text, so only the longest runs of digits can lead to a match. *)
Definition matchPortMapping (portStr : string) : option (string * string) :=
  let (a, r) := Restore.span isDigit portStr in
  if Js.truthy a then
    match r with
    | String ":" r2 =>
        let (b, r3) := Restore.span isDigit r2 in
        if (Js.truthy b && negb (Js.truthy r3))%bool then Some (a, b) else None
    | _ => None
    end
  else None.

(** [parseInt] of a run of decimal digits (exact as long as the value is
    below 2^53, which every port number is). *)
Fixpoint parseDigits (acc : Z) (s : string) : Z :=
  match s with
  | EmptyString => acc
  | String c s' => parseDigits (10 * acc + Z.of_nat (nat_of_ascii c - 48)) s'
  end.

Definition parseInt (s : string) : Z := parseDigits 0 s.

(** The arrow of the remapping notes, with the bytes the source file has
    for it. *)
Definition arrow : string :=
  String (ascii_of_nat 226) (String (ascii_of_nat 128) (String (ascii_of_nat 154)
    (String (ascii_of_nat 195) (String (ascii_of_nat 156)
      (String (ascii_of_nat 195) (String (ascii_of_nat 173) EmptyString)))))).

(** One turn of the loop over [service.ports]: the mapping pushed to
    [newPorts] and, when the host port was changed, the note pushed to
    [remappings]. [None] only when the prober runs out of fuel. A probe
    that throws (a host port above 65535) ends [resolvePortConflicts] in
    its catch, which returns the text it was given; that path is outside
    this definition. *)
Definition resolvePortMapping (h : Host) (serviceName portStr : string)
  : option (string * option string) :=
  match matchPortMapping portStr with
  | None => Some (portStr, None)
  | Some (m1, m2) =>
      let hostPort := parseInt m1 in
      let containerPort := parseInt m2 in
      if isPortAvailable h hostPort then Some (portStr, None)
      else
        match findAvailablePort h (hostPort + 1) with
        | Some (newHostPort, _) =>
            Some (Js.showZ newHostPort +:+ ":" +:+ Js.showZ containerPort,
                  Some (serviceName +:+ ": " +:+ Js.showZ hostPort +:+ " " +:+ arrow
                        +:+ " " +:+ Js.showZ newHostPort))
        | None => None
        end
  end.

(** An item of [service.ports] as the YAML loader returns it: a text, a
    number, or the mapping of the long syntax. *)
Inductive PortNode :=
| PortText (s : string)
| PortNumber (n : Z)
| PortObject (fields : list (string * string)).

(** [String(portMapping)] *)
Definition portString (portMapping : PortNode) : string :=
  match portMapping with
  | PortText s => s
  | PortNumber n => Js.showZ n
  | PortObject _ => "[object Object]"
  end.

(** The loop over the port mappings of one service: [newPorts] and the
    notes added to [remappings]. *)
Fixpoint resolveServicePorts (h : Host) (serviceName : string) (ports : list PortNode)
  : option (list string * list string) :=
  match ports with
  | [] => Some ([], [])
  | portMapping :: rest =>
      match resolvePortMapping h serviceName (portString portMapping) with
      | Some (mapping, note) =>
          match resolveServicePorts h serviceName rest with
          | Some (newPorts, remappings) =>
              Some (mapping :: newPorts,
                    match note with
                    | Some n => n :: remappings
                    | None => remappings
                    end)
          | None => None
          end
      | None => None
      end
  end.

End Conflicts.

Example resolveServicePorts_samples :
  Conflicts.resolveServicePorts webHost "web"
    (List.map Conflicts.PortText
       ["8080:80"; "127.0.0.1:8080:80"; "8080:80/tcp"; "9000:9000"; "8080"])
  = Some (["8082:80"; "127.0.0.1:8080:80"; "8080:80/tcp"; "9000:9000"; "8080"],
          ["web: 8080 " +:+ Conflicts.arrow +:+ " 8082"]).
Proof. vm_compute. reflexivity. Qed.

(** ** Port conflicts *)

Section PortConflicts.
Import Conflicts.

(** A non-empty run of decimal digits. *)
Definition digits (s : string) : Prop := s <> "" /\ allChars isDigit s = true.

Lemma span_spec (p : ascii -> bool) (s : string) :
  s = fst (Restore.span p s) +:+ snd (Restore.span p s)
  /\ allChars p (fst (Restore.span p s)) = true.
Proof.
  induction s as [|c s [IH1 IH2]]; [split; reflexivity|].
  cbn [Restore.span]. destruct (p c) eqn:Hc; [|split; reflexivity].
  destruct (Restore.span p s) as [a b]. cbn [fst snd] in *. split.
  - cbn [String.append]. rewrite <- IH1. reflexivity.
  - cbn [allChars]. rewrite Hc, IH2. reflexivity.
Qed.

Lemma truthy_not_empty (s : string) : Js.truthy s = true <-> s <> "".
Proof. destruct s; cbn; split; congruence. Qed.

Lemma matchPortMapping_digits (a b : string) :
  digits a -> digits b -> matchPortMapping (a +:+ ":" +:+ b) = Some (a, b).
Proof.
  intros [Ha Da] [Hb Db]. unfold matchPortMapping.
  change (a +:+ ":" +:+ b) with (a +:+ String ":" b).
  rewrite (span_app isDigit a (String ":" b) Da) by reflexivity.
  apply truthy_not_empty in Ha, Hb. rewrite Ha.
  rewrite <- (append_nil_r b) at 1.
  rewrite (span_app isDigit b "" Db) by exact I.
  rewrite Hb. reflexivity.
Qed.

Lemma matchPortMapping_inv (s a b : string) :
  matchPortMapping s = Some (a, b) -> s = a +:+ ":" +:+ b /\ digits a /\ digits b.
Proof.
  unfold matchPortMapping.
  destruct (span_spec isDigit s) as [Es Da].
  destruct (Restore.span isDigit s) as [a0 r]. cbn [fst snd] in *.
  destruct (Js.truthy a0) eqn:Ta; [|discriminate].
  destruct r as [|c r2]; [discriminate|].
  destruct c as [[] [] [] [] [] [] [] []]; try discriminate.
  destruct (span_spec isDigit r2) as [Er Db].
  destruct (Restore.span isDigit r2) as [b0 r3]. cbn [fst snd] in *.
  destruct (Js.truthy b0) eqn:Tb; [|discriminate].
  destruct r3 as [|c r3]; [|discriminate].
  cbn. intros H. inversion H. subst a0 b0.
  rewrite append_nil_r in Er. subst r2.
  split; [exact Es|]. split; split; try assumption; apply truthy_not_empty; assumption.
Qed.

(** The prober started just above a port below 65535, when some port
    above it is available. *)
Lemma findAvailablePort_above (h : Host) (H : Z) :
  H < 65535 ->
  (exists q, H < q <= 65535 /\ isPortAvailable h q = true) ->
  exists p probed,
    findAvailablePort h (H + 1) = Some (p, probed)
    /\ H < p <= 65535
    /\ isPortAvailable h p = true
    /\ forall q, H < q < p -> isPortAvailable h q = false.
Proof.
  intros Hlt (q & Hq & Hfree).
  destruct (findAvailablePortLoop_spec h (S (Z.to_nat (65535 - (H + 1)))) (H + 1))
    as (p & probed & E & Hle & _ & Hbefore & Hend & Hmax); [lia|].
  exists p, probed.
  assert (Hpq : p <= q).
  { destruct (Z.le_gt_cases p q) as [|Hgt]; [assumption|].
    rewrite (Hbefore q) in Hfree by lia. discriminate. }
  assert (Hp : isPortAvailable h p = true).
  { destruct Hend as [|Hge]; [assumption|]. replace p with q by lia. exact Hfree. }
  split; [exact E|]. split; [lia|]. split; [exact Hp|].
  intros q' Hq'. apply Hbefore. lia.
Qed.

Lemma resolvePortMapping_remaps_to (h : Host) (serviceName hp cp : string) :
  digits hp -> digits cp ->
  parseInt hp < 65535 ->
  isPortAvailable h (parseInt hp) = false ->
  (exists q, parseInt hp < q <= 65535 /\ isPortAvailable h q = true) ->
  exists p,
    resolvePortMapping h serviceName (hp +:+ ":" +:+ cp)
    = Some (Js.showZ p +:+ ":" +:+ Js.showZ (parseInt cp),
            Some (serviceName +:+ ": " +:+ Js.showZ (parseInt hp) +:+ " " +:+ arrow
                  +:+ " " +:+ Js.showZ p))
    /\ parseInt hp < p <= 65535
    /\ isPortAvailable h p = true
    /\ forall q, parseInt hp < q < p -> isPortAvailable h q = false.
Proof.
  intros Hhp Hcp Hlt Hbusy Hsome.
  destruct (findAvailablePort_above h (parseInt hp) Hlt Hsome)
    as (p & probed & E & Hrange & Hfree & Hbefore).
  exists p. split; [|auto].
  unfold resolvePortMapping. rewrite (matchPortMapping_digits hp cp Hhp Hcp).
  cbv beta iota. rewrite Hbusy, E. reflexivity.
Qed.

Lemma resolvePortMapping_kept (h : Host) (serviceName a b : string) :
  digits a -> digits b -> isPortAvailable h (parseInt a) = true ->
  resolvePortMapping h serviceName (a +:+ ":" +:+ b) = Some (a +:+ ":" +:+ b, None).
Proof.
  intros Ha Hb Hfree. unfold resolvePortMapping.
  rewrite (matchPortMapping_digits a b Ha Hb). cbv beta iota. rewrite Hfree. reflexivity.
Qed.

(** X18. A mapping [HOST:CONTAINER] of two port numbers whose host port
    is not available (and is below 65535, with an available port above
    it) is rewritten to the first available port above the host port,
    followed by the container port; the ports in between are all taken,
    and one note is added. *)
Theorem resolvePortMapping_remaps (h : Host) (serviceName hp cp : string) :
  digits hp -> digits cp ->
  parseInt cp <= 65535 ->
  parseInt hp < 65535 ->
  isPortAvailable h (parseInt hp) = false ->
  (exists q, parseInt hp < q <= 65535 /\ isPortAvailable h q = true) ->
  exists p,
    resolvePortMapping h serviceName (hp +:+ ":" +:+ cp)
    = Some (Js.showZ p +:+ ":" +:+ Js.showZ (parseInt cp),
            Some (serviceName +:+ ": " +:+ Js.showZ (parseInt hp) +:+ " " +:+ arrow
                  +:+ " " +:+ Js.showZ p))
    /\ parseInt hp < p <= 65535
    /\ isPortAvailable h p = true
    /\ forall q, parseInt hp < q < p -> isPortAvailable h q = false.
Proof. intros Hhp Hcp _. apply resolvePortMapping_remaps_to; assumption. Qed.

(** X19. A mapping is kept letter for letter when it is not of the form
    [HOST:CONTAINER] with two runs of digits (an interface address, a
    protocol suffix, a port range, a lone port), whether or not its host
    port is taken, and when it is of that form and its host port is
    available. *)
Theorem resolvePortMapping_keeps (h : Host) (serviceName portStr : string) :
  (forall a b, digits a -> digits b -> portStr <> a +:+ ":" +:+ b)
  \/ (exists a b, digits a /\ digits b /\ portStr = a +:+ ":" +:+ b
                  /\ parseInt a <= 65535
                  /\ isPortAvailable h (parseInt a) = true) ->
  resolvePortMapping h serviceName portStr = Some (portStr, None).
Proof.
  intros [Hother|(a & b & Ha & Hb & -> & _ & Hfree)]; unfold resolvePortMapping.
  - destruct (matchPortMapping portStr) as [[a b]|] eqn:E; [|reflexivity].
    apply matchPortMapping_inv in E as (-> & Ha & Hb).
    destruct (Hother a b Ha Hb eq_refl).
  - fold (resolvePortMapping h serviceName (a +:+ ":" +:+ b)).
    apply resolvePortMapping_kept; assumption.
Qed.

(** X20. The rewriting looks at the host only, not at the other mappings
    of the file: when a host port is taken and the next one is free, a
    mapping of the taken port is moved onto the next port even though the
    mapping after it keeps that very port. *)
Theorem resolveServicePorts_moves_onto_mapped_port
        (h : Host) (serviceName hp1 cp1 hp2 cp2 : string) :
  digits hp1 -> digits cp1 -> digits hp2 -> digits cp2 ->
  parseInt cp1 <= 65535 ->
  parseInt hp2 = parseInt hp1 + 1 ->
  parseInt hp1 < 65535 ->
  isPortAvailable h (parseInt hp1) = false ->
  isPortAvailable h (parseInt hp2) = true ->
  resolveServicePorts h serviceName
    [PortText (hp1 +:+ ":" +:+ cp1); PortText (hp2 +:+ ":" +:+ cp2)]
  = Some ([Js.showZ (parseInt hp2) +:+ ":" +:+ Js.showZ (parseInt cp1);
           hp2 +:+ ":" +:+ cp2],
          [serviceName +:+ ": " +:+ Js.showZ (parseInt hp1) +:+ " " +:+ arrow
           +:+ " " +:+ Js.showZ (parseInt hp2)]).
Proof.
  intros H1 C1 H2 C2 _ Hnext Hlt Hbusy Hfree.
  destruct (resolvePortMapping_remaps_to h serviceName hp1 cp1 H1 C1 Hlt Hbusy)
    as (p & E & Hrange & _ & Hbefore).
  { exists (parseInt hp2). split; [lia|exact Hfree]. }
  assert (p = parseInt hp2) as ->.
  { destruct (Z.le_gt_cases p (parseInt hp2)) as [|Hgt]; [lia|].
    rewrite (Hbefore (parseInt hp2)) in Hfree by lia. discriminate. }
  cbn [resolveServicePorts portString]. rewrite E.
  rewrite (resolvePortMapping_kept h serviceName hp2 cp2 H2 C2 Hfree). reflexivity.
Qed.

(** The ports the rewriting of [portMapping] probes are port numbers: the
    mapping is not of the form [HOST:CONTAINER], or its host port is at
    most 65535 and, when that is exactly 65535, available (the search for
    another port starts one above the host port). Probing a number above
    65535 throws, and [resolvePortConflicts] then returns the text it was
    given. *)
Definition probesInRange (h : Host) (portMapping : PortNode) : bool :=
match matchPortMapping (portString portMapping) with
| None => true
| Some (m1, _) =>
    ((parseInt m1 <=? 65535)
     && (isPortAvailable h (parseInt m1) || (parseInt m1 <? 65535)))%bool
end.

Lemma resolvePortMapping_returns (h : Host) (serviceName portStr : string) :
  exists mapping note, resolvePortMapping h serviceName portStr = Some (mapping, note).
Proof.
  unfold resolvePortMapping.
  destruct (matchPortMapping portStr) as [[m1 m2]|]; [|eauto].
  destruct (isPortAvailable h (parseInt m1)); [eauto|].
  destruct (findAvailablePort_returns h (parseInt m1 + 1)) as (p & probed & ->). eauto.
Qed.

(** X21. When every port the rewriting probes is a port number, the
    rewriting of the ports of a service returns a list as long as the one
    it was given, and a port of the long syntax (a mapping with [target],
    [published] and so on) does not survive it: in the new list its place
    is taken by the text [[object Object]]. *)
Theorem resolveServicePorts_loses_long_syntax
        (h : Host) (serviceName : string) (ports : list PortNode) :
  Forall (fun portMapping => probesInRange h portMapping = true) ports ->
  exists newPorts remappings,
    resolveServicePorts h serviceName ports = Some (newPorts, remappings)
    /\ length newPorts = length ports
    /\ forall (i : nat) (fields : list (string * string)),
         ports !! i = Some (PortObject fields) ->
         newPorts !! i = Some "[object Object]".
Proof.
  intros _. induction ports as [|p ports IH].
  - exists [], []. repeat split. intros i fields Hi.
    rewrite lookup_nil in Hi. discriminate.
  - destruct IH as (new' & notes' & E' & Hlen & Hlong).
    destruct (resolvePortMapping_returns h serviceName (portString p))
      as (mapping & note & E).
    cbn [resolveServicePorts]. rewrite E, E'.
    eexists _, _. split; [reflexivity|]. split; [cbn; rewrite Hlen; reflexivity|].
    intros [|i] fields Hi.
    + cbn in Hi. inversion Hi. subst p. cbn in E. inversion E. reflexivity.
    + cbn in Hi |- *. eapply Hlong. exact Hi.
Qed.

End PortConflicts.

(** A host on which only port 8080 is taken. *)
Definition frontHost : Host :=
{| containers := Ok [];
   inspect := fun _ => Throw "no such container";
   execDump := fun _ _ => DumpTimeout;
   getArchive := fun _ _ => Throw "no such container";
   TELEGRAM_TOKEN := None; CHAT_ID := None; TELEGRAM_API_ROOT := None;
   fetch := fun _ _ => FetchOk;
   zipSize := fun _ => 0;
   envFileContent := fun _ => None;
   hostPortBound := fun p => Z.eqb p 8080;
   cwd := "/app";
   ensureDir := fun _ => Ok tt;
   revalidatePath := fun _ => Ok tt |}.

Lemma resolvePortMapping_remaps_witness :
  exists p,
    Conflicts.resolvePortMapping webHost "web" ("8080" +:+ ":" +:+ "80")
    = Some (Js.showZ p +:+ ":" +:+ Js.showZ (Conflicts.parseInt "80"),
            Some ("web" +:+ ": " +:+ Js.showZ (Conflicts.parseInt "8080") +:+ " "
                  +:+ Conflicts.arrow +:+ " " +:+ Js.showZ p))
    /\ Conflicts.parseInt "8080" < p <= 65535
    /\ isPortAvailable webHost p = true
    /\ forall q, Conflicts.parseInt "8080" < q < p -> isPortAvailable webHost q = false.
Proof.
  apply (resolvePortMapping_remaps webHost "web" "8080" "80").
  - split; [discriminate|reflexivity].
  - split; [discriminate|reflexivity].
  - discriminate.
  - reflexivity.
  - reflexivity.
  - exists 8082. split; [vm_compute; split; [reflexivity|discriminate]|reflexivity].
Defined.

Lemma resolvePortMapping_keeps_witness :
  Conflicts.resolvePortMapping webHost "web" "127.0.0.1:8080:80"
  = Some ("127.0.0.1:8080:80", None).
Proof.
  apply (resolvePortMapping_keeps webHost "web" "127.0.0.1:8080:80").
  left. intros a b Ha Hb E.
  pose proof (matchPortMapping_digits a b Ha Hb) as M.
  rewrite <- E in M. vm_compute in M. discriminate M.
Defined.

Lemma resolveServicePorts_loses_long_syntax_witness :
  exists newPorts remappings,
    Conflicts.resolveServicePorts webHost "web"
      [Conflicts.PortText "8080:80";
       Conflicts.PortObject [("target", "80"); ("published", "8080")]]
    = Some (newPorts, remappings)
    /\ length newPorts = 2%nat
    /\ forall (i : nat) (fields : list (string * string)),
         [Conflicts.PortText "8080:80";
          Conflicts.PortObject [("target", "80"); ("published", "8080")]] !! i
         = Some (Conflicts.PortObject fields) ->
         newPorts !! i = Some "[object Object]".
Proof.
  apply (resolveServicePorts_loses_long_syntax webHost "web"
           [Conflicts.PortText "8080:80";
            Conflicts.PortObject [("target", "80"); ("published", "8080")]]).
  repeat constructor.
Defined.

Lemma resolveServicePorts_moves_onto_mapped_port_witness :
  Conflicts.resolveServicePorts frontHost "web"
    [Conflicts.PortText ("8080" +:+ ":" +:+ "80");
     Conflicts.PortText ("8081" +:+ ":" +:+ "8000")]
  = Some ([Js.showZ (Conflicts.parseInt "8081") +:+ ":"
           +:+ Js.showZ (Conflicts.parseInt "80");
           "8081" +:+ ":" +:+ "8000"],
          ["web" +:+ ": " +:+ Js.showZ (Conflicts.parseInt "8080") +:+ " "
           +:+ Conflicts.arrow +:+ " " +:+ Js.showZ (Conflicts.parseInt "8081")]).
Proof.
  apply (resolveServicePorts_moves_onto_mapped_port frontHost "web" "8080" "80" "8081" "8000");
    try (split; [discriminate|reflexivity]); try reflexivity.
  discriminate.
Defined.

(** ** The entry names of a unified artifact *)

Section ArtifactNames.

Ltac step_in H :=
  let w1 := fresh "w" in
  let a := fresh "a" in
  let H1 := fresh "Hstep" in
  apply bind_ok in H as (w1 & a & H1 & H).

Lemma eqb_length_false (p s : string) :
  String.length p <> String.length s -> String.eqb p s = false.
Proof.
  intros H. destruct (String.eqb p s) eqn:E; [|reflexivity].
  apply String.eqb_eq in E. subst. congruence.
Qed.

Lemma endsWith_app_false (p x q : string) :
  (String.length p <= String.length q)%nat ->
  Js.endsWith p q = false ->
  Js.endsWith p (x +:+ q) = false.
Proof.
  intros Hlen Hq. induction x as [|c x IH]; [exact Hq|].
  change (String c x +:+ q) with (String c (x +:+ q)).
  unfold Js.endsWith; fold Js.endsWith. rewrite IH, orb_false_r.
  apply eqb_length_false. cbn [String.length]. rewrite length_append. lia.
Qed.

(** The name of an entry of a member's subtree: it lies under
    [services/] and is no zip file. *)
Definition memberEntryName (name : string) : Prop :=
Js.startsWith "services/" name = true /\ Js.endsWith ".zip" name = false.

Lemma path_join_entry (n s : string) :
  simpleSegment n = true -> simpleSegment s = true ->
  Path.join ["services/" +:+ n; s] = "services/" +:+ n +:+ "/" +:+ s.
Proof.
  intros Hn Hs.
  assert (Hsegs : simpleSegments ["services"; n; s]) by (repeat constructor; assumption).
  apply simpleSegment_inv in Hs as (Hts & _).
  rewrite path_join2 by (reflexivity || exact Hts).
  change ("services/" +:+ n) with (Js.join "/" ["services"; n]).
  transitivity (Path.normalize (Js.join "/" ["services"; n; s])).
  - f_equal; cbn [Js.join]; rewrite ?append_assoc; reflexivity.
  - rewrite normalize_simple by (exact Hsegs || discriminate).
    cbn [Js.join]. rewrite ?append_assoc. reflexivity.
Qed.

Lemma memberEntryName_plain (n s : string) :
  simpleSegment n = true -> simpleSegment s = true ->
  (4 <= String.length s)%nat -> Js.endsWith ".zip" s = false ->
  memberEntryName (Path.join ["services/" +:+ n; s]).
Proof.
  intros Hn Hs Hlen Hzip. rewrite (path_join_entry n s Hn Hs). split.
  - apply (startsWith_app "services/").
  - rewrite <- !append_assoc. apply endsWith_app_false; assumption.
Qed.

Lemma errorName_simple (volPath : string) :
  simpleSegment ("ERROR_" +:+ Js.replaceAll is_slash "_" volPath +:+ ".txt") = true.
Proof.
  unfold simpleSegment.
  destruct (escapeSeparators_no_separator volPath) as [H1 H2].
  unfold escapeSeparators in H1, H2.
  rewrite !includes_char_app, H1, H2. reflexivity.
Qed.

Lemma memberEntryName_volume (n volPath : string) :
  simpleSegment n = true ->
  memberEntryName (Path.join ["services/" +:+ n; "volumes"; safeName volPath]).
Proof.
  intros Hn. rewrite (volume_entry_name _ volPath (prefix_service n Hn)).
  rewrite (volumesPrefix_service n Hn). split.
  - rewrite !append_assoc. apply (startsWith_app "services/").
  - unfold safeName. rewrite <- !append_assoc.
    apply endsWith_app_false; [cbn; lia|reflexivity].
Qed.

Lemma memberEntryName_error (n volPath : string) :
  simpleSegment n = true ->
  memberEntryName
    (Path.join ["services/" +:+ n;
                "ERROR_" +:+ Js.replaceAll is_slash "_" volPath +:+ ".txt"]).
Proof.
  intros Hn. rewrite (path_join_entry n _ Hn (errorName_simple volPath)). split.
  - apply (startsWith_app "services/").
  - rewrite <- !append_assoc. apply endsWith_app_false; [cbn; lia|reflexivity].
Qed.

(** [a'] is [a] followed by entries of members' subtrees. *)
Definition grownByMembers (a a' : list Entry) : Prop :=
exists more, a' = (a ++ more)%list
             /\ Forall (fun e => memberEntryName (entryName e)) more.

Lemma grownByMembers_refl (a : list Entry) : grownByMembers a a.
Proof. exists []. split; [rewrite app_nil_r; reflexivity|constructor]. Qed.

Lemma grownByMembers_trans (a b c : list Entry) :
  grownByMembers a b -> grownByMembers b c -> grownByMembers a c.
Proof.
  intros (m1 & -> & F1) (m2 & -> & F2). exists (m1 ++ m2)%list.
  split; [rewrite app_assoc; reflexivity|apply Forall_app; auto].
Qed.

Lemma grownByMembers_append (a : list Entry) (c : Content) (name : string) :
  memberEntryName name -> grownByMembers a (append a c name).
Proof. intros H. exists [{| entryName := name; content := c |}]. split; [reflexivity|].
  constructor; [exact H|constructor].
Qed.

Lemma archiveVolumes_grown (h : Host) (id n : string) (paths : list string) :
  simpleSegment n = true ->
  forall (archive a' : list Entry) (w w' : World),
    archiveVolumes h id ("services/" +:+ n) archive paths w = (w', Ok a') ->
    grownByMembers archive a'.
Proof.
  intros Hn. induction paths as [|p paths IH]; intros archive a' w w' H; cbn in H.
  - apply ret_ok in H as [_ ->]. apply grownByMembers_refl.
  - step_in H. eapply grownByMembers_trans; [|eapply IH; exact H].
    unfold archiveVolume in Hstep. step_in Hstep.
    destruct (getArchive h id p); apply ret_ok in Hstep as [_ ->];
      apply grownByMembers_append.
    + apply memberEntryName_volume, Hn.
    + apply memberEntryName_error, Hn.
Qed.

Lemma archiveContainerInternal_grown (h : Host) (id n : string)
      (customPaths : option (list string)) (archive a' : list Entry) (w w' : World) :
  simpleSegment n = true ->
  archiveContainerInternal h archive id ("services/" +:+ n) customPaths w = (w', Ok a') ->
  grownByMembers archive a'.
Proof.
  intros Hn H. unfold archiveContainerInternal in H.
  step_in H. step_in H. step_in H. step_in H. step_in H. step_in H.
  apply get_ok in Hstep2 as [-> ->]. apply lift_ok in Hstep3 as [-> _].
  apply get_ok in Hstep4 as [-> ->].
  assert (Hdump : grownByMembers archive a1).
  { destruct (isDbImage (Image a0)).
    - apply dumpDatabase_ok in Hstep1 as (stdout & _ & _ & _ & ->).
      apply grownByMembers_append, memberEntryName_plain; auto; cbn; lia.
    - apply ret_ok in Hstep1 as [_ ->]. apply grownByMembers_refl. }
  eapply grownByMembers_trans; [exact Hdump|].
  match type of H with
  | context [append a1 ?c (Path.join ["services/" +:+ n; "config.json"])] =>
      set (cfg := c) in H
  end.
  eapply grownByMembers_trans;
    [apply (grownByMembers_append a1 cfg (Path.join ["services/" +:+ n; "config.json"]));
     apply memberEntryName_plain; auto; cbn; lia|].
  match type of H with
  | (match ?ps with [] => _ | _ :: _ => _ end) _ = _ => destruct ps
  end.
  - apply ret_ok in H as [_ ->].
    apply grownByMembers_append, memberEntryName_plain; auto; cbn; lia.
  - eapply archiveVolumes_grown; [exact Hn|exact H].
Qed.

(** Members whose first name, without the leading slash, is a plain path
    segment, as the names the engine gives are. *)
Definition plainlyNamed (c : ContainerSummary) : Prop :=
exists n rest, Names c = n :: rest /\ simpleSegment (Js.replace "/" "" n) = true.

Lemma archiveServices_grown (h : Host) (virtualId : string) (k : nat)
      (cs : list ContainerSummary) :
  Forall plainlyNamed cs ->
  forall (i : nat) (archive a' : list Entry) (w w' : World),
    archiveServices h virtualId k i cs archive w = (w', Ok a') ->
    grownByMembers archive a'.
Proof.
  induction cs as [|c cs IH]; intros Hall i archive a' w w' H; cbn [archiveServices] in H.
  - apply ret_ok in H as [_ ->]. apply grownByMembers_refl.
  - inversion Hall as [|? ? (n & rest & Hn & Hsimple) Hrest]; subst.
    step_in H. step_in H. step_in H.
    unfold firstName in Hstep. rewrite Hn in Hstep. apply ret_ok in Hstep as [_ ->].
    eapply grownByMembers_trans;
      [eapply archiveContainerInternal_grown; [exact Hsimple|exact Hstep1]|].
    eapply IH; [exact Hrest|exact H].
Qed.

Lemma appendEnv_shape (h : Host) (virtualId : string)
      (stackConfig : option Storage.StackConfig) (archive a' : list Entry) (w w' : World) :
  appendEnv h virtualId stackConfig archive w = (w', Ok a') ->
  exists env, a' = (archive ++ env)%list
              /\ (env = [] \/ exists text,
                     env = [{| entryName := ".env"; content := Text text |}]).
Proof.
  unfold appendEnv. intros H.
  assert (Hnone : forall v, ret archive v = (w', Ok a') ->
            exists env, a' = (archive ++ env)%list
              /\ (env = [] \/ exists text,
                     env = [{| entryName := ".env"; content := Text text |}])).
  { intros v Hv. apply ret_ok in Hv as [_ ->]. exists []. rewrite app_nil_r. auto. }
  destruct stackConfig as [sc|]; [|eapply Hnone; exact H].
  destruct (Storage.envVars sc) as [[|kv vars]|].
  - destruct (Storage.envFile sc) as [f|]; [|eapply Hnone; exact H].
    destruct (if Js.truthy f then envFileContent h f else None); [|eapply Hnone; exact H].
    step_in H. apply ret_ok in H as [_ ->]. eexists. split; [reflexivity|eauto].
  - step_in H. apply ret_ok in H as [_ ->]. eexists. split; [reflexivity|eauto].
  - destruct (Storage.envFile sc) as [f|]; [|eapply Hnone; exact H].
    destruct (if Js.truthy f then envFileContent h f else None); [|eapply Hnone; exact H].
    step_in H. apply ret_ok in H as [_ ->]. eexists. split; [reflexivity|eauto].
Qed.

(** The entries a unified stack backup puts at the root of the archive:
    the metadata first, then the compose file when the stack has an
    imported definition with a text, then the environment file if any;
    the entries of the members follow. *)
Lemma unifiedArchive_shape (h : Host) (virtualId stackName : string) (now : Z)
      (members : list ContainerSummary) (w w' : World) (archive : list Entry) :
  Forall plainlyNamed members ->
  unifiedArchive h virtualId stackName now members w = (w', Ok archive) ->
  exists metadata compose env more,
    archive = ({| entryName := "stack_metadata.json";
                  content := StackMetadataJson metadata |}
               :: compose ++ env ++ more)%list
    /\ sm_stackName metadata = stackName
    /\ (compose = []
        \/ exists sc, stacks w !! stackName = Some sc
                      /\ Js.truthy (Storage.yaml sc) = true
                      /\ compose = [{| entryName := "docker-compose.yml";
                                       content := Text (Storage.yaml sc) |}])
    /\ ((exists sc, stacks w !! stackName = Some sc /\ Js.truthy (Storage.yaml sc) = true)
        -> compose <> [])
    /\ (env = [] \/ exists text, env = [{| entryName := ".env"; content := Text text |}])
    /\ Forall (fun e => memberEntryName (entryName e)) more.
Proof.
  intros Hall H. unfold unifiedArchive in H.
  step_in H. apply get_ok in Hstep as [-> ->].
  step_in H. step_in H.
  apply (archiveServices_grown h virtualId _ members Hall) in H as (more & -> & Hmore).
  apply appendEnv_shape in Hstep0 as (env & -> & Henv).
  destruct (stacks w !! stackName) as [sc|] eqn:Hsc.
  - destruct (Js.truthy (Storage.yaml sc)) eqn:Hy.
    + eexists _, [_], env, more. split; [unfold append; cbn [app]; reflexivity|].
      split; [reflexivity|].
      split; [right; exists sc; auto|]. split; [discriminate|]. split; assumption.
    + eexists _, [], env, more. split; [reflexivity|]. split; [reflexivity|].
      split; [left; reflexivity|]. split; [|split; assumption].
      intros (sc' & E & Ht). inversion E. subst sc'. congruence.
  - eexists _, [], env, more. split; [reflexivity|]. split; [reflexivity|].
    split; [left; reflexivity|]. split; [|split; assumption].
    intros (sc' & E & _). discriminate.
Qed.

End ArtifactNames.

(** ** [app/actions.ts]: how the two restores open an artifact *)

Module OpenArtifact.

(** What the zip reader and the JSON parser answer on material the backup
    did not write. *)
Record Readers := {
  notAZip : string;                                  (* the message of the error
                                                        [new AdmZip(filePath)] throws
                                                        on a file that is no complete
                                                        zip archive *)
  parseOther : Content -> result StackMetadata;      (* [JSON.parse] of an entry that
                                                        is not the metadata the stack
                                                        backup writes *)
  textOf : Content -> string                         (* [getData().toString('utf8')]
                                                        of an entry that is no text *)
}.

(** [new AdmZip(filePath)] and [zip.getEntries()] *)
Definition readZip (r : Readers) (f : File) : result (list Entry) :=
  match f with
  | ZipFile entries true => Ok entries
  | _ => Throw (notAZip r)
  end.

(** [zip.getEntry(name)] *)
Definition getEntry (name : string) (zip : list Entry) : option Entry :=
  List.find (fun e => String.eqb (entryName e) name) zip.

Definition parseMetadata (r : Readers) (c : Content) : result StackMetadata :=
  match c with
  | StackMetadataJson m => Ok m
  | other => parseOther r other
  end.

Definition entryText (r : Readers) (c : Content) : string :=
  match c with
  | Text s => s
  | other => textOf r other
  end.

(** *** restoreUnifiedStackBackup *)

(** Conflict resolution, import of the definition, clean-up of the
    existing stack, deployment and the restore phases: what the function
    does between finding the compose file and reporting success. It is
    given the job id, the archive, the metadata, the stack name and the
    compose text, and returns the final message or throws. *)
Definition Deploy : Type :=
  string -> list Entry -> StackMetadata -> string -> string -> M string.

Definition restoreUnifiedStackBackup (r : Readers) (h : Host) (deploy : Deploy)
           (filename : string) (targetStackName : option string) : M (result string) :=
  now <- get clock ;;
  let virtualId := "restore-stack-" +:+ Js.showZ now in
  tryCatch
    (updateJobStatus virtualId Queue.processing "Reading backup archive..." ;;;
     let filePath := Path.join [backupDir h; filename] in
     file <- get (fun w => fs w !! filePath) ;;
     match file with
     | None => throw "Backup file not found"
     | Some f =>
         zip <- lift (readZip r f) ;;
         match getEntry "stack_metadata.json" zip with
         | None => throw "Invalid Stack Backup: Missing stack_metadata.json"
         | Some stackMetadataEntry =>
             metadata <- lift (parseMetadata r (content stackMetadataEntry)) ;;
             let stackName :=
               if Js.opt_truthy targetStackName then default "" targetStackName
               else sm_stackName metadata in
             updateJobStatus virtualId Queue.processing
               ("Deploying stack " +:+ dq +:+ stackName +:+ dq +:+ "...") ;;;
             match getEntry "docker-compose.yml" zip with
             | None => throw "Cannot restore: docker-compose.yml not found in backup."
             | Some composeEntry =>
                 msg <- deploy virtualId zip metadata stackName
                          (entryText r (content composeEntry)) ;;
                 updateJobStatus virtualId Queue.completed msg ;;;
                 now <- get clock ;;
                 addHistoryEntry (historyEntry now stackName Storage.success
                                    Storage.local msg None) ;;;
                 ret (Ok msg)
             end
         end
     end)
    (fun msg =>
       updateJobStatus virtualId Queue.failed ("Stack Restore Error: " +:+ msg) ;;;
       ret (Throw msg)).

(** *** restoreToNewContainer *)

Record CloneResult := {
  success : bool;
  error : option string;
  newName : option string;
  message : option string
}.

Definition failure (msg : string) : CloneResult :=
  {| success := false; error := Some msg; newName := None; message := None |}.

(** [if (jobId) updateJobStatus(jobId, status, msg)] *)
Definition whenJob (jobId : option string) (st : Queue.JobStatus) (msg : string)
  : M unit :=
  if Js.opt_truthy jobId then updateJobStatus (default "" jobId) st msg else ret tt.

(** The two modes of the function, each given the archive (and the single
    mode the [config.json] entry): the restore of a stack artifact made of
    one zip per container, and the re-creation of one container. *)
Definition restoreToNewContainer (r : Readers) (h : Host)
           (stackMode : list Entry -> M CloneResult)
           (singleMode : list Entry -> Entry -> M CloneResult)
           (filename : string) (jobId : option string) : M CloneResult :=
  let filePath := Path.join [backupDir h; filename] in
  file <- get (fun w => fs w !! filePath) ;;
  match file with
  | None =>
      whenJob jobId Queue.failed "File not found" ;;;
      ret (failure "File not found")
  | Some f =>
      tryCatch
        (zip <- lift (readZip r f) ;;
         if (negb (bool_decide (is_Some (getEntry "config.json" zip)))
             && existsb (fun e => Js.endsWith ".zip" (entryName e)) zip)%bool
         then stackMode zip
         else
           match getEntry "config.json" zip with
           | None =>
               whenJob jobId Queue.failed "Invalid Backup: config.json missing" ;;;
               ret (failure "Invalid Backup: config.json missing")
           | Some configEntry => singleMode zip configEntry
           end)
        (fun msg =>
           whenJob jobId Queue.failed msg ;;;
           ret (failure msg))
  end.

End OpenArtifact.

(** ** Unified artifacts and the two restores *)

Section UnifiedArtifacts.
Import OpenArtifact.

Lemma startsWith_eqb_false (p name other : string) :
  Js.startsWith p name = true -> Js.startsWith p other = false ->
  String.eqb name other = false.
Proof.
  intros H1 H2. destruct (String.eqb name other) eqn:E; [|reflexivity].
  apply String.eqb_eq in E. congruence.
Qed.

Lemma getEntry_members (name : string) (more : list Entry) :
  Js.startsWith "services/" name = false ->
  Forall (fun e => memberEntryName (entryName e)) more ->
  getEntry name more = None.
Proof.
  intros Hname. induction more as [|e more IH]; intros H; [reflexivity|].
  inversion H as [|? ? [He _] Hrest]; subst. unfold getEntry. cbn [List.find].
  rewrite (startsWith_eqb_false "services/" (entryName e) name He Hname).
  apply IH, Hrest.
Qed.

Lemma getEntry_app_None (name : string) (a b : list Entry) :
  getEntry name a = None -> getEntry name (a ++ b)%list = getEntry name b.
Proof.
  unfold getEntry. induction a as [|e a IH]; [reflexivity|]. cbn [List.find app].
  destruct (String.eqb (entryName e) name); [discriminate|exact IH].
Qed.

Lemma existsb_zip_members (more : list Entry) :
  Forall (fun e => memberEntryName (entryName e)) more ->
  existsb (fun e => Js.endsWith ".zip" (entryName e)) more = false.
Proof.
  induction more as [|e more IH]; intros H; [reflexivity|].
  inversion H as [|? ? [_ He] Hrest]; subst. cbn [existsb]. rewrite He. apply IH, Hrest.
Qed.

(** X22. A restore into a new container refuses every artifact a unified
    stack backup has built: such an artifact has no [config.json] at its
    root and holds no zip file, so the function reports [Invalid Backup:
    config.json missing] and, when it was given a job id, leaves that job
    [failed] with the same message. *)
Theorem clone_restore_refuses_unified_artifact
        (h : Host) (virtualId stackName : string) (now : Z)
        (members : list ContainerSummary) (w0 w1 : World) (archive : list Entry)
        (r : Readers) (stackMode : list Entry -> M CloneResult)
        (singleMode : list Entry -> Entry -> M CloneResult)
        (filename : string) (jobId : option string) (w : World) :
  Forall plainlyNamed members ->
  unifiedArchive h virtualId stackName now members w0 = (w1, Ok archive) ->
  fs w !! Path.join [backupDir h; filename] = Some (ZipFile archive true) ->
  exists w',
    restoreToNewContainer r h stackMode singleMode filename jobId w
    = (w', Ok (failure "Invalid Backup: config.json missing"))
    /\ (forall j, jobId = Some j -> Js.truthy j = true ->
                  globalState w' !! j
                  = Some {| Queue.status := Queue.failed;
                            Queue.message := Some "Invalid Backup: config.json missing";
                            Queue.lastUpdated := clock w |})
    /\ historyFile w' = historyFile w /\ fs w' = fs w.
Proof.
  intros Hnames Harch Hfile.
  destruct (unifiedArchive_shape h virtualId stackName now members w0 w1 archive
              Hnames Harch)
    as (metadata & compose & env & more & -> & _ & Hcompose & _ & Henv & Hmore).
  set (archive := (_ :: compose ++ env ++ more)%list) in *.
  assert (Hcfg : getEntry "config.json" archive = None).
  { subst archive. unfold getEntry. cbn [List.find entryName].
    change (String.eqb "stack_metadata.json" "config.json") with false. cbv beta iota.
    fold (getEntry "config.json" (compose ++ env ++ more)%list).
    rewrite getEntry_app_None
      by (destruct Hcompose as [->|(sc & _ & _ & ->)]; reflexivity).
    rewrite getEntry_app_None by (destruct Henv as [->|(t & ->)]; reflexivity).
    apply getEntry_members; [reflexivity|exact Hmore]. }
  assert (Hzip : existsb (fun e => Js.endsWith ".zip" (entryName e)) archive = false).
  { subst archive. cbn [existsb entryName].
    change (Js.endsWith ".zip" "stack_metadata.json") with false. cbn [orb].
    rewrite !existsb_app, (existsb_zip_members more Hmore), !orb_false_r.
    destruct Hcompose as [->|(sc & _ & _ & ->)], Henv as [->|(t & ->)]; reflexivity. }
  unfold restoreToNewContainer.
  unfold bind at 1. unfold get at 1. rewrite Hfile.
  unfold tryCatch. unfold bind at 1. unfold lift at 1. cbn [readZip].
  rewrite Hcfg, Hzip, andb_false_r.
  unfold whenJob. destruct jobId as [j|]; [destruct (Js.truthy j) eqn:Hj|]; cbn [Js.opt_truthy].
  - rewrite Hj. eexists. split; [reflexivity|]. split; [|split; reflexivity].
    intros j' E _. inversion E. subst j'.
    eapply globalState_head_of. reflexivity.
  - rewrite Hj. eexists. split; [reflexivity|]. split; [|split; reflexivity].
    intros j' E Hj'. inversion E. subst j'. congruence.
  - eexists. split; [reflexivity|]. split; [|split; reflexivity].
    intros j' E. discriminate.
Qed.

(** X23. A unified stack backup of a stack that has no imported definition
    (or one with an empty compose text) builds an artifact that the unified
    stack restore cannot restore: it holds no [docker-compose.yml], so the
    restore reports [Cannot restore: docker-compose.yml not found in
    backup.], sets its job to [failed] and adds nothing to the history,
    before anything is deployed. *)
Theorem stack_backup_without_compose_not_restorable
        (h : Host) (virtualId stackName : string) (now : Z)
        (members : list ContainerSummary) (w0 w1 : World) (archive : list Entry)
        (r : Readers) (deploy : Deploy)
        (filename : string) (targetStackName : option string) (w : World) :
  Forall plainlyNamed members ->
  match stacks w0 !! stackName with
  | Some sc => Js.truthy (Storage.yaml sc) = false
  | None => True
  end ->
  unifiedArchive h virtualId stackName now members w0 = (w1, Ok archive) ->
  fs w !! Path.join [backupDir h; filename] = Some (ZipFile archive true) ->
  exists w',
    restoreUnifiedStackBackup r h deploy filename targetStackName w
    = (w', Ok (Throw "Cannot restore: docker-compose.yml not found in backup."))
    /\ globalState w' !! ("restore-stack-" +:+ Js.showZ (clock w))
       = Some {| Queue.status := Queue.failed;
                 Queue.message :=
                   Some ("Stack Restore Error: "
                         +:+ "Cannot restore: docker-compose.yml not found in backup.");
                 Queue.lastUpdated := clock w |}
    /\ historyFile w' = historyFile w /\ fs w' = fs w /\ stacks w' = stacks w.
Proof.
  intros Hnames Hyaml Harch Hfile.
  destruct (unifiedArchive_shape h virtualId stackName now members w0 w1 archive
              Hnames Harch)
    as (metadata & compose & env & more & -> & _ & Hcompose & _ & Henv & Hmore).
  assert (compose = []) as ->.
  { destruct Hcompose as [->|(sc & Hsc & Ht & _)]; [reflexivity|].
    rewrite Hsc in Hyaml. congruence. }
  cbn [app] in *.
  set (archive := (_ :: env ++ more)%list) in *.
  assert (Hmeta : getEntry "stack_metadata.json" archive
                  = Some {| entryName := "stack_metadata.json";
                            content := StackMetadataJson metadata |}) by reflexivity.
  assert (Hcomp : getEntry "docker-compose.yml" archive = None).
  { subst archive. unfold getEntry. cbn [List.find entryName].
    change (String.eqb "stack_metadata.json" "docker-compose.yml") with false.
    cbv beta iota. fold (getEntry "docker-compose.yml" (env ++ more)%list).
    rewrite getEntry_app_None by (destruct Henv as [->|(t & ->)]; reflexivity).
    apply getEntry_members; [reflexivity|exact Hmore]. }
  unfold restoreUnifiedStackBackup.
  unfold bind at 1. unfold get at 1. unfold tryCatch.
  unfold bind at 1. unfold updateJobStatus at 1.
  unfold bind at 1. unfold get at 1. cbn [fs]. rewrite Hfile.
  unfold bind at 1. unfold lift at 1. cbn [readZip].
  rewrite Hmeta. cbn [content parseMetadata].
  unfold bind at 1. unfold lift at 1.
  unfold bind at 1. unfold updateJobStatus at 1.
  rewrite Hcomp.
  eexists. split; [reflexivity|]. split; [|repeat split].
  eapply globalState_head_of. reflexivity.
Qed.

End UnifiedArtifacts.

Definition sampleReaders : OpenArtifact.Readers :=
{| OpenArtifact.notAZip := "Invalid or unsupported zip format. No END header found";
   OpenArtifact.parseOther := fun _ => Throw "Unexpected token in JSON at position 0";
   OpenArtifact.textOf := fun _ => "" |}.

(** The artifact of the stack [shop], which has no imported definition, in
    the backup directory. *)
Definition worldWithStackArtifact : World :=
{| clock := 1700000000500; jobLog := []; historyFile := Storage.Missing;
   stacks := ∅;
   fs := {[ "/app/backups/stack_shop_1700000000000.zip"
            := ZipFile (okArchive shopRun) true ]} |}.

Lemma shopMembers_plainlyNamed : Forall plainlyNamed shopMembers.
Proof.
  repeat constructor.
  - exists "/shop-web-1", []. split; reflexivity.
  - exists "/shop-api-1", []. split; reflexivity.
Qed.

Lemma clone_restore_refuses_unified_artifact_witness :
  exists w',
    OpenArtifact.restoreToNewContainer sampleReaders shopHost
      (fun _ => ret (OpenArtifact.failure "stack mode"))
      (fun _ _ => ret (OpenArtifact.failure "single mode"))
      "stack_shop_1700000000000.zip" (Some "clone-1") worldWithStackArtifact
    = (w', Ok (OpenArtifact.failure "Invalid Backup: config.json missing"))
    /\ (forall j, Some "clone-1" = Some j -> Js.truthy j = true ->
                  globalState w' !! j
                  = Some {| Queue.status := Queue.failed;
                            Queue.message := Some "Invalid Backup: config.json missing";
                            Queue.lastUpdated := clock worldWithStackArtifact |})
    /\ historyFile w' = historyFile worldWithStackArtifact
    /\ fs w' = fs worldWithStackArtifact.
Proof.
  apply (clone_restore_refuses_unified_artifact shopHost "stack-shop" "shop"
           1700000000000 shopMembers freshWorld (fst shopRun) (okArchive shopRun)).
  - exact shopMembers_plainlyNamed.
  - vm_compute. reflexivity.
  - vm_compute. reflexivity.
Defined.

Lemma stack_backup_without_compose_not_restorable_witness :
  exists w',
    OpenArtifact.restoreUnifiedStackBackup sampleReaders shopHost
      (fun _ _ _ _ _ => ret "deployed") "stack_shop_1700000000000.zip" None
      worldWithStackArtifact
    = (w', Ok (Throw "Cannot restore: docker-compose.yml not found in backup."))
    /\ globalState w' !! ("restore-stack-" +:+ Js.showZ (clock worldWithStackArtifact))
       = Some {| Queue.status := Queue.failed;
                 Queue.message :=
                   Some ("Stack Restore Error: "
                         +:+ "Cannot restore: docker-compose.yml not found in backup.");
                 Queue.lastUpdated := clock worldWithStackArtifact |}
    /\ historyFile w' = historyFile worldWithStackArtifact
    /\ fs w' = fs worldWithStackArtifact
    /\ stacks w' = stacks worldWithStackArtifact.
Proof.
  apply (stack_backup_without_compose_not_restorable shopHost "stack-shop" "shop"
           1700000000000 shopMembers freshWorld (fst shopRun) (okArchive shopRun)).
  - exact shopMembers_plainlyNamed.
  - vm_compute. exact I.
  - vm_compute. reflexivity.
  - vm_compute. reflexivity.
Defined.

(** ** [lib/stack-parser.ts] and [app/actions.ts]: importing a stack *)

Module StackImport.

(** The document [yaml.load] returns, as far as the parser reads it: its
    [name] and its [services], each service with its configuration or
    [null]. A document that is no mapping has neither. *)
Record Document := {
  doc_name : option string;
  doc_services : option (list (string * option StackParser.ServiceNode))
}.

(** [yaml.load]: it throws, returns nothing ([null] or [undefined], for an
    empty text), or returns a document. *)
Definition Loader : Type := string -> result (option Document).

Record ParsedStack := {
  name : string;
  services : gmap string StackParser.ParsedService
}.

Definition invalid : string := "Invalid Docker Compose YAML format".

(** The loop over [Object.entries(doc.services)], each turn ending in
    [services[serviceName] = { ... }]; reading a key of a [null]
    configuration throws. *)
Fixpoint parseServices (entries : list (string * option StackParser.ServiceNode))
         (services : gmap string StackParser.ParsedService)
  : result (gmap string StackParser.ParsedService) :=
  match entries with
  | [] => Ok services
  | (serviceName, Some config) :: rest =>
      parseServices rest
        (Js.assign serviceName (StackParser.parseService serviceName config) services)
  | (serviceName, None) :: rest =>
      Throw "Cannot read properties of null (reading 'volumes')"
  end.

(** [parseStackYaml(yamlContent)]: whatever is thrown inside is replaced
    by the one error of the [catch] block. *)
Definition parseStackYaml (load : Loader) (yamlContent : string) : result ParsedStack :=
  match load yamlContent with
  | Throw _ => Throw invalid
  | Ok None => Throw invalid              (* [doc.name] of nothing *)
  | Ok (Some doc) =>
      let services :=
        match doc_services doc with
        | Some entries => parseServices entries ∅
        | None => Ok ∅
        end in
      match services with
      | Throw _ => Throw invalid
      | Ok services =>
          Ok {| name := Js.opt_or (doc_name doc) "manual-stack"; services := services |}
      end
  end.

(** [saveStack(stack)]: [stacks[stack.name] = stack] on the stored table,
    which is written back with its own properties. *)
Definition saveStack (stack : Storage.StackConfig) : M unit :=
  fun w => ({| clock := clock w;
               jobLog := jobLog w;
               historyFile := historyFile w;
               stacks := Js.assign (Storage.name stack) stack (stacks w);
               fs := fs w |}, Ok tt).

(** [importStackAction(yaml, name, envVars)]: the name of the stored stack,
    or the message of the error. *)
Definition importStackAction (load : Loader) (yaml : string) (name : option string)
           (envVars : option (list (string * string))) : M (result string) :=
  tryCatch
    (parsed <- lift (parseStackYaml load yaml) ;;
     now <- get clock ;;
     let stackName :=
       Js.opt_or name
         (Js.or_else (StackImport.name parsed) ("stack-" +:+ Js.showZ now)) in
     let config :=
       {| Storage.name := stackName;
          Storage.yaml := yaml;
          Storage.envFile := None;
          Storage.envVars := envVars;
          Storage.services := services parsed;
          Storage.lastUpdated := now |} in
     saveStack config ;;;
     ret (Ok stackName))
    (fun msg => ret (Throw msg)).

End StackImport.

(** ** From the imported definition to the captured paths *)

Section ImportedStacks.
Import StackImport.

Lemma parseServices_other (entries : list (string * option StackParser.ServiceNode)) :
  forall acc m k,
    parseServices entries acc = Ok m ->
    k ∉ List.map fst entries ->
    m !! k = acc !! k.
Proof.
  induction entries as [|[n [cfg|]] rest IH]; intros acc m k H Hk; cbn in H.
  - inversion H. reflexivity.
  - rewrite (IH _ m k H).
    + apply assign_lookup_ne. intros E. apply Hk. cbn. rewrite E. apply list_elem_of_here.
    + intros Hin. apply Hk. cbn. apply list_elem_of_further. exact Hin.
  - discriminate.
Qed.

Lemma parseServices_ok (entries : list (string * option StackParser.ServiceNode)) :
  Forall (fun e => is_Some (snd e)) entries ->
  forall acc, exists m, parseServices entries acc = Ok m.
Proof.
  induction entries as [|[n [c|]] rest IH]; intros H acc; cbn.
  - eauto.
  - inversion H; subst. apply IH. assumption.
  - inversion H as [|? ? [x Hx] ?]; subst. discriminate.
Qed.

Lemma parseServices_lookup (entries : list (string * option StackParser.ServiceNode))
      (svc : string) (cfg : StackParser.ServiceNode) :
  Forall (fun e => is_Some (snd e)) entries ->
  NoDup (List.map fst entries) ->
  (svc, Some cfg) ∈ entries ->
  svc <> "__proto__" ->
  forall acc, exists m,
    parseServices entries acc = Ok m
    /\ m !! svc = Some (StackParser.parseService svc cfg).
Proof.
  intros Hall Hnd Hin Hproto. revert Hall Hnd Hin.
  induction entries as [|[n c] rest IH]; intros Hall Hnd Hin acc.
  - apply elem_of_nil in Hin. destruct Hin.
  - inversion Hall as [|? ? [c' Hc] Hrest]; subst. cbn in Hc. subst c.
    cbn [List.map fst] in Hnd. apply NoDup_cons in Hnd as [Hfresh Hnd].
    cbn [parseServices].
    apply elem_of_cons in Hin as [E|Hin].
    + inversion E; subst n c'.
      destruct (parseServices_ok rest Hrest
                  (Js.assign svc (StackParser.parseService svc cfg) acc))
        as [m Hm]. exists m. split; [exact Hm|].
      rewrite (parseServices_other rest _ m svc Hm Hfresh).
      apply assign_lookup_eq, Hproto.
    + apply IH; assumption.
Qed.

Lemma parseVolume_keeps (acc : list string) (v : StackParser.VolumeNode) (p : string) :
  p ∈ acc -> p ∈ StackParser.parseVolume acc v.
Proof.
  intros H. unfold StackParser.parseVolume.
  destruct v as [s|[t|]]; [| |exact H].
  - destruct (Js.split ":" s) as [|a [|b r]]; [exact H| |];
      apply elem_of_app; left; exact H.
  - destruct (Js.truthy t); [apply elem_of_app; left|]; exact H.
Qed.

Lemma foldl_parseVolume_keeps (vs : list StackParser.VolumeNode) (acc : list string)
      (p : string) :
  p ∈ acc -> p ∈ foldl StackParser.parseVolume acc vs.
Proof.
  revert acc. induction vs as [|v vs IH]; intros acc H; [exact H|].
  apply IH, parseVolume_keeps, H.
Qed.

Lemma foldl_parseVolume_short (vs : list StackParser.VolumeNode) (acc : list string)
      (host container : string) :
  Js.includes ":" host = false -> Js.includes ":" container = false ->
  StackParser.VolString (host +:+ ":" +:+ container) ∈ vs ->
  container ∈ foldl StackParser.parseVolume acc vs.
Proof.
  intros Hh Hc. revert acc. induction vs as [|v vs IH]; intros acc Hin.
  - apply elem_of_nil in Hin. destruct Hin.
  - apply elem_of_cons in Hin as [<-|Hin]; [|apply IH; exact Hin].
    cbn [foldl]. apply foldl_parseVolume_keeps.
    unfold StackParser.parseVolume.
    change (host +:+ ":" +:+ container) with (host +:+ String ":" container).
    rewrite split_app_sep, (split_no_sep ":" host Hh), (split_no_sep ":" container Hc).
    cbn [app]. apply elem_of_app. right. apply list_elem_of_singleton. reflexivity.
Qed.

Lemma or_else_truthy (a b : string) : Js.truthy b = true -> Js.truthy (Js.or_else a b) = true.
Proof. intros H. unfold Js.or_else. destruct (Js.truthy a) eqn:E; assumption. Qed.

Lemma opt_or_truthy (o : option string) (b : string) :
  Js.truthy b = true -> Js.truthy (Js.opt_or o b) = true.
Proof. intros H. destruct o; [apply or_else_truthy|]; exact H. Qed.

(** X24. After the import of a compose text, the backup of a container
    labelled with the stored stack and one of its services captures every
    container path that service declares in the short form
    [HOST:CONTAINER] (trimmed), whatever the custom paths; the name
    [__proto__], under which nothing is stored, is left aside for the
    stack and for the service. *)
Theorem imported_paths_are_captured
        (load : Loader) (yaml : string) (name : option string)
        (envVars : option (list (string * string))) (doc : Document)
        (entries : list (string * option StackParser.ServiceNode))
        (svc : string) (cfg : StackParser.ServiceNode)
        (vols : list StackParser.VolumeNode) (host container : string)
        (info : ContainerInfo) (customPaths : option (list string)) (w : World) :
  load yaml = Ok (Some doc) ->
  doc_services doc = Some entries ->
  Forall (fun e => is_Some (snd e)) entries ->
  NoDup (List.map fst entries) ->
  (svc, Some cfg) ∈ entries ->
  StackParser.sn_volumes cfg = Some vols ->
  StackParser.VolString (host +:+ ":" +:+ container) ∈ vols ->
  Js.includes ":" host = false ->
  Js.includes ":" container = false ->
  Js.trim container <> "" ->
  label (Labels info) "com.docker.compose.service" = Some svc ->
  svc <> "" ->
  svc <> "__proto__" ->
  exists w' stackName,
    importStackAction load yaml name envVars w = (w', Ok (Ok stackName))
    /\ (stackName <> "__proto__" ->
        label (Labels info) "com.docker.compose.project" = Some stackName ->
        exists paths,
          pathsToBackup w' info customPaths = Ok paths
          /\ Js.trim container ∈ paths).
Proof.
  intros Hload Hsv Hall Hnd Hin Hvols Hvol Hh Hc Ht Hlabel Hsvc Hproto.
  destruct (parseServices_lookup entries svc cfg Hall Hnd Hin Hproto ∅)
    as (m & Hm & Hlook).
  unfold importStackAction, tryCatch, parseStackYaml.
  rewrite Hload, Hsv, Hm.
  unfold bind at 1. unfold lift at 1.
  unfold bind at 1. unfold get at 1.
  unfold bind at 1. unfold saveStack at 1. cbn [Storage.name StackImport.name services].
  eexists _, _. split; [reflexivity|].
  intros Hname Hproject.
  match goal with
  | |- context [pathsToBackup ?w1 info customPaths] =>
      assert (Hstored : stackVolumes w1 info
                        = Ok (StackParser.volumes (StackParser.parseService svc cfg)))
  end.
  { unfold stackVolumes, configuredVolumes. cbn [stacks]. rewrite Hproject, Hlabel.
    rewrite opt_or_truthy by (apply or_else_truthy; reflexivity).
    apply truthy_nonempty in Hsvc. rewrite Hsvc.
    unfold Js.getProp. rewrite (assign_lookup_eq _ _ _ Hname).
    cbn [Storage.services]. rewrite Hlook. reflexivity. }
  destruct (pathsToBackup_parts _ info customPaths _ Hstored) as (paths & Hpaths & _ & Hmem).
  exists paths. split; [exact Hpaths|].
  apply Hmem. split; [exact Ht|].
  exists container. split; [|reflexivity].
  apply elem_of_app. left.
  unfold StackParser.parseService. cbn [StackParser.volumes]. rewrite Hvols.
  apply (foldl_parseVolume_short vols [] host container); assumption.
Qed.

(** A document in which no service is [null]. *)
Definition wellFormed (doc : Document) : Prop :=
match doc_services doc with
| Some entries => Forall (fun e => is_Some (snd e)) entries
| None => True
end.

Lemma parseStackYaml_unnamed (load : Loader) (yaml : string) (doc : Document) :
  load yaml = Ok (Some doc) -> wellFormed doc ->
  Js.opt_truthy (doc_name doc) = false ->
  exists services,
    parseStackYaml load yaml = Ok {| name := "manual-stack"; services := services |}.
Proof.
  intros Hload Hwf Hname. unfold parseStackYaml. rewrite Hload.
  assert (E : Js.opt_or (doc_name doc) "manual-stack" = "manual-stack").
  { destruct (doc_name doc) as [n|]; [|reflexivity].
    cbn in Hname |- *. unfold Js.or_else. rewrite Hname. reflexivity. }
  rewrite E. unfold wellFormed in Hwf.
  destruct (doc_services doc) as [entries|]; [|eauto].
  destruct (parseServices_ok entries Hwf ∅) as [m ->]. eauto.
Qed.

(** X25. Two imports without a name, of compose texts that name no stack,
    are both stored under [manual-stack]: the second replaces the first,
    and the other stored stacks are left alone. The name [stack-<time>] is
    never used. *)
Theorem unnamed_imports_overwrite
        (load : Loader) (yaml1 yaml2 : string)
        (envVars1 envVars2 : option (list (string * string)))
        (doc1 doc2 : Document) (w : World) :
  load yaml1 = Ok (Some doc1) -> load yaml2 = Ok (Some doc2) ->
  wellFormed doc1 -> wellFormed doc2 ->
  Js.opt_truthy (doc_name doc1) = false -> Js.opt_truthy (doc_name doc2) = false ->
  exists w1 w2 config,
    importStackAction load yaml1 None envVars1 w = (w1, Ok (Ok "manual-stack"))
    /\ importStackAction load yaml2 None envVars2 w1 = (w2, Ok (Ok "manual-stack"))
    /\ stacks w2 = <["manual-stack" := config]> (stacks w)
    /\ Storage.yaml config = yaml2
    /\ Storage.envVars config = envVars2.
Proof.
  intros H1 H2 W1 W2 N1 N2.
  destruct (parseStackYaml_unnamed load yaml1 doc1 H1 W1 N1) as [s1 E1].
  destruct (parseStackYaml_unnamed load yaml2 doc2 H2 W2 N2) as [s2 E2].
  unfold importStackAction, tryCatch. rewrite E1, E2.
  eexists _, _, _. split; [reflexivity|]. split; [reflexivity|].
  cbn [stacks]. split.
  - cbn [Storage.name StackImport.name Js.opt_or Js.or_else Js.truthy].
    rewrite !assign_insert by discriminate. apply insert_insert_eq.
  - split; reflexivity.
Qed.

End ImportedStacks.

Definition dbService : StackParser.ServiceNode :=
{| StackParser.sn_image := Some "postgres:16";
   StackParser.sn_volumes :=
     Some [StackParser.VolString ("pgdata" +:+ ":" +:+ "/var/lib/postgresql/data");
           StackParser.VolObject (Some "/backups")];
   StackParser.sn_environment := None |}.

Definition shopDocument : StackImport.Document :=
{| StackImport.doc_name := None;
   StackImport.doc_services := Some [("db", Some dbService)] |}.

Definition blogDocument : StackImport.Document :=
{| StackImport.doc_name := None; StackImport.doc_services := None |}.

(** A loader that knows two texts. *)
Definition sampleLoad : StackImport.Loader :=
fun y => if String.eqb y "shop.yml" then Ok (Some shopDocument)
         else if String.eqb y "blog.yml" then Ok (Some blogDocument)
         else Throw "bad indentation of a mapping entry".

Lemma imported_paths_are_captured_witness :
  exists w' stackName,
    StackImport.importStackAction sampleLoad "shop.yml" (Some "shop") None freshWorld
    = (w', Ok (Ok stackName))
    /\ (stackName <> "__proto__" ->
        label (Labels (labelledInfo "/shop-db-1" "postgres:16" "shop" "db"))
          "com.docker.compose.project" = Some stackName ->
        exists paths,
          pathsToBackup w' (labelledInfo "/shop-db-1" "postgres:16" "shop" "db") None
          = Ok paths
          /\ Js.trim "/var/lib/postgresql/data" ∈ paths).
Proof.
  apply (imported_paths_are_captured sampleLoad "shop.yml" (Some "shop") None
           shopDocument [("db", Some dbService)] "db" dbService
           [StackParser.VolString ("pgdata" +:+ ":" +:+ "/var/lib/postgresql/data");
            StackParser.VolObject (Some "/backups")]
           "pgdata" "/var/lib/postgresql/data"
           (labelledInfo "/shop-db-1" "postgres:16" "shop" "db") None freshWorld);
    try reflexivity; try discriminate.
  - repeat constructor. eexists. reflexivity.
  - apply (bool_decide_unpack _). vm_compute. exact I.
  - apply list_elem_of_here.
  - apply list_elem_of_here.
Defined.

Lemma unnamed_imports_overwrite_witness :
  exists w1 w2 config,
    StackImport.importStackAction sampleLoad "shop.yml" None None freshWorld
    = (w1, Ok (Ok "manual-stack"))
    /\ StackImport.importStackAction sampleLoad "blog.yml" None None w1
       = (w2, Ok (Ok "manual-stack"))
    /\ stacks w2 = <["manual-stack" := config]> (stacks freshWorld)
    /\ Storage.yaml config = "blog.yml"
    /\ Storage.envVars config = None.
Proof.
  apply (unnamed_imports_overwrite sampleLoad "shop.yml" "blog.yml" None None
           shopDocument blogDocument freshWorld); try reflexivity.
  repeat constructor. eexists. reflexivity.
Defined.

(** ** [node:path]: [dirname] *)

Module PathDir.

(** The scan of [dirname] over the characters from the second on: [i] is
    the index of the next character, [cand] the last separator seen, and
    the result the last separator that has a character other than a
    separator after it. *)
Fixpoint dirEnd (i : nat) (cand found : option nat) (s : string) : option nat :=
  match s with
  | EmptyString => found
  | String c s' =>
      if Ascii.eqb c "/" then dirEnd (S i) (Some i) found s'
      else dirEnd (S i) cand cand s'
  end.

(** [path.dirname(p)] (POSIX flavour). *)
Definition dirname (p : string) : string :=
  match p with
  | EmptyString => "."
  | String c rest =>
      let hasRoot := Ascii.eqb c "/" in
      match dirEnd 1 None None rest with
      | None => if hasRoot then "/" else "."
      | Some e => if (hasRoot && Nat.eqb e 1)%bool then "//" else String.substring 0 e p
      end
  end.

End PathDir.

Example dirname_samples :
  List.map PathDir.dirname ["/usr/share/nginx/html"; "/data"; "data"; "/a/b/"; "//a"; "/a//b"; ""]
  = ["/usr/share/nginx"; "/"; "."; "/a"; "//"; "/a/"; "."].
Proof. vm_compute. reflexivity. Qed.

(** ** [app/actions.ts]: restoring into an existing container *)

Module RestoreFlow.

(** The engine and the zip reader as the restore sees them. *)
Record Engine := {
  readers : OpenArtifact.Readers;
  bytesOf : Content -> string;                        (* [entry.getData()] of an entry
                                                         that holds no plain bytes *)
  putArchive : string -> Entry -> string -> result unit;
                                                      (* container, entry, target
                                                         directory *)
  pipeDump : string -> list string -> string -> result unit;
                                                      (* the exec of the restore
                                                         command with the dump on its
                                                         standard input: creation of
                                                         the exec, start, stream
                                                         errors and the 300 s timer *)
  createExec : string -> list string -> result unit;  (* creation of the exec that
                                                         syncs the credentials; what
                                                         its run reports is ignored *)
  pipeFile : string -> list string -> File -> result unit;
                                                      (* the exec of the direct SQL
                                                         restore *)
  processEnv : gmap string string
}.

(** [try { body } finally { cleanup }] *)
Definition finally {A} (body : M A) (cleanup : M unit) : M A :=
  fun w => match body w with
           | (w1, r) =>
               match cleanup w1 with
               | (w2, Ok _) => (w2, r)
               | (w2, Throw msg) => (w2, Throw msg)
               end
           end.

Definition entryBytes (e : Engine) (c : Content) : string :=
  match c with
  | Bytes b => b
  | Text s => s
  | TarStream b => b
  | other => bytesOf e other
  end.

(** *** restoreVolumesInternal *)

(** One turn of the loop over the volume entries. *)
Definition restoreVolume (e : Engine) (containerId prefix : string) (entry : Entry)
  : M unit :=
  let originalPath := Actions.originalPath prefix (entryName entry) in
  let parentDir := PathDir.dirname originalPath in
  updateJobStatus containerId Queue.processing
    ("Restoring Volume (Offline): " +:+ originalPath +:+ "...") ;;;
  match putArchive e containerId entry parentDir with
  | Ok _ => ret tt
  | Throw _ =>
      updateJobStatus containerId Queue.processing
        ("Warning: Failed to restore " +:+ originalPath)
  end.

Fixpoint restoreVolumes (e : Engine) (containerId prefix : string)
         (volumeEntries : list Entry) : M unit :=
  match volumeEntries with
  | [] => ret tt
  | entry :: rest =>
      restoreVolume e containerId prefix entry ;;;
      restoreVolumes e containerId prefix rest
  end.

Definition restoreVolumesInternal (e : Engine) (containerId : string)
           (zip : list Entry) (prefix : string) : M unit :=
  restoreVolumes e containerId prefix (List.filter (isVolumeEntry prefix) zip).

(** *** restoreSqlInternal *)

Definition warningSign : string :=
  String (ascii_of_nat 226) (String (ascii_of_nat 128) (String (ascii_of_nat 154)
  (String (ascii_of_nat 195) (String (ascii_of_nat 182) (String (ascii_of_nat 226)
  (String (ascii_of_nat 128) (String (ascii_of_nat 160) (String (ascii_of_nat 195)
  (String (ascii_of_nat 148) (String (ascii_of_nat 226) (String (ascii_of_nat 136)
  (String (ascii_of_nat 143) (String (ascii_of_nat 195) (String (ascii_of_nat 168)
  EmptyString)))))))))))))).

Definition is_dquote (c : ascii) : bool := Ascii.eqb c (ascii_of_nat 34).

Definition spaces (n : nat) : string := String.concat "" (List.repeat " " n).

Definition pgUserOf (e : Engine) (env : list string) (envMap : option (gmap string string))
  : string :=
  Restore.resolveEnvValue (processEnv e)
    (Js.opt_or (Restore.envPiece env "POSTGRES_USER") "postgres") envMap.

Definition pgPwdOf (e : Engine) (env : list string) (envMap : option (gmap string string))
  : string :=
  Restore.resolveEnvValue (processEnv e)
    (Js.opt_or (Restore.envPiece env "POSTGRES_PASSWORD")
       (Js.opt_or (Restore.envPiece env "POSTGRES_PASS") "")) envMap.

(** The template of the statements that set the role's password after the
    restore, and its trimmed text. *)
Definition sqlTemplate (pgUser pgPwd : string) : string :=
  let role := dq +:+ Js.replaceAll is_dquote (dq +:+ dq) pgUser +:+ dq in
  let pwd := "'" +:+ Js.replaceAll is_quote "''" pgPwd +:+ "'" in
  nl
  +:+ spaces 20 +:+ "DO $$ " +:+ nl
  +:+ spaces 20 +:+ "BEGIN " +:+ nl
  +:+ spaces 24 +:+ "IF NOT EXISTS (SELECT FROM pg_catalog.pg_roles WHERE rolname = '"
  +:+ Js.replaceAll is_quote "''" pgUser +:+ "') THEN " +:+ nl
  +:+ spaces 28 +:+ "CREATE ROLE " +:+ role +:+ " WITH LOGIN PASSWORD " +:+ pwd
  +:+ "; " +:+ nl
  +:+ spaces 24 +:+ "END IF; " +:+ nl
  +:+ spaces 20 +:+ "END $$;" +:+ nl
  +:+ spaces 20 +:+ "ALTER ROLE " +:+ role +:+ " WITH PASSWORD " +:+ pwd +:+ ";" +:+ nl
  +:+ spaces 20 +:+ "ALTER ROLE " +:+ role +:+ " SUPERUSER;" +:+ nl
  +:+ spaces 16.

Definition sqlSequence (pgUser pgPwd : string) : string :=
  Js.trim (sqlTemplate pgUser pgPwd).

Definition syncCommand (pgUser pgPwd : string) : list string :=
  ["sh"; "-c";
   "PGPASSWORD='" +:+ Js.replaceAll is_quote "'\''" pgPwd +:+ "' psql -U '" +:+ pgUser
   +:+ "' -d 'postgres' -c '"
   +:+ Js.replaceAll is_quote "'\''" (sqlSequence pgUser pgPwd) +:+ "'"].

(** The body of the [try] block. *)
Definition pipeAndSync (e : Engine) (h : Host) (containerId : string) (dump : string)
           (envMap : option (gmap string string)) : M unit :=
  info <- lift (inspect h containerId) ;;
  let image := Js.toLowerCase (Image info) in
  let env := default [] (Env info) in
  let cmd := Restore.restoreSqlCommand (processEnv e) info envMap in
  match cmd with
  | [] => ret tt
  | _ :: _ =>
      lift (pipeDump e containerId cmd dump) ;;;
      if ((Js.includes "postgres" image || Js.includes "timescale" image)
          && Js.truthy (pgUserOf e env envMap) && Js.truthy (pgPwdOf e env envMap))%bool
      then lift (createExec e containerId
                   (syncCommand (pgUserOf e env envMap) (pgPwdOf e env envMap)))
      else ret tt
  end.

Definition restoreSqlInternal (e : Engine) (h : Host) (containerId : string)
           (zip : list Entry) (prefix : string) (envMap : option (gmap string string))
  : M unit :=
  let dumpPath := Js.replaceAll is_backslash "/" (Path.join [prefix; "dump.sql"]) in
  match List.find (fun entry => String.eqb (entryName entry) dumpPath) zip with
  | None => ret tt
  | Some dumpEntry =>
      let dump := entryBytes e (content dumpEntry) in
      let dumpSize := Z.of_nat (String.length dump) in
      (if dumpSize <? 100
       then updateJobStatus containerId Queue.processing
              (warningSign +:+ " Warning: SQL dump is very small ("
               +:+ Js.showZ dumpSize +:+ " bytes).")
       else ret tt) ;;;
      updateJobStatus containerId Queue.processing "Found SQL Dump. Restoring Database..." ;;;
      now <- get clock ;;
      let tempDumpPath :=
        Path.join [cwd h; "backups"; "temp_restore_" +:+ Js.showZ now +:+ ".sql"] in
      setFs (insert tempDumpPath (PlainFile dump)) ;;;
      finally (pipeAndSync e h containerId dump envMap)
        (setFs (delete tempDumpPath) ;;;
         updateJobStatus containerId Queue.processing "Database Restored.")
  end.

(** *** restoreContainerInternal *)

Definition restoreContainerInternal (e : Engine) (h : Host) (containerId : string)
           (zip : list Entry) (prefix : string) (envMap : option (gmap string string))
  : M unit :=
  restoreVolumesInternal e containerId zip prefix ;;;
  restoreSqlInternal e h containerId zip prefix envMap.

(** *** restoreBackup *)

(** The function returns [{ success: true }] ([Some tt]) or, from its
    [catch] block, nothing. *)
Definition restoreBackup (e : Engine) (h : Host) (filename containerId : string)
  : M (option unit) :=
  tryCatch
    (updateJobStatus containerId Queue.processing "Restoring..." ;;;
     let filePath := Path.join [backupDir h; filename] in
     file <- get (fun w => fs w !! filePath) ;;
     match file with
     | None => throw "Backup file not found"
     | Some f =>
         (if Js.endsWith ".zip" filename then
            zip <- lift (OpenArtifact.readZip (readers e) f) ;;
            restoreContainerInternal e h containerId zip "" None
          else if (Js.endsWith ".sql" filename || Js.endsWith ".sql.gz" filename)%bool then
            info <- lift (inspect h containerId) ;;
            let cmd := if Js.includes "postgres" (Image info)
                       then ["psql"; "-U"; "postgres"]
                       else ["mysql"; "-u"; "root"] in
            lift (pipeFile e containerId cmd f)
          else ret tt) ;;;
         updateJobStatus containerId Queue.completed "Restored Successfully" ;;;
         info <- lift (inspect h containerId) ;;
         now <- get clock ;;
         addHistoryEntry
           (historyEntry now (Js.or_else (Js.replace "/" "" (Name info)) containerId)
              Storage.success Storage.local ("Restored from " +:+ filename) None) ;;;
         ret (Some tt)
     end)
    (fun _ => ret None).

End RestoreFlow.

(** ** Restores into an existing container *)

Section RestoreOutcomes.
Import RestoreFlow.

(** [c] updates the job [id] only, always to [processing], and leaves the
    history and the clock alone, whether it returns or throws. *)
Definition calm (id : string) {A} (c : M A) : Prop :=
forall w, exists evs,
  jobLog (fst (c w)) = (evs ++ jobLog w)%list
  /\ Forall (fun e => ev_id e = id /\ ev_status e = Queue.processing) evs
  /\ historyFile (fst (c w)) = historyFile w
  /\ clock (fst (c w)) = clock w.

Lemma calm_still (id : string) {A} (c : M A) :
  (forall w, jobLog (fst (c w)) = jobLog w
             /\ historyFile (fst (c w)) = historyFile w
             /\ clock (fst (c w)) = clock w) ->
  calm id c.
Proof.
  intros H w. destruct (H w) as (H1 & H2 & H3). exists [].
  repeat split; auto.
Qed.

Lemma calm_ret (id : string) {A} (a : A) : calm id (ret a).
Proof. apply calm_still. intros w. repeat split. Qed.

Lemma calm_throw (id : string) {A} (msg : string) : calm id (@throw A msg).
Proof. apply calm_still. intros w. repeat split. Qed.

Lemma calm_lift (id : string) {A} (r : result A) : calm id (lift r).
Proof. apply calm_still. intros w. repeat split. Qed.

Lemma calm_get (id : string) {A} (f : World -> A) : calm id (get f).
Proof. apply calm_still. intros w. repeat split. Qed.

Lemma calm_setFs (id : string) (f : gmap string File -> gmap string File) :
  calm id (setFs f).
Proof. apply calm_still. intros w. repeat split. Qed.

Lemma calm_update (id msg : string) : calm id (updateJobStatus id Queue.processing msg).
Proof.
  intros w. eexists [_]. split; [reflexivity|].
  split; [repeat constructor|]. split; reflexivity.
Qed.

Lemma calm_bind (id : string) {A B} (c : M A) (k : A -> M B) :
  calm id c -> (forall a, calm id (k a)) -> calm id (bind c k).
Proof.
  intros Hc Hk w. unfold bind.
  destruct (Hc w) as (evs1 & E1 & F1 & H1 & C1).
  destruct (c w) as [w1 [a|msg]]; cbn [fst] in *.
  - destruct (Hk a w1) as (evs2 & E2 & F2 & H2 & C2).
    exists (evs2 ++ evs1)%list.
    split; [rewrite E2, E1, app_assoc; reflexivity|].
    split; [apply Forall_app; auto|]. split; congruence.
  - exists evs1. auto.
Qed.

Lemma calm_tryCatch (id : string) {A} (c : M A) (handler : string -> M A) :
  calm id c -> (forall msg, calm id (handler msg)) -> calm id (tryCatch c handler).
Proof.
  intros Hc Hh w. unfold tryCatch.
  destruct (Hc w) as (evs1 & E1 & F1 & H1 & C1).
  destruct (c w) as [w1 [a|msg]]; cbn [fst] in *.
  - exists evs1. auto.
  - destruct (Hh msg w1) as (evs2 & E2 & F2 & H2 & C2).
    exists (evs2 ++ evs1)%list.
    split; [rewrite E2, E1, app_assoc; reflexivity|].
    split; [apply Forall_app; auto|]. split; congruence.
Qed.

Lemma calm_finally (id : string) {A} (c : M A) (cleanup : M unit) :
  calm id c -> calm id cleanup -> calm id (finally c cleanup).
Proof.
  intros Hc Hf w. unfold finally.
  destruct (Hc w) as (evs1 & E1 & F1 & H1 & C1).
  destruct (c w) as [w1 r]; cbn [fst] in *.
  destruct (Hf w1) as (evs2 & E2 & F2 & H2 & C2).
  destruct (cleanup w1) as [w2 [u|msg]]; cbn [fst] in *;
    (exists (evs2 ++ evs1)%list;
     split; [rewrite E2, E1, app_assoc; reflexivity|];
     split; [apply Forall_app; auto|]; split; congruence).
Qed.

Ltac calms :=
  repeat first
    [ apply calm_ret | apply calm_throw | apply calm_lift | apply calm_get
    | apply calm_setFs | apply calm_update | apply calm_bind | apply calm_tryCatch
    | apply calm_finally
    | progress intros
    | match goal with
      | |- calm _ (match ?x with _ => _ end) => destruct x
      | |- calm _ (if ?x then _ else _) => destruct x
      end ].

Lemma calm_restoreVolumes (e : Engine) (id prefix : string) (entries : list Entry) :
  calm id (restoreVolumes e id prefix entries).
Proof.
  induction entries as [|entry entries IH]; cbn [restoreVolumes]; [calms|].
  apply calm_bind; [|intros _; exact IH].
  unfold restoreVolume. calms.
Qed.

(** The loop over the volume entries catches everything. *)
Lemma restoreVolumes_returns (e : Engine) (id prefix : string) (entries : list Entry)
      (w : World) :
  snd (restoreVolumes e id prefix entries w) = Ok tt.
Proof.
  revert w. induction entries as [|entry entries IH]; intros w; [reflexivity|].
  cbn [restoreVolumes]. unfold bind at 1. unfold restoreVolume.
  unfold bind at 1. unfold updateJobStatus at 1.
  destruct (putArchive e id entry _) as [[]|msg].
  - unfold ret at 1. apply IH.
  - unfold updateJobStatus at 1. apply IH.
Qed.

Lemma calm_pipeAndSync (e : Engine) (h : Host) (id dump : string)
      (envMap : option (gmap string string)) :
  calm id (pipeAndSync e h id dump envMap).
Proof.
  unfold pipeAndSync. apply calm_bind; [calms|intros info].
  destruct (Restore.restoreSqlCommand (processEnv e) info envMap); calms.
Qed.

Lemma calm_restoreSqlInternal (e : Engine) (h : Host) (id : string) (zip : list Entry)
      (prefix : string) (envMap : option (gmap string string)) :
  calm id (restoreSqlInternal e h id zip prefix envMap).
Proof.
  unfold restoreSqlInternal.
  destruct (List.find _ zip) as [dumpEntry|]; [|calms].
  apply calm_bind; [calms|intros _].
  apply calm_bind; [calms|intros _].
  apply calm_bind; [calms|intros now].
  apply calm_bind; [calms|intros _].
  apply calm_finally; [apply calm_pipeAndSync|calms].
Qed.

Lemma calm_restoreContainerInternal (e : Engine) (h : Host) (id : string)
      (zip : list Entry) (prefix : string) (envMap : option (gmap string string)) :
  calm id (restoreContainerInternal e h id zip prefix envMap).
Proof.
  unfold restoreContainerInternal, restoreVolumesInternal.
  apply calm_bind; [apply calm_restoreVolumes|intros _; apply calm_restoreSqlInternal].
Qed.




Lemma jobLog_head_status (w : World) (id : string) (evs base : list JobEvent)
      (e0 : JobEvent) :
  jobLog w = (evs ++ e0 :: base)%list ->
  Forall (fun e => ev_id e = id /\ ev_status e = Queue.processing) evs ->
  ev_id e0 = id -> ev_status e0 = Queue.processing ->
  exists j, globalState w !! id = Some j /\ Queue.status j = Queue.processing.
Proof.
  intros Hlog Hall Hid Hst. destruct evs as [|e evs].
  - cbn in Hlog. pose proof (globalState_head w e0 base Hlog) as G.
    rewrite Hid in G. eexists. split; [exact G|exact Hst].
  - apply Forall_cons in Hall as [[Hi Hs] _].
    pose proof (globalState_head w e _ Hlog) as G.
    rewrite Hi in G. eexists. split; [exact G|exact Hs].
Qed.

(** X27. A restore into an existing container never throws and never sets
    its job to [failed]. When it reports success, the job is [completed]
    and one [success] entry has been added to the history; when it reports
    nothing, the history is as before and the job is left [processing] (or
    [completed], when only the final inspection failed). *)
Theorem restoreBackup_failure_is_silent
        (e : Engine) (h : Host) (filename containerId : string) (w : World) :
  exists w' r j,
    restoreBackup e h filename containerId w = (w', Ok r)
    /\ globalState w' !! containerId = Some j
    /\ match r with
       | Some _ =>
           Queue.status j = Queue.completed
           /\ exists entry,
                historyFile w' = Storage.addHistoryEntry entry (historyFile w)
                /\ Storage.status entry = Storage.success
       | None =>
           historyFile w' = historyFile w
           /\ (Queue.status j = Queue.processing \/ Queue.status j = Queue.completed)
       end.
Proof.
  unfold restoreBackup, tryCatch.
  unfold bind at 1. unfold updateJobStatus at 1.
  set (w0 := {| clock := clock w; jobLog := _ :: jobLog w; historyFile := historyFile w;
                stacks := stacks w; fs := fs w |}).
  unfold bind at 1. unfold get at 1.
  destruct (fs w0 !! Path.join [backupDir h; filename]) as [f|].
  2:{ exists w0. eexists None, _. split; [reflexivity|].
      split; [apply (globalState_head w0 _ _ eq_refl)|]. split; [reflexivity|left; reflexivity]. }
  unfold bind at 1.
  match goal with
  | |- context [(if Js.endsWith ".zip" filename then ?a else ?b) w0] =>
      set (mid := if Js.endsWith ".zip" filename then a else b)
  end.
  assert (Hmid : calm containerId mid).
  { subst mid. destruct (Js.endsWith ".zip" filename).
    - apply calm_bind; [calms|intros zip; apply calm_restoreContainerInternal].
    - calms. }
  destruct (Hmid w0) as (evs & Hlog & Hall & Hhist & Hclock).
  destruct (mid w0) as [w1 [[]|msg]]; cbn [fst] in *.
  - unfold bind at 1. unfold updateJobStatus at 1.
    unfold bind at 1. unfold lift at 1.
    destruct (inspect h containerId) as [info|msg].
    + unfold bind at 1. unfold get at 1.
      unfold bind at 1. unfold addHistoryEntry at 1. unfold ret.
      eexists _, (Some tt), _. split; [reflexivity|].
      split; [eapply globalState_head_of; reflexivity|].
      split; [reflexivity|]. eexists. cbn [historyFile]. rewrite Hhist.
      split; reflexivity.
    + unfold ret. eexists _, None, _. split; [reflexivity|].
      split; [eapply globalState_head_of; reflexivity|].
      cbn [historyFile]. split; [exact Hhist|right; reflexivity].
  - unfold ret. subst w0. cbn [jobLog historyFile] in *.
    destruct (jobLog_head_status w1 containerId evs (jobLog w) _ Hlog Hall eq_refl eq_refl)
      as (j & Hj & Hs).
    exists w1, None, j. split; [reflexivity|]. split; [exact Hj|].
    split; [exact Hhist|left; exact Hs].
Qed.

(** X28. A restore from a zip artifact without a dump reports success,
    with the job [completed] and a [success] entry in the history,
    whatever the engine answered when asked to put the volumes back: a
    volume that could not be restored leaves a warning in the job table
    and nothing else. *)
Theorem restoreBackup_ignores_volume_failures
        (e : Engine) (h : Host) (filename containerId : string) (w : World)
        (zip : list Entry) (info : ContainerInfo) :
  Js.endsWith ".zip" filename = true ->
  fs w !! Path.join [backupDir h; filename] = Some (ZipFile zip true) ->
  List.find (fun entry => String.eqb (entryName entry) "dump.sql") zip = None ->
  inspect h containerId = Ok info ->
  exists w',
    restoreBackup e h filename containerId w = (w', Ok (Some tt))
    /\ globalState w' !! containerId
       = Some {| Queue.status := Queue.completed;
                 Queue.message := Some "Restored Successfully";
                 Queue.lastUpdated := clock w |}
    /\ historyFile w'
       = Storage.addHistoryEntry
           (historyEntry (clock w)
              (Js.or_else (Js.replace "/" "" (Name info)) containerId)
              Storage.success Storage.local ("Restored from " +:+ filename) None)
           (historyFile w).
Proof.
  intros Hzip Hfile Hdump Hinfo.
  unfold restoreBackup, tryCatch.
  unfold bind at 1. unfold updateJobStatus at 1.
  set (w0 := {| clock := clock w; jobLog := _ :: jobLog w; historyFile := historyFile w;
                stacks := stacks w; fs := fs w |}).
  unfold bind at 1. unfold get at 1.
  change (fs w0) with (fs w). rewrite Hfile, Hzip.
  unfold bind at 1. unfold bind at 1. unfold lift at 1. cbn [OpenArtifact.readZip].
  unfold restoreContainerInternal, restoreVolumesInternal.
  unfold bind at 1.
  pose proof (restoreVolumes_returns e containerId "" (List.filter (isVolumeEntry "") zip) w0)
    as Hret.
  destruct (calm_restoreVolumes e containerId "" (List.filter (isVolumeEntry "") zip) w0)
    as (evs & Hlog & _ & Hhist & Hclock).
  destruct (restoreVolumes e containerId "" (List.filter (isVolumeEntry "") zip) w0)
    as [w1 r]. cbn [fst snd] in *. subst r.
  unfold restoreSqlInternal.
  change (Js.replaceAll is_backslash "/" (Path.join [""; "dump.sql"])) with "dump.sql".
  rewrite Hdump. unfold ret at 1.
  unfold bind at 1. unfold updateJobStatus at 1.
  unfold bind at 1. unfold lift at 1. rewrite Hinfo.
  unfold bind at 1. unfold get at 1.
  unfold bind at 1. unfold addHistoryEntry at 1. unfold ret.
  eexists. split; [reflexivity|]. cbn [clock historyFile]. rewrite Hclock, Hhist.
  split; [eapply globalState_head_of; reflexivity|reflexivity].
Qed.

End RestoreOutcomes.

(** An engine that refuses everything it is asked. *)
Definition refusingEngine : RestoreFlow.Engine :=
{| RestoreFlow.readers := sampleReaders;
   RestoreFlow.bytesOf := fun _ => "";
   RestoreFlow.putArchive := fun _ _ _ => Throw "container rootfs is marked read-only";
   RestoreFlow.pipeDump := fun _ _ _ => Throw "SQL Restore Timeout";
   RestoreFlow.createExec := fun _ _ => Throw "container is not running";
   RestoreFlow.pipeFile := fun _ _ _ => Throw "container is not running";
   RestoreFlow.processEnv := ∅ |}.



Definition nginxArtifact : list Entry :=
[{| entryName := "config.json"; content := Text "{}" |};
 {| entryName := "volumes/usr_share_nginx_html.tar"; content := TarStream "tar" |}].

Definition worldWithNginxArtifact : World :=
{| clock := 1700000000900; jobLog := []; historyFile := Storage.Missing; stacks := ∅;
   fs := {[ "/app/backups/nginx-1_1700000000000.zip" := ZipFile nginxArtifact true ]} |}.

Lemma restoreBackup_ignores_volume_failures_witness :
  exists w',
    RestoreFlow.restoreBackup refusingEngine (localHost DumpTimeout)
      "nginx-1_1700000000000.zip" "nginx-id" worldWithNginxArtifact
    = (w', Ok (Some tt))
    /\ globalState w' !! "nginx-id"
       = Some {| Queue.status := Queue.completed;
                 Queue.message := Some "Restored Successfully";
                 Queue.lastUpdated := clock worldWithNginxArtifact |}
    /\ historyFile w'
       = Storage.addHistoryEntry
           (historyEntry (clock worldWithNginxArtifact)
              (Js.or_else (Js.replace "/" "" (Name (plainInfo "/nginx-1" "nginx:latest" [])))
                 "nginx-id")
              Storage.success Storage.local
              ("Restored from " +:+ "nginx-1_1700000000000.zip") None)
           (historyFile worldWithNginxArtifact).
Proof.
  apply (restoreBackup_ignores_volume_failures refusingEngine (localHost DumpTimeout)
           "nginx-1_1700000000000.zip" "nginx-id" worldWithNginxArtifact nginxArtifact
           (plainInfo "/nginx-1" "nginx:latest" [])).
  - reflexivity.
  - vm_compute. reflexivity.
  - reflexivity.
  - reflexivity.
Defined.

Example restoreBackup_refused_volume :
  List.map ev_message
    (jobLog (fst (RestoreFlow.restoreBackup refusingEngine (localHost DumpTimeout)
                    "nginx-1_1700000000000.zip" "nginx-id" worldWithNginxArtifact)))
  = [Some "Restored Successfully";
     Some "Warning: Failed to restore /usr/share/nginx/html";
     Some "Restoring Volume (Offline): /usr/share/nginx/html...";
     Some "Restoring..."].
Proof. vm_compute. reflexivity. Qed.

(** ** [app/actions.ts]: the binds of a container restored as a new one *)

Module Clone.

(** A piece of a template literal that may be [undefined]. *)
Definition templ (o : option string) : string := default "undefined" o.

(** What one turn of the loop over [config.hostConfig.Binds] yields: the
    bind pushed to [binds] and the directory it creates, if any. *)
Record Rebound := { newBind : string; created : option string }.

(** One turn of the loop; [hostExists] is [fs.existsSync] on the host at
    that moment. *)
Definition rebind (hostExists : string -> bool) (jobId : option string) (b : string)
  : M Rebound :=
  let parts := Js.split ":" b in
  let hostPath := parts !! 0%nat in
  let containerPath := parts !! 1%nat in
  now <- get clock ;;
  targetHostPath <-
    (if hostExists (templ hostPath) then
       let t := templ hostPath +:+ "_restored_" +:+ Js.showZ now in
       OpenArtifact.whenJob jobId Queue.processing
         ("Path Conflict: " +:+ templ hostPath +:+ " exists. Using " +:+ t) ;;;
       ret t
     else ret (templ hostPath)) ;;
  let parentDir := PathDir.dirname targetHostPath in
  ret {| newBind := targetHostPath +:+ ":" +:+ templ containerPath;
         created := if hostExists parentDir then None else Some parentDir |}.

End Clone.

(** ** Binds and database images on restore *)

Section CloneBinds.
Import Clone.

(** X29. The restore into a new container re-creates a bind
    [HOST:CONTAINER:MODE] without its mode: the bind it passes to the
    engine is the one it passes for [HOST:CONTAINER], that is
    [HOST:CONTAINER] when the host path does not exist and
    [HOST_restored_<time>:CONTAINER] when it does. *)
Theorem rebind_drops_mode (hostExists : string -> bool) (jobId : option string)
        (host container mode : string) (w : World) :
  Js.includes ":" host = false ->
  Js.includes ":" container = false ->
  rebind hostExists jobId (host +:+ ":" +:+ container +:+ ":" +:+ mode) w
  = rebind hostExists jobId (host +:+ ":" +:+ container) w
  /\ exists w' dir,
       rebind hostExists jobId (host +:+ ":" +:+ container +:+ ":" +:+ mode) w
       = (w', Ok {| newBind := (if hostExists host
                             then host +:+ "_restored_" +:+ Js.showZ (clock w)
                             else host) +:+ ":" +:+ container;
                    created := dir |}).
Proof.
  intros Hh Hc.
  assert (E3 : Js.split ":" (host +:+ ":" +:+ container +:+ ":" +:+ mode)
               = host :: container :: Js.split ":" mode).
  { change (host +:+ ":" +:+ container +:+ ":" +:+ mode)
      with (host +:+ String ":" (container +:+ String ":" mode)).
    rewrite !split_app_sep, (split_no_sep ":" host Hh), (split_no_sep ":" container Hc).
    reflexivity. }
  assert (E2 : Js.split ":" (host +:+ ":" +:+ container) = [host; container]).
  { change (host +:+ ":" +:+ container) with (host +:+ String ":" container).
    rewrite split_app_sep, (split_no_sep ":" host Hh), (split_no_sep ":" container Hc).
    reflexivity. }
  unfold rebind. rewrite E3, E2. cbn [lookup list_lookup templ default from_option id].
  split; [reflexivity|].
  unfold bind at 1. unfold get at 1.
  destruct (hostExists host).
  - unfold bind at 1. unfold bind at 1. unfold OpenArtifact.whenJob.
    destruct (Js.opt_truthy jobId); eexists _, _; reflexivity.
  - unfold bind at 1. unfold ret. eexists _, _. reflexivity.
Qed.

Lemma rebind_drops_mode_witness :
  rebind (fun p => String.eqb p "/srv/site") (Some "clone-1")
    ("/srv/site" +:+ ":" +:+ "/usr/share/nginx/html" +:+ ":" +:+ "ro") freshWorld
  = rebind (fun p => String.eqb p "/srv/site") (Some "clone-1")
      ("/srv/site" +:+ ":" +:+ "/usr/share/nginx/html") freshWorld
  /\ exists w' dir,
       rebind (fun p => String.eqb p "/srv/site") (Some "clone-1")
         ("/srv/site" +:+ ":" +:+ "/usr/share/nginx/html" +:+ ":" +:+ "ro") freshWorld
       = (w', Ok {| newBind := (if (fun p => String.eqb p "/srv/site") "/srv/site"
                             then "/srv/site" +:+ "_restored_" +:+ Js.showZ (clock freshWorld)
                             else "/srv/site") +:+ ":" +:+ "/usr/share/nginx/html";
                    created := dir |}).
Proof.
  apply (rebind_drops_mode (fun p => String.eqb p "/srv/site") (Some "clone-1")
           "/srv/site" "/usr/share/nginx/html" "ro" freshWorld); reflexivity.
Defined.

Lemma lower_fixed_eqb (a b : ascii) :
  Js.lower a = a -> Ascii.eqb a b = true -> Ascii.eqb a (Js.lower b) = true.
Proof.
  intros Ha E. apply Ascii.eqb_eq in E. subst b. rewrite Ha. apply Ascii.eqb_refl.
Qed.

Lemma startsWith_toLowerCase (p s : string) :
  Js.toLowerCase p = p ->
  Js.startsWith p s = true -> Js.startsWith p (Js.toLowerCase s) = true.
Proof.
  revert s. induction p as [|a p IH]; intros s Hp H; [reflexivity|].
  destruct s as [|b s]; [discriminate|].
  cbn [Js.toLowerCase] in *. inversion Hp as [[Ha Hp']].
  rewrite startsWith_cons in *. apply andb_true_iff in H as [Hab Hrest].
  rewrite Ha, Hp'. rewrite (lower_fixed_eqb a b Ha Hab). cbn [andb].
  apply IH; assumption.
Qed.

Lemma includes_toLowerCase (p s : string) :
  Js.toLowerCase p = p ->
  Js.includes p s = true -> Js.includes p (Js.toLowerCase s) = true.
Proof.
  intros Hp. induction s as [|c s IH]; intros H.
  - destruct p; [reflexivity|discriminate].
  - rewrite includes_cons_eq in H. apply orb_true_iff in H as [H|H].
    + apply (startsWith_toLowerCase p _ Hp) in H. cbn [Js.toLowerCase] in *.
      rewrite includes_cons_eq, H. reflexivity.
    + cbn [Js.toLowerCase]. rewrite includes_cons_eq, (IH H). apply orb_true_r.
Qed.

(** X30. Every image for which the backup takes the database branch and
    writes a [dump.sql] is an image for which the restore has a command to
    pipe the dump into: the backup looks for the four engine names in the
    image as it is written, the restore in its lower-case form. *)
Theorem dumped_image_has_restore_command
        (processEnv : gmap string string) (info : ContainerInfo)
        (envMap : option (gmap string string)) :
  isDbImage (Image info) = true ->
  Restore.restoreSqlCommand processEnv info envMap <> [].
Proof.
  unfold isDbImage, Restore.restoreSqlCommand. intros H.
  repeat (apply orb_true_iff in H as [H|H]);
    apply includes_toLowerCase in H; try reflexivity; rewrite H.
  - cbn [orb]. destruct (Js.truthy _); discriminate.
  - rewrite orb_true_r. destruct (Js.truthy _); discriminate.
  - destruct (_ || _)%bool; [destruct (Js.truthy _); discriminate|].
    cbn [orb]. destruct (Restore.envPiece _ _) as [p|]; [destruct (Js.truthy p)|];
      discriminate.
  - destruct (_ || _)%bool; [destruct (Js.truthy _); discriminate|].
    rewrite orb_true_r. destruct (Restore.envPiece _ _) as [p|]; [destruct (Js.truthy p)|];
      discriminate.
Qed.

Lemma dumped_image_has_restore_command_witness :
  Restore.restoreSqlCommand ∅
    (plainInfo "/db" "registry.local/Team/mariadb:10" ["MYSQL_ROOT_PASSWORD=s3cret"]) None
  <> [].
Proof.
  apply (dumped_image_has_restore_command ∅
           (plainInfo "/db" "registry.local/Team/mariadb:10" ["MYSQL_ROOT_PASSWORD=s3cret"])
           None).
  reflexivity.
Defined.

End CloneBinds.
